(** * ngp: a shallow embedding of [ngp.c] and the properties of its
      matcher, file scanner, result store, navigation and start-up code.

    The embedding follows the C source function by function.  Conventions:

    - a [char] is a signed 8-bit value, kept as a [Z] in [-128, 127]; the
      high bit of a byte is set exactly when the [char] is negative;
    - a [char *] is a byte buffer ([list Z]) together with an offset; a
      read past the end of the buffer yields [0] (the zero fill that
      follows a mapped file, or the terminator of a string);
    - [int] and [unsigned int] results are reduced with [int_wrap] and
      [uint_wrap] where the C code stores them;
    - a [while] loop becomes a [Fixpoint] on a fuel argument that returns
      [None] when the fuel runs out; the functions that call it supply a
      fuel that the lemmas of the second part show to be enough. *)

From Stdlib Require Import ZArith Lia List Bool Ascii String.
From stdpp Require Import base tactics option list gmap.
Import ListNotations.

Local Open Scope Z_scope.

(* ================================================================== *)
(** * Part I: the embedding                                            *)
(* ================================================================== *)

(** ** Machine integers *)

Definition int_wrap (z : Z) : Z := (z + 2 ^ 31) mod 2 ^ 32 - 2 ^ 31.
Definition uint_wrap (z : Z) : Z := z mod 2 ^ 32.

(** [#define LINE_MAX 256] *)
Definition LINE_MAX : Z := 256.

(** ** Characters and buffers *)

Definition NUL : Z := 0.
Definition NL : Z := 10.
Definition DQUOTE : Z := 34.
Definition SEMICOLON : Z := 59.
Definition SPACE : Z := 32.

Definition char_of_ascii (a : ascii) : Z :=
  let n := Z.of_N (N_of_ascii a) in
  if n <? 128 then n else n - 256.

Fixpoint chars (s : string) : list Z :=
  match s with
  | EmptyString => []
  | String a s' => char_of_ascii a :: chars s'
  end.

(** [buf[i]] *)
Definition rd (buf : list Z) (i : Z) : Z :=
  if i <? 0 then 0 else nth (Z.to_nat i) buf 0.

(** [buf[i] = v] *)
Definition wr (buf : list Z) (i : Z) (v : Z) : list Z :=
  if i <? 0 then buf else <[Z.to_nat i := v]> buf.

(** [buf + i] *)
Definition ptr_add (buf : list Z) (i : Z) : list Z := drop (Z.to_nat i) buf.

(** ** The C library functions the program calls *)

(** The string a [char *] denotes: the bytes before the first NUL. *)
Fixpoint cstr (buf : list Z) : list Z :=
  match buf with
  | [] => []
  | c :: rest => if c =? 0 then [] else c :: cstr rest
  end.

Definition strlen (buf : list Z) : Z := Z.of_nat (length (cstr buf)).

(** [strchr(buf + pos, c)], as an offset into [buf]. *)
Fixpoint strchr_from (rest : list Z) (pos : Z) (c : Z) : option Z :=
  match rest with
  | [] => if c =? 0 then Some pos else None
  | x :: rest' =>
      if x =? c then Some pos
      else if x =? 0 then None
      else strchr_from rest' (pos + 1) c
  end.

Definition strchr (buf : list Z) (pos : Z) (c : Z) : option Z :=
  strchr_from (ptr_add buf pos) pos c.

Fixpoint is_prefix (needle hay : list Z) : bool :=
  match needle, hay with
  | [], _ => true
  | _ :: _, [] => false
  | a :: needle', b :: hay' => (a =? b) && is_prefix needle' hay'
  end.

Fixpoint find_sub (needle hay : list Z) (pos : Z) : option Z :=
  if is_prefix needle hay then Some pos
  else match hay with
       | [] => None
       | _ :: hay' => find_sub needle hay' (pos + 1)
       end.

(** [strstr(haystack, needle)]: offset of the first occurrence. *)
Definition strstr (haystack needle : list Z) : option Z :=
  find_sub (cstr needle) (cstr haystack) 0.

(** [memcmp(a + ai, b + bi, n) == 0] *)
Definition memcmp_eq (a : list Z) (ai : Z) (b : list Z) (bi : Z) (n : Z) : bool :=
  forallb (fun j => rd a (ai + Z.of_nat j) =? rd b (bi + Z.of_nat j))
          (seq 0 (Z.to_nat n)).

(** [strncpy(dest, src, n)]: the [n] bytes written to [dest]. *)
Definition strncpy (src : list Z) (n : Z) : list Z :=
  let s := take (Z.to_nat n) (cstr src) in
  s ++ replicate (Z.to_nat n - length s)%nat 0.

(** ** Matchers *)

Inductive parser_kind := P_bmh | P_strstr | P_rabin_karp.

(** The fields of [struct search] the literal matchers use, and the
    global [skipt]. *)
Record matcher_state := {
  m_parser : parser_kind;
  m_psize : Z;
  m_d : Z;
  m_hp : Z;
  m_skipt : list Z
}.

(** [pre_rabin_karp]: the shift [d] and hash of the pattern [hp]. *)
Definition pre_rabin_karp (pattern : list Z) : Z * Z * Z :=
  let psize := strlen pattern in
  let d := int_wrap (2 ^ (psize - 1)) in
  let hp := fold_left (fun hp c => int_wrap (2 * hp + c)) (cstr pattern) 0 in
  (d, hp, psize).

(** [REHASH(a,b,h)] *)
Definition REHASH (d a b h : Z) : Z := int_wrap (2 * int_wrap (h - a * d) + b).

Fixpoint rabin_karp_loop (fuel : nat) (d hp psize : Z) (text pattern : list Z)
    (tsize ht i : Z) : option Z :=
  match fuel with
  | O => None
  | S fuel' =>
      if i <=? tsize - psize then
        if (ht =? hp) && memcmp_eq pattern 0 text i psize then Some i
        else rabin_karp_loop fuel' d hp psize text pattern tsize
               (REHASH d (rd text i) (rd text (i + psize)) ht) (i + 1)
      else None
  end.

Definition rabin_karp (d hp psize : Z) (text pattern : list Z) (tsize : Z)
  : option Z :=
  let ht := fold_left (fun ht j => int_wrap (2 * ht + rd text (Z.of_nat j)))
                      (seq 0 (Z.to_nat psize)) 0 in
  rabin_karp_loop (S (Z.to_nat tsize)) d hp psize text pattern tsize ht 0.

(** The second loop of [pre_bmh], over [i < psize - 1].  The boolean is
    [true] when the loop was left by the early return taken at a negative
    pattern byte. *)
Fixpoint pre_bmh_fill (rest : list Z) (i psize : Z) (skipt : list Z)
  : bool * list Z :=
  match rest with
  | [] => (false, skipt)
  | c :: rest' =>
      if i <? psize - 1 then
        if c <? 0 then (true, skipt)
        else pre_bmh_fill rest' (i + 1) psize
               (<[Z.to_nat c := psize - i - 1]> skipt)
      else (false, skipt)
  end.

(** [pre_bmh], called by [main] after [mainsearch->parser = bmh]. *)
Definition pre_bmh (pattern : list Z) : matcher_state :=
  let psize := strlen pattern in
  let parser := if psize =? 1 then P_strstr else P_bmh in
  let skipt := replicate 256 psize in
  match pre_bmh_fill (cstr pattern) 0 psize skipt with
  | (true, skipt') =>
      let '(d, hp, ps) := pre_rabin_karp pattern in
      {| m_parser := P_rabin_karp; m_psize := ps; m_d := d; m_hp := hp;
         m_skipt := skipt' |}
  | (false, skipt') =>
      {| m_parser := parser; m_psize := psize; m_d := 0; m_hp := 0;
         m_skipt := skipt' |}
  end.

(** The inner loop of [bmh]:
    [while (text[i + psize - 1] < 0) i += psize;] *)
Fixpoint bmh_skip (fuel : nat) (text : list Z) (psize i : Z) : option Z :=
  match fuel with
  | O => None
  | S fuel' =>
      if rd text (i + psize - 1) <? 0
      then bmh_skip fuel' text psize (i + psize)
      else Some i
  end.

(** The outer loop of [bmh].  The result is [None] when the fuel runs
    out, [Some None] for a [NULL] return and [Some (Some i)] for a return
    of [text + i]. *)
Fixpoint bmh_loop (fuel : nat) (skipt : list Z) (psize : Z)
    (text pattern : list Z) (tsize i : Z) : option (option Z) :=
  match fuel with
  | O => None
  | S fuel' =>
      if i <=? tsize - psize then
        if (rd text (i + psize - 1) =? rd pattern (psize - 1))
           && (rd text i =? rd pattern 0)
           && memcmp_eq text (i + 1) pattern 1 (psize - 2)
        then Some (Some i)
        else if rd text (i + psize - 1) >? 0
        then bmh_loop fuel' skipt psize text pattern tsize
               (i + rd skipt (rd text (i + psize - 1)))
        else match bmh_skip (S (length text)) text psize i with
             | None => None
             | Some i' => bmh_loop fuel' skipt psize text pattern tsize i'
             end
      else Some None
  end.

Definition bmh (ms : matcher_state) (text pattern : list Z) (tsize : Z)
  : option (option Z) :=
  bmh_loop (S (length text)) (m_skipt ms) (m_psize ms) text pattern tsize 0.

(** [mainsearch->parser(text, pattern, tsize)] for a case-sensitive
    literal search. *)
Definition run_parser (ms : matcher_state) (text pattern : list Z) (tsize : Z)
  : option (option Z) :=
  match m_parser ms with
  | P_strstr => Some (strstr text pattern)
  | P_bmh => bmh ms text pattern tsize
  | P_rabin_karp =>
      Some (rabin_karp (m_d ms) (m_hp ms) (m_psize ms) text pattern tsize)
  end.

(** The pattern occurs in the line as a contiguous run of bytes. *)
Definition occurs (pattern line : list Z) : Prop :=
  exists before after, line = before ++ pattern ++ after.

(** A literal matcher as the worker threads call it: the text pointer, the
    line length, and whether the returned pointer is non-[NULL]. *)
Definition literal_parser (pattern : list Z) (text : list Z) (tsize : Z)
  : option bool :=
  match run_parser (pre_bmh pattern) text pattern tsize with
  | None => None
  | Some None => Some false
  | Some (Some _) => Some true
  end.

(** ** Result entries and search structures *)

(** [struct entry] *)
Record entry := { e_data : list Z; e_line : Z }.

(** [struct search]; [s_entries] holds [entries[0 .. nbentry)], the regex
    field holds the pattern [regcomp] accepted, and the father and child
    pointers are keys of the heap of search structures. *)
Record search := {
  s_index : Z;
  s_cursor : Z;
  s_entries : list entry;
  s_nb_lines : Z;
  s_status : bool;
  s_pattern : list Z;
  s_is_regex : bool;
  s_regex : option (list Z);
  s_father : option nat;
  s_child : option nat
}.

Definition nbentry (s : search) : Z := Z.of_nat (length (s_entries s)).

Definition set_entries (s : search) (es : list entry) (nb : Z) : search :=
  {| s_index := s_index s; s_cursor := s_cursor s; s_entries := es;
     s_nb_lines := nb; s_status := s_status s; s_pattern := s_pattern s;
     s_is_regex := s_is_regex s; s_regex := s_regex s;
     s_father := s_father s; s_child := s_child s |}.

Definition set_screen (s : search) (index cursor : Z) : search :=
  {| s_index := index; s_cursor := cursor; s_entries := s_entries s;
     s_nb_lines := s_nb_lines s; s_status := s_status s;
     s_pattern := s_pattern s; s_is_regex := s_is_regex s;
     s_regex := s_regex s; s_father := s_father s; s_child := s_child s |}.

Definition set_child (s : search) (c : option nat) : search :=
  {| s_index := s_index s; s_cursor := s_cursor s; s_entries := s_entries s;
     s_nb_lines := s_nb_lines s; s_status := s_status s;
     s_pattern := s_pattern s; s_is_regex := s_is_regex s;
     s_regex := s_regex s; s_father := s_father s; s_child := c |}.

Definition set_status (s : search) (status : bool) : search :=
  {| s_index := s_index s; s_cursor := s_cursor s; s_entries := s_entries s;
     s_nb_lines := s_nb_lines s; s_status := status;
     s_pattern := s_pattern s; s_is_regex := s_is_regex s;
     s_regex := s_regex s; s_father := s_father s; s_child := s_child s |}.

(** [init_searchstruct] *)
Definition init_searchstruct : search :=
  {| s_index := 0; s_cursor := 0; s_entries := []; s_nb_lines := 0;
     s_status := true; s_pattern := []; s_is_regex := false;
     s_regex := None; s_father := None; s_child := None |}.

Definition is_file_entry (e : entry) : bool := e_line e =? 0.

(** [is_file(index, cursearch)]; [None] when [index] is outside
    [entries[0 .. nbentry)]. *)
Definition is_file (index : Z) (cursearch : search) : option bool :=
  if index <? 0 then None
  else is_file_entry <$> (s_entries cursearch !! Z.to_nat index).

(** [find_file]: [while (!is_file(index, current)) index--;] *)
Fixpoint find_file_loop (fuel : nat) (current : search) (index : Z)
  : option Z :=
  match fuel with
  | O => None
  | S fuel' =>
      match is_file index current with
      | None => None
      | Some true => Some index
      | Some false => find_file_loop fuel' current (index - 1)
      end
  end.

Definition find_file (current : search) (index : Z) : option Z :=
  find_file_loop (S (Z.to_nat index)) current index.

(** [mainsearch_add_file] *)
Definition mainsearch_add_file (mainsearch : search) (file : list Z) : search :=
  set_entries mainsearch
    (s_entries mainsearch ++ [ {| e_data := file; e_line := 0 |} ])
    (s_nb_lines mainsearch).

(** [mainsearch_add_line]; the [int line_nb] lands in an [unsigned int]. *)
Definition mainsearch_add_line (mainsearch : search) (line : list Z)
    (line_nb : Z) : search :=
  set_entries mainsearch
    (s_entries mainsearch ++ [ {| e_data := line; e_line := uint_wrap line_nb |} ])
    (uint_wrap (s_nb_lines mainsearch + 1)).

(** ** The file scanner *)

(** [struct filep]; pointers are offsets into the mapping, so [fp_start]
    is [0]. *)
Record filep_t := {
  fp_name : list Z;
  fp_start : Z;
  fp_mid : Z;
  fp_size : Z;
  fp_midline : Z
}.

(** [struct worker_result], one node of the list [worker_res[tnum]]. *)
Record worker_result := { wr_line : list Z; wr_index : Z }.

(** [parse_file] after a successful [open], [fstat] and [mmap] of a file
    with content [m]; [None] is the [return -1] taken for an empty file.
    [midline] keeps the value the previous file left in the global. *)
Definition parse_file (file : list Z) (m : list Z) (midline : Z)
  : option filep_t :=
  let st_size := Z.of_nat (length m) in
  if st_size =? 0 then None
  else
    let mid :=
      match strchr m (st_size / 2) NL with
      | None => st_size - 1
      | Some mid_newline => mid_newline + 1
      end in
    Some {| fp_name := file; fp_start := 0; fp_mid := mid;
            fp_size := uint_wrap st_size; fp_midline := midline |}.

(** The locals of [worker_thread] that the scanning loop updates, with
    the mapping. *)
Record worker_state := {
  w_mem : list Z;
  w_res : list worker_result;
  w_line_count : Z;
  w_p : Z
}.

Definition line_size (len : Z) : Z :=
  if len + 1 >=? 256 then 256 else len + 1.

(** [while (p < end && (endline = strchr(p, '\n'))) { ... }] *)
Fixpoint worker_loop (parser : list Z -> Z -> option bool) (fuel : nat)
    (m : list Z) (p e line_count : Z) (res : list worker_result)
  : option worker_state :=
  match fuel with
  | O => None
  | S fuel' =>
      if p <? e then
        match strchr m p NL with
        | None =>
            Some {| w_mem := m; w_res := res; w_line_count := line_count;
                    w_p := p |}
        | Some endline =>
            let m' := wr m endline 0 in
            match parser (ptr_add m' p) (endline - p) with
            | None => None
            | Some matched =>
                let tmp_res :=
                  {| wr_line := strncpy (ptr_add m' p) (line_size (endline - p));
                     wr_index := line_count |} in
                worker_loop parser fuel' m' (endline + 1) e
                  (int_wrap (line_count + 1))
                  (if matched then res ++ [tmp_res] else res)
            end
        end
      else
        Some {| w_mem := m; w_res := res; w_line_count := line_count;
                w_p := p |}
  end.

(** The bounds a worker takes from [filep]. *)
Definition worker_start (tnum : Z) (fp : filep_t) : Z :=
  if tnum =? 0 then fp_start fp else fp_mid fp.

Definition worker_end (tnum : Z) (fp : filep_t) : Z :=
  if tnum =? 0 then fp_mid fp - 1 else fp_start fp + fp_size fp.

(** One round of [worker_thread] on the published file. *)
Definition worker_thread (parser : list Z -> Z -> option bool) (tnum : Z)
    (fp : filep_t) (m : list Z) : option worker_state :=
  worker_loop parser (S (length m)) m (worker_start tnum fp)
    (worker_end tnum fp) 1 [].

(** [filep.midline = line_count - 1], done by the first worker. *)
Definition set_midline (fp : filep_t) (line_count : Z) : filep_t :=
  {| fp_name := fp_name fp; fp_start := fp_start fp; fp_mid := fp_mid fp;
     fp_size := fp_size fp; fp_midline := uint_wrap (line_count - 1) |}.

(** One round of [save_thread]: the header when a worker found
    something, the first worker's lines, then the second worker's lines
    with [filep.midline] added. *)
Definition save_thread (mainsearch : search) (fp : filep_t)
    (res0 res1 : list worker_result) : search :=
  let s0 :=
    match res0, res1 with
    | [], [] => mainsearch
    | _, _ => mainsearch_add_file mainsearch (fp_name fp)
    end in
  let s1 :=
    fold_left (fun s res => mainsearch_add_line s (wr_line res) (wr_index res))
              res0 s0 in
  fold_left
    (fun s res =>
       mainsearch_add_line s (wr_line res)
         (int_wrap (uint_wrap (wr_index res + fp_midline fp))))
    res1 s1.

(** One round of the pipeline, run to its end: [parse_file] publishes
    the file, each worker scans its part and [save_thread] stores what
    they found.  The workers run on disjoint parts of the mapping; the
    first is run before the second here, and [scan_file_swapped] runs
    them in the other order. *)
Definition scan_file (parser : list Z -> Z -> option bool)
    (mainsearch : search) (midline : Z) (file : list Z) (m : list Z)
  : option (search * Z) :=
  match parse_file file m midline with
  | None => Some (mainsearch, midline)
  | Some fp =>
      match worker_thread parser 0 fp m with
      | None => None
      | Some w0 =>
          let fp' := set_midline fp (w_line_count w0) in
          match worker_thread parser 1 fp' (w_mem w0) with
          | None => None
          | Some w1 =>
              Some (save_thread mainsearch fp' (w_res w0) (w_res w1),
                    fp_midline fp')
          end
      end
  end.

Definition scan_file_swapped (parser : list Z -> Z -> option bool)
    (mainsearch : search) (midline : Z) (file : list Z) (m : list Z)
  : option (search * Z) :=
  match parse_file file m midline with
  | None => Some (mainsearch, midline)
  | Some fp =>
      match worker_thread parser 1 fp m with
      | None => None
      | Some w1 =>
          match worker_thread parser 0 fp (w_mem w1) with
          | None => None
          | Some w0 =>
              let fp' := set_midline fp (w_line_count w0) in
              Some (save_thread mainsearch fp' (w_res w0) (w_res w1),
                    fp_midline fp')
          end
      end
  end.

(** [lookup_thread] over the files that reach [parse_file], each given
    by its path and content, followed by [d->status = 0].  [parse_file]
    waits on [new_file_signal], which [save_thread] posts at the end of a
    round: the round of a file is over before the next file is
    published, so every round but the last is run to its end.  The last
    round races with [d->status = 0]: a worker or [save_thread] that has
    not passed its test of [mainsearch->status] by then returns, and
    nothing of the last file is stored, since [save_thread] stores only
    after both workers have posted.  [last_round] tells whether the three
    threads passed the test in time. *)
Fixpoint lookup_thread (parser : list Z -> Z -> option bool)
    (mainsearch : search) (midline : Z) (files : list (list Z * list Z))
    (last_round : bool) : option search :=
  match files with
  | [] => Some (set_status mainsearch false)
  | (file, m) :: rest =>
      match rest with
      | [] =>
          if last_round then
            match scan_file parser mainsearch midline file m with
            | None => None
            | Some (mainsearch', _) => Some (set_status mainsearch' false)
            end
          else Some (set_status mainsearch false)
      | _ :: _ =>
          match scan_file parser mainsearch midline file m with
          | None => None
          | Some (mainsearch', midline') =>
              lookup_thread parser mainsearch' midline' rest last_round
          end
      end
  end.

(** ** Navigation *)

(** [page_up]; [LINES] is the height of the terminal. *)
Definition page_up (LINES : Z) (current : search) : option search :=
  let cursor := if s_index current =? 0 then 0 else LINES - 1 in
  let index := s_index current - LINES in
  let index := if index <? 0 then 0 else index in
  match is_file (index + cursor) current with
  | None => None
  | Some f =>
      let cursor := if f && negb (index =? 0) then cursor - 1 else cursor in
      Some (set_screen current index cursor)
  end.

(** [page_down] *)
Definition page_down (LINES : Z) (current : search) : option search :=
  if nbentry current =? 0 then Some current
  else
    let max_index :=
      if nbentry current mod LINES =? 0
      then nbentry current - LINES
      else nbentry current - nbentry current mod LINES in
    let cursor :=
      if s_index current =? max_index
      then (nbentry current - 1) mod LINES
      else 0 in
    let index := s_index current + LINES in
    let index := if index >? max_index then max_index else index in
    match is_file (index + cursor) current with
    | None => None
    | Some f =>
        let cursor := if f then cursor + 1 else cursor in
        Some (set_screen current index cursor)
    end.

(** [cursor_up] *)
Definition cursor_up (LINES : Z) (current : search) : option search :=
  if s_cursor current =? 0 then page_up LINES current
  else
    let cursor :=
      if s_cursor current >? 0 then s_cursor current - 1
      else s_cursor current in
    match is_file (s_index current + cursor) current with
    | None => None
    | Some f =>
        let cursor := if f then cursor - 1 else cursor in
        if cursor <? 0
        then page_up LINES (set_screen current (s_index current) cursor)
        else Some (set_screen current (s_index current) cursor)
    end.

(** [cursor_down] *)
Definition cursor_down (LINES : Z) (current : search) : option search :=
  if s_cursor current =? LINES - 1 then page_down LINES current
  else
    let cursor :=
      if s_cursor current + s_index current <? nbentry current - 1
      then s_cursor current + 1
      else s_cursor current in
    match is_file (s_index current + cursor) current with
    | None => None
    | Some f =>
        let cursor := if f then cursor + 1 else cursor in
        if cursor >? LINES - 1
        then page_down LINES (set_screen current (s_index current) cursor)
        else Some (set_screen current (s_index current) cursor)
    end.

(** The four movement keys of the main loop. *)
Inductive move := Up | Down | PageUp | PageDown.

Definition do_move (LINES : Z) (k : move) (current : search) : option search :=
  match k with
  | Up => cursor_up LINES current
  | Down => cursor_down LINES current
  | PageUp => page_up LINES current
  | PageDown => page_down LINES current
  end.

Fixpoint do_moves (LINES : Z) (ks : list move) (current : search)
  : option search :=
  match ks with
  | [] => Some current
  | k :: ks' =>
      match do_move LINES k current with
      | None => None
      | Some current' => do_moves LINES ks' current'
      end
  end.

(** The entry the selection is on: [current->cursor + current->index], as
    [main] passes it to [open_entry]. *)
Definition selected (current : search) : Z := s_cursor current + s_index current.

(** ** Subsearch *)

(** The regex library: [regcomp(reg, pattern, 0) == 0] and
    [regexec(reg, line, 0, NULL, 0) != REG_NOMATCH], with the compiled
    expression standing for its pattern. *)
Class RegexLib := {
  regcomp : list Z -> bool;
  regexec : list Z -> list Z -> bool
}.

(** A library for closed examples: it accepts the patterns free of the
    characters [\ [ . * ^ $] and matches them as literals. *)
Definition is_special (c : Z) : bool :=
  (c =? 92) || (c =? 91) || (c =? 46) || (c =? 42) || (c =? 94) || (c =? 36).

Definition literal_regex : RegexLib :=
  {| regcomp := fun pattern => negb (existsb is_special (cstr pattern));
     regexec := fun pattern line =>
       match find_sub (cstr pattern) (cstr line) 0 with
       | Some _ => true
       | None => false
       end |}.

(** [is_regex_valid]: the result and the search with its regex set. *)
Definition is_regex_valid `{RL : RegexLib} (cursearch : search) : bool * search :=
  if regcomp (s_pattern cursearch)
  then (true,
        {| s_index := s_index cursearch; s_cursor := s_cursor cursearch;
           s_entries := s_entries cursearch;
           s_nb_lines := s_nb_lines cursearch; s_status := s_status cursearch;
           s_pattern := s_pattern cursearch;
           s_is_regex := s_is_regex cursearch;
           s_regex := Some (s_pattern cursearch);
           s_father := s_father cursearch; s_child := s_child cursearch |})
  else (false, cursearch).

(** [regex(line, pattern, size)], with [current->regex] passed in. *)
Definition regex `{RL : RegexLib} (current_regex : list Z) (line : list Z) : bool :=
  regexec current_regex line.

(** The locals of the loop of [subsearch] and the child's array. *)
Record sub_state := {
  ss_orphan_file : bool;
  ss_new_data : list Z;
  ss_entries : list entry;
  ss_nb_lines : Z
}.

(** The copy [subsearch] makes of an entry's text:
    [strncpy(new_data, data, strlen(data) + 1)]. *)
Definition copy_data (data : list Z) : list Z := strncpy data (strlen data + 1).

(** One iteration of [for (i = 0; i < father->nbentry; i++)]. *)
Definition subsearch_step `{RL : RegexLib} (child_regex : list Z) (st : sub_state)
    (e : entry) : sub_state :=
  if is_file_entry e then
    {| ss_orphan_file := true; ss_new_data := copy_data (e_data e);
       ss_entries := ss_entries st; ss_nb_lines := ss_nb_lines st |}
  else if regex child_regex (e_data e) then
    let entries1 :=
      if ss_orphan_file st
      then ss_entries st ++ [ {| e_data := ss_new_data st; e_line := 0 |} ]
      else ss_entries st in
    let new_data := copy_data (e_data e) in
    {| ss_orphan_file := false; ss_new_data := new_data;
       ss_entries := entries1 ++ [ {| e_data := new_data; e_line := e_line e |} ];
       ss_nb_lines := uint_wrap (ss_nb_lines st + 1) |}
  else st.

Definition subsearch_loop `{RL : RegexLib} (child_regex : list Z)
    (father_entries : list entry) : sub_state :=
  fold_left (subsearch_step child_regex) father_entries
    {| ss_orphan_file := false; ss_new_data := []; ss_entries := [];
       ss_nb_lines := 0 |}.

(** The search structures on the heap and the global [current]. *)
Record state := {
  heap : gmap nat search;
  current : nat
}.

(** [mainsearch] is the structure allocated first. *)
Definition mainsearch_key : nat := 0%nat.

(** [subsearch(father)], with the text typed in [subsearch_window]; the
    result is the new state and the returned pointer.  [malloc] returns a
    key that is not in the heap. *)
Definition subsearch `{RL : RegexLib} (typed : list Z) (father : nat) (st : state)
  : state * option nat :=
  if rd typed 0 =? 0 then (st, None)
  else
    match heap st !! father with
    | None => (st, None)
    | Some f =>
        let child_key := fresh (dom (heap st)) in
        let child :=
          {| s_index := 0; s_cursor := 0; s_entries := []; s_nb_lines := 0;
             s_status := true; s_pattern := strncpy typed LINE_MAX;
             s_is_regex := false; s_regex := None;
             s_father := Some father; s_child := None |} in
        let heap1 :=
          <[child_key := child]>
            (<[father := set_child f (Some child_key)]> (heap st)) in
        match is_regex_valid child with
        | (false, _) => ({| heap := heap1; current := current st |}, None)
        | (true, child1) =>
            let r := subsearch_loop (s_pattern child1) (s_entries f) in
            let child2 := set_entries child1 (ss_entries r) (ss_nb_lines r) in
            ({| heap := <[child_key := child2]> heap1; current := child_key |},
             Some child_key)
        end
    end.

(** ** The main loop and the ways the process exits *)

(** Every way the process ends: the calls of [exit], and the [return 0]
    of [main] after its loop. *)
Inductive exit_site :=
| Exit_config_missing      (* get_config: no ngprc *)
| Exit_usage               (* usage, -h, unknown option, wrong argument count *)
| Exit_no_mainsearch       (* main: malloc of mainsearch *)
| Exit_bad_regexp          (* main: is_regex_valid fails *)
| Exit_no_thread           (* main, lookup_thread: pthread_create *)
| Exit_no_semaphore        (* lookup_thread: sem_init *)
| Exit_worker_no_mem       (* worker_thread: malloc *)
| Exit_subsearch_no_mem    (* subsearch: malloc of the child *)
| Exit_sigint              (* sig_handler *)
| Exit_quit                (* main: QUIT with no father *)
| Exit_no_result           (* main: search done and no entry *)
| Exit_main_return.        (* main: return 0 after the loop *)

(** The argument each site passes to [exit]; the value [main] returns is
    passed to [exit] by the C runtime. *)
Definition exit_argument (site : exit_site) : Z :=
  match site with
  | Exit_subsearch_no_mem => 1
  | Exit_no_result => 0
  | Exit_main_return => 0
  | _ => -1
  end.

(** The exit code the parent process sees. *)
Definition exit_code (site : exit_site) : Z := Z.land (exit_argument site) 255.

(** The sites taken on a fatal error. *)
Definition is_fatal (site : exit_site) : bool :=
  match site with
  | Exit_quit | Exit_no_result | Exit_main_return => false
  | _ => true
  end.

Definition SIGINT : Z := 2.

(** [sig_handler] *)
Definition sig_handler (signo : Z) : option exit_site :=
  if signo =? SIGINT then Some Exit_sigint else None.

(** What [main] meets before its loop. *)
Record startup := {
  su_malloc_ok : bool;
  su_config_found : bool;
  su_options_ok : bool;
  su_nb_args : Z;
  su_is_regex : bool;
  su_pattern : list Z;
  su_thread_ok : bool
}.

(** [main] up to the creation of the lookup thread: the exit taken, if
    any. *)
Definition main_startup `{RL : RegexLib} (su : startup) : option exit_site :=
  if negb (su_malloc_ok su) then Some Exit_no_mainsearch
  else if negb (su_config_found su) then Some Exit_config_missing
  else if negb (su_options_ok su) then Some Exit_usage
  else if (su_nb_args su <? 1) || (su_nb_args su >? 2) then Some Exit_usage
  else if su_is_regex su && negb (regcomp (su_pattern su))
  then Some Exit_bad_regexp
  else if negb (su_thread_ok su) then Some Exit_no_thread
  else None.

(** What [getch()] returns: the keys of the [switch], any other key
    ([KEY_NONE]), and the key code 0 ([KEY_NUL]). *)
Inductive key :=
| KEY_RESIZE
| KEY_MOVE (k : move)
| KEY_SLASH (typed : list Z)
| KEY_ENTER
| KEY_QUIT
| KEY_NONE
| KEY_NUL.

Inductive outcome :=
| Running (st : state)
| Exited (site : exit_site).

(** [clean_search]: the structure is freed. *)
Definition clean_search (h : gmap nat search) (k : nat) : gmap nat search :=
  delete k h.

(** The [switch] of the main loop. *)
Definition main_switch `{RL : RegexLib} (LINES : Z) (ch : key) (st : state)
  : option outcome :=
  match heap st !! current st with
  | None => None
  | Some cur =>
      match ch with
      | KEY_MOVE k =>
          match do_move LINES k cur with
          | None => None
          | Some cur' =>
              Some (Running {| heap := <[current st := cur']> (heap st);
                               current := current st |})
          end
      | KEY_SLASH typed =>
          let '(st', tmp) := subsearch typed (current st) st in
          match tmp with
          | Some c => Some (Running {| heap := heap st'; current := c |})
          | None => Some (Running st')
          end
      | KEY_QUIT =>
          match s_father cur with
          | None => Some (Exited Exit_quit)
          | Some tmp =>
              let h := clean_search (heap st) (current st) in
              match h !! tmp with
              | None => None
              | Some f =>
                  Some (Running {| heap := <[tmp := set_child f None]> h;
                                   current := tmp |})
              end
          end
      | KEY_RESIZE | KEY_ENTER | KEY_NONE | KEY_NUL => Some (Running st)
      end
  end.

(** One turn of [while ((ch = getch()))]: the test of the key, which
    ends the loop on the key code 0, so that [main] returns 0; else the
    [switch], then the test that ends the program when the search is
    over and found nothing. *)
Definition main_iteration `{RL : RegexLib} (LINES : Z) (ch : key) (st : state)
  : option outcome :=
  match ch with
  | KEY_NUL => Some (Exited Exit_main_return)
  | _ =>
      match main_switch LINES ch st with
      | Some (Running st') =>
          match heap st' !! mainsearch_key with
          | None => None
          | Some mainsearch =>
              if negb (s_status mainsearch) && (nbentry mainsearch =? 0)
              then Some (Exited Exit_no_result)
              else Some (Running st')
          end
      | r => r
      end
  end.

(** ** Configuration file *)

(** [strrchr(buf, c)] *)
Fixpoint strrchr_from (rest : list Z) (pos : Z) (c : Z) (last : option Z)
  : option Z :=
  match rest with
  | [] => last
  | x :: rest' =>
      if x =? 0 then last
      else strrchr_from rest' (pos + 1) c (if x =? c then Some pos else last)
  end.

Definition strrchr (buf : list Z) (c : Z) : option Z :=
  strrchr_from buf 0 c None.

(** [strspn(buf + s, " ")] and [strcspn(buf + s, " ")] *)
Fixpoint span (keep : Z -> bool) (rest : list Z) : Z :=
  match rest with
  | [] => 0
  | x :: rest' => if keep x then 1 + span keep rest' else 0
  end.

Definition strspn (buf : list Z) (s : Z) (delim : Z) : Z :=
  span (fun c => c =? delim) (ptr_add buf s).

Definition strcspn (buf : list Z) (s : Z) (delim : Z) : Z :=
  span (fun c => negb (c =? delim) && negb (c =? 0)) (ptr_add buf s).

(** [strtok_r(NULL, " ", &save)]: the token returned (an offset, or
    [None] for [NULL]), the buffer and the new [save]. *)
Definition strtok_r (buf : list Z) (save : Z) : option Z * list Z * Z :=
  if rd buf save =? 0 then (None, buf, save)
  else
    let s := save + strspn buf save SPACE in
    if rd buf s =? 0 then (None, buf, s)
    else
      let e := s + strcspn buf s SPACE in
      if rd buf e =? 0 then (Some s, buf, e)
      else (Some s, wr buf e 0, e + 1).

(** The loop [while (ptr != NULL) { ...; ptr = strtok_r(NULL, " ", &start); }]
    that appends a node holding [strncpy(node, ptr, LINE_MAX)] at the
    tail of a list. *)
Fixpoint token_loop (fuel : nat) (buf : list Z) (start : Z)
    (nodes : list (list Z)) : option (list (list Z) * list Z) :=
  match fuel with
  | O => None
  | S fuel' =>
      match strtok_r buf start with
      | (None, buf', _) => Some (nodes, buf')
      | (Some ptr, buf', start') =>
          token_loop fuel' buf' start'
            (nodes ++ [strncpy (ptr_add buf' ptr) LINE_MAX])
      end
  end.

(** [start = strchr(configline, '"') + 1; end = strchr(start, '"');
    end[0] = 0;] gives [start] and the buffer, or [None] when a [NULL]
    is dereferenced. *)
Definition quoted (configline : list Z) : option (Z * list Z) :=
  match strchr configline 0 DQUOTE with
  | None => None
  | Some q =>
      let start := q + 1 in
      match strchr configline start DQUOTE with
      | None => None
      | Some e => Some (start, wr configline e 0)
      end
  end.

(** What [get_config] builds: the editor command and the two lists of
    [mainsearch_attr], in list order. *)
Record config := {
  c_editor_cmd : option (list Z);
  c_specific_files : list (list Z);
  c_extensions : list (list Z)
}.

Definition contains (configline needle : list Z) : bool :=
  match strstr configline needle with
  | Some _ => true
  | None => false
  end.

(** The body of [while (fgets(configline, 256, config))] for one line;
    [None] when the line makes the program dereference [NULL]. *)
Definition get_config_line (ptr_env : list Z) (configline : list Z)
    (c : config) : option config :=
  match strchr configline 0 SEMICOLON with
  | None => Some c
  | Some _ =>
      (* editor *)
      let r1 :=
        if contains configline ptr_env then
          match quoted configline with
          | None => None
          | Some (start, buf) =>
              Some (buf,
                    {| c_editor_cmd := Some (cstr (ptr_add buf start));
                       c_specific_files := c_specific_files c;
                       c_extensions := c_extensions c |})
          end
        else Some (configline, c) in
      (* files *)
      let r2 :=
        match r1 with
        | None => None
        | Some (buf, c1) =>
            if contains buf (chars "files") then
              match quoted buf with
              | None => None
              | Some (start, buf') =>
                  match token_loop (S (length buf')) buf' start
                          (c_specific_files c1) with
                  | None => None
                  | Some (specs, buf'') =>
                      Some (buf'',
                            {| c_editor_cmd := c_editor_cmd c1;
                               c_specific_files := specs;
                               c_extensions := c_extensions c1 |})
                  end
              end
            else Some (buf, c1)
        end in
      (* extensions *)
      match r2 with
      | None => None
      | Some (buf, c2) =>
          if contains buf (chars "extensions") then
            match quoted buf with
            | None => None
            | Some (start, buf') =>
                match token_loop (S (length buf')) buf' start
                        (c_extensions c2) with
                | None => None
                | Some (exts, _) =>
                    Some {| c_editor_cmd := c_editor_cmd c2;
                            c_specific_files := c_specific_files c2;
                            c_extensions := exts |}
                end
            end
          else Some c2
      end
  end.

(** The name [get_config] looks for in the editor line. *)
Definition editor_name (env_editor : option (list Z)) : list Z :=
  match env_editor with
  | Some e =>
      match strrchr e 47 with
      | Some k => ptr_add e k
      | None => e
      end
  | None => chars "vim"
  end.

(** [get_config] over the lines [fgets] returns. *)
Fixpoint get_config_lines (ptr_env : list Z) (lines : list (list Z))
    (c : config) : option config :=
  match lines with
  | [] => Some c
  | configline :: rest =>
      match get_config_line ptr_env configline c with
      | None => None
      | Some c' => get_config_lines ptr_env rest c'
      end
  end.

Definition get_config (env_editor : option (list Z)) (lines : list (list Z))
  : option config :=
  get_config_lines (editor_name env_editor) lines
    {| c_editor_cmd := None; c_specific_files := []; c_extensions := [] |}.

(** ** The program as a transition system *)

(** At start-up the heap holds [mainsearch], which is also [current]. *)
Definition initial_state : state :=
  {| heap := {[ mainsearch_key := init_searchstruct ]};
     current := mainsearch_key |}.

(** A step of the program: the pipeline merges one more file (of a size
    an [int] line counter can count) into [mainsearch], the lookup thread
    ends and clears [mainsearch->status], or the main loop handles a key.
    The second component is the global [filep.midline]. *)
Inductive step `{RL : RegexLib} (parser : list Z -> Z -> option bool) (LINES : Z)
  : state * Z -> state * Z -> Prop :=
| step_file st midline file m mainsearch mainsearch' midline' :
    heap st !! mainsearch_key = Some mainsearch ->
    Z.of_nat (length m) < 2 ^ 31 - 1 ->
    scan_file parser mainsearch midline file m = Some (mainsearch', midline') ->
    step parser LINES (st, midline)
      ({| heap := <[mainsearch_key := mainsearch']> (heap st);
          current := current st |}, midline')
| step_done st midline mainsearch :
    heap st !! mainsearch_key = Some mainsearch ->
    step parser LINES (st, midline)
      ({| heap := <[mainsearch_key := set_status mainsearch false]> (heap st);
          current := current st |}, midline)
| step_key st midline ch st' :
    main_iteration LINES ch st = Some (Running st') ->
    step parser LINES (st, midline) (st', midline).

(** The states the program reaches. *)
Definition reachable `{RL : RegexLib} (parser : list Z -> Z -> option bool)
    (LINES : Z) (st : state) : Prop :=
  exists midline, rtc (step parser LINES) (initial_state, 0) (st, midline).

(** ** Reference definitions, following the specification *)

(** A store is well formed when every match line has a header before it,
    with no header in between, and every header is directly followed by a
    match line. *)
Definition header_at (es : list entry) (i : nat) : Prop :=
  exists e, es !! i = Some e /\ is_file_entry e = true.

Definition line_at (es : list entry) (i : nat) : Prop :=
  exists e, es !! i = Some e /\ is_file_entry e = false.

Definition wf_store (es : list entry) : Prop :=
  (forall i, line_at es i ->
     exists j, (j < i)%nat /\ header_at es j /\
               forall k, (j < k < i)%nat -> ~ header_at es k)
  /\ (forall j, header_at es j -> line_at es (S j)).

(** The newline-terminated lines of a file, in order; the bytes after
    the last newline are not among them. *)
Fixpoint lines_from (rest cur : list Z) : list (list Z) :=
  match rest with
  | [] => []
  | c :: rest' =>
      if c =? NL then cur :: lines_from rest' []
      else lines_from rest' (cur ++ [c])
  end.

Definition file_lines (m : list Z) : list (list Z) := lines_from m [].

(** The lines with their numbers, counted from [n]. *)
Fixpoint number_lines (n : Z) (ls : list (list Z)) : list (Z * list Z) :=
  match ls with
  | [] => []
  | l :: ls' => (n, l) :: number_lines (n + 1) ls'
  end.

(** A single pass over the whole file: the matching lines with their
    1-based numbers. *)
Definition reference_scan (matches : list Z -> bool) (m : list Z)
  : list (Z * list Z) :=
  List.filter (fun nl => matches (snd nl)) (number_lines 1 (file_lines m)).

(** The pattern occurs in the line, as a boolean. *)
Definition occurs_b (pattern line : list Z) : bool :=
  match find_sub pattern line 0 with
  | Some _ => true
  | None => false
  end.

(** The match lines of a store, as numbers and texts. *)
Definition store_matches (es : list entry) : list (Z * list Z) :=
  map (fun e => (e_line e, cstr (e_data e)))
      (List.filter (fun e => negb (is_file_entry e)) es).

(** The text kept for a line, by the truncation policy: the line when it
    has at most 255 bytes, else its first 255 bytes, then a NUL. *)
Definition truncated_line (line : list Z) : list Z :=
  take 255 line ++ [0].

(** The space-separated tokens of a value. *)
Fixpoint tokens_from (rest cur : list Z) : list (list Z) :=
  match rest with
  | [] => match cur with [] => [] | _ => [cur] end
  | c :: rest' =>
      if c =? SPACE
      then match cur with
           | [] => tokens_from rest' []
           | _ => cur :: tokens_from rest' []
           end
      else tokens_from rest' (cur ++ [c])
  end.

Definition tokens (value : list Z) : list (list Z) := tokens_from value [].

(** ** Sample inputs *)

(** A file whose second line is empty and ends at the split point:
    [a], an empty line, [b]. *)
Definition file_a_b : list Z := chars "a" ++ [NL; NL] ++ chars "b" ++ [NL].

(** A file made of one line of 256 bytes. *)
Definition file_long_line : list Z := replicate 256 97 ++ [NL].

(** The file of scenario S1: [hello], [world], [hello world]. *)
Definition file_hello : list Z :=
  chars "hello" ++ [NL] ++ chars "world" ++ [NL] ++ chars "hello world" ++ [NL].

(** The mainsearch after the pipeline has scanned that file for
    [hello]. *)
Definition search_hello : search :=
  Eval vm_compute in
    match scan_file (literal_parser (chars "hello")) init_searchstruct 0
            (chars "a.c") file_hello with
    | Some (s, _) => s
    | None => init_searchstruct
    end.

(** Configuration lines, as [fgets] returns them. *)
Definition config_line (key value : string) : list Z :=
  chars key ++ chars " = " ++ [DQUOTE] ++ chars value ++ [DQUOTE; SEMICOLON; NL].

(** ** Predicates used in the proofs *)

(** A store made of groups: a header followed by one match line or
    more. *)
Inductive groups : list entry -> Prop :=
| groups_nil : groups []
| groups_app es h ls :
    groups es ->
    is_file_entry h = true ->
    ls <> [] ->
    Forall (fun e => is_file_entry e = false) ls ->
    groups (es ++ h :: ls).

(** The entries [save_thread] appends for the results of a worker, with
    the offset it adds to their line numbers. *)
Definition saved_lines (line_nb : Z -> Z) (res : list worker_result)
  : list entry :=
  map (fun r => {| e_data := wr_line r;
                   e_line := uint_wrap (line_nb (wr_index r)) |}) res.

(** The header [save_thread] puts before the lines of a file. *)
Definition saved_header (fp : filep_t) (res0 res1 : list worker_result)
  : list entry :=
  match res0, res1 with
  | [], [] => []
  | _, _ => [ {| e_data := fp_name fp; e_line := 0 |} ]
  end.

(** A result with its line number moved by [d]. *)
Definition shift_result (d : Z) (r : worker_result) : worker_result :=
  {| wr_line := wr_line r; wr_index := wr_index r + d |}.

(** [s'] is [s] with the entries [es] appended. *)
Definition appended (s s' : search) (es : list entry) : Prop :=
  s_entries s' = s_entries s ++ es.

(** Every search structure of the heap holds a grouped store. *)
Definition heap_groups (st : state) : Prop :=
  forall k s, heap st !! k = Some s -> groups (s_entries s).

(** The screen of a search is in order: the top of the viewport is a
    multiple of the screen height and lies in the store, the cursor is on
    the screen, and the selection is in the store and, past the first
    page, on a match line. *)
Definition nav_inv (LINES : Z) (s : search) : Prop :=
  (LINES | s_index s)
  /\ 0 <= s_index s
  /\ 0 <= s_cursor s < LINES
  /\ selected s < nbentry s
  /\ (s_index s <> 0 -> is_file (selected s) s = Some false).

(** The last key of a sequence moves down. *)
Definition ends_down (ks : list move) : Prop :=
  match last ks with
  | Some Down | Some PageDown => True
  | _ => False
  end.

(** The entries [subsearch] keeps from a run of match lines. *)
Definition sub_lines `{RL : RegexLib} (child_regex : list Z) (ls : list entry)
  : list entry :=
  map (fun e => {| e_data := copy_data (e_data e); e_line := e_line e |})
      (List.filter (fun e => regex child_regex (e_data e)) ls).

(** The pattern sits at offset [i] of the text. *)
Definition match_at (pattern text : list Z) (i : Z) : Prop :=
  forall j, 0 <= j < Z.of_nat (length pattern) ->
            rd text (i + j) = rd pattern j.

(** No window of the line that starts before [i] holds the pattern. *)
Definition no_match_below (pattern text : list Z) (tsize i : Z) : Prop :=
  forall j, 0 <= j < i -> j + Z.of_nat (length pattern) <= tsize ->
            ~ match_at pattern text j.

(** The skip table is the Horspool table of the pattern, as far as the
    pattern bytes before [upto] go: entries lie between 1 and the pattern
    length, and no entry jumps over the last place a byte occurs. *)
Definition skipt_ok (pattern skipt : list Z) (upto : Z) : Prop :=
  length skipt = 256%nat /\
  (forall c, 0 <= c < 256 -> 1 <= rd skipt c <= Z.of_nat (length pattern)) /\
  (forall k, 0 <= k < upto -> k < Z.of_nat (length pattern) - 1 ->
             rd skipt (rd pattern k) <= Z.of_nat (length pattern) - 1 - k).

(** [buf'] is [buf] with some of its bytes overwritten by NUL, which is
    all [strtok_r] and [end[0] = 0] do to a line of the configuration. *)
Definition zeroed (buf' buf : list Z) : Prop :=
  Forall2 (fun a b => a = b \/ a = 0) buf' buf.

(** A line of the configuration file around its quoted value: what
    stands before the first quote, the value, and what follows the
    second quote. *)
Definition quoted_line (pre value post : list Z) : list Z :=
  pre ++ DQUOTE :: value ++ DQUOTE :: post.

(** The hash of a window of bytes before it is reduced to an [int]:
    the bytes as binary digits, the first one heaviest. *)
Definition hash_value (l : list Z) : Z := fold_left (fun h c => 2 * h + c) l 0.

(** The [n] bytes of the text from offset [i] on. *)
Definition window (text : list Z) (i : Z) (n : nat) : list Z :=
  map (fun j => rd text (i + Z.of_nat j)) (seq 0 n).

(** The match lines of a store, without its headers. *)
Definition match_lines (es : list entry) : list entry :=
  List.filter (fun e => negb (is_file_entry e)) es.

(** The hit counter of a search structure is the number of match lines
    of its store, as an [unsigned int]. *)
Definition hits_ok (s : search) : Prop :=
  s_nb_lines s = uint_wrap (Z.of_nat (length (match_lines (s_entries s)))).

Definition heap_hits (st : state) : Prop :=
  forall k s, heap st !! k = Some s -> hits_ok s.

(** ** The size of the arrays of entries *)

(** [check_alloc(toinc, size)]: the new value of [toinc->size], after
    [if (toinc->nbentry >= toinc->size) toinc->size += size;]. *)
Definition check_alloc (nbentry size inc : Z) : Z :=
  if nbentry >=? size then uint_wrap (size + inc) else size.

(** The array of a search structure: the number of entries in use and
    the number of entries allocated. *)
Record array := { ar_nbentry : Z; ar_size : Z }.

(** What [mainsearch_add_file] and [mainsearch_add_line] do to the array
    of [mainsearch]: [check_alloc(mainsearch, 500)], a write to
    [entries[nbentry]], then [nbentry++].  [None] when the write falls
    outside the array. *)
Definition mainsearch_add_array (a : array) : option array :=
  let size := check_alloc (ar_nbentry a) (ar_size a) 500 in
  if ar_nbentry a <? size
  then Some {| ar_nbentry := uint_wrap (ar_nbentry a + 1); ar_size := size |}
  else None.

Fixpoint mainsearch_adds (n : nat) (a : array) : option array :=
  match n with
  | O => Some a
  | S n' =>
      match mainsearch_add_array a with
      | None => None
      | Some a' => mainsearch_adds n' a'
      end
  end.

(** The array [main] allocates for [mainsearch]:
    [calloc(mainsearch->size, ...)] with the [size] of
    [init_searchstruct]. *)
Definition initial_array : array := {| ar_nbentry := 0; ar_size := 100 |}.

(** One iteration of the loop of [subsearch] with the size of the
    child's array, which starts as [calloc(100, ...)]: on a line the
    regex accepts, [if (child->nbentry % 100 >= 98) child->size += 100;]
    with the [realloc], then the pending header, if any, and the line
    are written at [entries[nbentry]] and after.  [None] when an entry is
    written outside the array. *)
Definition subsearch_array_step `{RL : RegexLib} (child_regex : list Z)
    (st : sub_state * Z) (e : entry) : option (sub_state * Z) :=
  let '(ss, size) := st in
  if is_file_entry e then Some (subsearch_step child_regex ss e, size)
  else if regex child_regex (e_data e) then
    let nbentry := Z.of_nat (length (ss_entries ss)) in
    let size :=
      if nbentry mod 100 >=? 98 then uint_wrap (size + 100) else size in
    let last := if ss_orphan_file ss then nbentry + 1 else nbentry in
    if last <? size
    then Some (subsearch_step child_regex ss e, size)
    else None
  else Some (subsearch_step child_regex ss e, size).

Fixpoint subsearch_array_loop `{RL : RegexLib} (child_regex : list Z)
    (father_entries : list entry) (st : sub_state * Z)
  : option (sub_state * Z) :=
  match father_entries with
  | [] => Some st
  | e :: rest =>
      match subsearch_array_step child_regex st e with
      | None => None
      | Some st' => subsearch_array_loop child_regex rest st'
      end
  end.

(** ** Strings handed to the editor and to the screen *)

(** [buf[i] = v] on an allocation of [length buf] bytes: [None] when the
    write falls outside of it. *)
Definition store (buf : list Z) (i v : Z) : option (list Z) :=
  if (0 <=? i) && (i <? Z.of_nat (length buf)) then Some (wr buf i v) else None.

Definition SLASH : Z := 47.
Definition QUOTE : Z := 39.
Definition BACKSLASH : Z := 92.

(** The loop of [vim_sanitize] on the buffer it allocated; [junk] is
    what [malloc] and [realloc] leave in a fresh byte.  The result is the
    allocation when the function returns, [None] when a write falls
    outside the allocation. *)
Fixpoint vim_sanitize_loop (fuel : nat) (junk : Z)
    (search_pattern sanitized_pattern : list Z) (i j : Z) : option (list Z) :=
  match fuel with
  | O => None
  | S fuel' =>
      if rd search_pattern i =? 0 then store sanitized_pattern j 0
      else
        let special :=
          (rd search_pattern i =? SLASH) || (rd search_pattern i =? QUOTE) in
        let escaped :=
          if special
          then store (sanitized_pattern ++ [junk]) j BACKSLASH
          else Some sanitized_pattern in
        match escaped with
        | None => None
        | Some sanitized1 =>
            let j1 := if special then j + 1 else j in
            match store sanitized1 j1 (rd search_pattern i) with
            | None => None
            | Some sanitized2 =>
                vim_sanitize_loop fuel' junk search_pattern sanitized2
                  (i + 1) (j1 + 1)
            end
        end
  end.

(** [vim_sanitize]: [size = strlen(search_pattern) + 1], [malloc(size)],
    the loop, the terminator. *)
Definition vim_sanitize (junk : Z) (search_pattern : list Z) : option (list Z) :=
  vim_sanitize_loop (S (length search_pattern)) junk search_pattern
    (replicate (Z.to_nat (strlen search_pattern + 1)) junk) 0 0.

(** A pattern with a backslash before each [/] and each [']. *)
Definition escape_vim (pattern : list Z) : list Z :=
  flat_map (fun c => if (c =? SLASH) || (c =? QUOTE) then [BACKSLASH; c] else [c])
           pattern.

(** The loop of [remove_double_appearance]; [final] holds the bytes
    written to [final[0 .. j)]. *)
Fixpoint remove_double_loop (fuel : nat) (initial : list Z) (c : Z)
    (len i : Z) (final : list Z) : option (list Z) :=
  match fuel with
  | O => None
  | S fuel' =>
      if i <? len then
        if negb (rd initial i =? c)
        then remove_double_loop fuel' initial c len (i + 1)
               (final ++ [rd initial i])
        else remove_double_loop fuel' initial c len
               (if rd initial (i + 1) =? c then i + 2 else i + 1)
               (final ++ [rd initial i])
      else Some (final ++ [0])
  end.

(** [remove_double_appearance(initial, c, final)]: what it writes to
    [final], terminator included. *)
Definition remove_double_appearance (initial : list Z) (c : Z)
  : option (list Z) :=
  remove_double_loop (S (length initial)) initial c (strlen initial) 0 [].

(** A string with every run of [c] cut to half its length, rounded
    up. *)
Fixpoint halve_runs (c : Z) (l : list Z) : list Z :=
  match l with
  | [] => []
  | x :: r =>
      x :: (if x =? c
            then match r with
                 | y :: r' => if y =? c then halve_runs c r' else halve_runs c r
                 | [] => []
                 end
            else halve_runs c r)
  end.

(** The string holds [c] twice, or three times, in a row. *)
Fixpoint has_pair (c : Z) (l : list Z) : bool :=
  match l with
  | x :: r =>
      match r with
      | y :: _ => ((x =? c) && (y =? c)) || has_pair c r
      | [] => false
      end
  | [] => false
  end.

Fixpoint has_triple (c : Z) (l : list Z) : bool :=
  match l with
  | x :: r =>
      match r with
      | y :: z :: _ => ((x =? c) && (y =? c) && (z =? c)) || has_triple c r
      | _ => false
      end
  | [] => false
  end.

(** ** The window of the subsearch *)

(** The [int] a key code leaves in a [char]. *)
Definition char_wrap (z : Z) : Z := (z + 128) mod 256 - 128.

Definition KEY_NEWLINE : Z := 10.
Definition KEY_BACKSPACE : Z := 8.
Definition KEY_DELETE : Z := 127.
Definition KEY_ESCAPE : Z := 27.

(** How [subsearch_window] ends: the buffer it leaves, a terminator
    written past the [LINE_MAX] bytes of the buffer, or still waiting for
    a key. *)
Inductive window_result :=
| Typed (search : list Z)
| Overflow
| Waiting.

(** [search[j] = 0;] after the loop. *)
Definition window_end (search : list Z) (j : Z) : window_result :=
  if j <? LINE_MAX then Typed (wr search j 0) else Overflow.

(** [while ((car = wgetch(searchw)) != '\n' && j < LINE_MAX)] over the
    keys the user presses. *)
Fixpoint subsearch_window_loop (keys : list Z) (search : list Z) (j : Z)
  : window_result :=
  match keys with
  | [] => Waiting
  | car :: keys' =>
      if negb (car =? KEY_NEWLINE) && (j <? LINE_MAX) then
        if (car =? KEY_BACKSPACE) || (car =? KEY_DELETE) then
          if j >? 0
          then subsearch_window_loop keys' (wr search (j - 1) 0) (j - 1)
          else subsearch_window_loop keys' search j
        else if car =? KEY_ESCAPE
        then window_end (replicate (Z.to_nat LINE_MAX) 0) j
        else subsearch_window_loop keys' (wr search j (char_wrap car)) (j + 1)
      else window_end search j
  end.

(** [subsearch_window(search)] on the buffer [subsearch] allocated and
    cleared. *)
Definition subsearch_window (keys : list Z) : window_result :=
  subsearch_window_loop keys (replicate (Z.to_nat LINE_MAX) 0) 0.

(** A key that [subsearch_window] stores in the buffer. *)
Definition ordinary_key (car : Z) : Prop :=
  car <> KEY_NEWLINE /\ car <> KEY_BACKSPACE /\ car <> KEY_DELETE
  /\ car <> KEY_ESCAPE.

(** The buffer of [subsearch_window] once the keys [typed] are stored
    in it. *)
Definition window_buffer (typed : list Z) : list Z :=
  map char_wrap typed ++ replicate (Z.to_nat LINE_MAX - length typed) 0.

(** ** The files that are searched *)

(** [strncmp(a, b, n) == 0]: byte by byte, up to [n] bytes or the first
    NUL. *)
Fixpoint strncmp_eq (n : nat) (a b : list Z) : bool :=
  match n with
  | O => true
  | S n' =>
      if hd 0 a =? hd 0 b
      then (hd 0 a =? 0) || strncmp_eq n' (tl a) (tl b)
      else false
  end.

(** [strcmp(a, b) == 0] *)
Definition strcmp_eq (a b : list Z) : bool := strncmp_eq (S (length a)) a b.

(** [struct mainsearch_attr], with the lists in list order, and
    [mainsearch->is_regex]. *)
Record attr := {
  a_raw : bool;
  a_follow_symlinks : bool;
  a_has_excludes : bool;
  a_is_insensitive : bool;
  a_firstspec : list (list Z);
  a_firstext : list (list Z);
  a_firstexcl : list Z;
  a_is_regex : bool
}.

(** [memset(&mainsearch_attr, 0, ...)] and the lists of [get_config]. *)
Definition attr_of_config (c : config) : attr :=
  {| a_raw := false; a_follow_symlinks := false; a_has_excludes := false;
     a_is_insensitive := false; a_firstspec := c_specific_files c;
     a_firstext := c_extensions c; a_firstexcl := []; a_is_regex := false |}.

(** What [getopt(argc, argv, "hio:t:refx:")] returns, with [optarg];
    for [-x] the inode that [get_inode_from_path(optarg)] finds, [0] when
    [stat] fails. *)
Inductive opt_t :=
| Opt_h
| Opt_i
| Opt_o (optarg : list Z)
| Opt_t (optarg : list Z)
| Opt_r
| Opt_e
| Opt_f
| Opt_x (d_ino : Z)
| Opt_other.

(** [case 't':] of [get_args], where [-o] falls through to. *)
Definition add_extension (optarg : list Z) (a : attr) : attr :=
  {| a_raw := a_raw a; a_follow_symlinks := a_follow_symlinks a;
     a_has_excludes := a_has_excludes a; a_is_insensitive := a_is_insensitive a;
     a_firstspec := a_firstspec a;
     a_firstext := a_firstext a ++ [strncpy optarg LINE_MAX];
     a_firstexcl := a_firstexcl a; a_is_regex := a_is_regex a |}.

(** The [switch] of [get_args] for one option; [inr] is the call of
    [exit]. *)
Definition get_args_switch (opt : opt_t) (a : attr) : attr + exit_site :=
  match opt with
  | Opt_h => inr Exit_usage
  | Opt_i =>
      inl {| a_raw := a_raw a; a_follow_symlinks := a_follow_symlinks a;
             a_has_excludes := a_has_excludes a; a_is_insensitive := true;
             a_firstspec := a_firstspec a; a_firstext := a_firstext a;
             a_firstexcl := a_firstexcl a; a_is_regex := a_is_regex a |}
  | Opt_o optarg =>
      inl (add_extension optarg
             {| a_raw := a_raw a; a_follow_symlinks := a_follow_symlinks a;
                a_has_excludes := a_has_excludes a;
                a_is_insensitive := a_is_insensitive a;
                a_firstspec := []; a_firstext := [];
                a_firstexcl := a_firstexcl a; a_is_regex := a_is_regex a |})
  | Opt_t optarg => inl (add_extension optarg a)
  | Opt_r =>
      inl {| a_raw := true; a_follow_symlinks := a_follow_symlinks a;
             a_has_excludes := a_has_excludes a;
             a_is_insensitive := a_is_insensitive a;
             a_firstspec := a_firstspec a; a_firstext := a_firstext a;
             a_firstexcl := a_firstexcl a; a_is_regex := a_is_regex a |}
  | Opt_e =>
      inl {| a_raw := a_raw a; a_follow_symlinks := a_follow_symlinks a;
             a_has_excludes := a_has_excludes a;
             a_is_insensitive := a_is_insensitive a;
             a_firstspec := a_firstspec a; a_firstext := a_firstext a;
             a_firstexcl := a_firstexcl a; a_is_regex := true |}
  | Opt_f =>
      inl {| a_raw := a_raw a; a_follow_symlinks := true;
             a_has_excludes := a_has_excludes a;
             a_is_insensitive := a_is_insensitive a;
             a_firstspec := a_firstspec a; a_firstext := a_firstext a;
             a_firstexcl := a_firstexcl a; a_is_regex := a_is_regex a |}
  | Opt_x d_ino =>
      inl {| a_raw := a_raw a; a_follow_symlinks := a_follow_symlinks a;
             a_has_excludes :=
               match a_firstexcl a with
               | [] => true
               | _ :: _ => a_has_excludes a
               end;
             a_is_insensitive := a_is_insensitive a;
             a_firstspec := a_firstspec a; a_firstext := a_firstext a;
             a_firstexcl := a_firstexcl a ++ [d_ino];
             a_is_regex := a_is_regex a |}
  | Opt_other => inr Exit_usage
  end.

(** [get_args]: [while ((opt = getopt(...)) != -1) switch (opt)] *)
Fixpoint get_args (opts : list opt_t) (a : attr) : attr + exit_site :=
  match opts with
  | [] => inl a
  | opt :: opts' =>
      match get_args_switch opt a with
      | inl a' => get_args opts' a'
      | inr site => inr site
      end
  end.

(** [is_dir_exclude(d_ino)] *)
Definition is_dir_exclude (a : attr) (d_ino : Z) : bool :=
  if a_has_excludes a then existsb (Z.eqb d_ino) (a_firstexcl a) else false.

(** [name_begins] in [is_specific_file]: the name after its last [/]. *)
Definition name_begins (name : list Z) : list Z :=
  match strrchr name SLASH with
  | Some k => ptr_add name (k + 1)
  | None => name
  end.

(** [is_specific_file(name)] *)
Fixpoint is_specific_file (curspec : list (list Z)) (name : list Z) : bool :=
  match curspec with
  | [] => false
  | spec :: next =>
      if strncmp_eq (Z.to_nat LINE_MAX) (name_begins name) spec then true
      else is_specific_file next name
  end.

(** The loop of [lookup_file] over the extensions.  [None]: [strlen]
    runs past an [ext] array that holds no NUL, or the pointer
    [file + strlen(file) - strlen(ext)] is before the start of [file]. *)
Fixpoint lookup_file_loop (curext : list (list Z)) (file : list Z)
  : option bool :=
  match curext with
  | [] => Some false
  | ext :: next =>
      if strlen ext =? Z.of_nat (length ext) then None
      else if strlen file - strlen ext <? 0 then None
      else if strcmp_eq ext (ptr_add file (strlen file - strlen ext))
      then Some true
      else lookup_file_loop next file
  end.

(** [lookup_file(file)]: whether [parse_file(file)] is called. *)
Definition lookup_file (a : attr) (file : list Z) : option bool :=
  if a_raw a then Some true
  else if is_specific_file (a_firstspec a) file then Some true
  else lookup_file_loop (a_firstext a) file.

(** The arguments of the [-t] options. *)
Fixpoint added_extensions (opts : list opt_t) : list (list Z) :=
  match opts with
  | [] => []
  | Opt_t optarg :: opts' => optarg :: added_extensions opts'
  | _ :: opts' => added_extensions opts'
  end.

(** An option other than [-o], [-h] and those [getopt] does not know. *)
Definition keeps_lists (opt : opt_t) : bool :=
  match opt with
  | Opt_o _ | Opt_h | Opt_other => false
  | _ => true
  end.

(** ** The lines of a text *)

(** The lines of a text as a line-oriented search counts them: the bytes
    between newlines, and a last line without newline when the text does
    not end with one. *)
Fixpoint text_lines_from (rest cur : list Z) : list (list Z) :=
  match rest with
  | [] =>
      match cur with
      | [] => []
      | _ :: _ => [cur]
      end
  | c :: rest' =>
      if c =? NL then cur :: text_lines_from rest' []
      else text_lines_from rest' (cur ++ [c])
  end.

Definition text_lines (m : list Z) : list (list Z) := text_lines_from m [].

(** Those of them that end with a newline: all the lines of a text that
    ends with a newline, and all but the last otherwise. *)
Definition searched_lines (m : list Z) : list (list Z) :=
  match last m with
  | Some c => if c =? NL then text_lines m else removelast (text_lines m)
  | None => []
  end.

(** The lines among them that match, with their 1-based numbers. *)
Definition searched_scan (matches : list Z -> bool) (m : list Z)
  : list (Z * list Z) :=
  List.filter (fun nl => matches (snd nl)) (number_lines 1 (searched_lines m)).

(** The file of scenario S1 followed by a line [hello] that no newline
    ends. *)
Definition file_hello_open : list Z := file_hello ++ chars "hello".

(** ** The result list, as the screen shows it *)

(** An entry as its line number and its text. *)
Definition shown (e : entry) : Z * list Z := (e_line e, cstr (e_data e)).

(** What a file adds to the result list: nothing when no line matches,
    else its name and its matching lines, each cut at 256 bytes. *)
Definition file_group (file : list Z) (ls : list (Z * list Z))
  : list (Z * list Z) :=
  match ls with
  | [] => []
  | _ :: _ => (0, cstr file) :: map (fun nl => (fst nl, take 256 (snd nl))) ls
  end.

(** A file the two workers scan as one pass would: empty, or without NUL
    byte, of a size an [int] can count, and with a first newline at or
    after the middle that ends a line which is not empty. *)
Definition scannable (byte_ok : Z -> Prop) (m : list Z) : Prop :=
  m = []
  \/ (Forall (fun c => c <> 0 /\ byte_ok c) m
      /\ Z.of_nat (length m) < 2 ^ 31 - 1
      /\ exists k,
           Z.of_nat (length m) / 2 <= k /\ rd m k = NL
           /\ (forall j, Z.of_nat (length m) / 2 <= j < k -> rd m j <> NL)
           /\ 1 <= k /\ rd m (k - 1) <> NL).

(* ================================================================== *)
(** * Part II: properties                                              *)
(* ================================================================== *)

(** ** Buffers *)

Lemma rd_nth (buf : list Z) (i : Z) :
  0 <= i -> rd buf i = nth (Z.to_nat i) buf 0.
Proof. intros Hi. unfold rd. destruct (Z.ltb_spec i 0); [lia | reflexivity]. Qed.

Lemma rd_of_nat (buf : list Z) (n : nat) : rd buf (Z.of_nat n) = nth n buf 0.
Proof. rewrite rd_nth by lia. now rewrite Nat2Z.id. Qed.

Lemma rd_beyond (buf : list Z) (i : Z) :
  Z.of_nat (length buf) <= i -> rd buf i = 0.
Proof.
  intros Hi. rewrite rd_nth by lia. apply nth_overflow. lia.
Qed.

Lemma cstr_no_nul (buf : list Z) :
  Forall (fun c => c <> 0) buf -> cstr buf = buf.
Proof.
  induction 1 as [|c rest Hc _ IH]; simpl; [reflexivity|].
  destruct (Z.eqb_spec c 0); [contradiction | now rewrite IH].
Qed.

(** ** Occurrences *)

Lemma occurs_match_at (pattern text : list Z) (tsize : Z) :
  0 <= tsize <= Z.of_nat (length text) ->
  occurs pattern (take (Z.to_nat tsize) text) <->
  exists i, 0 <= i /\ i + Z.of_nat (length pattern) <= tsize /\
            match_at pattern text i.
Proof.
  intros Hts. split.
  - intros (before & after & Heq).
    exists (Z.of_nat (length before)).
    assert (Hlen : length (take (Z.to_nat tsize) text) = Z.to_nat tsize)
      by (rewrite length_take; lia).
    rewrite Heq, !length_app in Hlen.
    split; [lia | split; [lia |]].
    intros j Hj.
    replace (Z.of_nat (length before) + j)
      with (Z.of_nat (length before + Z.to_nat j)) by lia.
    rewrite rd_of_nat, rd_nth by lia.
    assert (Hn : nth (length before + Z.to_nat j) text 0
                 = nth (length before + Z.to_nat j) (take (Z.to_nat tsize) text) 0).
    { rewrite <- (take_drop (Z.to_nat tsize) text) at 1.
      rewrite app_nth1; [reflexivity | rewrite length_take; lia]. }
    rewrite Hn, Heq.
    rewrite app_nth2 by lia.
    replace (length before + Z.to_nat j - length before)%nat with (Z.to_nat j) by lia.
    rewrite app_nth1 by lia. reflexivity.
  - intros (i & Hi0 & Hi & Hm).
    exists (take (Z.to_nat i) (take (Z.to_nat tsize) text)),
           (drop (Z.to_nat i + length pattern) (take (Z.to_nat tsize) text)).
    assert (Hp : pattern = take (length pattern) (drop (Z.to_nat i) (take (Z.to_nat tsize) text))).
    { apply (nth_ext _ _ 0 0).
      - rewrite length_take, length_drop, length_take. lia.
      - intros n Hn.
        rewrite <- (rd_of_nat pattern), <- Hm by lia.
        rewrite nth_firstn.
        destruct (Nat.ltb_spec n (length pattern)) as [_|]; [|lia].
        rewrite nth_skipn, nth_firstn.
        destruct (Nat.ltb_spec (Z.to_nat i + n) (Z.to_nat tsize)) as [_|]; [|lia].
        rewrite rd_nth by lia. f_equal. lia. }
    set (L := take (Z.to_nat tsize) text) in *.
    assert (Hsplit : L = take (Z.to_nat i) L
                         ++ take (length pattern) (drop (Z.to_nat i) L)
                         ++ drop (Z.to_nat i + length pattern) L)
      by (now rewrite app_assoc, take_take_drop, take_drop).
    now rewrite <- Hp in Hsplit.
Qed.

Lemma memcmp_eq_true (a : list Z) (ai : Z) (b : list Z) (bi n : Z) :
  memcmp_eq a ai b bi n = true <->
  forall j, 0 <= j < n -> rd a (ai + j) = rd b (bi + j).
Proof.
  unfold memcmp_eq. rewrite forallb_forall. split.
  - intros H j Hj. specialize (H (Z.to_nat j)).
    rewrite Z2Nat.id in H by lia. apply Z.eqb_eq, H, in_seq. lia.
  - intros H j Hj. apply in_seq in Hj. apply Z.eqb_eq, H. lia.
Qed.

Lemma Forall_rd (P : Z -> Prop) (buf : list Z) (j : Z) :
  Forall P buf -> 0 <= j < Z.of_nat (length buf) -> P (rd buf j).
Proof.
  intros HF Hj. rewrite rd_nth by lia.
  rewrite List.Forall_forall in HF. apply HF, nth_In. lia.
Qed.

(** *** The skip table *)

Lemma rd_insert (buf : list Z) (i j v : Z) :
  0 <= i < Z.of_nat (length buf) -> 0 <= j ->
  rd (<[Z.to_nat i := v]> buf) j = if j =? i then v else rd buf j.
Proof.
  intros Hi Hj. rewrite !rd_nth by lia. rewrite !nth_lookup.
  destruct (Z.eqb_spec j i) as [->|Hne].
  - rewrite list_lookup_insert_eq by lia. reflexivity.
  - rewrite list_lookup_insert_ne by lia. reflexivity.
Qed.

Lemma pre_bmh_fill_spec (pattern : list Z) :
  Forall (fun c => 0 < c <= 127) pattern ->
  forall rest done skipt,
    pattern = done ++ rest ->
    skipt_ok pattern skipt (Z.of_nat (length done)) ->
    exists skipt',
      pre_bmh_fill rest (Z.of_nat (length done)) (Z.of_nat (length pattern)) skipt
      = (false, skipt')
      /\ skipt_ok pattern skipt' (Z.of_nat (length pattern)).
Proof.
  intros Hpat rest. induction rest as [|c rest IH]; intros done skipt Heq Hok.
  - exists skipt. split; [reflexivity|].
    rewrite Heq, app_nil_r in *. exact Hok.
  - simpl.
    assert (Hc : 0 < c <= 127).
    { rewrite List.Forall_forall in Hpat. apply Hpat. rewrite Heq.
      apply in_or_app. right. now left. }
    assert (Hrdc : rd pattern (Z.of_nat (length done)) = c).
    { rewrite rd_of_nat, Heq, app_nth2 by lia.
      now rewrite Nat.sub_diag. }
    destruct (Z.ltb_spec (Z.of_nat (length done)) (Z.of_nat (length pattern) - 1))
      as [Hlt|Hge].
    + destruct (Z.ltb_spec c 0) as [|_]; [lia|].
      destruct Hok as (Hlen & Hrange & Hlast).
      replace (Z.of_nat (length done) + 1)
        with (Z.of_nat (length (done ++ [c])))
        by (rewrite length_app; simpl; lia).
      apply IH; [now rewrite <- app_assoc|].
      split; [now rewrite length_insert|]. split.
      * intros c' Hc'. rewrite rd_insert by lia.
        destruct (Z.eqb_spec c' c); [lia | now apply Hrange].
      * intros k Hk Hk'. rewrite length_app in Hk. simpl in Hk.
        rewrite rd_insert.
        2: lia.
        2: { assert (0 < rd pattern k <= 127); [|lia].
             apply (Forall_rd (fun c => 0 < c <= 127)); [assumption | lia]. }
        destruct (Z.eqb_spec (rd pattern k) c) as [He|Hne]; [lia|].
        apply Hlast; [|lia].
        assert (k <> Z.of_nat (length done)) by congruence. lia.
    + exists skipt. split; [reflexivity|].
      destruct Hok as (Hlen & Hrange & Hlast).
      split; [assumption|]. split; [assumption|].
      intros k Hk Hk'. apply Hlast; lia.
Qed.

Lemma skipt_ok_init (pattern : list Z) :
  (1 <= length pattern)%nat ->
  skipt_ok pattern (replicate 256 (Z.of_nat (length pattern))) 0.
Proof.
  intros Hlen. split; [apply length_replicate|]. split.
  - intros c Hc. rewrite rd_nth, nth_lookup by lia.
    rewrite lookup_replicate_2 by lia. simpl. lia.
  - intros k Hk. lia.
Qed.

(** What [pre_bmh] leaves for a pattern of plain ASCII bytes. *)
Lemma pre_bmh_ascii (pattern : list Z) :
  Forall (fun c => 0 < c <= 127) pattern ->
  (1 <= length pattern)%nat ->
  let ms := pre_bmh pattern in
  m_psize ms = Z.of_nat (length pattern)
  /\ m_parser ms = (if Z.of_nat (length pattern) =? 1 then P_strstr else P_bmh)
  /\ skipt_ok pattern (m_skipt ms) (Z.of_nat (length pattern)).
Proof.
  intros Hpat Hlen. unfold pre_bmh.
  assert (Hc : cstr pattern = pattern).
  { apply cstr_no_nul. eapply Forall_impl; [exact Hpat|]. simpl. lia. }
  unfold strlen. rewrite Hc.
  destruct (pre_bmh_fill_spec pattern Hpat pattern [] _ eq_refl
              (skipt_ok_init pattern Hlen)) as (skipt' & Hfill & Hok).
  change (Z.of_nat (@length Z [])) with 0 in Hfill.
  rewrite Hfill. cbn [m_psize m_parser m_skipt]. auto.
Qed.

(** *** The loops of [bmh] *)

Section Horspool.
Variables (pattern text skipt : list Z) (tsize : Z).
Hypothesis Hpat : Forall (fun c => 0 < c <= 127) pattern.
Hypothesis Hlen : (2 <= length pattern)%nat.
Hypothesis Htext : Forall (fun c => -128 <= c <= 127) text.
Hypothesis Hts : 0 <= tsize <= Z.of_nat (length text).
Hypothesis Hline : forall i, 0 <= i < tsize -> rd text i <> 0.
Hypothesis Hskipt : skipt_ok pattern skipt (Z.of_nat (length pattern)).

Local Abbreviation psize := (Z.of_nat (length pattern)).

Lemma pattern_positive (j : Z) : 0 <= j < psize -> 0 < rd pattern j.
Proof.
  intros Hj.
  apply (Forall_rd (fun c => 0 < c <= 127) pattern j Hpat Hj).
Qed.

Lemma text_char (i : Z) : -128 <= rd text i <= 127.
Proof.
  destruct (Z.ltb_spec i 0) as [Hneg|Hpos].
  - unfold rd. destruct (Z.ltb_spec i 0); lia.
  - destruct (Z.ltb_spec i (Z.of_nat (length text))) as [Hin|Hout].
    + apply (Forall_rd (fun c => -128 <= c <= 127) text i Htext). lia.
    + rewrite rd_beyond by lia. lia.
Qed.

Lemma bmh_test (i : Z) :
  0 <= i ->
  (rd text (i + psize - 1) =? rd pattern (psize - 1))
    && (rd text i =? rd pattern 0)
    && memcmp_eq text (i + 1) pattern 1 (psize - 2) = true
  <-> match_at pattern text i.
Proof.
  intros Hi. rewrite !andb_true_iff, !Z.eqb_eq, memcmp_eq_true. split.
  - intros [[Hlast Hfirst] Hmid] j Hj.
    destruct (Z.eq_dec j 0) as [->|Hj0]; [now rewrite Z.add_0_r|].
    destruct (Z.eq_dec j (psize - 1)) as [->|Hjl].
    { now replace (i + (psize - 1)) with (i + psize - 1) by lia. }
    specialize (Hmid (j - 1)).
    replace (i + 1 + (j - 1)) with (i + j) in Hmid by lia.
    replace (1 + (j - 1)) with j in Hmid by lia.
    apply Hmid. lia.
  - intros Hm. repeat split.
    + replace (i + psize - 1) with (i + (psize - 1)) by lia. apply Hm. lia.
    + rewrite <- (Z.add_0_r i) at 1. apply Hm. lia.
    + intros j Hj. replace (i + 1 + j) with (i + (1 + j)) by lia.
      apply Hm. lia.
Qed.

(** A window whose last byte is negative holds no ASCII pattern, nor
    does any window that covers that byte. *)
Lemma negative_anchor (i j : Z) :
  rd text (i + psize - 1) < 0 -> i <= j < i + psize ->
  ~ match_at pattern text j.
Proof.
  intros Hneg Hj Hm.
  specialize (Hm (i + psize - 1 - j)).
  replace (j + (i + psize - 1 - j)) with (i + psize - 1) in Hm by lia.
  assert (0 < rd pattern (i + psize - 1 - j)) by (apply pattern_positive; lia).
  lia.
Qed.

Lemma bmh_skip_spec (fuel : nat) :
  forall i, 0 <= i ->
    Z.max 0 (Z.of_nat (length text) - i) < Z.of_nat fuel ->
    no_match_below pattern text tsize i ->
    exists i', bmh_skip fuel text psize i = Some i'
               /\ no_match_below pattern text tsize i'
               /\ (if rd text (i + psize - 1) <? 0 then i + psize <= i'
                   else i' = i).
Proof.
  induction fuel as [|fuel IH]; intros i Hi Hfuel Hno; [lia|].
  simpl. destruct (Z.ltb_spec (rd text (i + psize - 1)) 0) as [Hneg|Hpos].
  - assert (Hin : i + psize - 1 < Z.of_nat (length text)).
    { destruct (Z.ltb_spec (i + psize - 1) (Z.of_nat (length text))); [assumption|].
      rewrite rd_beyond in Hneg by lia. lia. }
    destruct (IH (i + psize)) as (i' & Hi' & Hno' & Hstep); [lia | lia | |].
    + intros j Hj Hjm.
      destruct (Z.ltb_spec j i); [apply Hno; lia|].
      apply (negative_anchor i); [assumption | lia].
    + exists i'. split; [assumption|]. split; [assumption|].
      destruct (rd text (i + psize + psize - 1) <? 0); lia.
  - exists i. auto.
Qed.

(** The skip taken at a positive anchor byte passes no occurrence. *)
Lemma positive_anchor (i j : Z) :
  0 <= i -> 0 < rd text (i + psize - 1) ->
  i < j < i + rd skipt (rd text (i + psize - 1)) ->
  ~ match_at pattern text j.
Proof.
  intros Hi Hpos Hj Hm.
  destruct Hskipt as (_ & Hrange & Hlast).
  pose proof (text_char (i + psize - 1)) as Hc.
  specialize (Hrange (rd text (i + psize - 1)) ltac:(lia)).
  specialize (Hm (i + psize - 1 - j) ltac:(lia)).
  replace (j + (i + psize - 1 - j)) with (i + psize - 1) in Hm by lia.
  specialize (Hlast (i + psize - 1 - j) ltac:(lia) ltac:(lia)).
  rewrite <- Hm in Hlast. lia.
Qed.

Lemma bmh_loop_unfold (fuel : nat) (i : Z) :
  bmh_loop (S fuel) skipt psize text pattern tsize i =
  if i <=? tsize - psize then
    if (rd text (i + psize - 1) =? rd pattern (psize - 1))
       && (rd text i =? rd pattern 0)
       && memcmp_eq text (i + 1) pattern 1 (psize - 2)
    then Some (Some i)
    else if rd text (i + psize - 1) >? 0
    then bmh_loop fuel skipt psize text pattern tsize
           (i + rd skipt (rd text (i + psize - 1)))
    else match bmh_skip (S (length text)) text psize i with
         | None => None
         | Some i' => bmh_loop fuel skipt psize text pattern tsize i'
         end
  else Some None.
Proof. reflexivity. Qed.

Lemma bmh_loop_spec (fuel : nat) :
  forall i, 0 <= i ->
    Z.max 0 (tsize - i) < Z.of_nat fuel ->
    no_match_below pattern text tsize i ->
    exists r, bmh_loop fuel skipt psize text pattern tsize i = Some r
              /\ match r with
                 | Some k => 0 <= k /\ k + psize <= tsize
                             /\ match_at pattern text k
                 | None => forall j, 0 <= j -> j + psize <= tsize ->
                                     ~ match_at pattern text j
                 end.
Proof.
  induction fuel as [|fuel IH]; intros i Hi Hfuel Hno; [lia|].
  rewrite bmh_loop_unfold.
  destruct (Z.leb_spec i (tsize - psize)) as [Hin|Hout].
  - destruct (_ && _ && _) eqn:Htest.
    + exists (Some i). split; [reflexivity|].
      apply bmh_test in Htest; [|assumption]. repeat split; [lia..|assumption].
    + assert (Hnot : ~ match_at pattern text i).
      { intros Hm. apply bmh_test in Hm; [|assumption]. congruence. }
      assert (Hnz : rd text (i + psize - 1) <> 0) by (apply Hline; lia).
      destruct (Z.gtb_spec (rd text (i + psize - 1)) 0) as [Hpos|Hneg].
      * destruct Hskipt as (_ & Hrange & _).
        pose proof (text_char (i + psize - 1)) as Hc.
        specialize (Hrange (rd text (i + psize - 1)) ltac:(lia)).
        apply IH; [lia | lia |].
        intros j Hj Hjm.
        destruct (Z.ltb_spec j i); [apply Hno; lia|].
        destruct (Z.eq_dec j i) as [->|]; [assumption|].
        apply (positive_anchor i); [assumption | lia | lia].
      * destruct (bmh_skip_spec (S (length text)) i Hi ltac:(lia) Hno)
          as (i' & Hskip & Hno' & Hstep).
        rewrite Hskip.
        destruct (Z.ltb_spec (rd text (i + psize - 1)) 0); [|lia].
        apply IH; [lia | lia | assumption].
  - exists None. split; [reflexivity|].
    intros j Hj Hjm. apply Hno; lia.
Qed.
End Horspool.

(** *** [strstr] *)

Lemma is_prefix_true (needle hay : list Z) :
  is_prefix needle hay = true <-> exists after, hay = needle ++ after.
Proof.
  revert hay. induction needle as [|a needle IH]; intros hay; simpl.
  - split; [intros _; now exists hay | reflexivity].
  - destruct hay as [|b hay].
    + split; [discriminate | intros (after & H); discriminate].
    + rewrite andb_true_iff, Z.eqb_eq, IH. split.
      * intros (-> & after & ->). now exists after.
      * intros (after & H). injection H as -> ->. split; [reflexivity | now exists after].
Qed.

Lemma find_sub_occurs (needle hay : list Z) (pos : Z) :
  find_sub needle hay pos <> None <-> occurs needle hay.
Proof.
  revert pos. induction hay as [|b hay IH]; intros pos; simpl.
  - destruct (is_prefix needle []) eqn:Hp.
    + split; [intros _ | discriminate].
      apply is_prefix_true in Hp as (after & Hp). now exists [], after.
    + split; [congruence|]. intros (before & after & Heq).
      destruct before; [|discriminate]. simpl in Heq.
      assert (is_prefix needle [] = true) by (apply is_prefix_true; now exists after).
      congruence.
  - destruct (is_prefix needle (b :: hay)) eqn:Hp.
    + split; [intros _ | discriminate].
      apply is_prefix_true in Hp as (after & Hp). now exists [], after.
    + rewrite IH. split.
      * intros (before & after & ->). now exists (b :: before), after.
      * intros (before & after & Heq). destruct before as [|b' before].
        -- simpl in Heq.
           assert (is_prefix needle (b :: hay) = true)
             by (apply is_prefix_true; now exists after).
           congruence.
        -- injection Heq as -> ->. now exists before, after.
Qed.

Lemma cstr_take (text : list Z) (n : nat) :
  (forall i, (i < n)%nat -> nth i text 0 <> 0) ->
  nth n text 0 = 0 ->
  cstr text = take n text.
Proof.
  revert n. induction text as [|c text IH]; intros n Hline Hend.
  - now rewrite take_nil.
  - destruct n as [|n]; simpl in *.
    + now rewrite Hend.
    + pose proof (Hline 0%nat ltac:(lia)) as Hc. simpl in Hc.
      destruct (Z.eqb_spec c 0); [contradiction|].
      f_equal. apply IH; [|assumption].
      intros i Hi. apply (Hline (S i)). lia.
Qed.

Lemma cstr_line (text : list Z) (tsize : Z) :
  0 <= tsize ->
  (forall i, 0 <= i < tsize -> rd text i <> 0) ->
  rd text tsize = 0 ->
  cstr text = take (Z.to_nat tsize) text.
Proof.
  intros Hts Hline Hend. apply cstr_take.
  - intros i Hi. rewrite <- rd_of_nat. apply Hline. lia.
  - now rewrite <- rd_nth.
Qed.

(** ** Machine integers *)

Lemma int_wrap_small (z : Z) : - 2 ^ 31 <= z < 2 ^ 31 -> int_wrap z = z.
Proof. intros Hz. unfold int_wrap. rewrite Z.mod_small; lia. Qed.

Lemma uint_wrap_small (z : Z) : 0 <= z < 2 ^ 32 -> uint_wrap z = z.
Proof. intros Hz. unfold uint_wrap. now rewrite Z.mod_small. Qed.

Lemma uint_int_uint (z : Z) : uint_wrap (int_wrap (uint_wrap z)) = uint_wrap z.
Proof.
  unfold uint_wrap, int_wrap.
  rewrite Zminus_mod_idemp_l.
  replace (z mod 2 ^ 32 + 2 ^ 31 - 2 ^ 31) with (z mod 2 ^ 32) by lia.
  apply Z.mod_mod. lia.
Qed.

(** ** Reads, writes and [strchr] *)

Lemma length_wr (buf : list Z) (i v : Z) : length (wr buf i v) = length buf.
Proof. unfold wr. destruct (i <? 0); [reflexivity | apply length_insert]. Qed.

Lemma rd_wr (buf : list Z) (i j v : Z) :
  rd (wr buf i v) j =
  if (j =? i) && (0 <=? i) && (i <? Z.of_nat (length buf)) then v else rd buf j.
Proof.
  unfold wr. destruct (Z.ltb_spec i 0) as [Hneg|Hpos].
  - destruct (Z.leb_spec 0 i); [lia|]. now rewrite andb_false_r.
  - destruct (Z.leb_spec 0 i); [|lia]. rewrite andb_true_r.
    destruct (Z.ltb_spec i (Z.of_nat (length buf))) as [Hin|Hout].
    + rewrite andb_true_r.
      destruct (Z.ltb_spec j 0) as [Hj|Hj].
      * unfold rd. destruct (Z.ltb_spec j 0); [|lia].
        destruct (Z.eqb_spec j i); [lia | reflexivity].
      * apply rd_insert; lia.
    + rewrite andb_false_r. now rewrite list_insert_ge by lia.
Qed.

Lemma rd_wr_other (buf : list Z) (i j v : Z) :
  j <> i -> rd (wr buf i v) j = rd buf j.
Proof. intros Hne. rewrite rd_wr. destruct (Z.eqb_spec j i); [lia | reflexivity]. Qed.

Lemma rd_ptr_add (buf : list Z) (p i : Z) :
  0 <= p -> 0 <= i -> rd (ptr_add buf p) i = rd buf (p + i).
Proof.
  intros Hp Hi. unfold ptr_add. rewrite !rd_nth by lia.
  rewrite nth_skipn. f_equal. lia.
Qed.

Lemma strchr_from_Some (c : Z) :
  c <> 0 ->
  forall rest pos k,
    strchr_from rest pos c = Some k <->
    pos <= k /\ nth (Z.to_nat (k - pos)) rest 0 = c
    /\ forall j, (j < Z.to_nat (k - pos))%nat ->
                 nth j rest 0 <> c /\ nth j rest 0 <> 0.
Proof.
  intros Hc rest. induction rest as [|x rest IH]; intros pos k; simpl.
  - destruct (Z.eqb_spec c 0); [contradiction|]. split; [discriminate|].
    intros (_ & Hk & _). destruct (Z.to_nat (k - pos)); simpl in Hk; congruence.
  - destruct (Z.eqb_spec x c) as [->|Hxc].
    + split.
      * intros [= <-]. rewrite Z.sub_diag. simpl. repeat split; lia.
      * intros (Hle & Hk & Hfirst).
        destruct (Z.to_nat (k - pos)) as [|n] eqn:Hn.
        -- f_equal. lia.
        -- specialize (Hfirst 0%nat ltac:(lia)). simpl in Hfirst. tauto.
    + destruct (Z.eqb_spec x 0) as [->|Hx0].
      * split; [discriminate|]. intros (Hle & Hk & Hfirst).
        destruct (Z.to_nat (k - pos)) as [|n] eqn:Hn.
        -- simpl in Hk. congruence.
        -- specialize (Hfirst 0%nat ltac:(lia)). simpl in Hfirst. tauto.
      * rewrite IH. split.
        -- intros (Hle & Hk & Hfirst).
           replace (Z.to_nat (k - pos)) with (S (Z.to_nat (k - (pos + 1)))) by lia.
           split; [lia|]. split; [exact Hk|].
           intros [|j] Hj; simpl; [tauto|]. apply Hfirst. lia.
        -- intros (Hle & Hk & Hfirst).
           destruct (Z.to_nat (k - pos)) as [|n] eqn:Hn.
           { simpl in Hk. congruence. }
           replace (Z.to_nat (k - (pos + 1))) with n by lia.
           split; [lia|]. split; [exact Hk|].
           intros j Hj. apply (Hfirst (S j)). lia.
Qed.

(** [strchr] returns the first [c] at or after [p] that no NUL
    precedes. *)
Lemma strchr_Some (buf : list Z) (p c k : Z) :
  0 <= p -> c <> 0 ->
  strchr buf p c = Some k <->
  p <= k /\ rd buf k = c /\ forall j, p <= j < k -> rd buf j <> c /\ rd buf j <> 0.
Proof.
  intros Hp Hc. unfold strchr. rewrite (strchr_from_Some c Hc). split.
  - intros (Hle & Hk & Hfirst). split; [assumption|]. split.
    + rewrite <- Hk, <- rd_nth, rd_ptr_add by lia. f_equal. lia.
    + intros j Hj. specialize (Hfirst (Z.to_nat (j - p)) ltac:(lia)).
      rewrite <- rd_nth, rd_ptr_add in Hfirst by lia.
      now replace (p + (j - p)) with j in Hfirst by lia.
  - intros (Hle & Hk & Hfirst). split; [assumption|]. split.
    + rewrite <- rd_nth, rd_ptr_add by lia. rewrite <- Hk. f_equal. lia.
    + intros j Hj. rewrite <- rd_of_nat, rd_ptr_add by lia.
      apply Hfirst. lia.
Qed.

Lemma strchr_in_buffer (buf : list Z) (p c k : Z) :
  0 <= p -> c <> 0 -> strchr buf p c = Some k ->
  p <= k < Z.of_nat (length buf).
Proof.
  intros Hp Hc H. apply strchr_Some in H as (Hle & Hk & _); [|assumption..].
  split; [assumption|].
  destruct (Z.ltb_spec k (Z.of_nat (length buf))); [assumption|].
  rewrite rd_beyond in Hk by lia. congruence.
Qed.

(** Writing NULs does not let [strchr] find something it did not find
    before. *)
Lemma strchr_wr_None (buf : list Z) (p c e : Z) :
  0 <= p -> c <> 0 ->
  strchr buf p c = None -> strchr (wr buf e 0) p c = None.
Proof.
  intros Hp Hc Hnone.
  destruct (strchr (wr buf e 0) p c) as [k|] eqn:Hk; [|reflexivity].
  exfalso. apply strchr_Some in Hk as (Hle & Hk & Hfirst); [|assumption..].
  assert (Hsame : forall j, rd (wr buf e 0) j <> 0 -> rd buf j = rd (wr buf e 0) j).
  { intros j Hj. rewrite rd_wr in *.
    destruct ((j =? e) && (0 <=? e) && (e <? Z.of_nat (length buf)));
      [congruence | reflexivity]. }
  assert (Hfound : strchr buf p c = Some k).
  { apply strchr_Some; [assumption..|]. split; [assumption|]. split.
    - rewrite Hsame; [assumption | congruence].
    - intros j Hj. destruct (Hfirst j Hj) as [H1 H2].
      rewrite Hsame by assumption. tauto. }
  congruence.
Qed.

(** A write before [p] is not seen from [p] on. *)
Lemma ptr_add_wr_before (buf : list Z) (p e v : Z) :
  0 <= p -> e < p -> ptr_add (wr buf e v) p = ptr_add buf p.
Proof.
  intros Hp He. unfold ptr_add, wr.
  destruct (Z.ltb_spec e 0); [reflexivity|]. apply drop_insert_lt. lia.
Qed.

Lemma strchr_wr_before (buf : list Z) (p c e v : Z) :
  0 <= p -> e < p -> strchr (wr buf e v) p c = strchr buf p c.
Proof. intros Hp He. unfold strchr. now rewrite ptr_add_wr_before. Qed.

(** ** The scanning loop of the workers *)

Lemma worker_loop_unfold parser fuel m p e line_count res :
  worker_loop parser (S fuel) m p e line_count res =
  if p <? e then
    match strchr m p NL with
    | None =>
        Some {| w_mem := m; w_res := res; w_line_count := line_count; w_p := p |}
    | Some endline =>
        match parser (ptr_add (wr m endline 0) p) (endline - p) with
        | None => None
        | Some matched =>
            worker_loop parser fuel (wr m endline 0) (endline + 1) e
              (int_wrap (line_count + 1))
              (if matched
               then res ++ [ {| wr_line := strncpy (ptr_add (wr m endline 0) p)
                                             (line_size (endline - p));
                                wr_index := line_count |} ]
               else res)
        end
    end
  else Some {| w_mem := m; w_res := res; w_line_count := line_count; w_p := p |}.
Proof. reflexivity. Qed.

Lemma NL_not_NUL : NL <> 0.
Proof. discriminate. Qed.

(** Line numbers: the loop numbers the lines it sees from [line_count]
    on, one per newline consumed, so on a file an [int] can count the
    results carry numbers between the first and the last count. *)
Lemma worker_loop_counts parser fuel :
  forall m p e line_count res w,
    worker_loop parser fuel m p e line_count res = Some w ->
    0 <= p -> 1 <= line_count ->
    line_count + Z.max 0 (Z.of_nat (length m) - p) < 2 ^ 31 ->
    Forall (fun r => 1 <= wr_index r < line_count) res ->
    length (w_mem w) = length m
    /\ line_count <= w_line_count w
    /\ w_line_count w + Z.max 0 (Z.of_nat (length m) - w_p w)
       <= line_count + Z.max 0 (Z.of_nat (length m) - p)
    /\ p <= w_p w
    /\ Forall (fun r => 1 <= wr_index r < w_line_count w) (w_res w).
Proof.
  induction fuel as [|fuel IH]; intros m p e line_count res w Hrun Hp Hlc Hroom Hres;
    [discriminate|].
  rewrite worker_loop_unfold in Hrun.
  destruct (p <? e).
  2: { injection Hrun as <-. simpl. repeat split; (lia || assumption). }
  destruct (strchr m p NL) as [endline|] eqn:Hchr.
  2: { injection Hrun as <-. simpl. repeat split; (lia || assumption). }
  pose proof (strchr_in_buffer m p NL endline Hp NL_not_NUL Hchr) as Hend.
  destruct (parser _ _) as [matched|]; [|discriminate].
  rewrite int_wrap_small in Hrun by lia.
  apply IH in Hrun.
  - rewrite length_wr in Hrun. destruct Hrun as (H1 & H2 & H3 & H4 & H5).
    repeat split; (lia || assumption).
  - lia.
  - lia.
  - rewrite length_wr. lia.
  - assert (Hold : Forall (fun r => 1 <= wr_index r < line_count + 1) res).
    { eapply Forall_impl; [exact Hres|]. simpl. intros r Hr. lia. }
    destruct matched; [|assumption].
    apply Forall_app. split; [assumption|].
    constructor; [simpl; lia | constructor].
Qed.

(** The loop returns when the matcher does. *)
Lemma worker_loop_total parser fuel :
  (forall text tsize, parser text tsize <> None) ->
  forall m p e line_count res,
    0 <= p ->
    Z.max 0 (Z.of_nat (length m) - p) < Z.of_nat fuel ->
    worker_loop parser fuel m p e line_count res <> None.
Proof.
  intros Hparser. induction fuel as [|fuel IH]; intros m p e line_count res Hp Hfuel;
    [lia|].
  rewrite worker_loop_unfold.
  destruct (p <? e); [|discriminate].
  destruct (strchr m p NL) as [endline|] eqn:Hchr; [|discriminate].
  pose proof (strchr_in_buffer m p NL endline Hp NL_not_NUL Hchr) as Hend.
  destruct (parser _ _) as [matched|] eqn:Hm; [|now apply Hparser in Hm].
  apply IH; [lia|]. rewrite length_wr. lia.
Qed.

(** Past a point from which no newline can be reached the bound of the
    loop does not matter. *)
Lemma worker_loop_bound parser fuel :
  forall m p e1 e2 line_count res,
    0 <= p -> 0 <= e1 <= e2 ->
    (forall q, e1 <= q -> strchr m q NL = None) ->
    option_map (fun w => (w_mem w, w_res w, w_line_count w))
      (worker_loop parser fuel m p e1 line_count res)
    = option_map (fun w => (w_mem w, w_res w, w_line_count w))
        (worker_loop parser fuel m p e2 line_count res).
Proof.
  induction fuel as [|fuel IH]; intros m p e1 e2 line_count res Hp He Hnone;
    [reflexivity|].
  rewrite !worker_loop_unfold.
  destruct (Z.ltb_spec p e1) as [Hlt|Hge].
  - destruct (Z.ltb_spec p e2); [|lia].
    destruct (strchr m p NL) as [endline|] eqn:Hchr; [|reflexivity].
    pose proof (strchr_in_buffer m p NL endline Hp NL_not_NUL Hchr) as Hend.
    destruct (parser _ _) as [matched|]; [|reflexivity].
    apply IH; [lia | lia |].
    intros q Hq. apply strchr_wr_None; [lia | exact NL_not_NUL | now apply Hnone].
  - destruct (Z.ltb_spec p e2); [|reflexivity].
    now rewrite (Hnone p Hge).
Qed.

(** What the loop cannot reach before it runs it cannot reach after. *)
Lemma worker_loop_keeps_None parser fuel :
  forall m p e line_count res w q,
    worker_loop parser fuel m p e line_count res = Some w ->
    0 <= q -> strchr m q NL = None -> strchr (w_mem w) q NL = None.
Proof.
  induction fuel as [|fuel IH]; intros m p e line_count res w q Hrun Hq Hnone;
    [discriminate|].
  rewrite worker_loop_unfold in Hrun.
  destruct (p <? e); [|now injection Hrun as <-].
  destruct (strchr m p NL) as [endline|]; [|now injection Hrun as <-].
  destruct (parser _ _) as [matched|]; [|discriminate].
  eapply IH; [exact Hrun | assumption |].
  now apply strchr_wr_None; [| exact NL_not_NUL |].
Qed.

Lemma strchr_None_intro (buf : list Z) (p c : Z) :
  0 <= p -> c <> 0 -> (forall j, p <= j -> rd buf j <> c) ->
  strchr buf p c = None.
Proof.
  intros Hp Hc Hno. destruct (strchr buf p c) as [k|] eqn:Hk; [|reflexivity].
  apply strchr_Some in Hk as (Hle & Hk & _); [|assumption..].
  now apply Hno in Hle.
Qed.

(** ** The split point *)

Lemma parse_file_Some (file m : list Z) (midline : Z) :
  m <> [] ->
  parse_file file m midline =
  Some {| fp_name := file; fp_start := 0;
          fp_mid := match strchr m (Z.of_nat (length m) / 2) NL with
                    | None => Z.of_nat (length m) - 1
                    | Some mid_newline => mid_newline + 1
                    end;
          fp_size := uint_wrap (Z.of_nat (length m));
          fp_midline := midline |}.
Proof.
  intros Hm. unfold parse_file.
  destruct (Z.eqb_spec (Z.of_nat (length m)) 0) as [H0|]; [|reflexivity].
  destruct m; [contradiction | simpl in H0; lia].
Qed.

(** ** The copy of a matched line *)

(** The copy of a line of at most 255 bytes is the line and its
    terminator; the copy of a longer line is its first 256 bytes, with no
    terminator. *)
Lemma stored_line (line rest : list Z) :
  Forall (fun c => c <> 0) line ->
  let len := Z.of_nat (length line) in
  strncpy (line ++ 0 :: rest) (line_size len)
  = if len <=? 255 then line ++ [0] else take 256 line.
Proof.
  intros Hline len. unfold strncpy, line_size.
  assert (Hc : cstr (line ++ 0 :: rest) = line).
  { clear len. induction Hline as [|c line Hc _ IH]; simpl; [reflexivity|].
    destruct (Z.eqb_spec c 0); [contradiction | now rewrite IH]. }
  rewrite Hc. subst len.
  destruct (Z.geb_spec (Z.of_nat (length line) + 1) 256) as [Hlong|Hshort].
  - destruct (Z.leb_spec (Z.of_nat (length line)) 255) as [H255|H256].
    + rewrite take_ge by (change (Z.to_nat 256) with 256%nat; lia).
      replace (Z.to_nat 256 - length line)%nat with 1%nat
        by (change (Z.to_nat 256) with 256%nat; lia).
      reflexivity.
    + rewrite length_take.
      replace (Z.to_nat 256 - Z.to_nat 256 `min` length line)%nat with 0%nat
        by (change (Z.to_nat 256) with 256%nat; lia).
      now rewrite app_nil_r.
  - destruct (Z.leb_spec (Z.of_nat (length line)) 255) as [_|]; [|lia].
    rewrite take_ge by lia.
    replace (Z.to_nat (Z.of_nat (length line) + 1) - length line)%nat with 1%nat by lia.
    reflexivity.
Qed.

(** ** Stores made of groups are well formed *)

Lemma groups_wf (es : list entry) : groups es -> wf_store es.
Proof.
  induction 1 as [|es h ls Hg [IH1 IH2] Hh Hne Hls].
  - split; intros i (e & He & _); rewrite lookup_nil in He; discriminate.
  - assert (Hin_ls : forall i e, (length es < i)%nat ->
              (es ++ h :: ls) !! i = Some e -> is_file_entry e = false).
    { intros i e Hi He.
      rewrite lookup_app_r, lookup_cons_ne_0 in He by lia.
      rewrite Forall_lookup in Hls. eapply Hls, He. }
    assert (Hat : (es ++ h :: ls) !! length es = Some h)
      by (now rewrite list_lookup_middle).
    split.
    + intros i (e & He & Hline).
      destruct (Nat.lt_trichotomy i (length es)) as [Hi|[->|Hi]].
      * rewrite lookup_app_l in He by assumption.
        destruct (IH1 i) as (j & Hj & (e' & He' & Hf') & Hbetween);
          [now exists e|].
        exists j. split; [assumption|]. split.
        -- exists e'. rewrite lookup_app_l by lia. auto.
        -- intros k Hk (ek & Hek & Hfk). apply (Hbetween k Hk).
           exists ek. rewrite lookup_app_l in Hek by lia. auto.
      * rewrite Hat in He. congruence.
      * exists (length es). split; [assumption|]. split; [now exists h|].
        intros k Hk (ek & Hek & Hfk).
        rewrite (Hin_ls k ek) in Hfk; [discriminate | lia | assumption].
    + intros j (e & He & Hhead).
      destruct (Nat.lt_trichotomy j (length es)) as [Hj|[->|Hj]].
      * rewrite lookup_app_l in He by assumption.
        destruct (IH2 j) as (e' & He' & Hl'); [now exists e|].
        exists e'. split; [|assumption].
        apply lookup_lt_Some in He' as Hlt.
        now rewrite lookup_app_l.
      * destruct ls as [|l ls]; [contradiction|].
        exists l. split.
        -- rewrite lookup_app_r by lia.
           now replace (S (length es) - length es)%nat with 1%nat by lia.
        -- now inversion Hls.
      * rewrite (Hin_ls j e) in Hhead; [discriminate | lia | assumption].
Qed.

(** A grouped store starts with a header and ends with a match line. *)
Lemma groups_first (es : list entry) (e : entry) :
  groups es -> es !! 0%nat = Some e -> is_file_entry e = true.
Proof.
  intros Hg He. destruct (is_file_entry e) eqn:Hf; [reflexivity|].
  destruct (groups_wf es Hg) as [H1 _].
  destruct (H1 0%nat) as (j & Hj & _); [now exists e | lia].
Qed.

Lemma groups_last (es : list entry) (e : entry) :
  groups es -> last es = Some e -> is_file_entry e = false.
Proof.
  intros Hg He. destruct Hg as [|es h ls _ _ Hne Hls]; [discriminate|].
  destruct (exists_last Hne) as (ls' & l & ->).
  change (es ++ h :: ls' ++ [l]) with (es ++ (h :: ls') ++ [l]) in He.
  rewrite app_assoc, last_snoc in He. injection He as <-.
  apply Forall_app in Hls as [_ Hl]. now inversion Hl.
Qed.

(** ** What one round of [save_thread] appends *)

Lemma add_lines_entries (text : worker_result -> list Z) (nb : Z -> Z)
    (res : list worker_result) :
  forall s,
    s_entries (fold_left
                 (fun s r => mainsearch_add_line s (wr_line r) (nb (wr_index r)))
                 res s)
    = s_entries s ++ saved_lines nb res.
Proof.
  induction res as [|r res IH]; intros s; simpl.
  - now rewrite app_nil_r.
  - rewrite IH. simpl. now rewrite <- app_assoc.
Qed.

Lemma save_thread_entries (s : search) (fp : filep_t)
    (res0 res1 : list worker_result) :
  s_entries (save_thread s fp res0 res1)
  = s_entries s ++ saved_header fp res0 res1
    ++ saved_lines (fun i => i) res0
    ++ saved_lines (fun i => int_wrap (uint_wrap (i + fp_midline fp))) res1.
Proof.
  unfold save_thread.
  rewrite (add_lines_entries wr_line
             (fun i => int_wrap (uint_wrap (i + fp_midline fp)))).
  rewrite (add_lines_entries wr_line (fun i => i)).
  assert (Hhead : s_entries (match res0, res1 with
                             | [], [] => s
                             | _, _ => mainsearch_add_file s (fp_name fp)
                             end)
                  = s_entries s ++ saved_header fp res0 res1).
  { unfold saved_header. destruct res0, res1; simpl; try reflexivity.
    now rewrite app_nil_r. }
  rewrite Hhead. now rewrite <- !app_assoc.
Qed.

Lemma saved_lines_not_files (nb : Z -> Z) (res : list worker_result) :
  Forall (fun r => 1 <= uint_wrap (nb (wr_index r))) res ->
  Forall (fun e => is_file_entry e = false) (saved_lines nb res).
Proof.
  intros H. unfold saved_lines. rewrite Forall_map.
  eapply Forall_impl; [exact H|]. simpl. intros r Hr.
  unfold is_file_entry. simpl. destruct (Z.eqb_spec (uint_wrap (nb (wr_index r))) 0); lia.
Qed.

(** The line numbers the two workers report for a file that an [int] can
    count, and the numbers [save_thread] stores for them. *)
Lemma worker_numbers parser (file m : list Z) (midline : Z) fp w0 w1 :
  Z.of_nat (length m) < 2 ^ 31 - 1 ->
  parse_file file m midline = Some fp ->
  worker_thread parser 0 fp m = Some w0 ->
  worker_thread parser 1 (set_midline fp (w_line_count w0)) (w_mem w0) = Some w1 ->
  Forall (fun r => 1 <= wr_index r < 2 ^ 31) (w_res w0)
  /\ Forall (fun r => 1 <= wr_index r < 2 ^ 31) (w_res w1)
  /\ 0 <= fp_midline (set_midline fp (w_line_count w0)) < 2 ^ 31.
Proof.
  intros Hsize Hparse H0 H1.
  unfold parse_file in Hparse.
  destruct (Z.eqb_spec (Z.of_nat (length m)) 0) as [|Hnonempty]; [discriminate|].
  set (mid := match strchr m (Z.of_nat (length m) / 2) NL with
              | Some mid_newline => mid_newline + 1
              | None => Z.of_nat (length m) - 1
              end) in Hparse.
  assert (Hmid : 0 <= mid).
  { unfold mid. destruct (strchr _ _ _) as [k|] eqn:Hk; [|lia].
    assert (Hhalf : 0 <= Z.of_nat (length m) / 2) by (apply Z.div_pos; lia).
    pose proof (strchr_in_buffer _ _ _ _ Hhalf NL_not_NUL Hk). lia. }
  injection Hparse as <-.
  unfold worker_thread, worker_start, worker_end in H0, H1.
  change (0 =? 0) with true in H0. change (1 =? 0) with false in H1.
  cbn [fp_start fp_mid fp_size set_midline] in H0, H1.
  apply worker_loop_counts in H0 as (Hlen0 & Hlc0 & Hroom0 & _ & Hres0);
    [| lia | lia | lia | constructor].
  apply worker_loop_counts in H1 as (Hlen1 & Hlc1 & Hroom1 & _ & Hres1);
    [| lia | lia | rewrite Hlen0; lia | constructor].
  rewrite Hlen0 in Hroom1.
  split; [|split].
  - eapply Forall_impl; [exact Hres0|]. simpl. lia.
  - eapply Forall_impl; [exact Hres1|]. simpl. lia.
  - simpl. rewrite uint_wrap_small; lia.
Qed.

(** One file more keeps the store grouped. *)
Lemma scan_file_groups parser (s s' : search) (midline midline' : Z)
    (file m : list Z) :
  Z.of_nat (length m) < 2 ^ 31 - 1 ->
  scan_file parser s midline file m = Some (s', midline') ->
  groups (s_entries s) -> groups (s_entries s').
Proof.
  intros Hsize Hscan Hg. unfold scan_file in Hscan.
  destruct (parse_file file m midline) as [fp|] eqn:Hparse;
    [|now injection Hscan as <- _].
  destruct (worker_thread parser 0 fp m) as [w0|] eqn:H0; [|discriminate].
  destruct (worker_thread parser 1 _ (w_mem w0)) as [w1|] eqn:H1; [|discriminate].
  injection Hscan as <- _.
  destruct (worker_numbers parser file m midline fp w0 w1 Hsize Hparse H0 H1)
    as (Hres0 & Hres1 & Hml).
  rewrite save_thread_entries.
  set (fp' := set_midline fp (w_line_count w0)) in *. clearbody fp'.
  assert (Hl0 : Forall (fun e => is_file_entry e = false)
                  (saved_lines (fun i => i) (w_res w0))).
  { apply saved_lines_not_files. eapply Forall_impl; [exact Hres0|].
    simpl. intros r Hr. rewrite uint_wrap_small; lia. }
  assert (Hl1 : Forall (fun e => is_file_entry e = false)
                  (saved_lines (fun i => int_wrap (uint_wrap (i + fp_midline fp')))
                     (w_res w1))).
  { apply saved_lines_not_files. eapply Forall_impl; [exact Hres1|].
    simpl. intros r Hr. rewrite uint_int_uint, uint_wrap_small; lia. }
  unfold saved_header.
  destruct (w_res w0) as [|r0 res0] eqn:E0, (w_res w1) as [|r1 res1] eqn:E1.
  - simpl. now rewrite app_nil_r.
  - apply groups_app; [assumption | reflexivity | discriminate |].
    apply Forall_app; auto.
  - apply groups_app; [assumption | reflexivity | discriminate |].
    apply Forall_app; auto.
  - apply groups_app; [assumption | reflexivity | discriminate |].
    apply Forall_app; auto.
Qed.

(** ** What the loop of [subsearch] builds *)

Section Subsearch.
Context `{RL : RegexLib}.
Variable child_regex : list Z.

Lemma sub_lines_not_files (ls : list entry) :
  Forall (fun e => is_file_entry e = false) ls ->
  Forall (fun e => is_file_entry e = false) (sub_lines child_regex ls).
Proof.
  intros Hls. unfold sub_lines. rewrite Forall_map.
  induction Hls as [|e ls He _ IH]; simpl; [constructor|].
  destruct (regex child_regex (e_data e)); [constructor|]; assumption.
Qed.

Lemma subsearch_step_line (st : sub_state) (e : entry) :
  is_file_entry e = false ->
  subsearch_step child_regex st e =
  if regex child_regex (e_data e) then
    {| ss_orphan_file := false; ss_new_data := copy_data (e_data e);
       ss_entries :=
         (if ss_orphan_file st
          then ss_entries st ++ [ {| e_data := ss_new_data st; e_line := 0 |} ]
          else ss_entries st)
         ++ [ {| e_data := copy_data (e_data e); e_line := e_line e |} ];
       ss_nb_lines := uint_wrap (ss_nb_lines st + 1) |}
  else st.
Proof. intros He. unfold subsearch_step. now rewrite He. Qed.

Lemma sub_lines_cons (e : entry) (ls : list entry) :
  sub_lines child_regex (e :: ls) =
  if regex child_regex (e_data e)
  then {| e_data := copy_data (e_data e); e_line := e_line e |}
       :: sub_lines child_regex ls
  else sub_lines child_regex ls.
Proof. unfold sub_lines. simpl. now destruct (regex child_regex (e_data e)). Qed.

(** Match lines met after a header was flushed are appended one by
    one. *)
Lemma subsearch_lines_flushed (ls : list entry) :
  Forall (fun e => is_file_entry e = false) ls ->
  forall st, ss_orphan_file st = false ->
    ss_entries (fold_left (subsearch_step child_regex) ls st)
    = ss_entries st ++ sub_lines child_regex ls.
Proof.
  induction 1 as [|e ls He _ IH]; intros st Hst.
  - simpl. now rewrite app_nil_r.
  - cbn [fold_left]. rewrite subsearch_step_line, sub_lines_cons by assumption.
    destruct (regex child_regex (e_data e)).
    + rewrite IH by reflexivity. cbn [ss_entries]. rewrite Hst.
      now rewrite <- app_assoc.
    + now apply IH.
Qed.

(** Match lines met while a header is pending: the header goes in
    before the first line kept, or not at all. *)
Lemma subsearch_lines_pending (ls : list entry) :
  Forall (fun e => is_file_entry e = false) ls ->
  forall st, ss_orphan_file st = true ->
    ss_entries (fold_left (subsearch_step child_regex) ls st)
    = ss_entries st
      ++ match sub_lines child_regex ls with
         | [] => []
         | kept => {| e_data := ss_new_data st; e_line := 0 |} :: kept
         end.
Proof.
  induction 1 as [|e ls He Hls IH]; intros st Hst.
  - simpl. now rewrite app_nil_r.
  - cbn [fold_left]. rewrite subsearch_step_line, sub_lines_cons by assumption.
    destruct (regex child_regex (e_data e)).
    + rewrite subsearch_lines_flushed by (assumption || reflexivity).
      cbn [ss_entries]. rewrite Hst. now rewrite <- !app_assoc.
    + now apply IH.
Qed.

Lemma subsearch_fold_groups (es : list entry) :
  groups es ->
  groups (ss_entries (fold_left (subsearch_step child_regex) es
                        {| ss_orphan_file := false; ss_new_data := [];
                           ss_entries := []; ss_nb_lines := 0 |})).
Proof.
  induction 1 as [|es h ls Hg IH Hh Hne Hls]; [constructor|].
  rewrite fold_left_app. cbn [fold_left].
  set (st := fold_left (subsearch_step child_regex) es _) in *.
  assert (Hstep : subsearch_step child_regex st h =
                  {| ss_orphan_file := true; ss_new_data := copy_data (e_data h);
                     ss_entries := ss_entries st; ss_nb_lines := ss_nb_lines st |})
    by (unfold subsearch_step; now rewrite Hh).
  rewrite Hstep, subsearch_lines_pending by (assumption || reflexivity).
  cbn [ss_entries ss_new_data].
  pose proof (sub_lines_not_files ls Hls) as Hkept.
  destruct (sub_lines child_regex ls) as [|k kept].
  - now rewrite app_nil_r.
  - apply groups_app; [assumption | reflexivity | discriminate | assumption].
Qed.

Lemma subsearch_loop_groups (father_entries : list entry) :
  groups father_entries ->
  groups (ss_entries (subsearch_loop child_regex father_entries)).
Proof. apply subsearch_fold_groups. Qed.

(** Each iteration appends nothing, a copy of the line, or the pending
    header and a copy of the line; the copy keeps the line number. *)
Lemma subsearch_step_appends (st : sub_state) (e : entry) :
  let line := {| e_data := copy_data (e_data e); e_line := e_line e |} in
  let header := {| e_data := ss_new_data st; e_line := 0 |} in
  ss_entries (subsearch_step child_regex st e) = ss_entries st
  \/ (is_file_entry e = false
      /\ (ss_entries (subsearch_step child_regex st e)
          = ss_entries st ++ [line]
          \/ ss_entries (subsearch_step child_regex st e)
             = ss_entries st ++ [header; line])).
Proof.
  unfold subsearch_step. destruct (is_file_entry e) eqn:He; [now left|].
  destruct (regex child_regex (e_data e)); [|now left].
  right. split; [reflexivity|]. simpl.
  destruct (ss_orphan_file st); [right | left]; [|reflexivity].
  now rewrite <- app_assoc.
Qed.
End Subsearch.

(** ** Every reachable store is grouped *)

Lemma page_up_entries LINES cur cur' :
  page_up LINES cur = Some cur' -> s_entries cur' = s_entries cur.
Proof.
  unfold page_up. destruct (is_file _ cur); [|discriminate].
  now intros [= <-].
Qed.

Lemma page_down_entries LINES cur cur' :
  page_down LINES cur = Some cur' -> s_entries cur' = s_entries cur.
Proof.
  unfold page_down. destruct (nbentry cur =? 0); [now intros [= <-]|].
  destruct (is_file _ cur); [|discriminate].
  now intros [= <-].
Qed.

Lemma do_move_entries LINES k cur cur' :
  do_move LINES k cur = Some cur' -> s_entries cur' = s_entries cur.
Proof.
  destruct k; simpl.
  - unfold cursor_up. destruct (s_cursor cur =? 0); [apply page_up_entries|].
    destruct (is_file _ cur); [|discriminate].
    destruct (_ <? 0).
    + intros H. now apply page_up_entries in H.
    + now intros [= <-].
  - unfold cursor_down.
    destruct (s_cursor cur =? LINES - 1); [apply page_down_entries|].
    destruct (is_file _ cur); [|discriminate].
    destruct (_ >? LINES - 1).
    + intros H. now apply page_down_entries in H.
    + now intros [= <-].
  - apply page_up_entries.
  - apply page_down_entries.
Qed.

Section Reachable.
Context `{RL : RegexLib}.
Variable parser : list Z -> Z -> option bool.
Variable LINES : Z.

Lemma heap_groups_insert (st : state) (k : nat) (s : search) (c : nat) :
  heap_groups st -> groups (s_entries s) ->
  heap_groups {| heap := <[k := s]> (heap st); current := c |}.
Proof.
  intros Hst Hs k' s'. simpl. rewrite lookup_insert.
  destruct (decide (k = k')); [now intros [= <-] | apply Hst].
Qed.

Lemma subsearch_groups (typed : list Z) (father : nat) (st st' : state)
    (r : option nat) :
  heap_groups st -> subsearch typed father st = (st', r) -> heap_groups st'.
Proof.
  intros Hst. unfold subsearch.
  destruct (rd typed 0 =? 0); [now intros [= <- _]|].
  destruct (heap st !! father) as [f|] eqn:Hf; [|now intros [= <- _]].
  pose proof (Hst father f Hf) as Hgf.
  assert (H1 : heap_groups
                 {| heap := <[father := set_child f (Some (fresh (dom (heap st))))]>
                              (heap st);
                    current := current st |})
    by (now apply heap_groups_insert).
  unfold is_regex_valid. cbn [s_pattern].
  destruct (regcomp (strncpy typed LINE_MAX)); intros [= <- _].
  - apply (heap_groups_insert {| heap := _; current := current st |}).
    + apply (heap_groups_insert {| heap := _; current := current st |});
        [exact H1 | constructor].
    + cbn [set_entries s_entries]. now apply subsearch_loop_groups.
  - apply (heap_groups_insert {| heap := _; current := current st |});
      [exact H1 | constructor].
Qed.

Lemma main_switch_groups (ch : key) (st st' : state) :
  heap_groups st -> main_switch LINES ch st = Some (Running st') ->
  heap_groups st'.
Proof.
  intros Hst. unfold main_switch.
  destruct (heap st !! current st) as [cur|] eqn:Hcur; [|discriminate].
  destruct ch as [|k|typed| | | |].
  - now intros [= <-].
  - destruct (do_move LINES k cur) as [cur'|] eqn:Hmove; [|discriminate].
    intros [= <-]. apply heap_groups_insert; [assumption|].
    rewrite (do_move_entries _ _ _ _ Hmove). eapply Hst, Hcur.
  - destruct (subsearch typed (current st) st) as [st1 tmp] eqn:Hsub.
    pose proof (subsearch_groups _ _ _ _ _ Hst Hsub) as H1.
    destruct tmp; intros [= <-]; [|assumption].
    intros k s. apply H1.
  - now intros [= <-].
  - destruct (s_father cur) as [tmp|]; [|discriminate].
    unfold clean_search.
    destruct (delete (current st) (heap st) !! tmp) as [f|] eqn:Hf; [|discriminate].
    intros [= <-].
    assert (Hdel : heap_groups {| heap := delete (current st) (heap st);
                                  current := tmp |}).
    { intros k s. simpl. rewrite lookup_delete.
      destruct (decide (current st = k)); [discriminate | apply Hst]. }
    apply (heap_groups_insert _ _ _ _ Hdel). apply (Hdel tmp f Hf).
  - now intros [= <-].
  - now intros [= <-].
Qed.

(** A turn of the main loop that goes on is a turn of the [switch]. *)
Lemma main_iteration_switch (ch : key) (st st' : state) :
  main_iteration LINES ch st = Some (Running st') ->
  main_switch LINES ch st = Some (Running st').
Proof.
  unfold main_iteration.
  destruct ch; try discriminate;
    (destruct (main_switch LINES _ st) as [[st1|site]|]; [|discriminate..];
     destruct (heap st1 !! mainsearch_key) as [ms|]; [|discriminate];
     destruct (_ && _); [discriminate|]; now intros [= <-]).
Qed.

Lemma main_iteration_groups (ch : key) (st st' : state) :
  heap_groups st -> main_iteration LINES ch st = Some (Running st') ->
  heap_groups st'.
Proof.
  intros Hst Hkey. apply main_iteration_switch in Hkey.
  eapply main_switch_groups; eauto.
Qed.

Lemma step_groups (x y : state * Z) :
  step parser LINES x y -> heap_groups (fst x) -> heap_groups (fst y).
Proof.
  intros Hstep. destruct Hstep as [st ml file m ms ms' ml' Hms Hsize Hscan
                                  | st ml ms Hms
                                  | st ml ch st' Hkey]; simpl; intros Hst.
  - apply heap_groups_insert; [assumption|].
    eapply scan_file_groups; eauto.
  - apply heap_groups_insert; [assumption|]. apply (Hst _ _ Hms).
  - eapply main_iteration_groups; eauto.
Qed.

Lemma initial_groups : heap_groups initial_state.
Proof.
  intros k s. unfold initial_state. simpl.
  rewrite lookup_singleton. destruct (decide (mainsearch_key = k)); [|discriminate].
  intros [= <-]. constructor.
Qed.

Lemma reachable_groups (st : state) :
  reachable parser LINES st -> heap_groups st.
Proof.
  intros (ml & Hrtc).
  change st with (fst (st, ml)).
  eapply (rtc_ind_r (fun y => heap_groups (fst y)) (initial_state, 0));
    [apply initial_groups | | exact Hrtc].
  intros y z _ Hstep Hy. eapply step_groups; eauto.
Qed.
End Reachable.

(** ** [is_file] and [find_file] on a well-formed store *)

Lemma is_file_Some (s : search) (i : Z) (b : bool) :
  is_file i s = Some b <->
  0 <= i /\ exists e, s_entries s !! Z.to_nat i = Some e /\ is_file_entry e = b.
Proof.
  unfold is_file. destruct (Z.ltb_spec i 0) as [Hneg|Hpos].
  - split; [discriminate | lia].
  - destruct (s_entries s !! Z.to_nat i) as [e|]; simpl.
    + split.
      * intros [= <-]. split; [assumption | now exists e].
      * intros (_ & e' & [= <-] & <-). reflexivity.
    + split; [discriminate|]. now intros (_ & e' & He & _).
Qed.

Lemma is_file_header (s : search) (i : nat) :
  is_file (Z.of_nat i) s = Some true <-> header_at (s_entries s) i.
Proof.
  rewrite is_file_Some, Nat2Z.id. unfold header_at. split.
  - now intros (_ & H).
  - intros H. split; [lia | assumption].
Qed.

Lemma is_file_line (s : search) (i : nat) :
  is_file (Z.of_nat i) s = Some false <-> line_at (s_entries s) i.
Proof.
  rewrite is_file_Some, Nat2Z.id. unfold line_at. split.
  - now intros (_ & H).
  - intros H. split; [lia | assumption].
Qed.

Lemma is_file_in_store (s : search) (i : Z) :
  0 <= i < nbentry s -> exists b, is_file i s = Some b.
Proof.
  intros Hi. unfold nbentry in Hi.
  destruct (lookup_lt_is_Some_2 (s_entries s) (Z.to_nat i)) as [e He]; [lia|].
  exists (is_file_entry e). apply is_file_Some. split; [lia | now exists e].
Qed.

Lemma find_file_loop_down (s : search) (fuel : nat) :
  forall i j, 0 <= j <= i -> i - j < Z.of_nat fuel ->
    is_file j s = Some true ->
    (forall k, j < k <= i -> is_file k s = Some false) ->
    find_file_loop fuel s i = Some j.
Proof.
  induction fuel as [|fuel IH]; intros i j Hj Hfuel Hhead Hlines; [lia|].
  simpl. destruct (Z.eq_dec i j) as [->|Hne].
  - now rewrite Hhead.
  - rewrite (Hlines i) by lia. apply IH; [lia | lia | assumption |].
    intros k Hk. apply Hlines. lia.
Qed.

(** On a well-formed store [find_file] returns, and what it returns is
    the nearest header at or before the index. *)
Lemma find_file_wf (s : search) (i : Z) :
  wf_store (s_entries s) -> 0 <= i < nbentry s ->
  exists j, find_file s i = Some j /\ 0 <= j <= i
            /\ is_file j s = Some true
            /\ forall k, j < k <= i -> is_file k s = Some false.
Proof.
  intros [Hlines _] Hi.
  destruct (is_file_in_store s i Hi) as [[|] Hb].
  - exists i. split; [|split; [lia | split; [assumption | intros; lia]]].
    apply find_file_loop_down; (lia || assumption || (intros; lia)).
  - destruct (Z_of_nat_complete i ltac:(lia)) as [n ->].
    apply is_file_line in Hb.
    destruct (Hlines _ Hb) as (j & Hj & Hhead & Hbetween).
    assert (Hk : forall k, Z.of_nat j < k <= Z.of_nat n -> is_file k s = Some false).
    { intros k Hk. destruct (is_file_in_store s k ltac:(lia)) as [[|] Hkb];
        [|assumption].
      destruct (Z.eq_dec k (Z.of_nat n)) as [->|Hne].
      - apply is_file_header in Hkb as (e & He & Hf).
        destruct Hb as (e' & He' & Hf'). congruence.
      - exfalso. apply (Hbetween (Z.to_nat k)); [lia|].
        apply is_file_header. now rewrite Z2Nat.id by lia. }
    exists (Z.of_nat j). split; [|split; [lia | split; [|assumption]]].
    + apply find_file_loop_down; [lia | lia | now apply is_file_header | assumption].
    + now apply is_file_header.
Qed.

(** ** Navigation *)

Lemma max_index_spec (LINES n : Z) :
  1 <= LINES -> 1 <= n ->
  let max_index := if n mod LINES =? 0 then n - LINES else n - n mod LINES in
  (LINES | max_index) /\ 0 <= max_index < n /\ n <= max_index + LINES
  /\ max_index + (n - 1) mod LINES = n - 1.
Proof.
  intros HL Hn.
  pose proof (Z.div_mod n LINES ltac:(lia)) as Hdm.
  pose proof (Z.mod_pos_bound n LINES ltac:(lia)) as Hr.
  destruct (Z.eqb_spec (n mod LINES) 0) as [H0|H0]; cbv zeta.
  - assert (Hq : 1 <= n / LINES) by nia.
    split; [exists (n / LINES - 1); lia|]. split; [nia|]. split; [lia|].
    rewrite <- (Z.mod_unique (n - 1) LINES (n / LINES - 1) (LINES - 1)); lia.
  - split; [exists (n / LINES); lia|].
    assert (Hq : 0 <= n / LINES) by (apply Z.div_pos; lia).
    split; [nia|]. split; [lia|].
    rewrite <- (Z.mod_unique (n - 1) LINES (n / LINES) (n mod LINES - 1)); lia.
Qed.

Lemma multiple_below (LINES a b n : Z) :
  1 <= LINES -> (LINES | a) -> (LINES | b) -> a < n -> n <= b + LINES ->
  a = b \/ a + LINES <= b.
Proof.
  intros HL [qa ->] [qb ->] Ha Hb.
  destruct (Z.eq_dec qa qb) as [->|Hne]; [now left | right].
  assert (qa < qb + 1) by nia. nia.
Qed.

Section Navigation.
Variable LINES : Z.
Hypothesis HLINES : 2 <= LINES.
Variable s : search.
Hypothesis Hwf : wf_store (s_entries s).

(** Consequences of well-formedness, in terms of [is_file]. *)
Lemma after_header (i : Z) :
  is_file i s = Some true -> is_file (i + 1) s = Some false.
Proof.
  intros Hi. assert (H0 : 0 <= i) by (apply is_file_Some in Hi; tauto).
  destruct (Z_of_nat_complete i H0) as [n ->].
  apply is_file_header in Hi.
  destruct Hwf as [_ H2]. apply H2 in Hi. apply is_file_line in Hi.
  now replace (Z.of_nat n + 1) with (Z.of_nat (S n)) by lia.
Qed.

Lemma before_header (i : Z) :
  1 <= i -> is_file i s = Some true -> is_file (i - 1) s = Some false.
Proof.
  intros Hi Hhead.
  assert (Hin : 0 <= i - 1 < nbentry s).
  { apply is_file_Some in Hhead as (_ & e & He & _).
    apply lookup_lt_Some in He. unfold nbentry. lia. }
  destruct (is_file_in_store s (i - 1) Hin) as [[|] Hb]; [|assumption].
  apply after_header in Hb. replace (i - 1 + 1) with i in Hb by lia. congruence.
Qed.

Lemma last_is_line : 1 <= nbentry s -> is_file (nbentry s - 1) s = Some false.
Proof.
  intros Hn.
  destruct (is_file_in_store s (nbentry s - 1) ltac:(lia)) as [[|] Hb];
    [|assumption].
  apply after_header in Hb. apply is_file_Some in Hb as (_ & e & He & _).
  apply lookup_lt_Some in He. unfold nbentry in *. lia.
Qed.

Lemma in_store_line (i : Z) : is_file i s = Some false -> 0 <= i < nbentry s.
Proof.
  intros Hi. apply is_file_Some in Hi as (H0 & e & He & _).
  apply lookup_lt_Some in He. unfold nbentry. lia.
Qed.
End Navigation.

Lemma nbentry_set_screen (s : search) (index cursor : Z) :
  nbentry (set_screen s index cursor) = nbentry s.
Proof. reflexivity. Qed.

Lemma is_file_set_screen (s : search) (index cursor i : Z) :
  is_file i (set_screen s index cursor) = is_file i s.
Proof. reflexivity. Qed.

Ltac screen :=
  unfold nav_inv, selected; cbn [set_screen s_index s_cursor];
  rewrite ?nbentry_set_screen, ?is_file_set_screen.

Ltac screen_done :=
  repeat split; try (assumption || lia || (intros _; assumption)).

Section Pages.
Variable LINES : Z.
Hypothesis HLINES : 2 <= LINES.
Variable s : search.
Hypothesis Hwf : wf_store (s_entries s).
Hypothesis Hdiv : (LINES | s_index s).
Hypothesis Hindex : 0 <= s_index s < nbentry s.

(** [page_down] lands on a match line, whatever the cursor was. *)
Lemma page_down_ok :
  exists s', page_down LINES s = Some s'
             /\ s_entries s' = s_entries s
             /\ nav_inv LINES s'
             /\ is_file (selected s') s' = Some false.
Proof.
  unfold page_down.
  destruct (Z.eqb_spec (nbentry s) 0) as [|_]; [lia|].
  destruct (max_index_spec LINES (nbentry s) ltac:(lia) ltac:(lia))
    as (Hmdiv & Hmrange & Hmtop & Hmlast).
  set (max_index := if nbentry s mod LINES =? 0 then nbentry s - LINES
                    else nbentry s - nbentry s mod LINES) in *.
  pose proof (Z.mod_pos_bound (nbentry s - 1) LINES ltac:(lia)) as Hmod.
  destruct (multiple_below LINES (s_index s) max_index (nbentry s)
              ltac:(lia) Hdiv Hmdiv ltac:(lia) Hmtop) as [Heq|Hlt].
  - (* last page *)
    destruct (Z.eqb_spec (s_index s) max_index) as [_|]; [|lia].
    destruct (Z.gtb_spec (s_index s + LINES) max_index) as [_|]; [|lia].
    rewrite Hmlast, (last_is_line s Hwf) by lia.
    eexists. split; [reflexivity|]. split; [reflexivity|].
    screen.
    replace ((nbentry s - 1) mod LINES + max_index) with (nbentry s - 1) by lia.
    assert (Hlast : is_file (nbentry s - 1) s = Some false)
      by (apply (last_is_line s Hwf); lia).
    screen_done.
  - (* a page further down *)
    destruct (Z.eqb_spec (s_index s) max_index) as [|_]; [lia|].
    destruct (Z.gtb_spec (s_index s + LINES) max_index) as [|_]; [lia|].
    rewrite Z.add_0_r.
    assert (Hnext : (LINES | s_index s + LINES))
      by (apply Z.divide_add_r; [assumption | apply Z.divide_refl]).
    destruct (is_file_in_store s (s_index s + LINES) ltac:(lia)) as [[|] Hb];
      rewrite Hb.
    + pose proof (after_header s Hwf _ Hb) as Hline.
      pose proof (in_store_line s _ Hline) as Hin.
      eexists. split; [reflexivity|]. split; [reflexivity|].
      screen.
      replace (0 + 1 + (s_index s + LINES)) with (s_index s + LINES + 1) by lia.
      split; [|exact Hline].
      screen_done.
    + eexists. split; [reflexivity|]. split; [reflexivity|].
      screen.
      rewrite Z.add_0_l. split; [|exact Hb].
      screen_done.
Qed.

(** [page_up] keeps the screen in order; on the first page it may leave
    the selection on a header. *)
Lemma page_up_ok :
  exists s', page_up LINES s = Some s'
             /\ s_entries s' = s_entries s
             /\ nav_inv LINES s'.
Proof.
  unfold page_up.
  destruct (Z.eqb_spec (s_index s) 0) as [H0|Hn0].
  - rewrite H0. destruct (Z.ltb_spec (0 - LINES) 0) as [_|]; [|lia].
    rewrite Z.add_0_r.
    destruct (is_file_in_store s 0 ltac:(lia)) as [b Hb]. rewrite Hb.
    change (0 =? 0) with true. rewrite andb_false_r.
    eexists. split; [reflexivity|]. split; [reflexivity|].
    screen.
    repeat split; try lia. apply Z.divide_0_r.
  - assert (Hge : LINES <= s_index s).
    { destruct Hdiv as [q Hq].
      assert (0 < q) by (destruct (Z.lt_trichotomy q 0) as [|[|]]; nia). nia. }
    destruct (Z.ltb_spec (s_index s - LINES) 0) as [|_]; [lia|].
    replace (s_index s - LINES + (LINES - 1)) with (s_index s - 1) by lia.
    assert (Hprev : (LINES | s_index s - LINES))
      by (apply Z.divide_sub_r; [assumption | apply Z.divide_refl]).
    destruct (is_file_in_store s (s_index s - 1) ltac:(lia)) as [b Hb].
    rewrite Hb.
    destruct (Z.eqb_spec (s_index s - LINES) 0) as [Hfirst|Hnot].
    + rewrite andb_false_r.
      eexists. split; [reflexivity|]. split; [reflexivity|].
      screen.
      screen_done.
    + rewrite andb_true_r. destruct b.
      * pose proof (before_header s Hwf (s_index s - 1) ltac:(lia) Hb) as Hline.
        eexists. split; [reflexivity|]. split; [reflexivity|].
        screen.
        replace (LINES - 1 - 1 + (s_index s - LINES)) with (s_index s - 1 - 1) by lia.
        screen_done.
      * eexists. split; [reflexivity|]. split; [reflexivity|].
        screen.
        replace (LINES - 1 + (s_index s - LINES)) with (s_index s - 1) by lia.
        screen_done.
Qed.
End Pages.

Section Cursor.
Variable LINES : Z.
Hypothesis HLINES : 2 <= LINES.
Variable s : search.
Hypothesis Hwf : wf_store (s_entries s).
Hypothesis Hinv : nav_inv LINES s.

Lemma nav_inv_index : 0 <= s_index s < nbentry s.
Proof. destruct Hinv as (_ & H0 & Hc & Hsel & _). unfold selected in Hsel. lia. Qed.

Lemma cursor_down_ok :
  exists s', cursor_down LINES s = Some s'
             /\ s_entries s' = s_entries s
             /\ nav_inv LINES s'
             /\ is_file (selected s') s' = Some false.
Proof.
  pose proof nav_inv_index as Hidx.
  destruct Hinv as (Hdiv & H0 & Hc & Hsel & Hline). unfold selected in Hsel.
  unfold cursor_down.
  destruct (Z.eqb_spec (s_cursor s) (LINES - 1)) as [Hbottom|Hnb].
  { now apply page_down_ok. }
  set (cursor := if s_cursor s + s_index s <? nbentry s - 1
                 then s_cursor s + 1 else s_cursor s).
  assert (Hcur : s_cursor s <= cursor <= s_cursor s + 1
                 /\ s_index s + cursor < nbentry s
                 /\ (cursor = s_cursor s -> s_index s + cursor = nbentry s - 1)).
  { unfold cursor. destruct (Z.ltb_spec (s_cursor s + s_index s) (nbentry s - 1)); lia. }
  clearbody cursor.
  destruct (is_file_in_store s (s_index s + cursor) ltac:(lia)) as [[|] Hb];
    rewrite Hb.
  - pose proof (after_header s Hwf _ Hb) as Hnext.
    pose proof (in_store_line s _ Hnext) as Hin.
    destruct (Z.gtb_spec (cursor + 1) (LINES - 1)) as [Hover|Hfit].
    + apply (page_down_ok LINES HLINES (set_screen s (s_index s) (cursor + 1)));
        assumption.
    + eexists. split; [reflexivity|]. split; [reflexivity|].
      screen.
      replace (cursor + 1 + s_index s) with (s_index s + cursor + 1) by lia.
      split; [|exact Hnext].
      screen_done.
  - destruct (Z.gtb_spec cursor (LINES - 1)) as [|_]; [lia|].
    eexists. split; [reflexivity|]. split; [reflexivity|].
    screen.
    replace (cursor + s_index s) with (s_index s + cursor) by lia.
    split; [|exact Hb].
    screen_done.
Qed.

Lemma cursor_up_ok :
  exists s', cursor_up LINES s = Some s'
             /\ s_entries s' = s_entries s
             /\ nav_inv LINES s'.
Proof.
  pose proof nav_inv_index as Hidx.
  destruct Hinv as (Hdiv & H0 & Hc & Hsel & Hline). unfold selected in Hsel.
  unfold cursor_up.
  destruct (Z.eqb_spec (s_cursor s) 0) as [Htop|Hnt].
  { now apply page_up_ok. }
  destruct (Z.gtb_spec (s_cursor s) 0) as [_|]; [|lia].
  destruct (is_file_in_store s (s_index s + (s_cursor s - 1)) ltac:(lia))
    as [[|] Hb]; rewrite Hb.
  - destruct (Z.ltb_spec (s_cursor s - 1 - 1) 0) as [Hunder|Hfit].
    + apply (page_up_ok LINES HLINES (set_screen s (s_index s) (s_cursor s - 1 - 1)));
        assumption.
    + pose proof (before_header s Hwf (s_index s + (s_cursor s - 1)) ltac:(lia) Hb) as Hprev.
      eexists. split; [reflexivity|]. split; [reflexivity|].
      screen.
      replace (s_cursor s - 1 - 1 + s_index s)
        with (s_index s + (s_cursor s - 1) - 1) by lia.
      screen_done.
  - destruct (Z.ltb_spec (s_cursor s - 1) 0) as [|_]; [lia|].
    eexists. split; [reflexivity|]. split; [reflexivity|].
    screen.
    replace (s_cursor s - 1 + s_index s) with (s_index s + (s_cursor s - 1)) by lia.
    screen_done.
Qed.
End Cursor.

(** One key, then any number of keys. *)
Lemma do_move_ok (LINES : Z) (k : move) (s : search) :
  2 <= LINES -> wf_store (s_entries s) -> nav_inv LINES s ->
  exists s', do_move LINES k s = Some s'
             /\ s_entries s' = s_entries s
             /\ nav_inv LINES s'
             /\ (match k with Down | PageDown => True | _ => False end ->
                 is_file (selected s') s' = Some false).
Proof.
  intros HL Hwf Hinv. pose proof (nav_inv_index LINES s Hinv) as Hidx.
  pose proof Hinv as (Hdiv & _).
  destruct k; simpl.
  - destruct (cursor_up_ok LINES HL s Hwf Hinv) as (s' & H1 & H2 & H3).
    exists s'. tauto.
  - destruct (cursor_down_ok LINES HL s Hwf Hinv) as (s' & H1 & H2 & H3 & H4).
    exists s'. tauto.
  - destruct (page_up_ok LINES HL s Hwf Hdiv Hidx) as (s' & H1 & H2 & H3).
    exists s'. tauto.
  - destruct (page_down_ok LINES HL s Hwf Hdiv Hidx) as (s' & H1 & H2 & H3 & H4).
    exists s'. tauto.
Qed.

Lemma do_moves_ok (LINES : Z) (ks : list move) :
  2 <= LINES ->
  forall s, wf_store (s_entries s) -> nav_inv LINES s ->
    exists s', do_moves LINES ks s = Some s'
               /\ s_entries s' = s_entries s
               /\ nav_inv LINES s'
               /\ (ends_down ks -> is_file (selected s') s' = Some false).
Proof.
  intros HL. induction ks as [|k ks IH]; intros s Hwf Hinv.
  - exists s. split; [reflexivity|]. split; [reflexivity|].
    split; [assumption|]. intros [].
  - destruct (do_move_ok LINES k s HL Hwf Hinv) as (s1 & Hk & Hes & Hinv1 & Hdown).
    simpl. rewrite Hk.
    destruct (IH s1) as (s' & Hks & Hes' & Hinv' & Hdown');
      [now rewrite Hes | assumption |].
    exists s'. split; [assumption|]. split; [congruence|]. split; [assumption|].
    unfold ends_down. destruct ks as [|k' ks'].
    + simpl in Hks. injection Hks as <-. simpl. destruct k; tauto.
    + intros Hend. apply Hdown'. exact Hend.
Qed.

(** ** Cutting the scanning loop in two *)

(** Enough fuel is enough. *)
Lemma worker_loop_fuel parser fuel :
  forall fuel' m p e line_count res w,
    worker_loop parser fuel m p e line_count res = Some w ->
    0 <= p ->
    Z.max 0 (Z.of_nat (length m) - p) < Z.of_nat fuel' ->
    worker_loop parser fuel' m p e line_count res = Some w.
Proof.
  induction fuel as [|fuel IH]; intros fuel' m p e line_count res w Hrun Hp Hfuel;
    [discriminate|].
  destruct fuel' as [|fuel']; [lia|].
  rewrite worker_loop_unfold in *.
  destruct (p <? e); [|assumption].
  destruct (strchr m p NL) as [endline|] eqn:Hchr; [|assumption].
  pose proof (strchr_in_buffer m p NL endline Hp NL_not_NUL Hchr) as Hend.
  destruct (parser _ _) as [matched|]; [|discriminate].
  eapply IH; [exact Hrun | lia |]. rewrite length_wr. lia.
Qed.

Lemma worker_loop_more_fuel parser fuel :
  forall fuel' m p e line_count res w,
    worker_loop parser fuel m p e line_count res = Some w ->
    (fuel <= fuel')%nat ->
    worker_loop parser fuel' m p e line_count res = Some w.
Proof.
  induction fuel as [|fuel IH]; intros fuel' m p e line_count res w Hrun Hle;
    [discriminate|].
  destruct fuel' as [|fuel']; [lia|].
  rewrite worker_loop_unfold in *.
  destruct (p <? e); [|assumption].
  destruct (strchr m p NL) as [endline|]; [|assumption].
  destruct (parser _ _) as [matched|]; [|discriminate].
  eapply IH; [exact Hrun | lia].
Qed.

(** A loop that its bound [e1] stopped can be carried on to a later bound
    [e2]: together the two runs are the run to [e2]. *)
Lemma worker_loop_split parser fuel :
  forall m p e1 e2 line_count res w1 fuel2 w2,
    e1 <= e2 ->
    worker_loop parser fuel m p e1 line_count res = Some w1 ->
    e1 <= w_p w1 ->
    worker_loop parser fuel2 (w_mem w1) (w_p w1) e2 (w_line_count w1) (w_res w1)
    = Some w2 ->
    worker_loop parser (fuel + fuel2) m p e2 line_count res = Some w2.
Proof.
  induction fuel as [|fuel IH];
    intros m p e1 e2 line_count res w1 fuel2 w2 He Hrun Hstop Hnext;
    [discriminate|].
  rewrite worker_loop_unfold in Hrun.
  destruct (Z.ltb_spec p e1) as [Hlt|Hge].
  - change (S fuel + fuel2)%nat with (S (fuel + fuel2)).
    rewrite worker_loop_unfold.
    destruct (Z.ltb_spec p e2); [|lia].
    destruct (strchr m p NL) as [endline|].
    2: { injection Hrun as <-. simpl in Hstop. lia. }
    destruct (parser _ _) as [matched|]; [|discriminate].
    eapply IH; eauto.
  - injection Hrun as <-. cbn [w_mem w_p w_line_count w_res] in *.
    eapply worker_loop_more_fuel; [exact Hnext | lia].
Qed.

(** A run that starts with line number [line_count + d] reports the
    numbers of the run that starts with [line_count], moved by [d]. *)
Lemma worker_loop_shift parser (d : Z) (before : list worker_result) fuel :
  forall m p e line_count res w,
    worker_loop parser fuel m p e line_count res = Some w ->
    0 <= p -> 1 <= line_count -> 0 <= d ->
    line_count + d + Z.max 0 (Z.of_nat (length m) - p) < 2 ^ 31 ->
    worker_loop parser fuel m p e (line_count + d)
      (before ++ map (shift_result d) res)
    = Some {| w_mem := w_mem w;
              w_res := before ++ map (shift_result d) (w_res w);
              w_line_count := w_line_count w + d;
              w_p := w_p w |}.
Proof.
  induction fuel as [|fuel IH]; intros m p e line_count res w Hrun Hp Hlc Hd Hroom;
    [discriminate|].
  rewrite worker_loop_unfold in *.
  destruct (p <? e); [|now injection Hrun as <-].
  destruct (strchr m p NL) as [endline|] eqn:Hchr; [|now injection Hrun as <-].
  pose proof (strchr_in_buffer m p NL endline Hp NL_not_NUL Hchr) as Hend.
  destruct (parser _ _) as [matched|]; [|discriminate].
  rewrite int_wrap_small in Hrun by lia.
  rewrite int_wrap_small by lia.
  replace (line_count + d + 1) with (line_count + 1 + d) by lia.
  apply IH in Hrun; [| lia | lia | lia | rewrite length_wr; lia].
  rewrite <- Hrun. f_equal.
  destruct matched; [|reflexivity].
  now rewrite map_app, app_assoc.
Qed.

(** [strchr] finds a byte that no NUL hides. *)
Lemma strchr_reaches (buf : list Z) (c k : Z) :
  c <> 0 -> rd buf k = c ->
  forall n p, Z.of_nat n = k - p -> 0 <= p ->
    (forall j, p <= j < k -> rd buf j <> 0) ->
    exists e, strchr buf p c = Some e /\ e <= k.
Proof.
  intros Hc Hk. induction n as [|n IH]; intros p Hn Hp Hnonul.
  - exists k. split; [|lia]. apply strchr_Some; [lia | assumption |].
    split; [lia|]. split; [assumption|]. intros j Hj. lia.
  - destruct (Z.eq_dec (rd buf p) c) as [Hpc|Hpc].
    + exists p. split; [|lia]. apply strchr_Some; [lia | assumption |].
      split; [lia|]. split; [assumption|]. intros j Hj. lia.
    + destruct (IH (p + 1)) as (e & He & Hek); [lia | lia | |].
      { intros j Hj. apply Hnonul. lia. }
      exists e. split; [|assumption].
      apply strchr_Some in He as (Hle & Hec & Hfirst); [| lia | assumption].
      apply strchr_Some; [lia | assumption |].
      split; [lia|]. split; [assumption|].
      intros j Hj. destruct (Z.eq_dec j p) as [->|Hne].
      * split; [assumption | apply Hnonul; lia].
      * apply Hfirst. lia.
Qed.

Section Split.
Variable parser : list Z -> Z -> option bool.
Variables (m : list Z) (k : Z).
Hypothesis Hnonul : forall j, 0 <= j < Z.of_nat (length m) -> rd m j <> 0.
Hypothesis Hk : rd m k = NL.
Hypothesis Hk1 : 1 <= k.
Hypothesis Hboundary : rd m (k - 1) <> NL.

Lemma split_in_file : k < Z.of_nat (length m).
Proof.
  destruct (Z.ltb_spec k (Z.of_nat (length m))); [assumption|].
  rewrite rd_beyond in Hk by lia. discriminate.
Qed.

(** When the line that ends at the split point is not empty, the first
    worker stops just after the split newline. *)
Lemma first_worker_stops fuel :
  forall mem p line_count res w,
    worker_loop parser fuel mem p k line_count res = Some w ->
    0 <= p <= k + 1 -> p <> k ->
    (forall j, p <= j -> rd mem j = rd m j) ->
    w_p w = k + 1.
Proof.
  pose proof split_in_file as Hin.
  induction fuel as [|fuel IH]; intros mem p line_count res w Hrun Hp Hpk Hsame;
    [discriminate|].
  rewrite worker_loop_unfold in Hrun.
  destruct (Z.ltb_spec p k) as [Hlt|Hge].
  2: { injection Hrun as <-. simpl. lia. }
  destruct (strchr_reaches mem NL k NL_not_NUL ltac:(rewrite Hsame by lia; exact Hk)
              (Z.to_nat (k - p)) p ltac:(lia) ltac:(lia)) as (e & He & Hek).
  { intros j Hj. rewrite Hsame by lia. apply Hnonul. lia. }
  rewrite He in Hrun.
  apply strchr_Some in He as (Hpe & Hec & _); [| lia | exact NL_not_NUL].
  rewrite Hsame in Hec by lia.
  destruct (parser _ _) as [matched|]; [|discriminate].
  assert (e <> k - 1) by congruence.
  eapply IH; [exact Hrun | lia | lia |].
  intros j Hj. rewrite rd_wr_other by lia. apply Hsame. lia.
Qed.
End Split.

(** The two workers and [save_thread] against one pass of the loop over
    the whole file: when the file holds no NUL byte, an [int] can count
    it, and the line that ends at the split point is not empty, the
    entries stored are those of the single pass. *)
Lemma split_scan_is_whole_scan parser (s s' : search) (midline midline' : Z)
    (file m : list Z) (k : Z) :
  (forall j, 0 <= j < Z.of_nat (length m) -> rd m j <> 0) ->
  Z.of_nat (length m) < 2 ^ 31 - 1 ->
  Z.of_nat (length m) / 2 <= k -> rd m k = NL ->
  (forall j, Z.of_nat (length m) / 2 <= j < k -> rd m j <> NL) ->
  1 <= k -> rd m (k - 1) <> NL ->
  scan_file parser s midline file m = Some (s', midline') ->
  exists w,
    worker_loop parser (S (length m)) m 0 (Z.of_nat (length m)) 1 [] = Some w
    /\ s_entries s'
       = s_entries s
         ++ match w_res w with
            | [] => []
            | _ => [ {| e_data := file; e_line := 0 |} ]
            end
         ++ saved_lines (fun i => i) (w_res w).
Proof.
  intros Hnonul Hsize Hhalf Hk Hfirst Hk1 Hboundary Hscan.
  pose proof (split_in_file m k Hk) as Hin.
  assert (Hm : m <> []) by (intros ->; simpl in Hin; lia).
  unfold scan_file in Hscan. rewrite parse_file_Some in Hscan by assumption.
  assert (Hchr : strchr m (Z.of_nat (length m) / 2) NL = Some k).
  { apply strchr_Some; [apply Z.div_pos; lia | exact NL_not_NUL |].
    split; [assumption|]. split; [assumption|].
    intros j Hj. split; [now apply Hfirst|]. apply Hnonul.
    assert (0 <= Z.of_nat (length m) / 2) by (apply Z.div_pos; lia). lia. }
  rewrite Hchr in Hscan.
  set (fp := {| fp_name := file; fp_start := 0; fp_mid := k + 1;
                fp_size := uint_wrap (Z.of_nat (length m));
                fp_midline := midline |}) in *.
  destruct (worker_thread parser 0 fp m) as [w0|] eqn:H0; [|discriminate].
  destruct (worker_thread parser 1 _ (w_mem w0)) as [w1|] eqn:H1; [|discriminate].
  injection Hscan as <- _.
  unfold worker_thread, worker_start, worker_end in H0, H1.
  change (0 =? 0) with true in H0. change (1 =? 0) with false in H1.
  cbn [fp fp_start fp_mid fp_size set_midline] in H0, H1.
  rewrite uint_wrap_small in H1 by lia.
  replace (k + 1 - 1) with k in H0 by lia.
  replace (0 + Z.of_nat (length m)) with (Z.of_nat (length m)) in H1 by lia.
  pose proof (first_worker_stops parser m k Hnonul Hk Hk1 Hboundary _ _ _ _ _ _ H0
                ltac:(lia) ltac:(lia) ltac:(reflexivity)) as Hstop.
  pose proof (worker_loop_counts _ _ _ _ _ _ _ _ H0 ltac:(lia) ltac:(lia)
                ltac:(lia) ltac:(constructor))
    as (Hlen0 & Hlc0 & Hroom0 & _ & Hres0).
  (* the second worker's run, renumbered, carries on the first worker's *)
  assert (Hroom1 : 1 + (w_line_count w0 - 1)
                   + Z.max 0 (Z.of_nat (length (w_mem w0)) - (k + 1)) < 2 ^ 31)
    by (rewrite Hlen0; lia).
  pose proof (worker_loop_shift parser (w_line_count w0 - 1) (w_res w0)
                _ _ _ _ _ _ _ H1 ltac:(lia) ltac:(lia) ltac:(lia) Hroom1) as Hnext.
  cbn [map] in Hnext. rewrite app_nil_r in Hnext.
  replace (1 + (w_line_count w0 - 1)) with (w_line_count w0) in Hnext by lia.
  rewrite <- Hstop in Hnext.
  pose proof (worker_loop_split parser _ _ _ k (Z.of_nat (length m)) _ _ _ _ _
                ltac:(lia) H0 ltac:(lia) Hnext) as Hwhole.
  apply worker_loop_fuel with (fuel' := S (length m)) in Hwhole; [| lia | lia].
  eexists. split; [exact Hwhole|].
  rewrite save_thread_entries. cbn [w_res fp_name set_midline fp_midline].
  f_equal. unfold saved_header, saved_lines.
  rewrite !map_app, map_map.
  assert (Hsecond :
    map (fun r => {| e_data := wr_line r;
                     e_line := uint_wrap (int_wrap (uint_wrap
                                 (wr_index r + uint_wrap (w_line_count w0 - 1)))) |})
        (w_res w1)
    = map (fun x => {| e_data := wr_line (shift_result (w_line_count w0 - 1) x);
                       e_line := uint_wrap
                                   (wr_index (shift_result (w_line_count w0 - 1) x)) |})
        (w_res w1)).
  { apply map_ext. intros r. cbn [shift_result wr_line wr_index].
    rewrite uint_int_uint. f_equal. f_equal.
    rewrite (uint_wrap_small (w_line_count w0 - 1)) by lia. reflexivity. }
  rewrite Hsecond.
  destruct (w_res w0) as [|r0 res0], (w_res w1) as [|r1 res1]; reflexivity.
Qed.

(** ** The scanning loop against the reference scan *)

Lemma lines_from_no_newline (rest cur : list Z) :
  Forall (fun c => c <> NL) rest -> lines_from rest cur = [].
Proof.
  intros H. revert cur. induction H as [|c rest Hc _ IH]; intros cur; simpl;
    [reflexivity|].
  destruct (Z.eqb_spec c NL); [contradiction | apply IH].
Qed.

Lemma lines_from_line (line rest cur : list Z) :
  Forall (fun c => c <> NL) line ->
  lines_from (line ++ NL :: rest) cur = (cur ++ line) :: lines_from rest [].
Proof.
  intros H. revert cur. induction H as [|c line Hc _ IH]; intros cur; simpl.
  - now rewrite app_nil_r.
  - destruct (Z.eqb_spec c NL); [contradiction|].
    rewrite IH. now rewrite <- app_assoc.
Qed.

(** From a place in a buffer without NUL, [strchr] finds either nothing,
    and no newline follows, or the end of the line that starts there. *)
Lemma strchr_from_line (rest : list Z) (pos : Z) :
  Forall (fun c => c <> 0) rest ->
  (strchr_from rest pos NL = None /\ Forall (fun c => c <> NL) rest)
  \/ exists line rest',
       rest = line ++ NL :: rest'
       /\ Forall (fun c => c <> NL) line
       /\ strchr_from rest pos NL = Some (pos + Z.of_nat (length line)).
Proof.
  intros H. revert pos. induction H as [|c rest Hc Hrest IH]; intros pos.
  - left. split; [reflexivity | constructor].
  - simpl. destruct (Z.eqb_spec c NL) as [->|Hnl].
    + right. exists [], rest. split; [reflexivity|]. split; [constructor|].
      simpl. f_equal. lia.
    + destruct (Z.eqb_spec c 0); [contradiction|].
      destruct (IH (pos + 1)) as [[Hnone Hno]|(line & rest' & -> & Hline & Hsome)].
      * left. split; [assumption | now constructor].
      * right. exists (c :: line), rest'. split; [reflexivity|].
        split; [now constructor|]. rewrite Hsome. simpl. f_equal. lia.
Qed.

Lemma cstr_before_nul (line rest : list Z) :
  Forall (fun c => c <> 0) line -> cstr (line ++ 0 :: rest) = line.
Proof.
  induction 1 as [|c line Hc _ IH]; simpl; [reflexivity|].
  destruct (Z.eqb_spec c 0); [contradiction | now rewrite IH].
Qed.

(** The text of a stored line, read as a string, is the line cut at 256
    bytes. *)
Lemma cstr_stored_line (line rest : list Z) :
  Forall (fun c => c <> 0) line ->
  cstr (strncpy (line ++ 0 :: rest) (line_size (Z.of_nat (length line))))
  = take 256 line.
Proof.
  intros Hline. rewrite stored_line by assumption. cbv zeta.
  destruct (Z.leb_spec (Z.of_nat (length line)) 255).
  - rewrite (cstr_before_nul line []) by assumption.
    now rewrite take_ge by lia.
  - apply cstr_no_nul. now apply Forall_take.
Qed.

Section Reference.
Variable parser : list Z -> Z -> option bool.
Variable matches : list Z -> bool.
Variable m : list Z.
Hypothesis Hnonul : Forall (fun c => c <> 0) m.
Hypothesis Hparser :
  forall line rest,
    Forall (fun c => c <> 0) line -> Forall (fun c => c <> NL) line ->
    parser (line ++ 0 :: rest) (Z.of_nat (length line)) = Some (matches line).

(** What the loop reports from a line start on is what the reference scan
    reports for the rest of the file. *)
Lemma worker_loop_reference fuel :
  forall mem p line_count res w,
    worker_loop parser fuel mem p (Z.of_nat (length m)) line_count res = Some w ->
    0 <= p <= Z.of_nat (length m) ->
    length mem = length m ->
    drop (Z.to_nat p) mem = drop (Z.to_nat p) m ->
    1 <= line_count ->
    line_count + (Z.of_nat (length m) - p) < 2 ^ 31 ->
    map (fun r => (wr_index r, cstr (wr_line r))) (w_res w)
    = map (fun r => (wr_index r, cstr (wr_line r))) res
      ++ map (fun nl => (fst nl, take 256 (snd nl)))
           (List.filter (fun nl => matches (snd nl))
              (number_lines line_count (lines_from (drop (Z.to_nat p) m) []))).
Proof.
  induction fuel as [|fuel IH]; intros mem p line_count res w Hrun Hp Hlen Hsame Hlc Hroom;
    [discriminate|].
  rewrite worker_loop_unfold in Hrun.
  destruct (Z.ltb_spec p (Z.of_nat (length m))) as [Hlt|Hge].
  2: { injection Hrun as <-. cbn [w_res].
       rewrite drop_ge by lia. simpl. now rewrite app_nil_r. }
  unfold strchr, ptr_add in Hrun. rewrite Hsame in Hrun.
  destruct (strchr_from_line (drop (Z.to_nat p) m) p (Forall_drop _ _ _ Hnonul))
    as [[Hnone Hno]|(line & rest & Hsplit & Hline & Hsome)].
  { rewrite Hnone in Hrun. injection Hrun as <-. cbn [w_res].
    rewrite lines_from_no_newline by assumption. simpl. now rewrite app_nil_r. }
  rewrite Hsome in Hrun.
  assert (Hline0 : Forall (fun c => c <> 0) line).
  { pose proof (Forall_drop _ (Z.to_nat p) _ Hnonul) as Hd.
    rewrite Hsplit in Hd. now apply Forall_app in Hd as [Hd _]. }
  assert (Hfit : p + Z.of_nat (length line) < Z.of_nat (length m)).
  { assert (Hl : length (drop (Z.to_nat p) m) = length (line ++ NL :: rest))
      by now rewrite Hsplit.
    rewrite length_drop, length_app in Hl. simpl in Hl. lia. }
  assert (Hmem' : drop (Z.to_nat p) (wr mem (p + Z.of_nat (length line)) 0)
                  = line ++ 0 :: rest).
  { unfold wr. destruct (Z.ltb_spec (p + Z.of_nat (length line)) 0); [lia|].
    rewrite drop_insert_ge by lia. rewrite Hsame, Hsplit.
    replace (Z.to_nat (p + Z.of_nat (length line)) - Z.to_nat p)%nat
      with (length line + 0)%nat by lia.
    now rewrite insert_app_r. }
  rewrite Hmem' in Hrun.
  replace (p + Z.of_nat (length line) - p) with (Z.of_nat (length line)) in Hrun by lia.
  rewrite Hparser in Hrun by assumption.
  rewrite int_wrap_small in Hrun by lia.
  apply IH in Hrun; [| lia | now rewrite length_wr | | lia | lia].
  2: { replace (Z.to_nat (p + Z.of_nat (length line) + 1))
         with (Z.to_nat p + (length line + 1))%nat by lia.
       rewrite <- !drop_drop, Hmem', Hsplit.
       rewrite !drop_app_length.
       reflexivity. }
  rewrite Hrun. rewrite Hsplit, lines_from_line by assumption.
  replace (Z.to_nat (p + Z.of_nat (length line) + 1))
    with (Z.to_nat p + (length line + 1))%nat by lia.
  rewrite <- drop_drop, Hsplit, <- (drop_drop _ 1 (length line)), drop_app_length.
  cbn [app number_lines List.filter snd drop].
  destruct (matches line).
  - rewrite map_app. cbn [map wr_index wr_line fst snd].
    rewrite cstr_stored_line by assumption.
    now rewrite <- app_assoc.
  - reflexivity.
Qed.
End Reference.

Lemma store_matches_lines (res : list worker_result) :
  Forall (fun r => 1 <= wr_index r < 2 ^ 31) res ->
  store_matches (saved_lines (fun i => i) res)
  = map (fun r => (wr_index r, cstr (wr_line r))) res.
Proof.
  unfold store_matches, saved_lines.
  induction 1 as [|r res Hr _ IH]; [reflexivity|].
  cbn [map List.filter]. unfold is_file_entry at 1. cbn [e_line e_data].
  rewrite uint_wrap_small by lia.
  destruct (Z.eqb_spec (wr_index r) 0); [lia|].
  cbn [negb map e_line e_data]. now rewrite IH.
Qed.

(** The refinement the split scan achieves: on a file without NUL byte
    that an [int] can count, whose line ending at the split point is not
    empty, and for a matcher that judges the line alone, the match lines
    stored for the file are those of the reference scan, each text cut at
    256 bytes. *)
Lemma split_scan_is_reference parser matches (midline midline' : Z) (s' : search)
    (file m : list Z) (k : Z) :
  (forall line rest,
     Forall (fun c => c <> 0) line -> Forall (fun c => c <> NL) line ->
     parser (line ++ 0 :: rest) (Z.of_nat (length line)) = Some (matches line)) ->
  Forall (fun c => c <> 0) m ->
  Z.of_nat (length m) < 2 ^ 31 - 1 ->
  Z.of_nat (length m) / 2 <= k -> rd m k = NL ->
  (forall j, Z.of_nat (length m) / 2 <= j < k -> rd m j <> NL) ->
  1 <= k -> rd m (k - 1) <> NL ->
  scan_file parser init_searchstruct midline file m = Some (s', midline') ->
  store_matches (s_entries s')
  = map (fun nl => (fst nl, take 256 (snd nl))) (reference_scan matches m).
Proof.
  intros Hparser Hnonul Hsize Hhalf Hk Hfirst Hk1 Hboundary Hscan.
  assert (Hnonul' : forall j, 0 <= j < Z.of_nat (length m) -> rd m j <> 0)
    by (intros j Hj; now apply (Forall_rd (fun c => c <> 0))).
  destruct (split_scan_is_whole_scan parser _ _ _ _ _ _ k Hnonul' Hsize Hhalf Hk
              Hfirst Hk1 Hboundary Hscan) as (w & Hwhole & Hentries).
  pose proof (worker_loop_counts _ _ _ _ _ _ _ _ Hwhole ltac:(lia) ltac:(lia)
                ltac:(lia) ltac:(constructor)) as (_ & _ & Hroom & _ & Hres).
  assert (Hres' : Forall (fun r => 1 <= wr_index r < 2 ^ 31) (w_res w)).
  { eapply Forall_impl; [exact Hres|]. simpl. lia. }
  pose proof (worker_loop_reference parser matches m Hnonul Hparser _ _ _ _ _ _
                Hwhole ltac:(lia) eq_refl eq_refl ltac:(lia) ltac:(lia)) as Href.
  rewrite Hentries. cbn [init_searchstruct s_entries app].
  unfold reference_scan, file_lines.
  change (drop (Z.to_nat 0) m) with m in Href. cbn [map app] in Href.
  rewrite <- Href, <- store_matches_lines by assumption.
  destruct (w_res w); reflexivity.
Qed.

(** A matcher that judges the line alone. *)
Lemma line_matcher_judges_line (matches : list Z -> bool) (line rest : list Z) :
  (fun text tsize => Some (matches (take (Z.to_nat tsize) text)))
    (line ++ 0 :: rest) (Z.of_nat (length line))
  = Some (matches line).
Proof. cbv beta. now rewrite Nat2Z.id, take_app_length. Qed.

(** ** Tokens of a quoted value *)

Lemma ptr_add_at (buf pre rest : list Z) (i : Z) :
  buf = pre ++ rest -> i = Z.of_nat (length pre) -> ptr_add buf i = rest.
Proof.
  intros -> ->. unfold ptr_add. rewrite Nat2Z.id. apply drop_app_length.
Qed.

Lemma rd_at (buf pre rest : list Z) (i : Z) :
  buf = pre ++ rest -> i = Z.of_nat (length pre) -> rd buf i = hd 0 rest.
Proof.
  intros -> ->.
  rewrite rd_of_nat, app_nth2 by lia. rewrite Nat.sub_diag. now destruct rest.
Qed.

Lemma wr_at (buf pre rest : list Z) (x v i : Z) :
  buf = pre ++ x :: rest -> i = Z.of_nat (length pre) ->
  wr buf i v = pre ++ v :: rest.
Proof.
  intros -> ->. unfold wr. destruct (Z.ltb_spec (Z.of_nat (length pre)) 0); [lia|].
  rewrite Nat2Z.id. replace (length pre) with (length pre + 0)%nat at 1 by lia.
  now rewrite insert_app_r.
Qed.

Lemma span_app (keep : Z -> bool) (l1 l2 : list Z) :
  Forall (fun c => keep c = true) l1 ->
  keep (hd 0 l2) = false ->
  span keep (l1 ++ l2 ) = Z.of_nat (length l1).
Proof.
  intros H1 H2. induction H1 as [|c l1 Hc _ IH]; simpl.
  - destruct l2 as [|c l2]; simpl in *; [reflexivity | now rewrite H2].
  - rewrite Hc, IH. lia.
Qed.

(** A list splits into its longest prefix that [keep] accepts and the
    rest. *)
Lemma span_split (keep : Z -> bool) (l : list Z) :
  exists l1 l2, l = l1 ++ l2
                /\ Forall (fun c => keep c = true) l1
                /\ match l2 with [] => True | c :: _ => keep c = false end.
Proof.
  induction l as [|c l (l1 & l2 & -> & H1 & H2)].
  - now exists [], [].
  - destruct (keep c) eqn:Hc.
    + exists (c :: l1), l2. split; [reflexivity|]. split; [now constructor | assumption].
    + exists [], (c :: l1 ++ l2). split; [reflexivity|]. split; [constructor | assumption].
Qed.

Lemma tokens_from_word (word rest cur : list Z) :
  Forall (fun c => (c =? SPACE) = false) word ->
  tokens_from (word ++ rest) cur = tokens_from rest (cur ++ word).
Proof.
  intros H. revert cur. induction H as [|c word Hc _ IH]; intros cur; simpl.
  - now rewrite app_nil_r.
  - rewrite Hc, IH. now rewrite <- app_assoc.
Qed.

Lemma tokens_from_spaces (spaces rest : list Z) :
  Forall (fun c => (c =? SPACE) = true) spaces ->
  tokens_from (spaces ++ rest) [] = tokens_from rest [].
Proof.
  induction 1 as [|c spaces Hc _ IH]; simpl; [reflexivity|]. now rewrite Hc.
Qed.

Lemma strncpy_token (token rest : list Z) (n : Z) :
  Forall (fun c => c <> 0) token ->
  strncpy (token ++ 0 :: rest) n = strncpy token n.
Proof.
  intros H. unfold strncpy.
  now rewrite cstr_before_nul, (cstr_no_nul token) by assumption.
Qed.

(** *** Buffers that differ by NUL bytes written over them *)

Lemma zeroed_refl (buf : list Z) : zeroed buf buf.
Proof. induction buf; constructor; auto. Qed.

Lemma zeroed_trans (b1 b2 b3 : list Z) :
  zeroed b1 b2 -> zeroed b2 b3 -> zeroed b1 b3.
Proof.
  intros H12. revert b3. induction H12 as [|a b b1 b2 Hab _ IH]; intros b3 H23.
  - inversion H23. constructor.
  - inversion H23 as [|? c ? b3' Hbc H23']; subst. constructor; [|now apply IH].
    destruct Hab as [->| ->]; [assumption | now right].
Qed.

Lemma zeroed_at (pre rest : list Z) (x : Z) :
  zeroed (pre ++ 0 :: rest) (pre ++ x :: rest).
Proof.
  apply Forall2_app; [apply zeroed_refl|].
  constructor; [now right | apply zeroed_refl].
Qed.

Lemma cstr_zeroed (buf' buf : list Z) :
  zeroed buf' buf -> exists k, cstr buf' = take k (cstr buf).
Proof.
  induction 1 as [|a b buf' buf Hab _ (k & IH)]; [now exists 0%nat|].
  destruct Hab as [->| ->]; simpl.
  - destruct (b =? 0); [now exists 0%nat|]. exists (S k). simpl. now rewrite IH.
  - now exists 0%nat.
Qed.

Lemma occurs_take (needle hay : list Z) (k : nat) :
  occurs needle (take k hay) -> occurs needle hay.
Proof.
  intros (before & after & H). exists before, (after ++ drop k hay).
  rewrite <- (take_drop k hay) at 1. rewrite H. now rewrite <- !app_assoc.
Qed.

(** A name that is not in the line is not in what is left of it. *)
Lemma contains_zeroed (buf' buf needle : list Z) :
  zeroed buf' buf -> contains buf needle = false -> contains buf' needle = false.
Proof.
  intros Hz. unfold contains, strstr.
  destruct (cstr_zeroed _ _ Hz) as (k & ->).
  destruct (find_sub (cstr needle) (cstr buf) 0) eqn:Hwhole; [discriminate|].
  intros _.
  destruct (find_sub (cstr needle) (take k (cstr buf)) 0) eqn:Hpart; [|reflexivity].
  exfalso. apply (proj2 (find_sub_occurs (cstr needle) (cstr buf) 0)); [|exact Hwhole].
  apply (occurs_take _ _ k). apply (find_sub_occurs _ _ 0). now rewrite Hpart.
Qed.

(** *** The three ways a call of [strtok_r] ends *)

Lemma strtok_r_none (pre spaces post : list Z) :
  Forall (fun c => (c =? SPACE) = true) spaces ->
  exists save',
    strtok_r (pre ++ spaces ++ 0 :: post) (Z.of_nat (length pre))
    = (None, pre ++ spaces ++ 0 :: post, save').
Proof.
  intros Hsp. unfold strtok_r.
  destruct (rd _ (Z.of_nat (length pre)) =? 0); [now eexists|].
  unfold strspn. rewrite (ptr_add_at _ pre (spaces ++ 0 :: post)) by reflexivity.
  rewrite span_app by (assumption || reflexivity).
  rewrite (rd_at _ (pre ++ spaces) (0 :: post))
    by (rewrite <- ?app_assoc, ?length_app; reflexivity || lia).
  now eexists.
Qed.

Section Token.
Variables (pre spaces token : list Z).
Hypothesis spaces_only : Forall (fun c => (c =? SPACE) = true) spaces.
Hypothesis token_chars :
  Forall (fun c => negb (c =? SPACE) && negb (c =? 0) = true) token.
Hypothesis token_not_empty : token <> [].

Lemma token_start (rest : list Z) :
  let buf := pre ++ spaces ++ token ++ rest in
  (rd buf (Z.of_nat (length pre)) =? 0) = false
  /\ strspn buf (Z.of_nat (length pre)) SPACE = Z.of_nat (length spaces)
  /\ (rd buf (Z.of_nat (length pre) + Z.of_nat (length spaces)) =? 0) = false.
Proof.
  intros buf.
  assert (Hhd : negb (hd 0 (token ++ rest) =? SPACE)
                && negb (hd 0 (token ++ rest) =? 0) = true).
  { destruct token as [|c t]; [contradiction|]. now inversion token_chars. }
  apply andb_true_iff in Hhd as [H1 H2].
  apply negb_true_iff in H1, H2.
  assert (Hspn : strspn buf (Z.of_nat (length pre)) SPACE
                 = Z.of_nat (length spaces)).
  { unfold strspn. rewrite (ptr_add_at _ pre (spaces ++ token ++ rest)) by reflexivity.
    now apply span_app. }
  assert (Hs : rd buf (Z.of_nat (length pre) + Z.of_nat (length spaces))
               = hd 0 (token ++ rest)).
  { apply (rd_at _ (pre ++ spaces)); [unfold buf; now rewrite <- app_assoc|].
    rewrite length_app. lia. }
  split; [|split; [assumption | now rewrite Hs]].
  rewrite (rd_at _ pre (spaces ++ token ++ rest)) by reflexivity.
  destruct spaces as [|c sp]; [exact H2|].
  inversion spaces_only as [|? ? Hc _]; subst. simpl.
  apply Z.eqb_eq in Hc. now subst c.
Qed.

Lemma token_end (rest : list Z) :
  (hd 0 rest =? SPACE) || (hd 0 rest =? 0) = true ->
  let buf := pre ++ spaces ++ token ++ rest in
  let s := Z.of_nat (length pre) + Z.of_nat (length spaces) in
  strcspn buf s SPACE = Z.of_nat (length token)
  /\ rd buf (s + Z.of_nat (length token)) = hd 0 rest.
Proof.
  intros Hrest buf s. split.
  - unfold strcspn. rewrite (ptr_add_at _ (pre ++ spaces) (token ++ rest)).
    + apply span_app; [assumption|].
      destruct (hd 0 rest =? SPACE), (hd 0 rest =? 0); try reflexivity; discriminate.
    + unfold buf. now rewrite <- app_assoc.
    + unfold s. rewrite length_app. lia.
  - apply (rd_at _ (pre ++ spaces ++ token)).
    + unfold buf. now rewrite <- !app_assoc.
    + unfold s. rewrite !length_app. lia.
Qed.

Lemma strtok_r_last (post : list Z) :
  let buf := pre ++ spaces ++ token ++ 0 :: post in
  let s := Z.of_nat (length pre) + Z.of_nat (length spaces) in
  strtok_r buf (Z.of_nat (length pre))
  = (Some s, buf, s + Z.of_nat (length token)).
Proof.
  intros buf s. unfold strtok_r.
  destruct (token_start (0 :: post)) as (H1 & H2 & H3).
  destruct (token_end (0 :: post) eq_refl) as (H4 & H5).
  fold buf in H1, H2, H3, H4, H5. fold s in H3, H4, H5.
  rewrite H1, H2. fold s. rewrite H3, H4, H5. reflexivity.
Qed.

Lemma strtok_r_more (rest : list Z) :
  let s := Z.of_nat (length pre) + Z.of_nat (length spaces) in
  strtok_r (pre ++ spaces ++ token ++ SPACE :: rest) (Z.of_nat (length pre))
  = (Some s, pre ++ spaces ++ token ++ 0 :: rest,
     s + Z.of_nat (length token) + 1).
Proof.
  intros s. unfold strtok_r.
  destruct (token_start (SPACE :: rest)) as (H1 & H2 & H3).
  destruct (token_end (SPACE :: rest) eq_refl) as (H4 & H5).
  cbv zeta in H1, H2, H3, H4, H5. fold s in H3, H4, H5.
  rewrite H1, H2. fold s. rewrite H3, H4, H5. cbn [hd].
  change (SPACE =? 0) with false. cbv iota.
  rewrite (wr_at _ (pre ++ spaces ++ token) rest SPACE).
  - now rewrite <- !app_assoc.
  - now rewrite <- !app_assoc.
  - unfold s. rewrite !length_app. lia.
Qed.

End Token.

(** The loop around [strtok_r] appends the tokens of the value that
    stands between [start] and the NUL written over the closing quote. *)
Lemma token_loop_tokens (fuel : nat) :
  forall pre value post nodes,
    Forall (fun c => c <> 0) value ->
    (length value < fuel)%nat ->
    exists buf',
      token_loop fuel (pre ++ value ++ 0 :: post) (Z.of_nat (length pre)) nodes
      = Some (nodes ++ map (fun t => strncpy t LINE_MAX) (tokens value), buf')
      /\ zeroed buf' (pre ++ value ++ 0 :: post).
Proof.
  induction fuel as [|fuel IH]; intros pre value post nodes Hvalue Hfuel; [lia|].
  cbn [token_loop].
  destruct (span_split (fun c => c =? SPACE) value) as (spaces & v1 & -> & Hsp & Hv1).
  apply Forall_app in Hvalue as [_ Hv10].
  unfold tokens. rewrite tokens_from_spaces by assumption.
  destruct (span_split (fun c => negb (c =? SPACE) && negb (c =? 0)) v1)
    as (token & v2 & -> & Htok & Hv2).
  apply Forall_app in Hv10 as [Htok0 Hv20].
  assert (Hword : Forall (fun c => (c =? SPACE) = false) token).
  { eapply Forall_impl; [exact Htok|]. simpl. intros c Hc.
    apply andb_true_iff in Hc as [Hc _]. now apply negb_true_iff in Hc. }
  rewrite !length_app in Hfuel.
  destruct token as [|c token'] eqn:Etoken.
  { (* nothing but spaces is left *)
    destruct v2 as [|c2 v3].
    - rewrite app_nil_r.
      destruct (strtok_r_none pre spaces post Hsp) as (save' & ->).
      simpl. eexists. rewrite app_nil_r. split; [reflexivity | apply zeroed_refl].
    - exfalso. simpl in Hv1, Hv2. rewrite Hv1 in Hv2.
      inversion Hv20 as [|? ? Hc2 _]; subst.
      destruct (Z.eqb_spec c2 0); [contradiction | discriminate]. }
  rewrite <- Etoken in *.
  assert (Htoken : token <> []) by (rewrite Etoken; discriminate).
  assert (Hlen : (0 < length token)%nat) by (rewrite Etoken; simpl; lia).
  clear c token' Etoken Hv1.
  rewrite tokens_from_word by assumption. cbn [app].
  destruct v2 as [|c2 v3].
  - (* the value ends with the token *)
    rewrite app_nil_r, <- app_assoc.
    rewrite (strtok_r_last pre spaces token Hsp Htok Htoken post).
    rewrite (ptr_add_at _ (pre ++ spaces) (token ++ 0 :: post))
      by (rewrite <- ?app_assoc, ?length_app; reflexivity || lia).
    rewrite strncpy_token by assumption.
    destruct (IH (pre ++ spaces ++ token) [] post
                (nodes ++ [strncpy token LINE_MAX]) ltac:(constructor))
      as (buf' & Hrec & Hz); [simpl; lia|].
    cbn [app] in Hrec, Hz. rewrite <- !app_assoc in Hrec, Hz.
    replace (Z.of_nat (length pre) + Z.of_nat (length spaces)
             + Z.of_nat (length token))
      with (Z.of_nat (length (pre ++ spaces ++ token)))
      by (rewrite !length_app; lia).
    rewrite Hrec. exists buf'. split; [|exact Hz].
    f_equal. f_equal. cbn [tokens tokens_from map].
    destruct token; [contradiction|]. cbn [map]. now rewrite app_nil_r.
  - (* a space follows the token *)
    assert (Hc2 : c2 = SPACE).
    { simpl in Hv2. inversion Hv20 as [|? ? Hc2 _]; subst.
      destruct (Z.eqb_spec c2 SPACE); [assumption|].
      destruct (Z.eqb_spec c2 0); [contradiction | discriminate]. }
    subst c2. rewrite <- !app_assoc. cbn [app].
    rewrite (strtok_r_more pre spaces token Hsp Htok Htoken (v3 ++ 0 :: post)).
    rewrite (ptr_add_at _ (pre ++ spaces) (token ++ 0 :: v3 ++ 0 :: post))
      by (rewrite <- ?app_assoc, ?length_app; reflexivity || lia).
    rewrite strncpy_token by assumption.
    inversion Hv20 as [|? ? _ Hv30]; subst.
    destruct (IH (pre ++ spaces ++ token ++ [0]) v3 post
                (nodes ++ [strncpy token LINE_MAX]) Hv30)
      as (buf' & Hrec & Hz); [simpl in Hfuel; lia|].
    rewrite <- !app_assoc in Hrec, Hz. cbn [app] in Hrec, Hz.
    replace (Z.of_nat (length pre) + Z.of_nat (length spaces)
             + Z.of_nat (length token) + 1)
      with (Z.of_nat (length (pre ++ spaces ++ token ++ [0])))
      by (rewrite !length_app; simpl; lia).
    rewrite Hrec. exists buf'. split.
    + f_equal. f_equal.
      cbn [tokens_from]. change (SPACE =? SPACE) with true. cbv iota.
      destruct token; [contradiction|]. cbn [map]. now rewrite <- app_assoc.
    + eapply zeroed_trans; [exact Hz|].
      rewrite !(app_assoc pre), !(app_assoc (pre ++ spaces)).
      apply zeroed_at.
Qed.

(** ** A line of the configuration *)

Lemma strchr_from_char (c : Z) (pre rest : list Z) (pos : Z) :
  Forall (fun x => x <> 0 /\ x <> c) pre ->
  strchr_from (pre ++ c :: rest) pos c = Some (pos + Z.of_nat (length pre)).
Proof.
  intros H. revert pos. induction H as [|x pre [Hx0 Hxc] _ IH]; intros pos.
  - simpl. rewrite Z.eqb_refl. f_equal. lia.
  - cbn [app strchr_from].
    destruct (Z.eqb_spec x c); [contradiction|].
    destruct (Z.eqb_spec x 0); [contradiction|].
    rewrite IH. f_equal. rewrite length_cons. lia.
Qed.

(** [start] is the byte after the first quote, and the second quote is
    overwritten by NUL. *)
Lemma quoted_value (pre value post : list Z) :
  Forall (fun x => x <> 0 /\ x <> DQUOTE) pre ->
  Forall (fun x => x <> 0 /\ x <> DQUOTE) value ->
  quoted (pre ++ DQUOTE :: value ++ DQUOTE :: post)
  = Some (Z.of_nat (length (pre ++ [DQUOTE])),
          (pre ++ [DQUOTE]) ++ value ++ 0 :: post).
Proof.
  intros Hpre Hvalue. unfold quoted.
  assert (H1 : strchr (pre ++ DQUOTE :: value ++ DQUOTE :: post) 0 DQUOTE
               = Some (Z.of_nat (length pre))).
  { unfold strchr. rewrite (ptr_add_at _ [] (pre ++ DQUOTE :: value ++ DQUOTE :: post))
      by reflexivity.
    now rewrite strchr_from_char by assumption. }
  assert (H2 : strchr (pre ++ DQUOTE :: value ++ DQUOTE :: post)
                 (Z.of_nat (length pre) + 1) DQUOTE
               = Some (Z.of_nat (length pre) + 1 + Z.of_nat (length value))).
  { unfold strchr.
    rewrite (ptr_add_at _ (pre ++ [DQUOTE]) (value ++ DQUOTE :: post)).
    - now rewrite strchr_from_char by assumption.
    - now rewrite <- app_assoc.
    - rewrite length_app. simpl. lia. }
  rewrite H1. cbv zeta. rewrite H2.
  rewrite (wr_at _ (pre ++ DQUOTE :: value) post DQUOTE).
  - f_equal. f_equal; [rewrite length_app; simpl; lia|].
    now rewrite <- !app_assoc.
  - now rewrite <- app_assoc.
  - rewrite !length_app. simpl. lia.
Qed.

Section ConfigLine.
Variables (ptr_env pre value post : list Z) (c : config).
Local Abbreviation configline := (quoted_line pre value post).
Hypothesis pre_chars : Forall (fun x => x <> 0 /\ x <> DQUOTE) pre.
Hypothesis value_chars : Forall (fun x => x <> 0 /\ x <> DQUOTE) value.
Hypothesis semicolon : strchr configline 0 SEMICOLON <> None.
Hypothesis no_editor : contains configline ptr_env = false.

Lemma value_tokens (nodes : list (list Z)) :
  exists buf',
    token_loop (S (length ((pre ++ [DQUOTE]) ++ value ++ 0 :: post)))
      ((pre ++ [DQUOTE]) ++ value ++ 0 :: post)
      (Z.of_nat (length (pre ++ [DQUOTE]))) nodes
    = Some (nodes ++ map (fun t => strncpy t LINE_MAX) (tokens value), buf')
    /\ zeroed buf' configline.
Proof.
  destruct (token_loop_tokens
              (S (length ((pre ++ [DQUOTE]) ++ value ++ 0 :: post)))
              (pre ++ [DQUOTE]) value post nodes) as (buf' & Hrun & Hz).
  - eapply Forall_impl; [exact value_chars|]. now intros x [Hx _].
  - rewrite !length_app. lia.
  - exists buf'. split; [exact Hrun|].
    eapply zeroed_trans; [exact Hz|]. unfold quoted_line.
    replace ((pre ++ [DQUOTE]) ++ value ++ 0 :: post)
      with ((pre ++ DQUOTE :: value) ++ 0 :: post) by now rewrite <- !app_assoc.
    replace (pre ++ DQUOTE :: value ++ DQUOTE :: post)
      with ((pre ++ DQUOTE :: value) ++ DQUOTE :: post) by now rewrite <- !app_assoc.
    apply zeroed_at.
Qed.

(** A line that names [extensions], and neither the editor nor [files],
    appends the tokens of its quoted value to the extensions, in order. *)
Lemma extensions_line_parsed :
  contains configline (chars "files") = false ->
  contains configline (chars "extensions") = true ->
  get_config_line ptr_env configline c
  = Some {| c_editor_cmd := c_editor_cmd c;
            c_specific_files := c_specific_files c;
            c_extensions :=
              c_extensions c
              ++ map (fun t => strncpy t LINE_MAX) (tokens value) |}.
Proof.
  intros Hfiles Hext. unfold get_config_line.
  destruct (strchr configline 0 SEMICOLON); [|contradiction].
  rewrite no_editor. cbv zeta. rewrite Hfiles, Hext.
  unfold quoted_line. rewrite quoted_value by assumption.
  destruct (value_tokens (c_extensions c)) as (buf' & -> & _). reflexivity.
Qed.

(** A line that names [files], and neither the editor nor [extensions],
    appends the tokens of its quoted value to the specific files. *)
Lemma files_line_parsed :
  contains configline (chars "files") = true ->
  contains configline (chars "extensions") = false ->
  get_config_line ptr_env configline c
  = Some {| c_editor_cmd := c_editor_cmd c;
            c_specific_files :=
              c_specific_files c
              ++ map (fun t => strncpy t LINE_MAX) (tokens value);
            c_extensions := c_extensions c |}.
Proof.
  intros Hfiles Hext. unfold get_config_line.
  destruct (strchr configline 0 SEMICOLON); [|contradiction].
  rewrite no_editor. cbv zeta. rewrite Hfiles.
  unfold quoted_line. rewrite quoted_value by assumption.
  destruct (value_tokens (c_specific_files c)) as (buf' & -> & Hz).
  now rewrite (contains_zeroed _ _ _ Hz Hext).
Qed.

End ConfigLine.

(* ================================================================== *)
(** * Part III: the claims                                             *)
(* ================================================================== *)

(** ** C4: the case-sensitive literal matcher *)

(** On a line that holds a NUL byte the matcher misses an occurrence:
    [bmh] stays on the window whose last byte is the NUL whatever the
    fuel, and [strstr] stops at the NUL. *)
Lemma bmh_stuck_on_nul (fuel : nat) :
  bmh_loop fuel (m_skipt (pre_bmh (chars "ab"))) 2 [120; 0; 97; 98; 0]
    (chars "ab") 4 0 = None.
Proof.
  induction fuel as [|fuel IH]; [reflexivity|].
  change (chars "ab") with [97; 98] in *.
  rewrite (bmh_loop_unfold [97; 98]). exact IH.
Qed.

(** C4, counterexample: the pattern occurs in a line that holds a NUL
    byte, and the selected matcher reports no match: [bmh] does not
    return for the two-byte pattern, [strstr] returns [NULL] for the
    one-byte pattern. *)
Lemma matcher_misses_after_nul :
  (occurs (chars "ab") (take 4 [120; 0; 97; 98; 0])
   /\ run_parser (pre_bmh (chars "ab")) [120; 0; 97; 98; 0] (chars "ab") 4 = None)
  /\ (occurs (chars "a") (take 2 [0; 97; 0])
      /\ run_parser (pre_bmh (chars "a")) [0; 97; 0] (chars "a") 2 = Some None).
Proof.
  split; split.
  - now exists [120; 0], [].
  - apply (bmh_stuck_on_nul 6).
  - now exists [0], [].
  - reflexivity.
Qed.

(** C4, amended: for a non-empty pattern of bytes with the high bit clear
    and a line of chars without NUL byte (the [tsize] bytes before the
    terminator the worker wrote), the matcher [pre_bmh] selects returns,
    and it returns a match exactly when the pattern occurs in the line. *)
Theorem literal_matcher_iff_occurs (pattern text : list Z) (tsize : Z) :
  pattern <> [] ->
  Forall (fun c => 0 < c <= 127) pattern ->
  Forall (fun c => -128 <= c <= 127) text ->
  0 <= tsize <= Z.of_nat (length text) ->
  (forall i, 0 <= i < tsize -> rd text i <> 0) ->
  rd text tsize = 0 ->
  exists r, run_parser (pre_bmh pattern) text pattern tsize = Some r
            /\ (r <> None <-> occurs pattern (take (Z.to_nat tsize) text)).
Proof.
  intros Hne Hpat Htext Hts Hline Hend.
  assert (Hlen : (1 <= length pattern)%nat)
    by (destruct pattern; [contradiction | simpl; lia]).
  destruct (pre_bmh_ascii pattern Hpat Hlen) as (Hps & Hpar & Hok).
  unfold run_parser. rewrite Hpar.
  destruct (Z.eqb_spec (Z.of_nat (length pattern)) 1) as [H1|H1].
  - exists (strstr text pattern). split; [reflexivity|].
    unfold strstr. rewrite find_sub_occurs.
    rewrite (cstr_line text tsize) by (assumption || lia).
    rewrite cstr_no_nul; [reflexivity|].
    eapply Forall_impl; [exact Hpat|]. simpl. lia.
  - unfold bmh. rewrite Hps.
    destruct (bmh_loop_spec pattern text (m_skipt (pre_bmh pattern)) tsize
                Hpat ltac:(lia) Htext Hts Hline Hok (S (length text)) 0)
      as (r & Hr & Hspec); [lia | lia | intros j Hj; lia |].
    exists r. split; [assumption|].
    rewrite occurs_match_at by assumption.
    destruct r as [k|].
    + split; [intros _ | congruence]. exists k. tauto.
    + split; [congruence|]. intros (i & Hi0 & Hi & Hm).
      exfalso. eapply Hspec; eauto.
Qed.

Lemma literal_matcher_iff_occurs_witness :
  exists r,
    run_parser (pre_bmh (chars "hello")) (chars "say hello" ++ [0; 120])
      (chars "hello") 9 = Some r
    /\ (r <> None <->
        occurs (chars "hello") (take (Z.to_nat 9) (chars "say hello" ++ [0; 120]))).
Proof.
  apply (literal_matcher_iff_occurs (chars "hello") (chars "say hello" ++ [0; 120]) 9).
  - discriminate.
  - cbv. repeat (constructor; [split; [reflexivity | discriminate]|]). constructor.
  - cbv. repeat (constructor; [split; discriminate|]). constructor.
  - simpl. lia.
  - intros i Hi.
    assert (Hcases : i = 0 \/ i = 1 \/ i = 2 \/ i = 3 \/ i = 4 \/ i = 5
                     \/ i = 6 \/ i = 7 \/ i = 8) by lia.
    destruct Hcases as [->|[->|[->|[->|[->|[->|[->|[->| ->]]]]]]]]; discriminate.
  - reflexivity.
Defined.

(** ** C1: the two halves against a single pass *)

(** C1, at the failing input.  The file is [a], an empty line, [b]; the
    first newline at or after the midpoint ends the empty line.  A single
    pass finds [b] on line 3, and so does the worker loop run over the
    whole file; the two workers with [save_thread] store it as line 2, in
    either order of the workers. *)
Theorem split_loses_empty_line :
  reference_scan (occurs_b (chars "b")) file_a_b = [(3, chars "b")]
  /\ option_map w_res
       (worker_loop (literal_parser (chars "b")) (S (length file_a_b))
          file_a_b 0 (Z.of_nat (length file_a_b)) 1 [])
     = Some [ {| wr_line := chars "b" ++ [0]; wr_index := 3 |} ]
  /\ option_map (fun r => store_matches (s_entries (fst r)))
       (scan_file (literal_parser (chars "b")) init_searchstruct 0
          (chars "f.c") file_a_b)
     = Some [(2, chars "b")]
  /\ option_map (fun r => store_matches (s_entries (fst r)))
       (scan_file_swapped (literal_parser (chars "b")) init_searchstruct 0
          (chars "f.c") file_a_b)
     = Some [(2, chars "b")].
Proof. repeat split; vm_compute; reflexivity. Qed.

(** ** C3: the text stored for a long line *)

(** C3, at the failing input.  A matching line of 256 bytes is stored as
    256 bytes with no NUL in them, where the truncation policy gives its
    first 255 bytes and a terminator. *)
Theorem long_line_not_terminated :
  option_map (fun r => s_entries (fst r))
    (scan_file (literal_parser (chars "aa")) init_searchstruct 0
       (chars "f.c") file_long_line)
  = Some [ {| e_data := chars "f.c"; e_line := 0 |};
           {| e_data := replicate 256 97; e_line := 1 |} ]
  /\ existsb (Z.eqb 0) (replicate 256 97) = false
  /\ length (replicate 256 97 : list Z) = 256%nat
  /\ truncated_line (replicate 256 97) = replicate 255 97 ++ [0].
Proof. repeat split; vm_compute; reflexivity. Qed.

(** ** C2: every store is well formed *)

Lemma reachable_search_hello :
  reachable (RL := literal_regex) (literal_parser (chars "hello")) 24
    {| heap := <[mainsearch_key := search_hello]> (heap initial_state);
       current := mainsearch_key |}.
Proof.
  exists 3. eapply rtc_l; [|apply rtc_refl].
  apply (step_file (literal_parser (chars "hello")) 24 initial_state 0
           (chars "a.c") file_hello init_searchstruct search_hello 3).
  - reflexivity.
  - vm_compute. reflexivity.
  - vm_compute. reflexivity.
Qed.

(** C2: in every state the program reaches, the store of every search
    structure (the mainsearch after any number of merged files, and every
    subsearch child) is well formed: each match line has a header before
    it with no header in between, and each header is directly followed by
    a match line.  In particular one round of [save_thread] appends a
    header exactly when a worker reported a match, followed by one entry
    per match. *)
Theorem store_well_formed `{RL : RegexLib} (parser : list Z -> Z -> option bool)
    (LINES : Z) (st : state) (k : nat) (s : search) :
  reachable parser LINES st ->
  heap st !! k = Some s ->
  wf_store (s_entries s)
  /\ forall ms fp res0 res1,
       exists lines,
         appended ms (save_thread ms fp res0 res1)
           (saved_header fp res0 res1 ++ lines)
         /\ length lines = (length res0 + length res1)%nat
         /\ Forall (fun e => In (e_data e) (map wr_line (res0 ++ res1))) lines
         /\ (saved_header fp res0 res1 = [] <-> res0 = [] /\ res1 = [])
         /\ (saved_header fp res0 res1 <> [] ->
             saved_header fp res0 res1
             = [ {| e_data := fp_name fp; e_line := 0 |} ]).
Proof.
  intros Hreach Hs. split.
  - apply groups_wf. eapply reachable_groups; eauto.
  - intros ms fp res0 res1.
    exists (saved_lines (fun i => i) res0
            ++ saved_lines (fun i => int_wrap (uint_wrap (i + fp_midline fp))) res1).
    split; [apply save_thread_entries|]. split.
    { unfold saved_lines. now rewrite length_app, !length_map. }
    split.
    { rewrite map_app. apply Forall_app. unfold saved_lines. split.
      - rewrite Forall_map. apply List.Forall_forall. intros r Hr. simpl.
        apply in_or_app. left. now apply in_map.
      - rewrite Forall_map. apply List.Forall_forall. intros r Hr. simpl.
        apply in_or_app. right. now apply in_map. }
    unfold saved_header.
    destruct res0, res1;
      (split; [split; [intros Hh; try discriminate Hh; now split
                      | intros [H0 H1]; try discriminate H0; try discriminate H1;
                        reflexivity]
              | intros Hh; try reflexivity; now contradiction Hh]).
Qed.

Lemma store_well_formed_witness :
  wf_store (s_entries search_hello)
  /\ forall ms fp res0 res1,
       exists lines,
         appended ms (save_thread ms fp res0 res1)
           (saved_header fp res0 res1 ++ lines)
         /\ length lines = (length res0 + length res1)%nat
         /\ Forall (fun e => In (e_data e) (map wr_line (res0 ++ res1))) lines
         /\ (saved_header fp res0 res1 = [] <-> res0 = [] /\ res1 = [])
         /\ (saved_header fp res0 res1 <> [] ->
             saved_header fp res0 res1
             = [ {| e_data := fp_name fp; e_line := 0 |} ]).
Proof.
  apply (store_well_formed (RL := literal_regex) (literal_parser (chars "hello")) 24
           {| heap := <[mainsearch_key := search_hello]> (heap initial_state);
              current := mainsearch_key |} mainsearch_key search_hello).
  - exact reachable_search_hello.
  - reflexivity.
Defined.

(** ** C10: the line field tags the entries *)

(** C10: every append of a header stores line number 0 and every append of
    a match line stores a number of at least 1: the workers of a file an
    [int] can count number their results from 1, [save_thread] adds the
    first half's line count to the second worker's numbers, and
    [subsearch] copies the number of the line it keeps.  So in every
    store the program reaches [is_file] tells headers from match lines,
    and [find_file] returns the nearest header at or before any index of
    the store. *)
Theorem line_field_tags `{RL : RegexLib} (parser : list Z -> Z -> option bool)
    (LINES : Z) (st : state) (k : nat) (s : search) :
  reachable parser LINES st ->
  heap st !! k = Some s ->
  (forall ms file,
     exists e, appended ms (mainsearch_add_file ms file) [e]
               /\ e_line e = 0 /\ is_file_entry e = true)
  /\ (forall file m midline fp w0 w1,
        Z.of_nat (length m) < 2 ^ 31 - 1 ->
        parse_file file m midline = Some fp ->
        worker_thread parser 0 fp m = Some w0 ->
        worker_thread parser 1 (set_midline fp (w_line_count w0)) (w_mem w0)
        = Some w1 ->
        (forall r ms, In r (w_res w0) ->
           exists e,
             appended ms (mainsearch_add_line ms (wr_line r) (wr_index r)) [e]
             /\ 1 <= wr_index r /\ e_line e = wr_index r
             /\ is_file_entry e = false)
        /\ (forall r ms, In r (w_res w1) ->
              exists e,
                appended ms
                  (mainsearch_add_line ms (wr_line r)
                     (int_wrap (uint_wrap
                        (wr_index r
                         + fp_midline (set_midline fp (w_line_count w0))))))
                  [e]
                /\ 1 <= wr_index r
                /\ e_line e
                   = wr_index r + fp_midline (set_midline fp (w_line_count w0))
                /\ wr_index r <= e_line e
                /\ is_file_entry e = false))
  /\ (forall child_regex sst e,
        ss_entries (subsearch_step child_regex sst e) = ss_entries sst
        \/ (is_file_entry e = false
            /\ exists header line,
                 e_line header = 0 /\ e_line line = e_line e
                 /\ (ss_entries (subsearch_step child_regex sst e)
                     = ss_entries sst ++ [line]
                     \/ ss_entries (subsearch_step child_regex sst e)
                        = ss_entries sst ++ [header; line])))
  /\ (forall i, 0 <= i < nbentry s ->
        exists j, find_file s i = Some j /\ 0 <= j <= i
                  /\ is_file j s = Some true
                  /\ forall k', j < k' <= i -> is_file k' s = Some false).
Proof.
  intros Hreach Hs. split; [|split; [|split]].
  - intros ms file. eexists. split; [reflexivity|]. split; reflexivity.
  - intros file m midline fp w0 w1 Hsize Hparse H0 H1.
    destruct (worker_numbers parser file m midline fp w0 w1 Hsize Hparse H0 H1)
      as (Hres0 & Hres1 & Hml).
    rewrite List.Forall_forall in Hres0, Hres1.
    split; intros r ms Hr.
    + specialize (Hres0 r Hr). eexists. split; [reflexivity|].
      cbn [e_line]. rewrite uint_wrap_small by lia.
      split; [lia|]. split; [reflexivity|].
      unfold is_file_entry. cbn [e_line].
      destruct (Z.eqb_spec (wr_index r) 0); [lia | reflexivity].
    + specialize (Hres1 r Hr). eexists. split; [reflexivity|].
      cbn [e_line]. rewrite uint_int_uint, uint_wrap_small by lia.
      split; [lia|]. split; [reflexivity|]. split; [lia|].
      unfold is_file_entry. cbn [e_line].
      destruct (Z.eqb_spec (wr_index r + fp_midline (set_midline fp (w_line_count w0))) 0);
        [lia | reflexivity].
  - intros child_regex sst e.
    destruct (subsearch_step_appends child_regex sst e) as [Hsame|(He & Happ)];
      [now left | right].
    split; [assumption|].
    exists {| e_data := ss_new_data sst; e_line := 0 |},
           {| e_data := copy_data (e_data e); e_line := e_line e |}.
    split; [reflexivity|]. split; [reflexivity | exact Happ].
  - intros i Hi. apply find_file_wf; [|assumption].
    apply groups_wf. eapply reachable_groups; eauto.
Qed.

Lemma line_field_tags_witness :
  (forall ms file,
     exists e, appended ms (mainsearch_add_file ms file) [e]
               /\ e_line e = 0 /\ is_file_entry e = true)
  /\ (forall file m midline fp w0 w1,
        Z.of_nat (length m) < 2 ^ 31 - 1 ->
        parse_file file m midline = Some fp ->
        worker_thread (literal_parser (chars "hello")) 0 fp m = Some w0 ->
        worker_thread (literal_parser (chars "hello")) 1
          (set_midline fp (w_line_count w0)) (w_mem w0)
        = Some w1 ->
        (forall r ms, In r (w_res w0) ->
           exists e,
             appended ms (mainsearch_add_line ms (wr_line r) (wr_index r)) [e]
             /\ 1 <= wr_index r /\ e_line e = wr_index r
             /\ is_file_entry e = false)
        /\ (forall r ms, In r (w_res w1) ->
              exists e,
                appended ms
                  (mainsearch_add_line ms (wr_line r)
                     (int_wrap (uint_wrap
                        (wr_index r
                         + fp_midline (set_midline fp (w_line_count w0))))))
                  [e]
                /\ 1 <= wr_index r
                /\ e_line e
                   = wr_index r + fp_midline (set_midline fp (w_line_count w0))
                /\ wr_index r <= e_line e
                /\ is_file_entry e = false))
  /\ (forall child_regex sst e,
        ss_entries (subsearch_step (RL := literal_regex) child_regex sst e)
        = ss_entries sst
        \/ (is_file_entry e = false
            /\ exists header line,
                 e_line header = 0 /\ e_line line = e_line e
                 /\ (ss_entries (subsearch_step (RL := literal_regex) child_regex sst e)
                     = ss_entries sst ++ [line]
                     \/ ss_entries (subsearch_step (RL := literal_regex) child_regex sst e)
                        = ss_entries sst ++ [header; line])))
  /\ (forall i, 0 <= i < nbentry search_hello ->
        exists j, find_file search_hello i = Some j /\ 0 <= j <= i
                  /\ is_file j search_hello = Some true
                  /\ forall k', j < k' <= i -> is_file k' search_hello = Some false).
Proof.
  apply (line_field_tags (RL := literal_regex) (literal_parser (chars "hello")) 24
           {| heap := <[mainsearch_key := search_hello]> (heap initial_state);
              current := mainsearch_key |} mainsearch_key search_hello).
  - exact reachable_search_hello.
  - reflexivity.
Defined.

(** ** C5: the split point *)

(** C5, counterexample: the file [ab] has no newline at or after its
    midpoint, and the second half [parse_file] hands to the second worker
    is the byte range from 1 to 2, which is not empty. *)
Lemma second_half_not_empty :
  (forall j, 2 / 2 <= j -> rd (chars "ab") j <> NL)
  /\ exists fp, parse_file (chars "f.c") (chars "ab") 0 = Some fp
                /\ worker_start 1 fp = 1 /\ worker_end 1 fp = 2
                /\ worker_start 1 fp < worker_end 1 fp.
Proof.
  split.
  - change (chars "ab") with [97; 98]. change (2 / 2) with 1.
    intros j Hj. destruct (Z.eq_dec j 1) as [->|Hne]; [discriminate|].
    rewrite rd_beyond; [discriminate | simpl; lia].
  - eexists. split; [reflexivity|]. repeat split.
Qed.

(** C5, amended: for a file of less than 2^32 bytes, when a newline
    stands at or after the midpoint byte with no NUL before it, the split
    point is just after the first such newline, which gives the halves
    from the start to the split point and from the split point to the
    end, and the second worker scans the second.  When no newline stands
    at or after the midpoint, the split point is the last byte: the
    second half is that one byte, every newline of the file lies in the
    first half, the second worker reports no match, before or after the
    first worker ran, and the first worker reports what a scan of the
    whole file reports, for a file of at least 3 bytes. *)
Theorem split_point (parser : list Z -> Z -> option bool)
    (file m1 m2 : list Z) (k midline : Z) :
  Z.of_nat (length m1) < 2 ^ 32 ->
  Z.of_nat (length m1) / 2 <= k -> rd m1 k = NL ->
  (forall j, Z.of_nat (length m1) / 2 <= j < k -> rd m1 j <> NL /\ rd m1 j <> 0) ->
  m2 <> [] ->
  Z.of_nat (length m2) < 2 ^ 32 ->
  (forall j, Z.of_nat (length m2) / 2 <= j -> rd m2 j <> NL) ->
  (exists fp,
     parse_file file m1 midline = Some fp
     /\ fp_start fp = 0 /\ fp_mid fp = k + 1
     /\ fp_start fp + fp_size fp = Z.of_nat (length m1)
     /\ worker_start 0 fp = fp_start fp
     /\ worker_start 1 fp = fp_mid fp
     /\ worker_end 1 fp = Z.of_nat (length m1))
  /\ (exists fp,
        parse_file file m2 midline = Some fp
        /\ fp_start fp = 0 /\ fp_mid fp = Z.of_nat (length m2) - 1
        /\ fp_start fp + fp_size fp = Z.of_nat (length m2)
        /\ worker_start 1 fp = fp_mid fp
        /\ worker_end 1 fp = Z.of_nat (length m2)
        /\ worker_start 1 fp < worker_end 1 fp
        /\ (forall j, rd m2 j = NL -> j < fp_mid fp)
        /\ worker_thread parser 1 fp m2
           = Some {| w_mem := m2; w_res := []; w_line_count := 1;
                     w_p := Z.of_nat (length m2) - 1 |}
        /\ (forall w0, worker_thread parser 0 fp m2 = Some w0 ->
              worker_thread parser 1 (set_midline fp (w_line_count w0)) (w_mem w0)
              = Some {| w_mem := w_mem w0; w_res := []; w_line_count := 1;
                        w_p := Z.of_nat (length m2) - 1 |})
        /\ (3 <= Z.of_nat (length m2) ->
            option_map (fun w => (w_mem w, w_res w, w_line_count w))
              (worker_thread parser 0 fp m2)
            = option_map (fun w => (w_mem w, w_res w, w_line_count w))
                (worker_loop parser (S (length m2)) m2 0
                   (Z.of_nat (length m2)) 1 []))).
Proof.
  intros Hsize1 Hk Hnl Hfirst Hm2 Hsize2 Hno. split.
  - assert (Hin : k < Z.of_nat (length m1)).
    { destruct (Z.ltb_spec k (Z.of_nat (length m1))); [assumption|].
      rewrite rd_beyond in Hnl by lia. discriminate. }
    assert (Hhalf : 0 <= Z.of_nat (length m1) / 2) by (apply Z.div_pos; lia).
    assert (Hm1 : m1 <> []) by (intros Hnil; rewrite Hnil in Hin; simpl in Hin; lia).
    eexists. split; [apply parse_file_Some; assumption|].
    unfold worker_start, worker_end.
    change (0 =? 0) with true. change (1 =? 0) with false.
    cbn [fp_start fp_mid fp_size].
    rewrite (uint_wrap_small (Z.of_nat (length m1))) by lia.
    assert (Hchr : strchr m1 (Z.of_nat (length m1) / 2) NL = Some k)
      by (apply strchr_Some; [assumption | exact NL_not_NUL | auto]).
    rewrite Hchr. repeat split; lia.
  - assert (Hpos : 1 <= Z.of_nat (length m2))
      by (destruct m2; [contradiction | simpl; lia]).
    assert (Hhalf : 0 <= Z.of_nat (length m2) / 2) by (apply Z.div_pos; lia).
    assert (Hhalf' : Z.of_nat (length m2) / 2 < Z.of_nat (length m2))
      by (apply Z.div_lt_upper_bound; lia).
    assert (Hnone : forall q, Z.of_nat (length m2) / 2 <= q -> strchr m2 q NL = None).
    { intros q Hq. apply strchr_None_intro; [lia | exact NL_not_NUL |].
      intros j Hj. apply Hno. lia. }
    eexists. split; [apply parse_file_Some; assumption|].
    unfold worker_start, worker_end.
    change (0 =? 0) with true. change (1 =? 0) with false.
    cbn [fp_start fp_mid fp_size].
    rewrite (uint_wrap_small (Z.of_nat (length m2))) by lia.
    rewrite (Hnone (Z.of_nat (length m2) / 2)) by lia.
    split; [reflexivity|]. split; [reflexivity|]. split; [lia|].
    split; [reflexivity|]. split; [lia|]. split; [lia|].
    assert (Hlast : Z.of_nat (length m2) / 2 <= Z.of_nat (length m2) - 1) by lia.
    split; [|split; [|split]].
    + intros j Hj.
      destruct (Z.ltb_spec j (Z.of_nat (length m2) / 2)); [lia|].
      exfalso. now apply (Hno j).
    + unfold worker_thread, worker_start, worker_end.
      change (1 =? 0) with false. cbn [fp_start fp_mid fp_size].
      rewrite worker_loop_unfold.
      destruct (Z.ltb_spec (Z.of_nat (length m2) - 1) (0 + Z.of_nat (length m2)));
        [|lia].
      now rewrite (Hnone (Z.of_nat (length m2) - 1)) by lia.
    + intros w0 H0.
      unfold worker_thread, worker_start, worker_end in H0 |- *.
      change (0 =? 0) with true in H0. change (1 =? 0) with false.
      cbn [fp_start fp_mid fp_size set_midline] in H0 |- *.
      rewrite worker_loop_unfold.
      destruct (Z.ltb_spec (Z.of_nat (length m2) - 1) (0 + Z.of_nat (length m2)));
        [|lia].
      now rewrite (worker_loop_keeps_None _ _ _ _ _ _ _ _ (Z.of_nat (length m2) - 1) H0
                     ltac:(lia) (Hnone (Z.of_nat (length m2) - 1) Hlast)).
    + intros H3. unfold worker_thread, worker_start, worker_end.
      change (0 =? 0) with true. cbn [fp_start fp_mid].
      apply worker_loop_bound; [lia | lia |].
      intros q Hq. apply Hnone.
      pose proof (Z.div_mod (Z.of_nat (length m2)) 2 ltac:(lia)) as Hdm.
      pose proof (Z.mod_pos_bound (Z.of_nat (length m2)) 2 ltac:(lia)) as Hr.
      lia.
Qed.

Lemma split_point_witness :
  let parser := literal_parser (chars "hello") in
  let m1 := file_hello in
  let m2 := chars "abc" in
  (exists fp,
     parse_file (chars "f.c") m1 0 = Some fp
     /\ fp_start fp = 0 /\ fp_mid fp = 23 + 1
     /\ fp_start fp + fp_size fp = Z.of_nat (length m1)
     /\ worker_start 0 fp = fp_start fp
     /\ worker_start 1 fp = fp_mid fp
     /\ worker_end 1 fp = Z.of_nat (length m1))
  /\ (exists fp,
        parse_file (chars "f.c") m2 0 = Some fp
        /\ fp_start fp = 0 /\ fp_mid fp = Z.of_nat (length m2) - 1
        /\ fp_start fp + fp_size fp = Z.of_nat (length m2)
        /\ worker_start 1 fp = fp_mid fp
        /\ worker_end 1 fp = Z.of_nat (length m2)
        /\ worker_start 1 fp < worker_end 1 fp
        /\ (forall j, rd m2 j = NL -> j < fp_mid fp)
        /\ worker_thread parser 1 fp m2
           = Some {| w_mem := m2; w_res := []; w_line_count := 1;
                     w_p := Z.of_nat (length m2) - 1 |}
        /\ (forall w0, worker_thread parser 0 fp m2 = Some w0 ->
              worker_thread parser 1 (set_midline fp (w_line_count w0)) (w_mem w0)
              = Some {| w_mem := w_mem w0; w_res := []; w_line_count := 1;
                        w_p := Z.of_nat (length m2) - 1 |})
        /\ (3 <= Z.of_nat (length m2) ->
            option_map (fun w => (w_mem w, w_res w, w_line_count w))
              (worker_thread parser 0 fp m2)
            = option_map (fun w => (w_mem w, w_res w, w_line_count w))
                (worker_loop parser (S (length m2)) m2 0
                   (Z.of_nat (length m2)) 1 []))).
Proof.
  apply (split_point (literal_parser (chars "hello")) (chars "f.c") file_hello
           (chars "abc") 23 0).
  - vm_compute. reflexivity.
  - vm_compute. discriminate.
  - reflexivity.
  - intros j Hj. change (Z.of_nat (length file_hello) / 2) with 12 in Hj.
    assert (Hcases : j = 12 \/ j = 13 \/ j = 14 \/ j = 15 \/ j = 16 \/ j = 17
                     \/ j = 18 \/ j = 19 \/ j = 20 \/ j = 21 \/ j = 22) by lia.
    destruct Hcases as [->|[->|[->|[->|[->|[->|[->|[->|[->|[->| ->]]]]]]]]]];
      split; discriminate.
  - discriminate.
  - vm_compute. reflexivity.
  - change (Z.of_nat (length (chars "abc")) / 2) with 1. intros j Hj.
    destruct (Z.eq_dec j 1) as [->|H1]; [discriminate|].
    destruct (Z.eq_dec j 2) as [->|H2]; [discriminate|].
    rewrite rd_beyond; [discriminate | simpl; lia].
Defined.

(** ** C9: where the selection lands *)

(** C9, counterexample: in the store made of one header and one match
    line, on a screen of 24 lines, the selection is on the match line
    (index 0, cursor 1); after Up it is on the header. *)
Lemma up_lands_on_header :
  let s := set_screen (set_entries init_searchstruct
                         [ {| e_data := chars "a.c"; e_line := 0 |};
                           {| e_data := chars "hello" ++ [0]; e_line := 1 |} ] 1)
                      0 1 in
  wf_store (s_entries s)
  /\ is_file (selected s) s = Some false
  /\ exists s', do_moves 24 [Up] s = Some s'
                /\ selected s' = 0
                /\ is_file (selected s') s' = Some true.
Proof.
  split; [|split].
  - apply groups_wf.
    apply (groups_app [] {| e_data := chars "a.c"; e_line := 0 |}
             [ {| e_data := chars "hello" ++ [0]; e_line := 1 |} ]);
      [constructor | reflexivity | discriminate | repeat constructor].
  - reflexivity.
  - eexists. split; [reflexivity|]. split; reflexivity.
Qed.

(** C9, amended: on a screen of at least two lines and a well-formed
    store, from a screen in order (as the initial one of a store that is
    not empty is: top of the viewport a multiple of the height, cursor on
    the screen, selection in the store and, past the first page, on a
    match line), every sequence
    of Up, Down, PageUp and PageDown is carried out, leaves the store as
    it is and the screen in order, so the selection stays in the store;
    the selection is a match line after Down or PageDown, and after Up or
    PageUp whenever the top of the viewport is not entry 0. *)
Theorem navigation_selection (LINES : Z) (ks : list move) (s : search) :
  2 <= LINES ->
  wf_store (s_entries s) ->
  nav_inv LINES s ->
  exists s', do_moves LINES ks s = Some s'
             /\ s_entries s' = s_entries s
             /\ nav_inv LINES s'
             /\ 0 <= selected s' < nbentry s'
             /\ (s_index s' <> 0 \/ ends_down ks ->
                 is_file (selected s') s' = Some false).
Proof.
  intros HL Hwf Hinv.
  destruct (do_moves_ok LINES ks HL s Hwf Hinv) as (s' & Hrun & Hes & Hinv' & Hdown).
  exists s'. split; [assumption|]. split; [assumption|]. split; [assumption|].
  destruct Hinv' as (Hdiv & H0 & Hc & Hsel & Hline). split.
  - unfold selected in *. lia.
  - intros [Hn0|Hend]; auto.
Qed.

Lemma navigation_selection_witness :
  exists s', do_moves 2 [Down; Down; PageDown; Up; PageUp; Down] search_hello = Some s'
             /\ s_entries s' = s_entries search_hello
             /\ nav_inv 2 s'
             /\ 0 <= selected s' < nbentry s'
             /\ (s_index s' <> 0 \/ ends_down [Down; Down; PageDown; Up; PageUp; Down] ->
                 is_file (selected s') s' = Some false).
Proof.
  apply (navigation_selection 2 [Down; Down; PageDown; Up; PageUp; Down] search_hello).
  - lia.
  - apply groups_wf.
    apply (groups_app [] {| e_data := chars "a.c"; e_line := 0 |}
             [ {| e_data := chars "hello" ++ [0]; e_line := 1 |};
               {| e_data := chars "hello world" ++ [0]; e_line := 3 |} ]);
      [constructor | reflexivity | discriminate | repeat constructor].
  - unfold nav_inv, selected. simpl. repeat split; try lia.
    exists 0. reflexivity.
Defined.

(** ** C6: a subsearch pattern that is not a valid regex *)

(** What the [/] key does when [regcomp] rejects the pattern typed: the
    father stays the current search and keeps its entries, index and
    cursor, the child allocated for the subsearch stays on the heap, and
    the father's child pointer points to it. *)
Lemma subsearch_rejected `{RL : RegexLib} (LINES : Z) (typed : list Z)
    (st : state) (f : search) :
  rd typed 0 <> 0 ->
  heap st !! current st = Some f ->
  regcomp (strncpy typed LINE_MAX) = false ->
  exists st', main_switch LINES (KEY_SLASH typed) st = Some (Running st')
              /\ current st' = current st
              /\ heap st' !! current st
                 = Some (set_child f (Some (fresh (dom (heap st)))))
              /\ is_Some (heap st' !! fresh (dom (heap st)))
              /\ heap st !! fresh (dom (heap st)) = None.
Proof.
  intros Htyped Hf Hbad.
  assert (Hfresh : heap st !! fresh (dom (heap st)) = None)
    by (apply not_elem_of_dom, is_fresh).
  assert (Hne : fresh (dom (heap st)) <> current st) by congruence.
  unfold main_switch, subsearch. rewrite Hf.
  destruct (Z.eqb_spec (rd typed 0) 0) as [|_]; [contradiction|].
  unfold is_regex_valid. cbn [s_pattern]. rewrite Hbad.
  eexists. split; [reflexivity|]. cbn [heap current].
  split; [reflexivity|]. split; [|split; [|assumption]].
  - rewrite lookup_insert_ne by assumption. now rewrite lookup_insert_eq.
  - rewrite lookup_insert_eq. eauto.
Qed.

(** C6, at the failing input.  The mainsearch holds the results for
    [hello] and has no child; the user types [\(], which [regcomp]
    rejects.  The mainsearch stays the current search, with its entries,
    index and cursor, but its child pointer is no longer [NULL]: it
    points to the structure allocated for the rejected subsearch. *)
Theorem rejected_subsearch_sets_child :
  let st := {| heap := {[ mainsearch_key := search_hello ]};
               current := mainsearch_key |} in
  regcomp (RegexLib := literal_regex) (strncpy (chars "\(") LINE_MAX) = false
  /\ s_child search_hello = None
  /\ exists st' father',
       main_switch (RL := literal_regex) 24 (KEY_SLASH (chars "\(")) st
       = Some (Running st')
       /\ current st' = mainsearch_key
       /\ heap st' !! mainsearch_key = Some father'
       /\ s_entries father' = s_entries search_hello
       /\ s_index father' = s_index search_hello
       /\ s_cursor father' = s_cursor search_hello
       /\ s_child father' <> None.
Proof.
  intros st. split; [reflexivity|]. split; [reflexivity|].
  destruct (subsearch_rejected (RL := literal_regex) 24 (chars "\(") st search_hello)
    as (st' & Hrun & Hcur & Hfather & _); [discriminate | reflexivity | reflexivity |].
  exists st', (set_child search_hello (Some (fresh (dom (heap st))))).
  repeat split; try assumption. discriminate.
Qed.

(** ** C7: the extension list of the configuration file *)

(** C7, at the failing input.  With [EDITOR] unset the editor name is
    [vim]; the line [extensions = ".c .vim";] holds a semicolon, the word
    [extensions] and a quoted value whose tokens are [.c] and [.vim], and
    it also holds [vim]: the editor branch cuts the line at the closing
    quote and the extensions branch then dereferences the [NULL] that
    [strchr] returns for that quote.  A line that holds both [files] and
    [extensions] ends the same way, while the line
    [extensions = ".c .h";] yields the tokens [.c] and [.h]. *)
Theorem extensions_line_crashes :
  tokens (chars ".c .vim") = [chars ".c"; chars ".vim"]
  /\ get_config None [config_line "extensions" ".c .vim"] = None
  /\ get_config None [config_line "files extensions" ".c"] = None
  /\ option_map (fun c => map cstr (c_extensions c))
       (get_config None [config_line "extensions" ".c .h"])
     = Some [chars ".c"; chars ".h"].
Proof. repeat split; vm_compute; reflexivity. Qed.

(** ** C8: exit codes *)

(** C8, counterexample: [q] pressed in the root search, which has no
    father, ends the program through [exit(-1)]: the exit code is 255,
    not 0. *)
Lemma quit_exit_code :
  s_father init_searchstruct = None
  /\ main_iteration (RL := literal_regex) 24 KEY_QUIT initial_state
     = Some (Exited Exit_quit)
  /\ exit_code Exit_quit = 255.
Proof. repeat split. Qed.

(** C8, amended: [q] pressed in a search without father ends the program
    with [exit(-1)], exit code 255, as the fatal errors do: every exit
    taken before the main loop (no mainsearch, no config file, bad
    options, bad regexp, no thread), by the signal handler, or on
    a failed allocation has a non-zero exit code.  The theorem also says
    where exit code 0 comes from: the exit taken when the search is over
    and the store is empty, and the return of [main] when [getch] gives
    the key code 0, which ends the loop. *)
Theorem exit_codes `{RL : RegexLib} (LINES : Z) (st : state) (cur : search) :
  heap st !! current st = Some cur ->
  s_father cur = None ->
  main_iteration LINES KEY_QUIT st = Some (Exited Exit_quit)
  /\ exit_argument Exit_quit = -1
  /\ exit_code Exit_quit = 255
  /\ (forall site, is_fatal site = true -> exit_code site <> 0)
  /\ (forall su site, main_startup su = Some site -> is_fatal site = true)
  /\ (forall signo site, sig_handler signo = Some site -> is_fatal site = true)
  /\ (forall site, exit_code site = 0
                   <-> site = Exit_no_result \/ site = Exit_main_return)
  /\ (forall ch st0, main_iteration LINES ch st0 = Some (Exited Exit_no_result) ->
        exists st1 mainsearch,
          main_switch LINES ch st0 = Some (Running st1)
          /\ heap st1 !! mainsearch_key = Some mainsearch
          /\ s_status mainsearch = false /\ nbentry mainsearch = 0)
  /\ (forall ch st0, main_iteration LINES ch st0 = Some (Exited Exit_main_return)
                     <-> ch = KEY_NUL).
Proof.
  intros Hcur Hroot.
  assert (Hswitch : forall ch st0 site,
             main_switch LINES ch st0 = Some (Exited site) -> site = Exit_quit).
  { intros ch st0 site. unfold main_switch.
    destruct (heap st0 !! current st0) as [c|]; [|discriminate].
    destruct ch as [|k|typed| | | |]; try discriminate.
    - destruct (do_move LINES k c); discriminate.
    - destruct (subsearch typed (current st0) st0) as [st2 [tmp|]]; discriminate.
    - destruct (s_father c) as [tmp|]; [|now intros [= <-]].
      destruct (clean_search (heap st0) (current st0) !! tmp); discriminate. }
  assert (Hturn : forall ch st0 site,
             ch <> KEY_NUL ->
             main_iteration LINES ch st0 = Some (Exited site) ->
             site = Exit_quit
             \/ (site = Exit_no_result
                 /\ exists st1 mainsearch,
                      main_switch LINES ch st0 = Some (Running st1)
                      /\ heap st1 !! mainsearch_key = Some mainsearch
                      /\ s_status mainsearch = false /\ nbentry mainsearch = 0)).
  { intros ch st0 site Hch.
    assert (Hit : main_iteration LINES ch st0
                  = match main_switch LINES ch st0 with
                    | Some (Running st') =>
                        match heap st' !! mainsearch_key with
                        | None => None
                        | Some mainsearch =>
                            if negb (s_status mainsearch) && (nbentry mainsearch =? 0)
                            then Some (Exited Exit_no_result)
                            else Some (Running st')
                        end
                    | r => r
                    end)
      by (destruct ch; [reflexivity.. | contradiction]).
    rewrite Hit.
    destruct (main_switch LINES ch st0) as [[st1|site']|] eqn:Hsw; [| |discriminate].
    - destruct (heap st1 !! mainsearch_key) as [ms|] eqn:Hms; [|discriminate].
      destruct (s_status ms) eqn:Hst; simpl; [discriminate|].
      destruct (Z.eqb_spec (nbentry ms) 0) as [Hn|]; [|discriminate].
      intros [= <-]. right. split; [reflexivity|]. now exists st1, ms.
    - intros [= <-]. left. eapply Hswitch; eauto. }
  split; [|split; [|split; [|split; [|split; [|split; [|split; [|split]]]]]]].
  - unfold main_iteration, main_switch. now rewrite Hcur, Hroot.
  - reflexivity.
  - reflexivity.
  - intros [] Hf; try discriminate Hf; discriminate.
  - intros su site. unfold main_startup.
    repeat match goal with
           | |- context [if ?b then _ else _] => destruct b
           end; intros [= <-]; reflexivity.
  - intros signo site. unfold sig_handler.
    destruct (signo =? SIGINT); intros [= <-]. reflexivity.
  - intros []; split; intros H; try discriminate H;
      try (destruct H as [H|H]; discriminate H); auto.
  - intros ch st0 Hrun.
    destruct (Hturn ch st0 Exit_no_result) as [H|[_ H]];
      [intros -> | exact Hrun | discriminate H | exact H].
    discriminate Hrun.
  - intros ch st0. split.
    + intros Hrun. destruct ch; try reflexivity;
        match type of Hrun with
        | main_iteration _ ?c _ = _ =>
            destruct (Hturn c st0 Exit_main_return ltac:(discriminate) Hrun)
              as [H|[H _]]; discriminate H
        end.
    + now intros ->.
Qed.

Lemma exit_codes_witness :
  main_iteration (RL := literal_regex) 24 KEY_QUIT initial_state
  = Some (Exited Exit_quit)
  /\ exit_argument Exit_quit = -1
  /\ exit_code Exit_quit = 255
  /\ (forall site, is_fatal site = true -> exit_code site <> 0)
  /\ (forall su site, main_startup (RL := literal_regex) su = Some site ->
        is_fatal site = true)
  /\ (forall signo site, sig_handler signo = Some site -> is_fatal site = true)
  /\ (forall site, exit_code site = 0
                   <-> site = Exit_no_result \/ site = Exit_main_return)
  /\ (forall ch st0,
        main_iteration (RL := literal_regex) 24 ch st0
        = Some (Exited Exit_no_result) ->
        exists st1 mainsearch,
          main_switch (RL := literal_regex) 24 ch st0 = Some (Running st1)
          /\ heap st1 !! mainsearch_key = Some mainsearch
          /\ s_status mainsearch = false /\ nbentry mainsearch = 0)
  /\ (forall ch st0,
        main_iteration (RL := literal_regex) 24 ch st0
        = Some (Exited Exit_main_return) <-> ch = KEY_NUL).
Proof.
  apply (exit_codes (RL := literal_regex) 24 initial_state init_searchstruct).
  - reflexivity.
  - reflexivity.
Defined.

(* ================================================================== *)
(** * Part IV: further properties of the code                          *)
(* ================================================================== *)

(** ** The configuration file, line by line *)

(** A line that names the editor, and neither [files] nor [extensions],
    sets the editor command to its quoted value and leaves the two lists
    as they are. *)
Theorem editor_line_parsed (ptr_env pre value post : list Z) (c : config) :
  Forall (fun x => x <> 0 /\ x <> DQUOTE) pre ->
  Forall (fun x => x <> 0 /\ x <> DQUOTE) value ->
  strchr (quoted_line pre value post) 0 SEMICOLON <> None ->
  contains (quoted_line pre value post) ptr_env = true ->
  contains (quoted_line pre value post) (chars "files") = false ->
  contains (quoted_line pre value post) (chars "extensions") = false ->
  get_config_line ptr_env (quoted_line pre value post) c
  = Some {| c_editor_cmd := Some value;
            c_specific_files := c_specific_files c;
            c_extensions := c_extensions c |}.
Proof.
  intros Hpre Hvalue Hsemi Heditor Hfiles Hext. unfold get_config_line.
  destruct (strchr (quoted_line pre value post) 0 SEMICOLON); [|contradiction].
  rewrite Heditor. unfold quoted_line at 1. rewrite quoted_value by assumption.
  cbv zeta.
  assert (Hz : zeroed ((pre ++ [DQUOTE]) ++ value ++ 0 :: post)
                 (quoted_line pre value post)).
  { unfold quoted_line.
    replace ((pre ++ [DQUOTE]) ++ value ++ 0 :: post)
      with ((pre ++ DQUOTE :: value) ++ 0 :: post) by now rewrite <- !app_assoc.
    replace (pre ++ DQUOTE :: value ++ DQUOTE :: post)
      with ((pre ++ DQUOTE :: value) ++ DQUOTE :: post) by now rewrite <- !app_assoc.
    apply zeroed_at. }
  rewrite (contains_zeroed _ _ _ Hz Hfiles), (contains_zeroed _ _ _ Hz Hext).
  rewrite (ptr_add_at _ (pre ++ [DQUOTE]) (value ++ 0 :: post)) by reflexivity.
  rewrite cstr_before_nul; [reflexivity|].
  eapply Forall_impl; [exact Hvalue|]. now intros x [Hx _].
Qed.

Lemma editor_line_parsed_witness :
  get_config_line (chars "vim")
    (quoted_line (chars "editor = ") (chars "vim -c %d %s") [SEMICOLON; NL])
    {| c_editor_cmd := None; c_specific_files := []; c_extensions := [] |}
  = Some {| c_editor_cmd := Some (chars "vim -c %d %s");
            c_specific_files := []; c_extensions := [] |}.
Proof.
  apply (editor_line_parsed (chars "vim") (chars "editor = ")
           (chars "vim -c %d %s") [SEMICOLON; NL]
           {| c_editor_cmd := None; c_specific_files := []; c_extensions := [] |}).
  - cbv. repeat (constructor; [split; discriminate|]). constructor.
  - cbv. repeat (constructor; [split; discriminate|]). constructor.
  - vm_compute. discriminate.
  - vm_compute. reflexivity.
  - vm_compute. reflexivity.
  - vm_compute. reflexivity.
Defined.

Lemma extensions_line_parsed_witness :
  get_config_line (chars "vim")
    (quoted_line (chars "extensions = ") (chars ".c  .h") [SEMICOLON; NL])
    {| c_editor_cmd := None; c_specific_files := []; c_extensions := [] |}
  = Some {| c_editor_cmd := None;
            c_specific_files := [];
            c_extensions :=
              [] ++ map (fun t => strncpy t LINE_MAX) (tokens (chars ".c  .h")) |}.
Proof.
  apply (extensions_line_parsed (chars "vim") (chars "extensions = ")
           (chars ".c  .h") [SEMICOLON; NL]
           {| c_editor_cmd := None; c_specific_files := []; c_extensions := [] |}).
  - cbv. repeat (constructor; [split; discriminate|]). constructor.
  - cbv. repeat (constructor; [split; discriminate|]). constructor.
  - vm_compute. discriminate.
  - vm_compute. reflexivity.
  - vm_compute. reflexivity.
  - vm_compute. reflexivity.
Defined.

Lemma files_line_parsed_witness :
  get_config_line (chars "vim")
    (quoted_line (chars "files = ") (chars "Makefile Kconfig") [SEMICOLON; NL])
    {| c_editor_cmd := None; c_specific_files := []; c_extensions := [] |}
  = Some {| c_editor_cmd := None;
            c_specific_files :=
              [] ++ map (fun t => strncpy t LINE_MAX)
                      (tokens (chars "Makefile Kconfig"));
            c_extensions := [] |}.
Proof.
  apply (files_line_parsed (chars "vim") (chars "files = ")
           (chars "Makefile Kconfig") [SEMICOLON; NL]
           {| c_editor_cmd := None; c_specific_files := []; c_extensions := [] |}).
  - cbv. repeat (constructor; [split; discriminate|]). constructor.
  - cbv. repeat (constructor; [split; discriminate|]). constructor.
  - vm_compute. discriminate.
  - vm_compute. reflexivity.
  - vm_compute. reflexivity.
  - vm_compute. reflexivity.
Defined.

(** ** One file, scanned by the two workers *)

(** On a line as the workers hand it over (no NUL in it, a NUL after it),
    the matcher chosen for a pattern of plain bytes answers whether the
    pattern occurs in the line. *)
Lemma literal_parser_line (pattern line rest : list Z) :
  pattern <> [] ->
  Forall (fun c => 0 < c <= 127) pattern ->
  Forall (fun c => c <> 0) line ->
  Forall (fun c => -128 <= c <= 127) (line ++ rest) ->
  literal_parser pattern (line ++ 0 :: rest) (Z.of_nat (length line))
  = Some (occurs_b pattern line).
Proof.
  intros Hne Hpat Hline Hrange.
  set (text := line ++ 0 :: rest). set (tsize := Z.of_nat (length line)).
  assert (Htake : take (Z.to_nat tsize) text = line)
    by (unfold tsize, text; rewrite Nat2Z.id; apply take_app_length).
  assert (Htext : Forall (fun c => -128 <= c <= 127) text).
  { apply Forall_app in Hrange as [H1 H2].
    apply Forall_app. split; [assumption|]. constructor; [lia | assumption]. }
  assert (Hts : 0 <= tsize <= Z.of_nat (length text))
    by (unfold tsize, text; rewrite length_app; lia).
  assert (Hnz : forall i, 0 <= i < tsize -> rd text i <> 0).
  { intros i Hi. destruct (Z_of_nat_complete i) as [n ->]; [lia|].
    unfold text. rewrite rd_of_nat, app_nth1 by lia.
    rewrite List.Forall_forall in Hline. apply Hline, nth_In. lia. }
  assert (Hend : rd text tsize = 0)
    by (unfold text, tsize; now rewrite (rd_at _ line (0 :: rest))).
  assert (Hlen : (1 <= length pattern)%nat)
    by (destruct pattern; [contradiction | simpl; lia]).
  assert (Hrun : exists r,
             run_parser (pre_bmh pattern) text pattern tsize = Some r
             /\ (r <> None <-> occurs pattern line)).
  { destruct (pre_bmh_ascii pattern Hpat Hlen) as (Hps & Hpar & Hok).
    unfold run_parser. rewrite Hpar.
    destruct (Z.eqb_spec (Z.of_nat (length pattern)) 1) as [H1|H1].
    - exists (strstr text pattern). split; [reflexivity|].
      unfold strstr. rewrite find_sub_occurs.
      rewrite (cstr_line text tsize), Htake by (assumption || lia).
      rewrite cstr_no_nul; [reflexivity|].
      eapply Forall_impl; [exact Hpat|]. simpl. lia.
    - unfold bmh. rewrite Hps.
      destruct (bmh_loop_spec pattern text (m_skipt (pre_bmh pattern)) tsize
                  Hpat ltac:(lia) Htext Hts Hnz Hok (S (length text)) 0)
        as (r & Hr & Hspec); [lia | lia | intros j Hj; lia |].
      exists r. split; [assumption|].
      rewrite <- Htake, occurs_match_at by assumption.
      destruct r as [k|].
      + split; [intros _ | congruence]. exists k. tauto.
      + split; [congruence|]. intros (i & Hi0 & Hi & Hm).
        exfalso. eapply Hspec; eauto. }
  destruct Hrun as (r & Hr & Hiff).
  unfold literal_parser. fold text tsize. rewrite Hr.
  unfold occurs_b.
  pose proof (find_sub_occurs pattern line 0) as Hfind.
  destruct r as [k|], (find_sub pattern line 0) as [q|]; try reflexivity.
  - exfalso. apply (proj2 Hfind); [|reflexivity]. apply Hiff. discriminate.
  - exfalso. apply (proj2 Hiff); [|reflexivity]. apply Hfind. discriminate.
Qed.

Section ScanFile.
Variable byte_ok : Z -> Prop.
Variable parser : list Z -> Z -> option bool.
Variable matches : list Z -> bool.
Variable m : list Z.
Hypothesis zero_ok : byte_ok 0.
Hypothesis Hbytes : Forall (fun c => c <> 0 /\ byte_ok c) m.
Hypothesis Hparser :
  forall line rest,
    Forall (fun c => c <> 0) line -> Forall (fun c => c <> NL) line ->
    Forall byte_ok (line ++ rest) ->
    parser (line ++ 0 :: rest) (Z.of_nat (length line)) = Some (matches line).

Lemma file_no_nul : Forall (fun c => c <> 0) m.
Proof. eapply Forall_impl; [exact Hbytes|]. now intros c [Hc _]. Qed.

(** What the loop meets at a line start [p]: the end of the file, a last
    part without newline, or a line that the matcher judges. *)
Lemma worker_loop_line (mem : list Z) (p : Z) :
  0 <= p < Z.of_nat (length m) ->
  length mem = length m ->
  drop (Z.to_nat p) mem = drop (Z.to_nat p) m ->
  Forall byte_ok mem ->
  (strchr mem p NL = None
   /\ lines_from (drop (Z.to_nat p) m) [] = [])
  \/ exists line rest,
       drop (Z.to_nat p) m = line ++ NL :: rest
       /\ Forall (fun c => c <> 0) line
       /\ Forall (fun c => c <> NL) line
       /\ strchr mem p NL = Some (p + Z.of_nat (length line))
       /\ p + Z.of_nat (length line) < Z.of_nat (length m)
       /\ drop (Z.to_nat p) (wr mem (p + Z.of_nat (length line)) 0)
          = line ++ 0 :: rest
       /\ parser (ptr_add (wr mem (p + Z.of_nat (length line)) 0) p)
            (p + Z.of_nat (length line) - p)
          = Some (matches line)
       /\ drop (Z.to_nat (p + Z.of_nat (length line) + 1))
            (wr mem (p + Z.of_nat (length line)) 0)
          = drop (Z.to_nat (p + Z.of_nat (length line) + 1)) m
       /\ lines_from (drop (Z.to_nat p) m) []
          = line :: lines_from
                      (drop (Z.to_nat (p + Z.of_nat (length line) + 1)) m) [].
Proof.
  intros Hp Hlen Hsame HPmem.
  pose proof file_no_nul as Hnonul.
  unfold strchr, ptr_add. rewrite Hsame.
  destruct (strchr_from_line (drop (Z.to_nat p) m) p (Forall_drop _ _ _ Hnonul))
    as [[Hnone Hno]|(line & rest & Hsplit & Hline & Hsome)].
  { left. split; [assumption|]. now apply lines_from_no_newline. }
  right. exists line, rest.
  assert (Hline0 : Forall (fun c => c <> 0) line).
  { pose proof (Forall_drop _ (Z.to_nat p) _ Hnonul) as Hd.
    rewrite Hsplit in Hd. now apply Forall_app in Hd as [Hd _]. }
  assert (Hfit : p + Z.of_nat (length line) < Z.of_nat (length m)).
  { assert (Hl : length (drop (Z.to_nat p) m) = length (line ++ NL :: rest))
      by now rewrite Hsplit.
    rewrite length_drop, length_app in Hl. simpl in Hl. lia. }
  assert (Hmem' : drop (Z.to_nat p) (wr mem (p + Z.of_nat (length line)) 0)
                  = line ++ 0 :: rest).
  { unfold wr. destruct (Z.ltb_spec (p + Z.of_nat (length line)) 0); [lia|].
    rewrite drop_insert_ge by lia. rewrite Hsame, Hsplit.
    replace (Z.to_nat (p + Z.of_nat (length line)) - Z.to_nat p)%nat
      with (length line + 0)%nat by lia.
    now rewrite insert_app_r. }
  assert (Hnext : drop (Z.to_nat (p + Z.of_nat (length line) + 1)) m = rest).
  { replace (Z.to_nat (p + Z.of_nat (length line) + 1))
      with (Z.to_nat p + (length line + 1))%nat by lia.
    rewrite <- drop_drop, Hsplit, <- (drop_drop _ 1 (length line)), drop_app_length.
    reflexivity. }
  repeat split; try assumption.
  - rewrite Hmem'.
    replace (p + Z.of_nat (length line) - p) with (Z.of_nat (length line)) by lia.
    apply Hparser; [assumption..|].
    assert (HP' : Forall byte_ok (drop (Z.to_nat p) mem)) by now apply Forall_drop.
    rewrite Hsame, Hsplit in HP'.
    apply Forall_app in HP' as [H1 H2]. apply Forall_app. split; [assumption|].
    now inversion H2.
  - rewrite Hnext.
    replace (Z.to_nat (p + Z.of_nat (length line) + 1))
      with (Z.to_nat p + (length line + 1))%nat by lia.
    rewrite <- drop_drop, Hmem', <- (drop_drop _ 1 (length line)), drop_app_length.
    reflexivity.
  - rewrite Hsplit, lines_from_line by assumption. now rewrite Hnext.
Qed.

Lemma byte_ok_wr (mem : list Z) (i : Z) :
  Forall byte_ok mem -> Forall byte_ok (wr mem i 0).
Proof.
  intros H. unfold wr. destruct (i <? 0); [assumption|].
  now apply Forall_insert.
Qed.

(** The loop returns, for any bound, and leaves the file as it was from
    the place it stopped at. *)
Lemma worker_loop_runs fuel :
  forall mem p e line_count res,
    0 <= p <= Z.of_nat (length m) ->
    length mem = length m ->
    drop (Z.to_nat p) mem = drop (Z.to_nat p) m ->
    Forall byte_ok mem ->
    Z.of_nat (length m) - p < Z.of_nat fuel ->
    exists w,
      worker_loop parser fuel mem p e line_count res = Some w
      /\ length (w_mem w) = length m
      /\ Forall byte_ok (w_mem w)
      /\ p <= w_p w <= Z.of_nat (length m)
      /\ drop (Z.to_nat (w_p w)) (w_mem w) = drop (Z.to_nat (w_p w)) m.
Proof.
  induction fuel as [|fuel IH]; intros mem p e line_count res Hp Hlen Hsame HPmem Hfuel;
    [lia|].
  rewrite worker_loop_unfold.
  destruct (p <? e); [|eexists; split; [reflexivity|]; cbn; repeat split; (assumption || lia)].
  destruct (Z.ltb_spec p (Z.of_nat (length m))) as [Hlt|Hge].
  2: { unfold strchr, ptr_add. rewrite drop_ge by lia. cbn [strchr_from].
       change (NL =? 0) with false. cbv iota.
       eexists; split; [reflexivity|]; cbn; repeat split; (assumption || lia). }
  destruct (worker_loop_line mem p ltac:(lia) Hlen Hsame HPmem)
    as [[-> _]|(line & rest & Hsplit & Hline0 & Hline & -> & Hfit & Hmem' & -> & Hnext & _)].
  { eexists; split; [reflexivity|]; cbn; repeat split; (assumption || lia). }
  destruct (IH (wr mem (p + Z.of_nat (length line)) 0)
              (p + Z.of_nat (length line) + 1) e
              (int_wrap (line_count + 1))
              (if matches line
               then res ++ [ {| wr_line :=
                                  strncpy (ptr_add (wr mem (p + Z.of_nat (length line)) 0) p)
                                    (line_size (p + Z.of_nat (length line) - p));
                                wr_index := line_count |} ]
               else res))
    as (w & Hrun & Hlenw & HPw & Hpw & Hdrop);
    [lia | now rewrite length_wr | assumption | now apply byte_ok_wr | lia |].
  exists w. split; [exact Hrun|]. repeat split; (assumption || lia).
Qed.

(** What the loop reports from a line start to the end of the file is
    what the reference scan reports for the rest of the file. *)
Lemma worker_loop_reference_in fuel :
  forall mem p line_count res w,
    worker_loop parser fuel mem p (Z.of_nat (length m)) line_count res = Some w ->
    0 <= p <= Z.of_nat (length m) ->
    length mem = length m ->
    drop (Z.to_nat p) mem = drop (Z.to_nat p) m ->
    Forall byte_ok mem ->
    1 <= line_count ->
    line_count + (Z.of_nat (length m) - p) < 2 ^ 31 ->
    map (fun r => (wr_index r, cstr (wr_line r))) (w_res w)
    = map (fun r => (wr_index r, cstr (wr_line r))) res
      ++ map (fun nl => (fst nl, take 256 (snd nl)))
           (List.filter (fun nl => matches (snd nl))
              (number_lines line_count (lines_from (drop (Z.to_nat p) m) []))).
Proof.
  induction fuel as [|fuel IH];
    intros mem p line_count res w Hrun Hp Hlen Hsame HPmem Hlc Hroom; [discriminate|].
  rewrite worker_loop_unfold in Hrun.
  destruct (Z.ltb_spec p (Z.of_nat (length m))) as [Hlt|Hge].
  2: { injection Hrun as <-. cbn [w_res].
       rewrite drop_ge by lia. simpl. now rewrite app_nil_r. }
  destruct (worker_loop_line mem p ltac:(lia) Hlen Hsame HPmem)
    as [[Hnone Hlines]|(line & rest & Hsplit & Hline0 & Hline & Hsome & Hfit & Hmem'
                        & Hjudge & Hnext & Hlines)].
  { rewrite Hnone in Hrun. injection Hrun as <-. cbn [w_res].
    rewrite Hlines. simpl. now rewrite app_nil_r. }
  rewrite Hsome, Hjudge in Hrun.
  rewrite int_wrap_small in Hrun by lia.
  apply IH in Hrun;
    [| lia | now rewrite length_wr | assumption | now apply byte_ok_wr | lia | lia].
  rewrite Hrun, Hlines. cbn [number_lines List.filter snd].
  destruct (matches line).
  - rewrite map_app. cbn [map wr_index wr_line fst snd].
    unfold ptr_add. rewrite Hmem'.
    replace (p + Z.of_nat (length line) - p) with (Z.of_nat (length line)) by lia.
    rewrite cstr_stored_line by assumption.
    now rewrite <- app_assoc.
  - reflexivity.
Qed.

End ScanFile.

(** The pipeline returns for a file without NUL byte whose line ending
    at the split point is not empty. *)
Lemma scan_file_runs (byte_ok : Z -> Prop) parser matches (s : search)
    (midline : Z) (file m : list Z) (k : Z) :
  byte_ok 0 ->
  Forall (fun c => c <> 0 /\ byte_ok c) m ->
  (forall line rest,
     Forall (fun c => c <> 0) line -> Forall (fun c => c <> NL) line ->
     Forall byte_ok (line ++ rest) ->
     parser (line ++ 0 :: rest) (Z.of_nat (length line)) = Some (matches line)) ->
  Z.of_nat (length m) < 2 ^ 31 - 1 ->
  Z.of_nat (length m) / 2 <= k -> rd m k = NL ->
  (forall j, Z.of_nat (length m) / 2 <= j < k -> rd m j <> NL) ->
  1 <= k -> rd m (k - 1) <> NL ->
  exists s' midline', scan_file parser s midline file m = Some (s', midline').
Proof.
  intros H0 Hbytes Hparser Hsize Hhalf Hk Hfirst Hk1 Hboundary.
  pose proof (file_no_nul byte_ok m Hbytes) as Hnonul.
  assert (Hnonul' : forall j, 0 <= j < Z.of_nat (length m) -> rd m j <> 0)
    by (intros j Hj; now apply (Forall_rd (fun c => c <> 0))).
  assert (HPm : Forall byte_ok m)
    by (eapply Forall_impl; [exact Hbytes|]; now intros c [_ Hc]).
  pose proof (split_in_file m k Hk) as Hin.
  assert (Hm : m <> []) by (intros ->; simpl in Hin; lia).
  unfold scan_file. rewrite parse_file_Some by assumption.
  assert (Hchr : strchr m (Z.of_nat (length m) / 2) NL = Some k).
  { apply strchr_Some; [apply Z.div_pos; lia | exact NL_not_NUL |].
    split; [assumption|]. split; [assumption|].
    intros j Hj. split; [now apply Hfirst|]. apply Hnonul'.
    assert (0 <= Z.of_nat (length m) / 2) by (apply Z.div_pos; lia). lia. }
  rewrite Hchr.
  unfold worker_thread, worker_start, worker_end.
  change (0 =? 0) with true. change (1 =? 0) with false.
  cbn [fp_start fp_mid fp_size set_midline].
  destruct (worker_loop_runs byte_ok parser matches m H0 Hbytes Hparser
              (S (length m)) m 0 (k + 1 - 1) 1 [])
    as (w0 & Hrun0 & Hlen0 & HP0 & Hp0 & Hdrop0);
    [lia | reflexivity | reflexivity | assumption | lia |].
  rewrite Hrun0.
  replace (k + 1 - 1) with k in Hrun0 by lia.
  pose proof (first_worker_stops parser m k Hnonul' Hk Hk1 Hboundary _ _ _ _ _ _ Hrun0
                ltac:(lia) ltac:(lia) ltac:(reflexivity)) as Hstop.
  rewrite Hstop in Hdrop0.
  destruct (worker_loop_runs byte_ok parser matches m H0 Hbytes Hparser
              (S (length (w_mem w0))) (w_mem w0) (k + 1)
              (0 + uint_wrap (Z.of_nat (length m))) 1 [])
    as (w1 & Hrun1 & _);
    [lia | assumption | assumption | assumption | rewrite Hlen0; lia |].
  rewrite Hrun1. eauto.
Qed.

(** ** The lines that are searched *)

(** The newline-terminated lines of a text are all its lines when it ends
    with a newline, and all but the last one otherwise. *)
Lemma text_lines_from_last (rest : list Z) :
  forall cur c,
    last rest = Some c ->
    if c =? NL then text_lines_from rest cur = lines_from rest cur
    else exists t, text_lines_from rest cur = lines_from rest cur ++ [t].
Proof.
  induction rest as [|x rest IH]; intros cur c Hlast; [discriminate|].
  destruct rest as [|y rest].
  - injection Hlast as ->. cbn [text_lines_from lines_from].
    destruct (c =? NL); [reflexivity|].
    exists (cur ++ [c]). destruct (cur ++ [c]) eqn:Hcur; [|reflexivity].
    symmetry in Hcur. now apply app_cons_not_nil in Hcur.
  - rewrite last_cons_cons in Hlast.
    cbn [text_lines_from lines_from] in IH |- *.
    destruct (x =? NL).
    + specialize (IH [] c Hlast). destruct (c =? NL).
      * now rewrite IH.
      * destruct IH as [t Ht]. exists t. now rewrite Ht.
    + exact (IH (cur ++ [x]) c Hlast).
Qed.

Lemma file_lines_searched (m : list Z) : file_lines m = searched_lines m.
Proof.
  unfold searched_lines, file_lines, text_lines.
  destruct (last m) as [c|] eqn:Hlast.
  - pose proof (text_lines_from_last m [] c Hlast) as H.
    destruct (c =? NL); [now rewrite H|].
    destruct H as [t ->]. now rewrite removelast_last.
  - apply last_None in Hlast. now subst.
Qed.

Lemma reference_scan_searched (matches : list Z -> bool) (m : list Z) :
  reference_scan matches m = searched_scan matches m.
Proof. unfold reference_scan, searched_scan. now rewrite file_lines_searched. Qed.

(** One round of the pipeline, run to its end, on a file searched for a
    pattern of plain bytes.  On a file without NUL byte whose line ending
    at the split point is not empty, matcher, workers and [save_thread]
    together store exactly the lines that hold the pattern among the
    lines a newline ends (all the lines of a file that ends with a
    newline; a last line without newline is not searched), in order, with
    their numbers in the file, each text cut at 256 bytes; the header of
    the file comes first when there is such a line, and nothing is stored
    otherwise. *)
Theorem literal_scan_file (pattern : list Z) (midline : Z) (file m : list Z) (k : Z) :
  pattern <> [] ->
  Forall (fun c => 0 < c <= 127) pattern ->
  Forall (fun c => c <> 0 /\ -128 <= c <= 127) m ->
  Z.of_nat (length m) < 2 ^ 31 - 1 ->
  Z.of_nat (length m) / 2 <= k -> rd m k = NL ->
  (forall j, Z.of_nat (length m) / 2 <= j < k -> rd m j <> NL) ->
  1 <= k -> rd m (k - 1) <> NL ->
  exists s' midline',
    scan_file (literal_parser pattern) init_searchstruct midline file m
    = Some (s', midline')
    /\ store_matches (s_entries s')
       = map (fun nl => (fst nl, take 256 (snd nl)))
           (searched_scan (occurs_b pattern) m)
    /\ (searched_scan (occurs_b pattern) m = [] -> s_entries s' = [])
    /\ (searched_scan (occurs_b pattern) m <> [] ->
        s_entries s' !! 0%nat = Some {| e_data := file; e_line := 0 |}).
Proof.
  intros Hne Hpat Hbytes Hsize Hhalf Hk Hfirst Hk1 Hboundary.
  rewrite <- reference_scan_searched.
  pose proof (scan_file_runs (fun c => -128 <= c <= 127) (literal_parser pattern)
                (occurs_b pattern) init_searchstruct midline file m k
                ltac:(cbv beta; lia) Hbytes) as Hruns.
  assert (Hparser :
    forall line rest,
      Forall (fun c => c <> 0) line -> Forall (fun c => c <> NL) line ->
      Forall (fun c => -128 <= c <= 127) (line ++ rest) ->
      literal_parser pattern (line ++ 0 :: rest) (Z.of_nat (length line))
      = Some (occurs_b pattern line)).
  { intros line rest Hline0 _ Hrange. now apply literal_parser_line. }
  destruct (Hruns Hparser Hsize Hhalf Hk Hfirst Hk1 Hboundary)
    as (s' & midline' & Hscan).
  exists s', midline'. split; [exact Hscan|].
  pose proof (file_no_nul _ m Hbytes) as Hnonul.
  assert (Hnonul' : forall j, 0 <= j < Z.of_nat (length m) -> rd m j <> 0)
    by (intros j Hj; now apply (Forall_rd (fun c => c <> 0))).
  assert (HPm : Forall (fun c => -128 <= c <= 127) m)
    by (eapply Forall_impl; [exact Hbytes|]; now intros c [_ Hc]).
  destruct (split_scan_is_whole_scan (literal_parser pattern) _ _ _ _ _ _ k Hnonul'
              Hsize Hhalf Hk Hfirst Hk1 Hboundary Hscan) as (w & Hwhole & Hentries).
  pose proof (worker_loop_counts _ _ _ _ _ _ _ _ Hwhole ltac:(lia) ltac:(lia)
                ltac:(lia) ltac:(constructor)) as (_ & _ & Hroom & _ & Hres).
  assert (Hres' : Forall (fun r => 1 <= wr_index r < 2 ^ 31) (w_res w)).
  { eapply Forall_impl; [exact Hres|]. simpl. lia. }
  pose proof (worker_loop_reference_in (fun c => -128 <= c <= 127)
                (literal_parser pattern) (occurs_b pattern) m ltac:(cbv beta; lia) Hbytes
                Hparser _ _ _ _ _ _ Hwhole ltac:(lia) eq_refl eq_refl HPm
                ltac:(lia) ltac:(lia)) as Href.
  change (drop (Z.to_nat 0) m) with m in Href. cbn [map app] in Href.
  fold (file_lines m) in Href. fold (reference_scan (occurs_b pattern) m) in Href.
  rewrite Hentries. cbn [init_searchstruct s_entries app].
  split; [|split].
  - rewrite <- Href, <- store_matches_lines by assumption.
    destruct (w_res w); reflexivity.
  - intros Hnone. rewrite Hnone in Href.
    destruct (w_res w); [reflexivity | discriminate].
  - intros Hsome. destruct (w_res w); [|reflexivity].
    destruct (reference_scan (occurs_b pattern) m); [contradiction | discriminate].
Qed.

Lemma literal_scan_file_witness :
  exists s' midline',
    scan_file (literal_parser (chars "hello")) init_searchstruct 0 (chars "a.c")
      file_hello_open = Some (s', midline')
    /\ store_matches (s_entries s')
       = map (fun nl => (fst nl, take 256 (snd nl)))
           (searched_scan (occurs_b (chars "hello")) file_hello_open)
    /\ (searched_scan (occurs_b (chars "hello")) file_hello_open = [] ->
        s_entries s' = [])
    /\ (searched_scan (occurs_b (chars "hello")) file_hello_open <> [] ->
        s_entries s' !! 0%nat = Some {| e_data := chars "a.c"; e_line := 0 |}).
Proof.
  apply (literal_scan_file (chars "hello") 0 (chars "a.c") file_hello_open 23).
  - discriminate.
  - cbv. repeat (constructor; [split; [reflexivity | discriminate]|]). constructor.
  - cbv. repeat (constructor; [split; [discriminate | split; discriminate]|]).
    constructor.
  - vm_compute. reflexivity.
  - vm_compute. discriminate.
  - reflexivity.
  - intros j Hj. change (Z.of_nat (length file_hello_open) / 2) with 14 in Hj.
    assert (Hcases : j = 14 \/ j = 15 \/ j = 16 \/ j = 17
                     \/ j = 18 \/ j = 19 \/ j = 20 \/ j = 21 \/ j = 22) by lia.
    destruct Hcases as [->|[->|[->|[->|[->|[->|[->|[->| ->]]]]]]]];
      discriminate.
  - lia.
  - vm_compute. discriminate.
Defined.

(** ** Patterns with bytes that have the high bit set *)

(** *** Which matcher [pre_bmh] leaves in place *)

Lemma pre_bmh_fill_negative (psize : Z) (rest : list Z) :
  forall i skipt,
    fst (pre_bmh_fill rest i psize skipt) = true <->
    exists j, (j < length rest)%nat /\ i + Z.of_nat j < psize - 1
              /\ nth j rest 0 < 0.
Proof.
  induction rest as [|c rest IH]; intros i skipt; simpl.
  - split; [discriminate | intros (j & Hj & _); lia].
  - destruct (Z.ltb_spec i (psize - 1)) as [Hi|Hi].
    + destruct (Z.ltb_spec c 0) as [Hc|Hc].
      * split; [intros _ | reflexivity]. exists 0%nat. simpl. repeat split; lia.
      * rewrite IH. split.
        -- intros (j & Hj & Hij & Hneg). exists (S j). simpl. repeat split; lia.
        -- intros ([|j] & Hj & Hij & Hneg); simpl in *; [lia|].
           exists j. repeat split; lia.
    + simpl. split; [discriminate|]. intros (j & _ & Hij & _). lia.
Qed.

Lemma pre_bmh_fill_kept (psize : Z) (rest : list Z) :
  forall i skipt,
    fst (pre_bmh_fill rest i psize skipt) = false ->
    length (snd (pre_bmh_fill rest i psize skipt)) = length skipt.
Proof.
  induction rest as [|c rest IH]; intros i skipt; simpl; [reflexivity|].
  destruct (i <? psize - 1); [|reflexivity].
  destruct (c <? 0); [discriminate|].
  intros H. rewrite IH by assumption. apply length_insert.
Qed.

(** [pre_bmh] hands the search to [rabin_karp], with the parameters of
    [pre_rabin_karp], exactly when a byte of the pattern before its last
    one has the high bit set; the last byte is not looked at.  Otherwise
    the matcher is [strstr] for a pattern of one byte and [bmh] for the
    others, with the length of the pattern as [psize]. *)
Theorem pre_bmh_selects (pattern : list Z) :
  let psize := strlen pattern in
  let ms := pre_bmh pattern in
  (m_parser ms = P_rabin_karp <->
   exists i, 0 <= i < psize - 1 /\ rd (cstr pattern) i < 0)
  /\ (m_parser ms = P_rabin_karp ->
      (m_d ms, m_hp ms, m_psize ms) = pre_rabin_karp pattern)
  /\ (m_parser ms <> P_rabin_karp ->
      m_parser ms = (if psize =? 1 then P_strstr else P_bmh)
      /\ m_psize ms = psize
      /\ length (m_skipt ms) = 256%nat).
Proof.
  intros psize ms.
  pose proof (pre_bmh_fill_negative psize (cstr pattern) 0 (replicate 256 psize))
    as Hneg.
  pose proof (pre_bmh_fill_kept psize (cstr pattern) 0 (replicate 256 psize))
    as Hkept.
  assert (Hiff : (exists j, (j < length (cstr pattern))%nat
                            /\ 0 + Z.of_nat j < psize - 1
                            /\ nth j (cstr pattern) 0 < 0)
                 <-> exists i, 0 <= i < psize - 1 /\ rd (cstr pattern) i < 0).
  { split.
    - intros (j & Hj & Hij & Hn). exists (Z.of_nat j).
      rewrite rd_of_nat. split; [lia | assumption].
    - intros (i & Hi & Hn). exists (Z.to_nat i).
      rewrite rd_nth in Hn by lia.
      assert (Hps : psize = Z.of_nat (length (cstr pattern))) by reflexivity.
      repeat split; (assumption || lia). }
  rewrite Hiff in Hneg. clear Hiff.
  subst ms. unfold pre_bmh. fold psize.
  destruct (pre_bmh_fill (cstr pattern) 0 psize (replicate 256 psize))
    as [[|] skipt'] eqn:Hfill; cbn [fst snd] in Hneg, Hkept.
  - destruct (pre_rabin_karp pattern) as [[d hp] ps] eqn:Hpre. cbn.
    split; [split; [intros _; now apply Hneg | reflexivity]|].
    split; [reflexivity | intros H; now contradiction H].
  - cbn. split.
    + split; [destruct (psize =? 1); discriminate|].
      intros H. apply Hneg in H. discriminate.
    + split; [destruct (psize =? 1); discriminate|].
      intros _. split; [reflexivity|]. split; [reflexivity|].
      rewrite Hkept by reflexivity. apply length_replicate.
Qed.

(** *** The rolling hash *)

Lemma int_wrap_spec (z : Z) :
  exists q, int_wrap z = z - 2 ^ 32 * q /\ - 2 ^ 31 <= int_wrap z < 2 ^ 31.
Proof.
  unfold int_wrap. exists ((z + 2 ^ 31) / 2 ^ 32).
  pose proof (Z.div_mod (z + 2 ^ 31) (2 ^ 32) ltac:(lia)).
  pose proof (Z.mod_pos_bound (z + 2 ^ 31) (2 ^ 32) ltac:(lia)).
  lia.
Qed.

(** Two numbers that differ by a multiple of [2 ^ 32] are the same
    [int]. *)
Lemma int_wrap_congruent (x y t : Z) :
  x - y = 2 ^ 32 * t -> int_wrap x = int_wrap y.
Proof.
  intros Hxy.
  destruct (int_wrap_spec x) as (q1 & H1 & B1).
  destruct (int_wrap_spec y) as (q2 & H2 & B2).
  assert (Hd : int_wrap x - int_wrap y = 2 ^ 32 * (t - q1 + q2)) by lia.
  assert (t - q1 + q2 = 0) by lia.
  lia.
Qed.

Lemma hash_value_acc (l : list Z) :
  forall acc,
    fold_left (fun h c => 2 * h + c) l acc
    = acc * 2 ^ Z.of_nat (length l) + hash_value l.
Proof.
  unfold hash_value. induction l as [|c l IH]; intros acc.
  - simpl. lia.
  - cbn [fold_left length]. rewrite IH, (IH (2 * 0 + c)).
    rewrite Nat2Z.inj_succ, Z.pow_succ_r by lia. ring.
Qed.

Lemma hash_value_cons (a : Z) (l : list Z) :
  hash_value (a :: l) = a * 2 ^ Z.of_nat (length l) + hash_value l.
Proof.
  unfold hash_value at 1. cbn [fold_left]. rewrite hash_value_acc. ring.
Qed.

Lemma hash_value_snoc (l : list Z) (b : Z) :
  hash_value (l ++ [b]) = 2 * hash_value l + b.
Proof. unfold hash_value. now rewrite fold_left_app. Qed.

(** The hash the program computes is the hash value as an [int]. *)
Lemma hash_wrapped (l : list Z) :
  forall acc,
    fold_left (fun h c => int_wrap (2 * h + c)) l (int_wrap acc)
    = int_wrap (fold_left (fun h c => 2 * h + c) l acc).
Proof.
  induction l as [|c l IH]; intros acc; [reflexivity|].
  cbn [fold_left]. rewrite <- IH. f_equal.
  destruct (int_wrap_spec acc) as (q & Hq & _).
  apply (int_wrap_congruent _ _ (- 2 * q)). lia.
Qed.

Lemma fold_left_over_map {A B C : Type} (f : A -> B -> A) (g : C -> B) (l : list C) :
  forall a, fold_left (fun h j => f h (g j)) l a = fold_left f (map g l) a.
Proof. induction l as [|x l IH]; intros a; [reflexivity | apply IH]. Qed.

(** [REHASH] moves the hash from a window to the next one. *)
Lemma rehash_window (a b : Z) (w : list Z) :
  REHASH (int_wrap (2 ^ Z.of_nat (length w))) a b (int_wrap (hash_value (a :: w)))
  = int_wrap (hash_value (w ++ [b])).
Proof.
  unfold REHASH.
  destruct (int_wrap_spec (2 ^ Z.of_nat (length w))) as (q2 & H2 & _).
  destruct (int_wrap_spec (hash_value (a :: w))) as (q1 & H1 & _).
  rewrite H1, H2.
  destruct (int_wrap_spec (hash_value (a :: w) - 2 ^ 32 * q1
                           - a * (2 ^ Z.of_nat (length w) - 2 ^ 32 * q2)))
    as (q3 & H3 & _).
  rewrite H3.
  apply (int_wrap_congruent _ _ (2 * a * q2 - 2 * q1 - 2 * q3)).
  rewrite hash_value_cons, hash_value_snoc. ring.
Qed.

Lemma window_cons (text : list Z) (i : Z) (n : nat) :
  window text i (S n) = rd text i :: window text (i + 1) n.
Proof.
  unfold window. cbn [seq map]. rewrite Z.add_0_r. f_equal.
  rewrite <- seq_shift, map_map. apply map_ext. intros j. f_equal. lia.
Qed.

Lemma window_snoc (text : list Z) (i : Z) (n : nat) :
  window text i (S n) = window text i n ++ [rd text (i + Z.of_nat n)].
Proof. unfold window. now rewrite seq_S, map_app. Qed.

Lemma window_match (pattern text : list Z) (i : Z) :
  match_at pattern text i -> window text i (length pattern) = pattern.
Proof.
  intros Hm. apply (nth_ext _ _ 0 0).
  - unfold window. now rewrite length_map, length_seq.
  - unfold window. rewrite length_map, length_seq. intros j Hj.
    rewrite (nth_indep _ 0 ((fun j => rd text (i + Z.of_nat j)) 0%nat))
      by (rewrite length_map, length_seq; lia).
    rewrite (map_nth (fun j => rd text (i + Z.of_nat j)) (seq 0 (length pattern)) 0%nat j).
    rewrite seq_nth by lia. cbn [Nat.add].
    rewrite Hm by lia. apply rd_of_nat.
Qed.

Section RabinKarp.
Variables (pattern text : list Z) (tsize : Z) (n : nat).
Hypothesis Hn : length pattern = S n.

Local Abbreviation psize := (Z.of_nat (S n)).
Local Abbreviation d := (int_wrap (2 ^ Z.of_nat n)).
Local Abbreviation hp := (int_wrap (hash_value pattern)).

(** The loop of [rabin_karp], started on the hash of the window at [i]
    with no occurrence before [i], returns the first occurrence, or
    [NULL] when there is none. *)
Lemma rabin_karp_loop_spec (fuel : nat) :
  forall i ht,
    0 <= i ->
    Z.max 0 (tsize - psize - i + 1) < Z.of_nat fuel ->
    ht = int_wrap (hash_value (window text i (S n))) ->
    (forall j, 0 <= j < i -> j + psize <= tsize -> ~ match_at pattern text j) ->
    match rabin_karp_loop fuel d hp psize text pattern tsize ht i with
    | Some k => 0 <= k /\ k + psize <= tsize /\ match_at pattern text k
                /\ forall j, 0 <= j < k -> ~ match_at pattern text j
    | None => forall j, 0 <= j -> j + psize <= tsize -> ~ match_at pattern text j
    end.
Proof.
  induction fuel as [|fuel IH]; intros i ht Hi Hfuel Hht Hno; [lia|].
  cbn [rabin_karp_loop].
  destruct (Z.leb_spec i (tsize - psize)) as [Hin|Hout].
  2: { intros j Hj Hjm. apply Hno; lia. }
  destruct ((ht =? hp) && memcmp_eq pattern 0 text i psize) eqn:Htest.
  - apply andb_true_iff in Htest as [_ Hcmp].
    rewrite memcmp_eq_true in Hcmp.
    repeat split; [lia | lia | |].
    + intros j Hj. rewrite Hn in Hj. symmetry. now apply (Hcmp j).
    + intros j Hj. apply Hno; lia.
  - assert (Hnot : ~ match_at pattern text i).
    { intros Hm. apply andb_false_iff in Htest as [Hh|Hc].
      - apply Z.eqb_neq in Hh. apply Hh. rewrite Hht.
        rewrite <- Hn, (window_match pattern text i Hm). reflexivity.
      - assert (Hcmp : memcmp_eq pattern 0 text i psize = true); [|congruence].
        apply memcmp_eq_true. intros j Hj. rewrite <- Hn in Hj.
        symmetry. now apply (Hm j). }
    apply IH; [lia | lia | |].
    + rewrite Hht, window_cons, window_snoc.
      replace (i + 1 + Z.of_nat n) with (i + psize) by lia.
      replace (Z.of_nat n) with (Z.of_nat (length (window text (i + 1) n))) at 1
        by (unfold window; now rewrite length_map, length_seq).
      apply rehash_window.
    + intros j Hj Hjm. destruct (Z.eq_dec j i) as [->|]; [assumption|].
      apply Hno; lia.
Qed.
End RabinKarp.

(** [rabin_karp], with the parameters [pre_rabin_karp] computes, returns
    the first place where the pattern stands in the [tsize] bytes of the
    text, and [NULL] when it stands nowhere, whatever the bytes of the
    text are.  The pattern has at most 31 bytes, so that the shift
    [1 << (psize - 1)] is defined. *)
Theorem rabin_karp_first_occurrence (pattern text : list Z) (tsize : Z) :
  Forall (fun c => c <> 0) pattern ->
  (1 <= length pattern <= 31)%nat ->
  let '(d, hp, psize) := pre_rabin_karp pattern in
  psize = Z.of_nat (length pattern)
  /\ match rabin_karp d hp psize text pattern tsize with
     | Some k => 0 <= k /\ k + psize <= tsize /\ match_at pattern text k
                 /\ forall j, 0 <= j < k -> ~ match_at pattern text j
     | None => forall j, 0 <= j -> j + psize <= tsize -> ~ match_at pattern text j
     end.
Proof.
  intros Hnul Hlen.
  destruct (length pattern) as [|n] eqn:Hn; [lia|].
  unfold pre_rabin_karp, strlen. rewrite (cstr_no_nul pattern Hnul), Hn.
  split; [reflexivity|].
  unfold rabin_karp.
  replace (Z.of_nat (S n) - 1) with (Z.of_nat n) by lia.
  change 0 with (int_wrap 0) at 1 2.
  rewrite hash_wrapped. fold (hash_value pattern).
  rewrite Nat2Z.id, (fold_left_over_map (fun ht c => int_wrap (2 * ht + c))
                       (fun j => rd text (Z.of_nat j))).
  rewrite hash_wrapped.
  apply (rabin_karp_loop_spec pattern text tsize n Hn); [lia | lia | | intros j Hj; lia].
  reflexivity.
Qed.

Lemma rabin_karp_first_occurrence_witness :
  let '(d, hp, psize) := pre_rabin_karp [-61; -87; 116] in
  psize = Z.of_nat (length [-61; -87; 116])
  /\ match rabin_karp d hp psize [0; 97; -61; -87; 116; 0] [-61; -87; 116] 5 with
     | Some k => 0 <= k /\ k + psize <= 5 /\ match_at [-61; -87; 116] [0; 97; -61; -87; 116; 0] k
                 /\ forall j, 0 <= j < k -> ~ match_at [-61; -87; 116] [0; 97; -61; -87; 116; 0] j
     | None => forall j, 0 <= j -> j + psize <= 5 ->
                 ~ match_at [-61; -87; 116] [0; 97; -61; -87; 116; 0] j
     end.
Proof.
  apply (rabin_karp_first_occurrence [-61; -87; 116] [0; 97; -61; -87; 116; 0] 5).
  - repeat constructor; discriminate.
  - simpl. lia.
Defined.

(** *** A pattern whose last byte alone has the high bit set *)

Lemma rd_app_l (l1 l2 : list Z) (i : Z) :
  0 <= i < Z.of_nat (length l1) -> rd (l1 ++ l2) i = rd l1 i.
Proof. intros Hi. rewrite !rd_nth by lia. apply app_nth1. lia. Qed.

Lemma rd_app_r (l1 l2 : list Z) (i : Z) :
  0 <= i -> rd (l1 ++ l2) (Z.of_nat (length l1) + i) = rd l2 i.
Proof.
  intros Hi. rewrite !rd_nth by lia. rewrite app_nth2 by lia. f_equal. lia.
Qed.

(** The inner loop of [bmh] ends, at or after the place it started from. *)
Lemma bmh_skip_runs (text : list Z) (psize : Z) (fuel : nat) :
  1 <= psize ->
  forall i, 0 <= i ->
    Z.max 0 (Z.of_nat (length text) - i) < Z.of_nat fuel ->
    exists i', bmh_skip fuel text psize i = Some i' /\ i <= i'.
Proof.
  intros Hps. induction fuel as [|fuel IH]; intros i Hi Hfuel; [lia|].
  cbn [bmh_skip].
  destruct (Z.ltb_spec (rd text (i + psize - 1)) 0) as [Hneg|Hpos].
  - destruct (Z.ltb_spec (i + psize - 1) (Z.of_nat (length text))) as [Hin|Hout].
    + destruct (IH (i + psize)) as (i' & Hrun & Hle); [lia | lia |].
      exists i'. split; [assumption | lia].
    + rewrite rd_beyond in Hneg by lia. lia.
  - exists i. split; [reflexivity | lia].
Qed.

(** [pre_bmh] does not look at the last byte of the pattern: when that
    byte alone has the high bit set, [bmh] stays the matcher, and its
    inner loop, which jumps over every window that ends on such a byte,
    jumps over a window that holds the pattern.  Here the line is [junk],
    as long as the pattern and ending on a byte with the high bit set,
    followed by the pattern: [bmh] returns [NULL]. *)
Theorem bmh_misses_high_bit_last (body junk rest : list Z) (last : Z) :
  body <> [] ->
  Forall (fun c => 0 < c <= 127) body ->
  last < 0 ->
  length junk = S (length body) ->
  rd junk 0 <> rd body 0 ->
  rd junk (Z.of_nat (length body)) < 0 ->
  let pattern := body ++ [last] in
  let psize := Z.of_nat (length pattern) in
  let text := junk ++ pattern ++ 0 :: rest in
  m_parser (pre_bmh pattern) = P_bmh
  /\ take (Z.to_nat (2 * psize)) text = junk ++ pattern
  /\ run_parser (pre_bmh pattern) text pattern (2 * psize) = Some None.
Proof.
  intros Hbody Hpos Hlast Hjunk Hfirst Hanchor pattern psize text.
  assert (Hps : psize = Z.of_nat (length body) + 1)
    by (unfold psize, pattern; rewrite length_app; simpl; lia).
  assert (Hpl : Z.of_nat (length pattern) = psize) by reflexivity.
  clearbody psize.
  assert (Hbl : (1 <= length body)%nat)
    by (destruct body; [contradiction | simpl; lia]).
  assert (Hnul : Forall (fun c => c <> 0) pattern).
  { apply Forall_app. split.
    - eapply Forall_impl; [exact Hpos|]. simpl. lia.
    - constructor; [lia | constructor]. }
  assert (Hsel : m_parser (pre_bmh pattern) = P_bmh
                 /\ m_psize (pre_bmh pattern) = psize).
  { unfold pre_bmh, strlen. rewrite (cstr_no_nul pattern Hnul), Hpl.
    destruct (pre_bmh_fill pattern 0 psize (replicate 256 psize))
      as [[|] skipt'] eqn:Hfill.
    - exfalso.
      pose proof (proj1 (pre_bmh_fill_negative psize pattern 0 (replicate 256 psize)))
        as Hneg.
      rewrite Hfill in Hneg. destruct (Hneg eq_refl) as (j & _ & Hj & Hn).
      unfold pattern in Hn. rewrite app_nth1 in Hn by lia.
      rewrite List.Forall_forall in Hpos.
      specialize (Hpos (nth j body 0) ltac:(apply nth_In; lia)). lia.
    - cbn. destruct (Z.eqb_spec psize 1); [lia | now split]. }
  destruct Hsel as (Hparser & Hpsize).
  assert (Hline : take (Z.to_nat (2 * psize)) text = junk ++ pattern).
  { unfold text. rewrite app_assoc. apply take_app_length'.
    rewrite length_app. lia. }
  split; [assumption|]. split; [assumption|].
  unfold run_parser. rewrite Hparser. unfold bmh. rewrite Hpsize.
  assert (Hlen : length text = (length junk + (length pattern + S (length rest)))%nat)
    by (unfold text; rewrite !length_app; reflexivity).
  cbn [bmh_loop].
  destruct (Z.leb_spec 0 (2 * psize - psize)); [|lia].
  assert (H0 : rd text 0 = rd junk 0)
    by (unfold text; apply rd_app_l; lia).
  assert (Hp0 : rd pattern 0 = rd body 0)
    by (unfold pattern; apply rd_app_l; lia).
  assert (Ha : rd text (0 + psize - 1) = rd junk (Z.of_nat (length body))).
  { unfold text. replace (0 + psize - 1) with (Z.of_nat (length body)) by lia.
    apply rd_app_l. lia. }
  rewrite H0, Hp0.
  destruct (Z.eqb_spec (rd junk 0) (rd body 0)) as [|_]; [contradiction|].
  rewrite andb_false_r. cbn [andb].
  rewrite Ha.
  destruct (Z.gtb_spec (rd junk (Z.of_nat (length body))) 0); [lia|].
  (* the inner loop: two jumps, the second one over the pattern *)
  assert (Hskip : exists i', bmh_skip (S (length text)) text psize 0 = Some i'
                             /\ 2 * psize <= i').
  { cbn [bmh_skip]. rewrite Ha.
    destruct (Z.ltb_spec (rd junk (Z.of_nat (length body))) 0); [|lia].
    destruct (length text) as [|fuel] eqn:Htl; [lia|].
    cbn [bmh_skip].
    assert (Hb : rd text (0 + psize + psize - 1) = last).
    { unfold text.
      replace (0 + psize + psize - 1)
        with (Z.of_nat (length junk) + Z.of_nat (length body)) by lia.
      rewrite rd_app_r by lia. rewrite rd_app_l by lia.
      unfold pattern. rewrite rd_of_nat, app_nth2 by lia.
      now rewrite Nat.sub_diag. }
    rewrite Hb. destruct (Z.ltb_spec last 0); [|lia].
    destruct (bmh_skip_runs text psize fuel ltac:(lia) (0 + psize + psize))
      as (i' & Hrun & Hle); [lia | lia |].
    exists i'. split; [assumption | lia]. }
  destruct Hskip as (i' & -> & Hi').
  destruct (length text) as [|fuel] eqn:Htl; [lia|].
  cbn [bmh_loop].
  destruct (Z.leb_spec i' (2 * psize - psize)); [lia | reflexivity].
Qed.

Lemma bmh_misses_high_bit_last_witness :
  let pattern := chars "caf" ++ [-23] in
  let psize := Z.of_nat (length pattern) in
  let text := [110; 111; 101; -23] ++ pattern ++ 0 :: [] in
  m_parser (pre_bmh pattern) = P_bmh
  /\ take (Z.to_nat (2 * psize)) text = [110; 111; 101; -23] ++ pattern
  /\ run_parser (pre_bmh pattern) text pattern (2 * psize) = Some None.
Proof.
  apply (bmh_misses_high_bit_last (chars "caf") [110; 111; 101; -23] [] (-23)).
  - discriminate.
  - cbv. repeat (constructor; [split; [reflexivity | discriminate]|]). constructor.
  - lia.
  - reflexivity.
  - discriminate.
  - reflexivity.
Defined.

(** ** Subsearch *)

Lemma uint_wrap_succ (n : Z) : uint_wrap (uint_wrap n + 1) = uint_wrap (n + 1).
Proof. unfold uint_wrap. now rewrite Zplus_mod_idemp_l. Qed.

Lemma match_lines_app (es1 es2 : list entry) :
  match_lines (es1 ++ es2) = match_lines es1 ++ match_lines es2.
Proof. apply List.filter_app. Qed.

Lemma match_lines_header (e : entry) (es : list entry) :
  is_file_entry e = true -> match_lines (e :: es) = match_lines es.
Proof. intros He. unfold match_lines. cbn [List.filter]. now rewrite He. Qed.

Lemma match_lines_line (e : entry) (es : list entry) :
  is_file_entry e = false -> match_lines (e :: es) = e :: match_lines es.
Proof. intros He. unfold match_lines. cbn [List.filter]. now rewrite He. Qed.

(** The match lines of a child store are the father's match lines that
    the regex accepts: in the father's order, each with the father's line
    number and a copy of its text, whatever the father's store is made
    of; and the child's hit counter is their number. *)
Theorem subsearch_keeps_matching_lines `{RL : RegexLib} (child_regex : list Z)
    (father_entries : list entry) :
  match_lines (ss_entries (subsearch_loop child_regex father_entries))
  = sub_lines child_regex (match_lines father_entries)
  /\ ss_nb_lines (subsearch_loop child_regex father_entries)
     = uint_wrap (Z.of_nat (length (sub_lines child_regex
                                      (match_lines father_entries)))).
Proof.
  unfold subsearch_loop.
  assert (Hgen : forall es st n,
            ss_nb_lines st = uint_wrap n ->
            match_lines (ss_entries (fold_left (subsearch_step child_regex) es st))
            = match_lines (ss_entries st) ++ sub_lines child_regex (match_lines es)
            /\ ss_nb_lines (fold_left (subsearch_step child_regex) es st)
               = uint_wrap (n + Z.of_nat (length (sub_lines child_regex
                                                    (match_lines es))))).
  { induction es as [|e es IH]; intros st n Hn.
    - simpl. rewrite app_nil_r, Z.add_0_r. now split.
    - cbn [fold_left].
      destruct (is_file_entry e) eqn:He.
      + rewrite match_lines_header by assumption.
        assert (Hstep : subsearch_step child_regex st e =
                  {| ss_orphan_file := true; ss_new_data := copy_data (e_data e);
                     ss_entries := ss_entries st; ss_nb_lines := ss_nb_lines st |})
          by (unfold subsearch_step; now rewrite He).
        rewrite Hstep.
        exact (IH {| ss_orphan_file := true; ss_new_data := copy_data (e_data e);
                     ss_entries := ss_entries st; ss_nb_lines := ss_nb_lines st |}
                 n Hn).
      + rewrite match_lines_line, sub_lines_cons by assumption.
        rewrite subsearch_step_line by assumption.
        destruct (regex child_regex (e_data e)); [|now apply IH].
        match goal with
        | |- context [fold_left _ es ?s] =>
            destruct (IH s (n + 1)) as (IH1 & IH2)
        end.
        { cbn [ss_nb_lines]. rewrite Hn. apply uint_wrap_succ. }
        rewrite IH1, IH2. cbn [ss_entries length]. split.
        * rewrite match_lines_app.
          rewrite (match_lines_line {| e_data := copy_data (e_data e);
                                       e_line := e_line e |} []) by exact He.
          destruct (ss_orphan_file st).
          -- rewrite match_lines_app, (match_lines_header _ []) by reflexivity.
             cbn [match_lines List.filter].
             now rewrite app_nil_r, <- app_assoc.
          -- cbn [match_lines List.filter]. now rewrite <- app_assoc.
        * f_equal. lia. }
  destruct (Hgen father_entries
              {| ss_orphan_file := false; ss_new_data := []; ss_entries := [];
                 ss_nb_lines := 0 |} 0 eq_refl) as (H1 & H2).
  split; [exact H1 | exact H2].
Qed.

(** The child store is built group by group: a header of the father
    followed by match lines contributes a copy of the header and the
    lines the regex accepts, or nothing at all when it accepts none of
    them. *)
Theorem subsearch_group_by_group `{RL : RegexLib} (child_regex : list Z)
    (es ls : list entry) (h : entry) :
  is_file_entry h = true ->
  Forall (fun e => is_file_entry e = false) ls ->
  ss_entries (subsearch_loop child_regex (es ++ h :: ls))
  = ss_entries (subsearch_loop child_regex es)
    ++ match sub_lines child_regex ls with
       | [] => []
       | kept => {| e_data := copy_data (e_data h); e_line := 0 |} :: kept
       end.
Proof.
  intros Hh Hls. unfold subsearch_loop.
  rewrite fold_left_app. cbn [fold_left].
  set (st := fold_left (subsearch_step child_regex) es _).
  assert (Hstep : subsearch_step child_regex st h =
                  {| ss_orphan_file := true; ss_new_data := copy_data (e_data h);
                     ss_entries := ss_entries st; ss_nb_lines := ss_nb_lines st |})
    by (unfold subsearch_step; now rewrite Hh).
  rewrite Hstep. now rewrite subsearch_lines_pending by (assumption || reflexivity).
Qed.

Lemma subsearch_group_by_group_witness :
  ss_entries
    (subsearch_loop (RL := literal_regex) (chars "world")
       ([] ++ {| e_data := chars "a.c"; e_line := 0 |}
           :: [ {| e_data := chars "hello" ++ [0]; e_line := 1 |};
                {| e_data := chars "hello world" ++ [0]; e_line := 3 |} ]))
  = ss_entries (subsearch_loop (RL := literal_regex) (chars "world") [])
    ++ match sub_lines (RL := literal_regex) (chars "world")
               [ {| e_data := chars "hello" ++ [0]; e_line := 1 |};
                 {| e_data := chars "hello world" ++ [0]; e_line := 3 |} ] with
       | [] => []
       | kept =>
           {| e_data := copy_data (e_data {| e_data := chars "a.c"; e_line := 0 |});
              e_line := 0 |} :: kept
       end.
Proof.
  apply (subsearch_group_by_group (RL := literal_regex) (chars "world") []
           [ {| e_data := chars "hello" ++ [0]; e_line := 1 |};
             {| e_data := chars "hello world" ++ [0]; e_line := 3 |} ]
           {| e_data := chars "a.c"; e_line := 0 |}).
  - reflexivity.
  - repeat constructor.
Defined.

(** [/] with a pattern the regex library accepts, then [q]: the child
    becomes the current search, and quitting it frees it and gives back
    the state as it was before, when the father had no child. *)
Theorem subsearch_then_quit `{RL : RegexLib} (LINES : Z) (typed : list Z)
    (st : state) (cur : search) :
  heap st !! current st = Some cur ->
  s_child cur = None ->
  rd typed 0 <> 0 ->
  regcomp (strncpy typed LINE_MAX) = true ->
  exists st1 child,
    main_switch LINES (KEY_SLASH typed) st = Some (Running st1)
    /\ current st1 <> current st
    /\ heap st1 !! current st1 = Some child
    /\ s_father child = Some (current st)
    /\ s_entries child
       = ss_entries (subsearch_loop (strncpy typed LINE_MAX) (s_entries cur))
    /\ main_switch LINES KEY_QUIT st1 = Some (Running st).
Proof.
  intros Hcur Hchild Htyped Hvalid.
  assert (Hfresh : heap st !! fresh (dom (heap st)) = None)
    by (apply not_elem_of_dom, is_fresh).
  assert (Hne : fresh (dom (heap st)) <> current st) by congruence.
  unfold main_switch at 1. rewrite Hcur. unfold subsearch. rewrite Hcur.
  destruct (Z.eqb_spec (rd typed 0) 0) as [|_]; [contradiction|].
  unfold is_regex_valid. cbn [s_pattern]. rewrite Hvalid.
  eexists. eexists. split; [reflexivity|]. cbn [heap current].
  split; [assumption|]. split; [apply lookup_insert_eq|].
  split; [reflexivity|]. split; [reflexivity|].
  unfold main_switch. cbn [heap current]. rewrite lookup_insert_eq.
  cbn [set_entries s_father]. unfold clean_search.
  rewrite !delete_insert_eq.
  rewrite delete_insert_ne by (intros H; now apply Hne).
  rewrite (delete_id (heap st)) by assumption.
  rewrite lookup_insert_eq. rewrite insert_insert_eq.
  assert (Hback : set_child (set_child cur (Some (fresh (dom (heap st))))) None = cur).
  { destruct cur. cbn in *. now subst. }
  rewrite Hback, insert_id by assumption.
  now destruct st.
Qed.

Lemma subsearch_then_quit_witness :
  exists st1 child,
    main_switch (RL := literal_regex) 24 (KEY_SLASH (chars "world"))
      {| heap := {[ mainsearch_key := search_hello ]}; current := mainsearch_key |}
    = Some (Running st1)
    /\ current st1 <> mainsearch_key
    /\ heap st1 !! current st1 = Some child
    /\ s_father child = Some mainsearch_key
    /\ s_entries child
       = ss_entries (subsearch_loop (RL := literal_regex)
                       (strncpy (chars "world") LINE_MAX) (s_entries search_hello))
    /\ main_switch (RL := literal_regex) 24 KEY_QUIT st1
       = Some (Running {| heap := {[ mainsearch_key := search_hello ]};
                          current := mainsearch_key |}).
Proof.
  apply (subsearch_then_quit (RL := literal_regex) 24 (chars "world")
           {| heap := {[ mainsearch_key := search_hello ]}; current := mainsearch_key |}
           search_hello).
  - reflexivity.
  - reflexivity.
  - discriminate.
  - reflexivity.
Defined.

(** ** The hit counter *)

(** The movement keys change the index and the cursor, nothing else. *)
Lemma do_move_screen (LINES : Z) (k : move) (cur cur' : search) :
  do_move LINES k cur = Some cur' ->
  exists index cursor, cur' = set_screen cur index cursor.
Proof.
  assert (Hup : forall c c', page_up LINES c = Some c' ->
                             exists index cursor, c' = set_screen c index cursor).
  { intros c c'. unfold page_up. destruct (is_file _ c); [|discriminate].
    intros [= <-]. eauto. }
  assert (Hdown : forall c c', page_down LINES c = Some c' ->
                               exists index cursor, c' = set_screen c index cursor).
  { intros c c'. unfold page_down. destruct (nbentry c =? 0).
    - intros [= <-]. exists (s_index c), (s_cursor c). now destruct c.
    - destruct (is_file _ c); [|discriminate]. intros [= <-]. eauto. }
  destruct k; simpl.
  - unfold cursor_up. destruct (s_cursor cur =? 0); [apply Hup|].
    destruct (is_file _ cur); [|discriminate].
    destruct (_ <? 0); [|intros [= <-]; eauto].
    intros H. apply Hup in H as (i & c & ->). eauto.
  - unfold cursor_down. destruct (s_cursor cur =? LINES - 1); [apply Hdown|].
    destruct (is_file _ cur); [|discriminate].
    destruct (_ >? LINES - 1); [|intros [= <-]; eauto].
    intros H. apply Hdown in H as (i & c & ->). eauto.
  - apply Hup.
  - apply Hdown.
Qed.

Lemma add_lines_hits (nb : Z -> Z) (res : list worker_result) :
  forall s,
    s_nb_lines (fold_left
                  (fun s r => mainsearch_add_line s (wr_line r) (nb (wr_index r)))
                  res s)
    = uint_wrap (s_nb_lines s + Z.of_nat (length res))
    \/ (res = [] /\ s_nb_lines (fold_left
                  (fun s r => mainsearch_add_line s (wr_line r) (nb (wr_index r)))
                  res s) = s_nb_lines s).
Proof.
  induction res as [|r res IH]; intros s; [right; now split|].
  left. cbn [fold_left length].
  destruct (IH (mainsearch_add_line s (wr_line r) (nb (wr_index r))))
    as [->|[-> ->]]; cbn [mainsearch_add_line set_entries s_nb_lines length].
  - rewrite Nat2Z.inj_succ. unfold uint_wrap.
    rewrite Zplus_mod_idemp_l. f_equal. lia.
  - reflexivity.
Qed.

(** One file more keeps the counter right. *)
Lemma scan_file_hits parser (s s' : search) (midline midline' : Z)
    (file m : list Z) :
  Z.of_nat (length m) < 2 ^ 31 - 1 ->
  scan_file parser s midline file m = Some (s', midline') ->
  hits_ok s -> hits_ok s'.
Proof.
  intros Hsize Hscan Hs. unfold scan_file in Hscan.
  destruct (parse_file file m midline) as [fp|] eqn:Hparse;
    [|now injection Hscan as <- _].
  destruct (worker_thread parser 0 fp m) as [w0|] eqn:H0; [|discriminate].
  destruct (worker_thread parser 1 _ (w_mem w0)) as [w1|] eqn:H1; [|discriminate].
  injection Hscan as <- _.
  destruct (worker_numbers parser file m midline fp w0 w1 Hsize Hparse H0 H1)
    as (Hres0 & Hres1 & Hml).
  unfold hits_ok in *. rewrite save_thread_entries.
  set (fp' := set_midline fp (w_line_count w0)) in *. clearbody fp'.
  assert (Hl0 : match_lines (saved_lines (fun i => i) (w_res w0))
                = saved_lines (fun i => i) (w_res w0)).
  { apply forallb_filter_id, forallb_forall. apply List.Forall_forall.
    eapply Forall_impl; [apply saved_lines_not_files|].
    - eapply Forall_impl; [exact Hres0|].
      simpl. intros r Hr. rewrite uint_wrap_small; lia.
    - simpl. now intros e ->. }
  assert (Hl1 : match_lines
                  (saved_lines (fun i => int_wrap (uint_wrap (i + fp_midline fp')))
                     (w_res w1))
                = saved_lines (fun i => int_wrap (uint_wrap (i + fp_midline fp')))
                    (w_res w1)).
  { apply forallb_filter_id, forallb_forall. apply List.Forall_forall.
    eapply Forall_impl; [apply saved_lines_not_files|].
    - eapply Forall_impl; [exact Hres1|].
      simpl. intros r Hr. rewrite uint_int_uint, uint_wrap_small; lia.
    - simpl. now intros e ->. }
  assert (Hh : match_lines (saved_header fp' (w_res w0) (w_res w1)) = []).
  { unfold saved_header. destruct (w_res w0), (w_res w1); reflexivity. }
  rewrite !match_lines_app, Hh, Hl0, Hl1. cbn [app].
  rewrite !length_app. unfold saved_lines. rewrite !length_map.
  (* the counter *)
  unfold save_thread.
  set (s0 := match w_res w0, w_res w1 with
             | [], [] => s
             | _, _ => mainsearch_add_file s (fp_name fp')
             end).
  assert (Hs0 : s_nb_lines s0 = s_nb_lines s).
  { unfold s0. destruct (w_res w0), (w_res w1); reflexivity. }
  set (s1 := fold_left (fun s res => mainsearch_add_line s (wr_line res) (wr_index res))
               (w_res w0) s0).
  assert (Hs1 : s_nb_lines s1
                = uint_wrap (Z.of_nat (length (match_lines (s_entries s)))
                             + Z.of_nat (length (w_res w0)))).
  { unfold s1.
    destruct (add_lines_hits (fun i => i) (w_res w0) s0) as [->|[-> ->]].
    - rewrite Hs0, Hs. unfold uint_wrap. rewrite Zplus_mod_idemp_l. reflexivity.
    - rewrite Hs0, Hs. cbn [length]. now rewrite Z.add_0_r. }
  destruct (add_lines_hits (fun i => int_wrap (uint_wrap (i + fp_midline fp')))
              (w_res w1) s1) as [->|[-> ->]].
  - rewrite Hs1. unfold uint_wrap. rewrite Zplus_mod_idemp_l. f_equal. lia.
  - rewrite Hs1. cbn [length]. f_equal. lia.
Qed.

(** The loop of [subsearch] counts the lines it keeps. *)
Lemma subsearch_loop_hits `{RL : RegexLib} (child_regex : list Z) (es : list entry) :
  forall st,
    ss_nb_lines st = uint_wrap (Z.of_nat (length (match_lines (ss_entries st)))) ->
    ss_nb_lines (fold_left (subsearch_step child_regex) es st)
    = uint_wrap (Z.of_nat (length (match_lines
         (ss_entries (fold_left (subsearch_step child_regex) es st))))).
Proof.
  induction es as [|e es IH]; intros st Hst; [exact Hst|].
  cbn [fold_left]. apply IH. unfold subsearch_step.
  destruct (is_file_entry e) eqn:He; [exact Hst|].
  destruct (regex child_regex (e_data e)); [|exact Hst].
  cbn [ss_nb_lines ss_entries]. rewrite Hst, uint_wrap_succ. f_equal.
  rewrite match_lines_app.
  rewrite (match_lines_line {| e_data := copy_data (e_data e); e_line := e_line e |} [])
    by exact He.
  destruct (ss_orphan_file st).
  - rewrite match_lines_app, (match_lines_header _ []) by reflexivity.
    cbn [match_lines List.filter]. rewrite !length_app. simpl. lia.
  - cbn [match_lines List.filter]. rewrite !length_app. simpl. lia.
Qed.

Section Hits.
Context `{RL : RegexLib}.
Variable parser : list Z -> Z -> option bool.
Variable LINES : Z.

Lemma heap_hits_insert (st : state) (k : nat) (s : search) (c : nat) :
  heap_hits st -> hits_ok s ->
  heap_hits {| heap := <[k := s]> (heap st); current := c |}.
Proof.
  intros Hst Hs k' s'. simpl. rewrite lookup_insert.
  destruct (decide (k = k')); [now intros [= <-] | apply Hst].
Qed.

Lemma subsearch_hits (typed : list Z) (father : nat) (st st' : state)
    (r : option nat) :
  heap_hits st -> subsearch typed father st = (st', r) -> heap_hits st'.
Proof.
  intros Hst. unfold subsearch.
  destruct (rd typed 0 =? 0); [now intros [= <- _]|].
  destruct (heap st !! father) as [f|] eqn:Hf; [|now intros [= <- _]].
  pose proof (Hst father f Hf) as Hgf.
  assert (H1 : heap_hits
                 {| heap := <[father := set_child f (Some (fresh (dom (heap st))))]>
                              (heap st);
                    current := current st |})
    by (now apply heap_hits_insert).
  unfold is_regex_valid. cbn [s_pattern].
  destruct (regcomp (strncpy typed LINE_MAX)); intros [= <- _].
  - apply (heap_hits_insert {| heap := _; current := current st |}).
    + apply (heap_hits_insert {| heap := _; current := current st |});
        [exact H1 | reflexivity].
    + unfold hits_ok. cbn [set_entries s_entries s_nb_lines].
      now apply subsearch_loop_hits.
  - apply (heap_hits_insert {| heap := _; current := current st |});
      [exact H1 | reflexivity].
Qed.

Lemma main_switch_hits (ch : key) (st st' : state) :
  heap_hits st -> main_switch LINES ch st = Some (Running st') -> heap_hits st'.
Proof.
  intros Hst. unfold main_switch.
  destruct (heap st !! current st) as [cur|] eqn:Hcur; [|discriminate].
  destruct ch as [|k|typed| | | |].
  - now intros [= <-].
  - destruct (do_move LINES k cur) as [cur'|] eqn:Hmove; [|discriminate].
    intros [= <-]. apply heap_hits_insert; [assumption|].
    apply do_move_screen in Hmove as (i & c & ->).
    apply (Hst _ _ Hcur).
  - destruct (subsearch typed (current st) st) as [st1 tmp] eqn:Hsub.
    pose proof (subsearch_hits _ _ _ _ _ Hst Hsub) as H1.
    destruct tmp; intros [= <-]; [|assumption].
    intros k s. apply H1.
  - now intros [= <-].
  - destruct (s_father cur) as [tmp|]; [|discriminate].
    unfold clean_search.
    destruct (delete (current st) (heap st) !! tmp) as [f|] eqn:Hf; [|discriminate].
    intros [= <-].
    assert (Hdel : heap_hits {| heap := delete (current st) (heap st);
                                current := tmp |}).
    { intros k s. simpl. rewrite lookup_delete.
      destruct (decide (current st = k)); [discriminate | apply Hst]. }
    apply (heap_hits_insert _ _ _ _ Hdel). apply (Hdel tmp f Hf).
  - now intros [= <-].
  - now intros [= <-].
Qed.

Lemma step_hits (x y : state * Z) :
  step parser LINES x y -> heap_hits (fst x) -> heap_hits (fst y).
Proof.
  intros Hstep. destruct Hstep as [st ml file m ms ms' ml' Hms Hsize Hscan
                                  | st ml ms Hms
                                  | st ml ch st' Hkey]; simpl; intros Hst.
  - apply heap_hits_insert; [assumption|].
    eapply scan_file_hits; eauto.
  - apply heap_hits_insert; [assumption|]. apply (Hst _ _ Hms).
  - apply main_iteration_switch in Hkey.
    eapply main_switch_hits; eauto.
Qed.
End Hits.

(** In every state the program reaches, the hit counter of every search
    structure (what the status line shows as [Hits:]) is the number of
    match lines of its store, headers not counted. *)
Theorem hit_counter_counts `{RL : RegexLib} (parser : list Z -> Z -> option bool)
    (LINES : Z) (st : state) (k : nat) (s : search) :
  reachable parser LINES st ->
  heap st !! k = Some s ->
  s_nb_lines s = uint_wrap (Z.of_nat (length (match_lines (s_entries s)))).
Proof.
  intros (ml & Hrtc) Hs.
  assert (Hall : heap_hits (fst (st, ml))).
  { eapply (rtc_ind_r (fun y => heap_hits (fst y)) (initial_state, 0));
      [| | exact Hrtc].
    - intros k' s'. unfold initial_state. simpl.
      rewrite lookup_singleton.
      destruct (decide (mainsearch_key = k')); [|discriminate].
      now intros [= <-].
    - intros y z _ Hstep Hy. eapply step_hits; eauto. }
  exact (Hall k s Hs).
Qed.

Lemma hit_counter_counts_witness :
  s_nb_lines search_hello
  = uint_wrap (Z.of_nat (length (match_lines (s_entries search_hello)))).
Proof.
  apply (hit_counter_counts (RL := literal_regex) (literal_parser (chars "hello")) 24
           {| heap := <[mainsearch_key := search_hello]> (heap initial_state);
              current := mainsearch_key |} mainsearch_key search_hello).
  - exact reachable_search_hello.
  - reflexivity.
Defined.

(** ** The arrays of entries are large enough *)

(** Every entry [mainsearch_add_file] and [mainsearch_add_line] write
    lands inside the array of [mainsearch]: after any number of appends
    that an [unsigned int] can count, the number of entries in use is at
    most the number allocated, which is never more than 500 ahead. *)
Theorem mainsearch_array_in_bounds (n : nat) :
  Z.of_nat n + 500 < 2 ^ 32 ->
  exists a,
    mainsearch_adds n initial_array = Some a
    /\ ar_nbentry a = Z.of_nat n
    /\ ar_nbentry a <= ar_size a <= ar_nbentry a + 500.
Proof.
  intros Hn.
  assert (Hgen : forall k a,
            Z.of_nat k + ar_nbentry a + 500 < 2 ^ 32 ->
            0 <= ar_nbentry a <= ar_size a ->
            ar_size a <= ar_nbentry a + 500 ->
            exists a',
              mainsearch_adds k a = Some a'
              /\ ar_nbentry a' = ar_nbentry a + Z.of_nat k
              /\ ar_nbentry a' <= ar_size a' <= ar_nbentry a' + 500).
  { induction k as [|k IH]; intros a Hk Hle Hup.
    - exists a. split; [reflexivity|]. lia.
    - cbn [mainsearch_adds]. unfold mainsearch_add_array, check_alloc.
      destruct (Z.geb_spec (ar_nbentry a) (ar_size a)) as [Hfull|Hroom].
      + rewrite uint_wrap_small by lia.
        destruct (Z.ltb_spec (ar_nbentry a) (ar_size a + 500)); [|lia].
        rewrite uint_wrap_small by lia.
        destruct (IH {| ar_nbentry := ar_nbentry a + 1;
                        ar_size := ar_size a + 500 |}) as (a' & Hrun & Hnb & Hb);
          cbn [ar_nbentry ar_size]; [lia..|].
        exists a'. split; [exact Hrun|]. cbn [ar_nbentry] in Hnb. lia.
      + destruct (Z.ltb_spec (ar_nbentry a) (ar_size a)); [|lia].
        rewrite uint_wrap_small by lia.
        destruct (IH {| ar_nbentry := ar_nbentry a + 1;
                        ar_size := ar_size a |}) as (a' & Hrun & Hnb & Hb);
          cbn [ar_nbentry ar_size]; [lia..|].
        exists a'. split; [exact Hrun|]. cbn [ar_nbentry] in Hnb. lia. }
  destruct (Hgen n initial_array) as (a & Hrun & Hnb & Hb);
    cbn [initial_array ar_nbentry ar_size]; [lia..|].
  exists a. split; [exact Hrun|]. cbn [initial_array ar_nbentry] in Hnb.
  split; [lia | exact Hb].
Qed.

Lemma mainsearch_array_in_bounds_witness :
  exists a,
    mainsearch_adds 601 initial_array = Some a
    /\ ar_nbentry a = Z.of_nat 601
    /\ ar_nbentry a <= ar_size a <= ar_nbentry a + 500.
Proof.
  apply (mainsearch_array_in_bounds 601). vm_compute. reflexivity.
Defined.

Section SubsearchArray.
Context `{RL : RegexLib}.
Variable child_regex : list Z.

(** What holds between the entries in use, the pending header and the
    size of the child's array, after [k] entries of the father. *)
Lemma subsearch_array_step_ok (ss : sub_state) (size : Z) (e : entry) (k : Z) :
  let nb := Z.of_nat (length (ss_entries ss)) in
  nb + (if ss_orphan_file ss then 1 else 0) <= k ->
  k < 2 ^ 31 - 200 ->
  100 * (nb / 100 + 1) <= size ->
  size <= 100 + 200 * (nb / 100) + (if nb mod 100 =? 99 then 100 else 0) ->
  exists size',
    subsearch_array_step child_regex (ss, size) e
    = Some (subsearch_step child_regex ss e, size')
    /\ let ss' := subsearch_step child_regex ss e in
       let nb' := Z.of_nat (length (ss_entries ss')) in
       nb' + (if ss_orphan_file ss' then 1 else 0) <= k + 1
       /\ 100 * (nb' / 100 + 1) <= size'
       /\ size' <= 100 + 200 * (nb' / 100) + (if nb' mod 100 =? 99 then 100 else 0).
Proof.
  intros nb Hk Hbig Hlow Hup.
  unfold subsearch_array_step, subsearch_step.
  destruct (is_file_entry e).
  { exists size. split; [reflexivity|]. cbn [ss_entries ss_orphan_file].
    fold nb. destruct (ss_orphan_file ss); repeat split; (assumption || lia). }
  destruct (regex child_regex (e_data e)).
  2: { exists size. split; [reflexivity|]. cbv zeta. fold nb.
       destruct (ss_orphan_file ss); repeat split; (assumption || lia). }
  fold nb. cbn [ss_entries ss_orphan_file].
  assert (Hnb0 : 0 <= nb) by (unfold nb; lia).
  pose proof (Z.div_mod nb 100 ltac:(lia)) as Hdm.
  pose proof (Z.mod_pos_bound nb 100 ltac:(lia)) as Hr.
  assert (Hq0 : 0 <= nb / 100) by (apply Z.div_pos; lia).
  assert (Hnbk : nb <= k) by (destruct (ss_orphan_file ss); lia).
  set (size1 := if nb mod 100 >=? 98 then uint_wrap (size + 100) else size).
  assert (Hsize1 : size1 = if nb mod 100 >=? 98 then size + 100 else size).
  { unfold size1. destruct (nb mod 100 >=? 98); [|reflexivity].
    apply uint_wrap_small.
    destruct (nb mod 100 =? 99); lia. }
  assert (Hfits : nb + 1 < size1).
  { rewrite Hsize1. destruct (Z.geb_spec (nb mod 100) 98); lia. }
  exists size1.
  destruct (ss_orphan_file ss) eqn:Ho.
  - destruct (Z.ltb_spec (nb + 1) size1); [|lia].
    split; [reflexivity|]. cbv zeta.
    rewrite !length_app. cbn [length].
    replace (Z.of_nat (length (ss_entries ss) + 1 + 1)) with (nb + 2)
      by (unfold nb; lia).
    pose proof (Z.div_mod (nb + 2) 100 ltac:(lia)) as Hdm'.
    pose proof (Z.mod_pos_bound (nb + 2) 100 ltac:(lia)) as Hr'.
    assert (Hq' : (nb + 2) / 100 = nb / 100 \/ (nb + 2) / 100 = nb / 100 + 1) by lia.
    rewrite Hsize1.
    destruct (Z.geb_spec (nb mod 100) 98), (Z.eqb_spec (nb mod 100) 99),
             (Z.eqb_spec ((nb + 2) mod 100) 99); lia.
  - destruct (Z.ltb_spec nb size1); [|lia].
    split; [reflexivity|]. cbv zeta.
    rewrite !length_app. cbn [length].
    replace (Z.of_nat (length (ss_entries ss) + 1)) with (nb + 1)
      by (unfold nb; lia).
    pose proof (Z.div_mod (nb + 1) 100 ltac:(lia)) as Hdm'.
    pose proof (Z.mod_pos_bound (nb + 1) 100 ltac:(lia)) as Hr'.
    assert (Hq' : (nb + 1) / 100 = nb / 100 \/ (nb + 1) / 100 = nb / 100 + 1) by lia.
    rewrite Hsize1.
    destruct (Z.geb_spec (nb mod 100) 98), (Z.eqb_spec (nb mod 100) 99),
             (Z.eqb_spec ((nb + 1) mod 100) 99); lia.
Qed.

Lemma subsearch_array_loop_ok (es : list entry) :
  forall ss size k,
    let nb := Z.of_nat (length (ss_entries ss)) in
    nb + (if ss_orphan_file ss then 1 else 0) <= k ->
    k + Z.of_nat (length es) < 2 ^ 31 - 200 ->
    100 * (nb / 100 + 1) <= size ->
    size <= 100 + 200 * (nb / 100) + (if nb mod 100 =? 99 then 100 else 0) ->
    exists size',
      subsearch_array_loop child_regex es (ss, size)
      = Some (fold_left (subsearch_step child_regex) es ss, size')
      /\ let nb' := Z.of_nat (length (ss_entries
                       (fold_left (subsearch_step child_regex) es ss))) in
         nb' <= k + Z.of_nat (length es)
         /\ 100 * (nb' / 100 + 1) <= size'
         /\ size' <= 100 + 200 * (nb' / 100) + 100.
Proof.
  induction es as [|e es IH]; intros ss size k nb Hk Hbig Hlow Hup.
  - exists size. split; [reflexivity|]. cbn [fold_left length]. fold nb.
    destruct (ss_orphan_file ss), (nb mod 100 =? 99); repeat split; lia.
  - cbn [subsearch_array_loop fold_left].
    destruct (subsearch_array_step_ok ss size e k Hk ltac:(cbn [length] in Hbig; lia)
                Hlow Hup) as (size1 & -> & Hk1 & Hlow1 & Hup1).
    destruct (IH (subsearch_step child_regex ss e) size1 (k + 1) Hk1
                ltac:(cbn [length] in Hbig; lia) Hlow1 Hup1)
      as (size' & -> & Hnb & Hlow' & Hup').
    exists size'. split; [reflexivity|]. cbv zeta in *. cbn [length].
    repeat split; (assumption || lia).
Qed.
End SubsearchArray.

(** Every entry the loop of [subsearch] writes lands inside the child's
    array: the test [nbentry % 100 >= 98] makes the array grow in time,
    although an iteration may write two entries.  At the end the array
    holds at least the entries in use, which are no more than the
    father's, and at most twice as many and 200 more. *)
Theorem subsearch_array_in_bounds `{RL : RegexLib} (child_regex : list Z)
    (father_entries : list entry) :
  Z.of_nat (length father_entries) < 2 ^ 31 - 200 ->
  exists size,
    subsearch_array_loop child_regex father_entries
      ({| ss_orphan_file := false; ss_new_data := []; ss_entries := [];
          ss_nb_lines := 0 |}, 100)
    = Some (subsearch_loop child_regex father_entries, size)
    /\ let nbentry :=
         Z.of_nat (length (ss_entries (subsearch_loop child_regex father_entries))) in
       nbentry <= Z.of_nat (length father_entries)
       /\ nbentry < size
       /\ size <= 2 * nbentry + 200.
Proof.
  intros Hbig.
  destruct (subsearch_array_loop_ok child_regex father_entries
              {| ss_orphan_file := false; ss_new_data := []; ss_entries := [];
                 ss_nb_lines := 0 |} 100 0)
    as (size & Hrun & Hnb & Hlow & Hup); cbn [ss_entries ss_orphan_file length];
    [lia | lia | reflexivity | reflexivity |].
  exists size. split; [exact Hrun|]. cbv zeta in *.
  fold (subsearch_loop child_regex father_entries) in Hnb, Hlow, Hup.
  set (nb := Z.of_nat (length (ss_entries (subsearch_loop child_regex father_entries))))
    in *.
  assert (Hnb0 : 0 <= nb) by (unfold nb; lia).
  pose proof (Z.div_mod nb 100 ltac:(lia)) as Hdm.
  pose proof (Z.mod_pos_bound nb 100 ltac:(lia)) as Hr.
  repeat split; lia.
Qed.

Lemma subsearch_array_in_bounds_witness :
  exists size,
    subsearch_array_loop (RL := literal_regex) (chars "hello") (s_entries search_hello)
      ({| ss_orphan_file := false; ss_new_data := []; ss_entries := [];
          ss_nb_lines := 0 |}, 100)
    = Some (subsearch_loop (RL := literal_regex) (chars "hello")
              (s_entries search_hello), size)
    /\ let nbentry :=
         Z.of_nat (length (ss_entries
           (subsearch_loop (RL := literal_regex) (chars "hello")
              (s_entries search_hello)))) in
       nbentry <= Z.of_nat (length (s_entries search_hello))
       /\ nbentry < size
       /\ size <= 2 * nbentry + 200.
Proof.
  apply (subsearch_array_in_bounds (RL := literal_regex) (chars "hello")
           (s_entries search_hello)).
  vm_compute. reflexivity.
Defined.

(** ** The two ends of the store *)

Lemma first_is_header (s : search) :
  wf_store (s_entries s) -> 1 <= nbentry s -> is_file 0 s = Some true.
Proof.
  intros [Hlines _] Hn.
  destruct (is_file_in_store s 0 ltac:(lia)) as [[|] Hb]; [assumption|].
  apply (is_file_line s 0) in Hb. apply Hlines in Hb as (j & Hj & _). lia.
Qed.

Lemma set_screen_same (s : search) : set_screen s (s_index s) (s_cursor s) = s.
Proof. now destruct s. Qed.

(** On the first page, PageUp, and Up from the first or second row,
    put the selection on entry 0, which is the header of the first
    file. *)
Theorem up_on_first_page (LINES : Z) (k : move) (s : search) :
  1 <= LINES ->
  wf_store (s_entries s) ->
  1 <= nbentry s ->
  s_index s = 0 ->
  k = PageUp \/ (k = Up /\ (s_cursor s = 0 \/ s_cursor s = 1)) ->
  do_move LINES k s = Some (set_screen s 0 0)
  /\ selected (set_screen s 0 0) = 0
  /\ is_file 0 s = Some true.
Proof.
  intros HL Hwf Hn Hindex Hk.
  pose proof (first_is_header s Hwf Hn) as Hhead.
  assert (Hpage : forall c, page_up LINES (set_screen s 0 c) = Some (set_screen s 0 0)).
  { intros c. unfold page_up. cbn [set_screen s_index].
    change (0 =? 0) with true. cbv iota.
    destruct (Z.ltb_spec (0 - LINES) 0); [|lia].
    rewrite is_file_set_screen. change (0 + 0) with 0. rewrite Hhead.
    reflexivity. }
  split; [|split; [reflexivity | assumption]].
  destruct Hk as [->|[-> Hc]]; cbn [do_move].
  - rewrite <- (set_screen_same s), Hindex. apply Hpage.
  - unfold cursor_up. destruct Hc as [Hc|Hc]; rewrite Hc.
    + change (0 =? 0) with true. cbv iota.
      rewrite <- (set_screen_same s), Hindex. apply Hpage.
    + change (1 =? 0) with false. change (1 >? 0) with true. cbv iota.
      rewrite Hindex. change (0 + (1 - 1)) with 0. rewrite Hhead.
      change (1 - 1 - 1 <? 0) with true. cbv iota. apply Hpage.
Qed.

Lemma up_on_first_page_witness :
  do_move 24 Up (set_screen search_hello 0 1)
  = Some (set_screen (set_screen search_hello 0 1) 0 0)
  /\ selected (set_screen (set_screen search_hello 0 1) 0 0) = 0
  /\ is_file 0 (set_screen search_hello 0 1) = Some true.
Proof.
  apply (up_on_first_page 24 Up (set_screen search_hello 0 1)).
  - lia.
  - apply groups_wf.
    apply (groups_app [] {| e_data := chars "a.c"; e_line := 0 |}
             [ {| e_data := chars "hello" ++ [0]; e_line := 1 |};
               {| e_data := chars "hello world" ++ [0]; e_line := 3 |} ]);
      [constructor | reflexivity | discriminate | repeat constructor].
  - vm_compute. discriminate.
  - reflexivity.
  - right. split; [reflexivity | now right].
Defined.

(** At the bottom of the store: on the last page PageDown puts the
    selection on the last entry, and when the selection is on the last
    entry Down and PageDown change nothing. *)
Theorem down_at_the_end (LINES : Z) (s : search) :
  2 <= LINES ->
  wf_store (s_entries s) ->
  nav_inv LINES s ->
  (nbentry s <= s_index s + LINES ->
   exists s', page_down LINES s = Some s'
              /\ s_index s' = s_index s
              /\ selected s' = nbentry s - 1)
  /\ (selected s = nbentry s - 1 ->
      cursor_down LINES s = Some s /\ page_down LINES s = Some s).
Proof.
  intros HL Hwf (Hdiv & H0 & Hc & Hsel & _).
  unfold selected in *.
  assert (Hn : 1 <= nbentry s) by lia.
  pose proof (max_index_spec LINES (nbentry s) ltac:(lia) Hn) as Hmax.
  cbv zeta in Hmax.
  set (max_index := if nbentry s mod LINES =? 0
                    then nbentry s - LINES
                    else nbentry s - nbentry s mod LINES) in *.
  destruct Hmax as (Hmdiv & Hmrange & Hmtop & Hmlast).
  pose proof (last_is_line s Hwf Hn) as Hlast.
  assert (Hpage : nbentry s <= s_index s + LINES ->
                  page_down LINES s
                  = Some (set_screen s (s_index s) ((nbentry s - 1) mod LINES))
                    /\ s_index s + (nbentry s - 1) mod LINES = nbentry s - 1).
  { intros Htop.
    assert (Hidx : s_index s = max_index).
    { destruct (multiple_below LINES (s_index s) max_index (nbentry s)
                  ltac:(lia) Hdiv Hmdiv ltac:(lia) Hmtop) as [|Hlow]; [assumption|].
      lia. }
    unfold page_down. fold max_index.
    destruct (Z.eqb_spec (nbentry s) 0); [lia|].
    destruct (Z.eqb_spec (s_index s) max_index); [|contradiction].
    destruct (Z.gtb_spec (s_index s + LINES) max_index); [|lia].
    rewrite <- Hidx in Hmlast. rewrite <- Hidx, Hmlast, Hlast.
    split; [|reflexivity]. repeat f_equal; lia. }
  split.
  - intros Htop. destruct (Hpage Htop) as (Hrun & Hpos).
    eexists. split; [exact Hrun|]. cbn [set_screen s_index s_cursor].
    split; [reflexivity | lia].
  - intros Hend.
    assert (Htop : nbentry s <= s_index s + LINES) by lia.
    destruct (Hpage Htop) as (Hrun & Hpos).
    assert (Hcur : (nbentry s - 1) mod LINES = s_cursor s) by lia.
    rewrite Hcur, set_screen_same in Hrun.
    split; [|exact Hrun].
    unfold cursor_down.
    destruct (Z.eqb_spec (s_cursor s) (LINES - 1)); [exact Hrun|].
    destruct (Z.ltb_spec (s_cursor s + s_index s) (nbentry s - 1)); [lia|].
    replace (s_index s + s_cursor s) with (nbentry s - 1) by lia.
    rewrite Hlast.
    destruct (Z.gtb_spec (s_cursor s) (LINES - 1)); [lia|].
    now rewrite set_screen_same.
Qed.

Lemma down_at_the_end_witness :
  (nbentry (set_screen search_hello 2 0) <= s_index (set_screen search_hello 2 0) + 2 ->
   exists s', page_down 2 (set_screen search_hello 2 0) = Some s'
              /\ s_index s' = s_index (set_screen search_hello 2 0)
              /\ selected s' = nbentry (set_screen search_hello 2 0) - 1)
  /\ (selected (set_screen search_hello 2 0)
      = nbentry (set_screen search_hello 2 0) - 1 ->
      cursor_down 2 (set_screen search_hello 2 0)
      = Some (set_screen search_hello 2 0)
      /\ page_down 2 (set_screen search_hello 2 0)
         = Some (set_screen search_hello 2 0)).
Proof.
  apply (down_at_the_end 2 (set_screen search_hello 2 0)).
  - lia.
  - apply groups_wf.
    apply (groups_app [] {| e_data := chars "a.c"; e_line := 0 |}
             [ {| e_data := chars "hello" ++ [0]; e_line := 1 |};
               {| e_data := chars "hello world" ++ [0]; e_line := 3 |} ]);
      [constructor | reflexivity | discriminate | repeat constructor].
  - unfold nav_inv, selected. simpl. repeat split; try lia.
    exists 1. reflexivity.
Defined.

(** ** The pattern handed to the editor *)

Lemma cstr_length (buf : list Z) : (length (cstr buf) <= length buf)%nat.
Proof.
  induction buf as [|c buf IH]; simpl; [lia|].
  destruct (c =? 0); simpl; lia.
Qed.

Lemma cstr_nonzero (buf : list Z) : Forall (fun c => c <> 0) (cstr buf).
Proof.
  induction buf as [|c buf IH]; simpl; [constructor|].
  destruct (Z.eqb_spec c 0); constructor; assumption.
Qed.

(** Reading a buffer where its string stands, and just after it. *)

Lemma rd_cstr_split (buf done rest : list Z) :
  cstr buf = done ++ rest ->
  rd buf (Z.of_nat (length done)) = hd 0 rest.
Proof.
  rewrite rd_of_nat. revert done. induction buf as [|c buf IH]; intros done.
  - simpl. intros H. symmetry in H. apply app_eq_nil in H as [-> ->]. reflexivity.
  - simpl. destruct (Z.eqb_spec c 0) as [->|Hc].
    + intros H. symmetry in H. apply app_eq_nil in H as [-> ->]. reflexivity.
    + destruct done as [|d done]; simpl.
      * intros <-. reflexivity.
      * intros [= <- H]. now apply IH.
Qed.

Lemma store_at (buf pre rest : list Z) (x v i : Z) :
  buf = pre ++ x :: rest -> i = Z.of_nat (length pre) ->
  store buf i v = Some (pre ++ v :: rest).
Proof.
  intros Hbuf Hi. unfold store.
  destruct (Z.leb_spec 0 i); [|lia].
  destruct (Z.ltb_spec i (Z.of_nat (length buf))).
  - cbn [andb]. now rewrite (wr_at buf pre rest x v i).
  - subst buf. rewrite length_app in *. simpl in *. lia.
Qed.

Lemma escape_vim_snoc (done : list Z) (c : Z) :
  escape_vim (done ++ [c])
  = escape_vim done
    ++ (if (c =? SLASH) || (c =? QUOTE) then [BACKSLASH; c] else [c]).
Proof. unfold escape_vim. rewrite flat_map_app. simpl. now rewrite app_nil_r. Qed.

Lemma vim_sanitize_loop_spec (junk : Z) (search_pattern : list Z) (rest : list Z) :
  forall done fuel,
    cstr search_pattern = done ++ rest ->
    (length rest < fuel)%nat ->
    vim_sanitize_loop fuel junk search_pattern
      (escape_vim done ++ replicate (S (length rest)) junk)
      (Z.of_nat (length done)) (Z.of_nat (length (escape_vim done)))
    = Some (escape_vim (done ++ rest) ++ [0]).
Proof.
  induction rest as [|c rest IH]; intros done fuel Hsplit Hfuel;
    (destruct fuel as [|fuel]; [lia|]); cbn [vim_sanitize_loop].
  - rewrite (rd_cstr_split _ _ _ Hsplit). cbn [hd]. change (0 =? 0) with true.
    cbv iota. rewrite app_nil_r.
    now apply (store_at _ (escape_vim done) [] junk).
  - rewrite (rd_cstr_split _ _ _ Hsplit). cbn [hd].
    assert (Hc : c <> 0).
    { pose proof (cstr_nonzero search_pattern) as Hnz. rewrite Hsplit in Hnz.
      apply Forall_app in Hnz as [_ Hnz]. now inversion Hnz. }
    destruct (Z.eqb_spec c 0) as [|_]; [contradiction|].
    assert (Hnext : cstr search_pattern = (done ++ [c]) ++ rest)
      by now rewrite <- app_assoc.
    specialize (IH (done ++ [c]) fuel Hnext ltac:(simpl in Hfuel; lia)).
    replace ((done ++ [c]) ++ rest) with (done ++ c :: rest) in IH
      by (now rewrite <- app_assoc).
    rewrite escape_vim_snoc in IH.
    replace (Z.of_nat (length (done ++ [c]))) with (Z.of_nat (length done) + 1)
      in IH by (rewrite length_app; simpl; lia).
    rewrite <- app_assoc in IH. cbn [length].
    destruct ((c =? SLASH) || (c =? QUOTE)).
    + rewrite <- app_assoc.
      replace (replicate (S (S (length rest))) junk ++ [junk])
        with (junk :: junk :: replicate (S (length rest)) junk)
        by (cbn [replicate app]; now rewrite <- replicate_cons_app).
      rewrite (store_at _ (escape_vim done) (junk :: replicate (S (length rest)) junk)
                 junk BACKSLASH) by reflexivity.
      rewrite (store_at _ (escape_vim done ++ [BACKSLASH])
                 (replicate (S (length rest)) junk) junk c).
      * rewrite length_app in IH. cbn [length] in IH.
        replace (Z.of_nat (length (escape_vim done)) + 1 + 1)
          with (Z.of_nat (length (escape_vim done) + 2)) by lia.
        rewrite <- IH. f_equal. now rewrite <- app_assoc.
      * now rewrite <- app_assoc.
      * rewrite length_app. simpl. lia.
    + cbn [replicate].
      rewrite (store_at _ (escape_vim done) (replicate (S (length rest)) junk)
                 junk c) by reflexivity.
      rewrite length_app in IH. cbn [length] in IH.
      replace (Z.of_nat (length (escape_vim done)) + 1)
        with (Z.of_nat (length (escape_vim done) + 1)) by lia.
      rewrite <- IH. f_equal.
Qed.

(** [vim_sanitize] never writes outside the buffer it allocates and
    grows, whatever [malloc] left in it, and returns the pattern with a
    backslash put before each [/] and each ['], followed by the
    terminator; the other bytes, backslashes included, are copied as
    they are. *)
Theorem vim_sanitize_escapes (junk : Z) (search_pattern : list Z) :
  vim_sanitize junk search_pattern
  = Some (escape_vim (cstr search_pattern) ++ [0]).
Proof.
  unfold vim_sanitize, strlen.
  replace (Z.to_nat (Z.of_nat (length (cstr search_pattern)) + 1))
    with (S (length (cstr search_pattern))) by lia.
  apply (vim_sanitize_loop_spec junk search_pattern (cstr search_pattern) []);
    [reflexivity|].
  pose proof (cstr_length search_pattern). lia.
Qed.

(** ** File names on the screen *)

(** The loop of [remove_double_appearance] cuts every run of [c] to half
    its length, rounded up. *)
Lemma remove_double_loop_spec (initial : list Z) (c : Z) (n : nat) :
  c <> 0 ->
  forall rest done fuel final,
    (length rest <= n)%nat ->
    cstr initial = done ++ rest ->
    (length rest < fuel)%nat ->
    remove_double_loop fuel initial c (strlen initial)
      (Z.of_nat (length done)) final
    = Some (final ++ halve_runs c rest ++ [0]).
Proof.
  intros Hc. induction n as [|n IH]; intros rest done fuel final Hn Hsplit Hfuel;
    (destruct fuel as [|fuel]; [lia|]); cbn [remove_double_loop].
  - destruct rest; [|simpl in Hn; lia].
    unfold strlen. rewrite Hsplit, app_nil_r.
    destruct (Z.ltb_spec (Z.of_nat (length done)) (Z.of_nat (length done))); [lia|].
    reflexivity.
  - destruct rest as [|x rest].
    { unfold strlen. rewrite Hsplit, app_nil_r.
      destruct (Z.ltb_spec (Z.of_nat (length done)) (Z.of_nat (length done))); [lia|].
      reflexivity. }
    assert (Hlen : Z.of_nat (length done) < strlen initial)
      by (unfold strlen; rewrite Hsplit, length_app; simpl; lia).
    destruct (Z.ltb_spec (Z.of_nat (length done)) (strlen initial)); [|lia].
    rewrite (rd_cstr_split _ _ _ Hsplit). cbn [hd].
    assert (Hnext : cstr initial = (done ++ [x]) ++ rest)
      by now rewrite <- app_assoc.
    assert (Hi1 : Z.of_nat (length done) + 1 = Z.of_nat (length (done ++ [x])))
      by (rewrite length_app; simpl; lia).
    cbn [halve_runs].
    destruct (Z.eqb_spec x c) as [->|Hx]; cbn [negb].
    + rewrite Hi1, (rd_cstr_split _ _ _ Hnext).
      destruct rest as [|y rest].
      * cbn [hd]. destruct (Z.eqb_spec 0 c) as [|_]; [congruence|].
        rewrite <- Hi1, Hi1.
        rewrite (IH [] (done ++ [c]) fuel (final ++ [c]))
          by (simpl in *; assumption || lia).
        cbn [halve_runs]. now rewrite <- app_assoc.
      * cbn [hd]. destruct (Z.eqb_spec y c) as [->|Hy].
        -- assert (Hnext2 : cstr initial = (done ++ [c; c]) ++ rest)
             by (rewrite Hsplit; now rewrite <- app_assoc).
           replace (Z.of_nat (length done) + 2)
             with (Z.of_nat (length (done ++ [c; c])))
             by (rewrite length_app; simpl; lia).
           rewrite (IH rest (done ++ [c; c]) fuel (final ++ [c]))
             by (simpl in *; assumption || lia).
           now rewrite <- app_assoc.
        -- rewrite (IH (y :: rest) (done ++ [c]) fuel (final ++ [c]))
             by (simpl in *; assumption || lia).
           now rewrite <- app_assoc.
    + rewrite Hi1.
      rewrite (IH rest (done ++ [x]) fuel (final ++ [x]))
        by (simpl in *; assumption || lia).
      now rewrite <- app_assoc.
Qed.

Lemma halve_runs_head (c x : Z) (r : list Z) :
  exists t, halve_runs c (x :: r) = x :: t.
Proof. cbn [halve_runs]. eauto. Qed.

Lemma has_pair_cons (c x y : Z) (r : list Z) :
  has_pair c (x :: y :: r) = ((x =? c) && (y =? c)) || has_pair c (y :: r).
Proof. reflexivity. Qed.

Lemma halve_runs_facts (c : Z) (n : nat) :
  forall l, (length l <= n)%nat ->
    (length (halve_runs c l) <= length l)%nat
    /\ List.filter (fun x => negb (x =? c)) (halve_runs c l)
       = List.filter (fun x => negb (x =? c)) l
    /\ (has_triple c l = false -> has_pair c (halve_runs c l) = false).
Proof.
  induction n as [|n IH]; intros l Hn.
  - destruct l; [|simpl in Hn; lia]. repeat split; reflexivity.
  - destruct l as [|x r]; [repeat split; reflexivity|].
    cbn [halve_runs].
    destruct (Z.eqb_spec x c) as [->|Hx].
    + destruct r as [|y r'].
      * repeat split; reflexivity.
      * destruct (Z.eqb_spec y c) as [->|Hy].
        -- destruct (IH r' ltac:(simpl in Hn |- *; lia)) as (H1 & H2 & H3).
           split; [simpl; lia|]. split.
           ++ cbn [List.filter]. rewrite Z.eqb_refl. cbn [negb]. exact H2.
           ++ intros Ht.
              destruct r' as [|z r'']; [reflexivity|].
              cbn [has_triple] in Ht. rewrite !Z.eqb_refl in Ht. cbn [andb] in Ht.
              apply orb_false_iff in Ht as [Hz Ht].
              assert (Ht' : has_triple c (z :: r'') = false).
              { destruct r'' as [|w r'']; [reflexivity|].
                apply orb_false_iff in Ht as [_ Ht]. exact Ht. }
              specialize (H3 Ht').
              destruct (halve_runs_head c z r'') as [t Hhead].
              rewrite Hhead in *. rewrite has_pair_cons.
              rewrite Z.eqb_refl, Hz. cbn [andb orb]. exact H3.
        -- destruct (IH (y :: r') ltac:(simpl in Hn |- *; lia)) as (H1 & H2 & H3).
           split; [simpl in *; lia|]. split.
           ++ cbn [List.filter]. rewrite Z.eqb_refl. cbn [negb].
              exact H2.
           ++ intros Ht.
              assert (Ht' : has_triple c (y :: r') = false).
              { cbn [has_triple] in Ht. destruct r' as [|z r'']; [reflexivity|].
                apply orb_false_iff in Ht as [_ Ht]. exact Ht. }
              specialize (H3 Ht').
              destruct (halve_runs_head c y r') as [t Hhead].
              rewrite Hhead in *. rewrite has_pair_cons.
              rewrite Z.eqb_refl. destruct (Z.eqb_spec y c); [contradiction|].
              cbn [andb orb]. exact H3.
    + destruct (IH r ltac:(simpl in Hn |- *; lia)) as (H1 & H2 & H3).
      split; [simpl; lia|]. split.
      * cbn [List.filter]. destruct (Z.eqb_spec x c); [contradiction|].
        cbn [negb]. now rewrite H2.
      * intros Ht.
        assert (Ht' : has_triple c r = false).
        { cbn [has_triple] in Ht. destruct r as [|y [|z r'']]; try reflexivity.
          apply orb_false_iff in Ht as [_ Ht]. exact Ht. }
        specialize (H3 Ht').
        destruct r as [|y r']; [reflexivity|].
        destruct (halve_runs_head c y r') as [t Hhead].
        rewrite Hhead in *. rewrite has_pair_cons.
        destruct (Z.eqb_spec x c); [contradiction|]. cbn [andb orb]. exact H3.
Qed.

(** [remove_double_appearance] returns a string that is no longer than
    the one it is given (so it fits the caller's buffer when the name
    does), keeps every byte other than [c] in order, and cuts a run of
    [c] to half its length, rounded up: a name without three [c] in a row
    comes out without two [c] in a row. *)
Theorem remove_double_appearance_spec (initial : list Z) (c : Z) :
  c <> 0 ->
  exists final,
    remove_double_appearance initial c = Some (final ++ [0])
    /\ final = halve_runs c (cstr initial)
    /\ Z.of_nat (length final) <= strlen initial
    /\ List.filter (fun x => negb (x =? c)) final
       = List.filter (fun x => negb (x =? c)) (cstr initial)
    /\ (has_triple c (cstr initial) = false -> has_pair c final = false).
Proof.
  intros Hc. exists (halve_runs c (cstr initial)).
  destruct (halve_runs_facts c (length (cstr initial)) (cstr initial) ltac:(lia))
    as (H1 & H2 & H3).
  split.
  - unfold remove_double_appearance.
    apply (remove_double_loop_spec initial c (length (cstr initial)) Hc
             (cstr initial) [] (S (length initial)) []);
      [lia | reflexivity |].
    pose proof (cstr_length initial). lia.
  - split; [reflexivity|]. split; [unfold strlen; lia|].
    split; [exact H2 | exact H3].
Qed.

Lemma remove_double_appearance_spec_witness :
  exists final,
    remove_double_appearance (chars ".//src/ngp.c") SLASH = Some (final ++ [0])
    /\ final = halve_runs SLASH (cstr (chars ".//src/ngp.c"))
    /\ Z.of_nat (length final) <= strlen (chars ".//src/ngp.c")
    /\ List.filter (fun x => negb (x =? SLASH)) final
       = List.filter (fun x => negb (x =? SLASH)) (cstr (chars ".//src/ngp.c"))
    /\ (has_triple SLASH (cstr (chars ".//src/ngp.c")) = false ->
        has_pair SLASH final = false).
Proof.
  apply (remove_double_appearance_spec (chars ".//src/ngp.c") SLASH).
  discriminate.
Defined.


(** ** The window of the subsearch *)

Lemma window_buffer_length (typed : list Z) :
  (length typed <= 256)%nat -> length (window_buffer typed) = 256%nat.
Proof.
  intros H. unfold window_buffer.
  rewrite length_app, length_map, length_replicate.
  change (Z.to_nat LINE_MAX) with 256%nat. lia.
Qed.

(** [search[j++] = car] on the buffer that holds the keys typed so far. *)
Lemma window_store (typed : list Z) (car : Z) :
  (length typed < 256)%nat ->
  wr (window_buffer typed) (Z.of_nat (length typed)) (char_wrap car)
  = window_buffer (typed ++ [car]).
Proof.
  intros H. unfold wr, window_buffer.
  destruct (Z.ltb_spec (Z.of_nat (length typed)) 0); [lia|].
  rewrite Nat2Z.id. change (Z.to_nat LINE_MAX) with 256%nat.
  rewrite insert_app_r_alt by (rewrite length_map; lia).
  rewrite length_map, Nat.sub_diag, map_app, length_app, <- app_assoc.
  cbn [length map app].
  replace (256 - length typed)%nat with (S (256 - (length typed + 1)))%nat by lia.
  reflexivity.
Qed.

(** [search[--j] = 0] undoes it. *)
Lemma window_erase (typed : list Z) (car : Z) :
  (length typed < 256)%nat ->
  wr (window_buffer (typed ++ [car])) (Z.of_nat (length typed)) 0
  = window_buffer typed.
Proof.
  intros H. unfold wr, window_buffer.
  destruct (Z.ltb_spec (Z.of_nat (length typed)) 0); [lia|].
  rewrite Nat2Z.id. change (Z.to_nat LINE_MAX) with 256%nat.
  rewrite map_app, length_app, <- app_assoc. cbn [length map app].
  rewrite insert_app_r_alt by (rewrite length_map; lia).
  rewrite length_map, Nat.sub_diag.
  replace (256 - length typed)%nat with (S (256 - (length typed + 1)))%nat by lia.
  reflexivity.
Qed.

(** The terminator written after the loop changes nothing. *)
Lemma window_terminated (typed : list Z) :
  (length typed < 256)%nat ->
  window_end (window_buffer typed) (Z.of_nat (length typed))
  = Typed (window_buffer typed).
Proof.
  intros H. unfold window_end. change LINE_MAX with 256.
  destruct (Z.ltb_spec (Z.of_nat (length typed)) 256); [|lia].
  f_equal. unfold wr, window_buffer.
  destruct (Z.ltb_spec (Z.of_nat (length typed)) 0); [lia|].
  rewrite Nat2Z.id. change (Z.to_nat LINE_MAX) with 256%nat.
  rewrite insert_app_r_alt by (rewrite length_map; lia).
  rewrite length_map, Nat.sub_diag.
  replace (256 - length typed)%nat with (S (256 - (length typed + 1)))%nat by lia.
  reflexivity.
Qed.

(** One ordinary key is stored and the loop goes on. *)
Lemma window_loop_key (car : Z) (keys typed : list Z) :
  ordinary_key car ->
  (length typed < 256)%nat ->
  subsearch_window_loop (car :: keys) (window_buffer typed)
    (Z.of_nat (length typed))
  = subsearch_window_loop keys (window_buffer (typed ++ [car]))
      (Z.of_nat (length (typed ++ [car]))).
Proof.
  intros (Hnl & Hbs & Hdel & Hesc) Hlen. cbn [subsearch_window_loop].
  change LINE_MAX with 256.
  destruct (Z.eqb_spec car KEY_NEWLINE); [contradiction|].
  destruct (Z.ltb_spec (Z.of_nat (length typed)) 256); [|lia].
  destruct (Z.eqb_spec car KEY_BACKSPACE); [contradiction|].
  destruct (Z.eqb_spec car KEY_DELETE); [contradiction|].
  destruct (Z.eqb_spec car KEY_ESCAPE); [contradiction|].
  cbn [negb andb orb]. rewrite window_store by assumption.
  rewrite length_app. cbn [length]. do 2 f_equal. lia.
Qed.

(** Ordinary keys are stored one after the other, as long as the buffer
    has room. *)
Lemma window_loop_ordinary (ks : list Z) :
  forall typed rest,
    Forall ordinary_key ks ->
    (length typed + length ks <= 256)%nat ->
    subsearch_window_loop (ks ++ rest) (window_buffer typed)
      (Z.of_nat (length typed))
    = subsearch_window_loop rest (window_buffer (typed ++ ks))
        (Z.of_nat (length (typed ++ ks))).
Proof.
  induction ks as [|car ks IH]; intros typed rest Hks Hlen.
  - now rewrite app_nil_r.
  - inversion Hks as [|? ? Hcar Hks']; subst. cbn [length] in Hlen.
    rewrite <- app_comm_cons, window_loop_key by (assumption || lia).
    rewrite IH by (rewrite ?length_app; cbn [length]; assumption || lia).
    now rewrite <- app_assoc.
Qed.

Lemma subsearch_window_ordinary (ks rest : list Z) :
  Forall ordinary_key ks ->
  (length ks <= 256)%nat ->
  subsearch_window (ks ++ rest)
  = subsearch_window_loop rest (window_buffer ks) (Z.of_nat (length ks)).
Proof.
  intros Hks Hlen. unfold subsearch_window.
  apply (window_loop_ordinary ks [] rest Hks). simpl. lia.
Qed.

(** Up to 255 ordinary keys and then Enter: the buffer holds the keys,
    as [char]s, and is zero after them. *)
Theorem subsearch_window_typed (ks more : list Z) :
  Forall ordinary_key ks ->
  (length ks < 256)%nat ->
  subsearch_window (ks ++ KEY_NEWLINE :: more) = Typed (window_buffer ks).
Proof.
  intros Hks Hlen. rewrite subsearch_window_ordinary by (assumption || lia).
  cbn [subsearch_window_loop]. rewrite Z.eqb_refl. cbn [negb andb].
  now apply window_terminated.
Qed.

Lemma subsearch_window_typed_witness :
  subsearch_window (chars "world" ++ KEY_NEWLINE :: [])
  = Typed (window_buffer (chars "world")).
Proof.
  apply (subsearch_window_typed (chars "world") []).
  - repeat constructor; discriminate.
  - simpl. lia.
Defined.

(** After 256 ordinary keys the buffer is full: the next key, whichever
    it is, ends the loop, and the terminator is written at [search[256]],
    one byte past the buffer that [subsearch] allocated. *)
Theorem subsearch_window_overflow (ks : list Z) (car : Z) (more : list Z) :
  Forall ordinary_key ks ->
  length ks = 256%nat ->
  subsearch_window (ks ++ car :: more) = Overflow.
Proof.
  intros Hks Hlen. rewrite subsearch_window_ordinary by (assumption || lia).
  cbn [subsearch_window_loop]. rewrite Hlen. change LINE_MAX with 256.
  change (Z.of_nat 256 <? 256) with false. rewrite andb_false_r.
  reflexivity.
Qed.

Lemma subsearch_window_overflow_witness :
  subsearch_window (replicate 256 97 ++ KEY_NEWLINE :: []) = Overflow.
Proof.
  apply (subsearch_window_overflow (replicate 256 97) KEY_NEWLINE []).
  - apply Forall_replicate. repeat split; discriminate.
  - apply length_replicate.
Defined.

(** Backspace (or Delete) takes back the key typed before it: the window
    ends as if neither had been pressed.  At the 256th key this is no
    longer so: the buffer is full, and the key ends the loop. *)
Theorem subsearch_window_backspace (ks : list Z) (car del : Z) (rest : list Z) :
  Forall ordinary_key ks ->
  ordinary_key car ->
  del = KEY_BACKSPACE \/ del = KEY_DELETE ->
  (length ks < 255)%nat ->
  subsearch_window (ks ++ car :: del :: rest) = subsearch_window (ks ++ rest).
Proof.
  intros Hks Hcar Hdel Hlen.
  rewrite !subsearch_window_ordinary by (assumption || lia).
  rewrite window_loop_key by (assumption || lia).
  cbn [subsearch_window_loop]. rewrite length_app. cbn [length].
  change LINE_MAX with 256.
  assert (Hd : negb (del =? KEY_NEWLINE) = true
               /\ (del =? KEY_BACKSPACE) || (del =? KEY_DELETE) = true)
    by (destruct Hdel as [-> | ->]; split; reflexivity).
  destruct Hd as [-> ->].
  destruct (Z.ltb_spec (Z.of_nat (length ks + 1)) 256); [|lia].
  destruct (Z.gtb_spec (Z.of_nat (length ks + 1)) 0); [|lia].
  cbn [andb].
  replace (Z.of_nat (length ks + 1) - 1) with (Z.of_nat (length ks)) by lia.
  rewrite window_erase by lia. reflexivity.
Qed.

Lemma subsearch_window_backspace_witness :
  subsearch_window (chars "wor" ++ 107 :: KEY_BACKSPACE :: chars "ld" ++ [KEY_NEWLINE])
  = subsearch_window (chars "wor" ++ chars "ld" ++ [KEY_NEWLINE]).
Proof.
  apply (subsearch_window_backspace (chars "wor") 107 KEY_BACKSPACE
           (chars "ld" ++ [KEY_NEWLINE])).
  - repeat constructor; discriminate.
  - repeat split; discriminate.
  - now left.
  - simpl. lia.
Defined.

(** Escape clears whatever was typed, and so does Enter with nothing
    typed: the buffer comes back empty, [subsearch] returns NULL, and the
    main loop goes on in the state it was in. *)
Theorem subsearch_window_cancel `{RL : RegexLib} (LINES : Z) (ks more : list Z)
    (st : state) (cur : search) :
  Forall ordinary_key ks ->
  (length ks < 256)%nat ->
  heap st !! current st = Some cur ->
  exists search,
    subsearch_window (ks ++ KEY_ESCAPE :: more) = Typed search
    /\ subsearch_window (KEY_NEWLINE :: more) = Typed search
    /\ main_switch LINES (KEY_SLASH search) st = Some (Running st).
Proof.
  intros Hks Hlen Hcur. exists (replicate 256 0). split; [|split].
  - rewrite subsearch_window_ordinary by (assumption || lia).
    cbn [subsearch_window_loop]. change LINE_MAX with 256.
    destruct (Z.ltb_spec (Z.of_nat (length ks)) 256); [|lia].
    cbn [negb andb orb Z.eqb KEY_ESCAPE KEY_NEWLINE KEY_BACKSPACE KEY_DELETE
         Pos.eqb].
    change (replicate (Z.to_nat 256) 0) with (window_buffer []).
    unfold window_end. change LINE_MAX with 256.
    destruct (Z.ltb_spec (Z.of_nat (length ks)) 256); [|lia].
    f_equal. unfold wr.
    destruct (Z.ltb_spec (Z.of_nat (length ks)) 0); [lia|].
    apply list_eq. intros i. unfold window_buffer. cbn [map length app].
    change (Z.to_nat LINE_MAX - 0)%nat with 256%nat.
    destruct (decide (i = Z.to_nat (Z.of_nat (length ks)))) as [->|Hi].
    + rewrite list_lookup_insert_eq by (rewrite length_replicate; lia).
      symmetry. apply lookup_replicate_2. lia.
    + now rewrite list_lookup_insert_ne by congruence.
  - change (KEY_NEWLINE :: more) with ([] ++ KEY_NEWLINE :: more).
    rewrite (subsearch_window_ordinary [] (KEY_NEWLINE :: more)
               (List.Forall_nil _)) by (simpl; lia).
    cbn [subsearch_window_loop]. rewrite Z.eqb_refl. cbn [negb andb].
    apply (window_terminated []). simpl. lia.
  - unfold main_switch. rewrite Hcur. reflexivity.
Qed.

Lemma subsearch_window_cancel_witness :
  exists search,
    subsearch_window (chars "wor" ++ KEY_ESCAPE :: []) = Typed search
    /\ subsearch_window (KEY_NEWLINE :: []) = Typed search
    /\ main_switch (RL := literal_regex) 24 (KEY_SLASH search)
         {| heap := {[ mainsearch_key := search_hello ]}; current := mainsearch_key |}
       = Some (Running {| heap := {[ mainsearch_key := search_hello ]};
                          current := mainsearch_key |}).
Proof.
  apply (subsearch_window_cancel (RL := literal_regex) 24 (chars "wor") []
           {| heap := {[ mainsearch_key := search_hello ]}; current := mainsearch_key |}
           search_hello).
  - repeat constructor; discriminate.
  - simpl. lia.
  - reflexivity.
Defined.


(** ** The files that are searched *)

Lemma cstr_hd (a : list Z) :
  cstr a = if hd 0 a =? 0 then [] else hd 0 a :: cstr (tl a).
Proof. destruct a as [|x a]; reflexivity. Qed.

(** [strncmp] compares the first [n] bytes of the two strings. *)
Lemma strncmp_eq_spec (n : nat) :
  forall a b,
    strncmp_eq n a b = true <-> take n (cstr a) = take n (cstr b).
Proof.
  induction n as [|n IH]; intros a b; [now rewrite !take_0|].
  cbn [strncmp_eq]. rewrite (cstr_hd a), (cstr_hd b).
  destruct (Z.eqb_spec (hd 0 a) (hd 0 b)) as [Heq|Hne].
  - rewrite <- Heq. destruct (Z.eqb_spec (hd 0 a) 0) as [H0|H0]; [easy|].
    cbn [orb take]. rewrite IH. split; [now intros -> | now intros [= ->]].
  - split; [discriminate|].
    destruct (Z.eqb_spec (hd 0 a) 0) as [Ha|Ha],
             (Z.eqb_spec (hd 0 b) 0) as [Hb|Hb]; cbn [take];
      try discriminate; [congruence|].
    intros [= H _]. contradiction.
Qed.

(** [strcmp] compares the two strings. *)
Lemma strcmp_eq_spec (a b : list Z) :
  strcmp_eq a b = true <-> cstr a = cstr b.
Proof.
  unfold strcmp_eq. rewrite strncmp_eq_spec.
  pose proof (cstr_length a) as Ha.
  rewrite (take_ge (cstr a)) by lia. split.
  - intros H. rewrite H. apply take_ge.
    assert (Hl : length (take (S (length a)) (cstr b)) = length (cstr a))
      by now rewrite <- H.
    rewrite length_take in Hl. lia.
  - intros <-. symmetry. apply take_ge. lia.
Qed.

(** A pointer into a string denotes the rest of the string. *)
Lemma cstr_drop (buf : list Z) :
  forall n, (n <= length (cstr buf))%nat ->
    cstr (drop n buf) = drop n (cstr buf).
Proof.
  induction buf as [|x buf IH]; intros n Hn.
  - rewrite drop_nil. simpl. now rewrite drop_nil.
  - destruct n as [|n]; [reflexivity|].
    cbn [cstr] in Hn |- *. destruct (Z.eqb_spec x 0); [simpl in Hn; lia|].
    cbn [drop]. apply IH. simpl in Hn. lia.
Qed.

(** The comparison of [lookup_file]: the extension ends the name. *)
Lemma ends_with (ext file : list Z) :
  strlen ext <= strlen file ->
  strcmp_eq ext (ptr_add file (strlen file - strlen ext)) = true
  <-> exists k, cstr file = k ++ cstr ext.
Proof.
  unfold strlen, ptr_add. intros Hlen. rewrite strcmp_eq_spec.
  rewrite cstr_drop by lia.
  replace (Z.to_nat (Z.of_nat (length (cstr file)) - Z.of_nat (length (cstr ext))))
    with (length (cstr file) - length (cstr ext))%nat by lia.
  split.
  - intros H. exists (take (length (cstr file) - length (cstr ext)) (cstr file)).
    rewrite H at 2. symmetry. apply take_drop.
  - intros [k Hk]. rewrite Hk, length_app.
    replace (length k + length (cstr ext) - length (cstr ext))%nat
      with (length k) by lia.
    now rewrite drop_app_length.
Qed.

Lemma strrchr_from_none (c : Z) (rest : list Z) :
  forall pos last,
    Forall (fun x => x <> c) (cstr rest) ->
    strrchr_from rest pos c last = last.
Proof.
  induction rest as [|x rest IH]; intros pos last H; [reflexivity|].
  cbn [strrchr_from cstr] in *. destruct (Z.eqb_spec x 0); [reflexivity|].
  inversion H as [|? ? Hx Hrest]; subst.
  destruct (Z.eqb_spec x c); [contradiction|]. now apply IH.
Qed.

Lemma strrchr_from_last (c : Z) (rest : list Z) :
  forall pos last d base,
    cstr rest = d ++ c :: base ->
    Forall (fun x => x <> c) base ->
    strrchr_from rest pos c last = Some (pos + Z.of_nat (length d)).
Proof.
  induction rest as [|x rest IH]; intros pos last d base Hsplit Hbase.
  - destruct d; discriminate.
  - cbn [strrchr_from cstr] in *. destruct (Z.eqb_spec x 0).
    { destruct d; discriminate. }
    destruct d as [|y d].
    + injection Hsplit as -> Hrest. rewrite Z.eqb_refl.
      rewrite strrchr_from_none by now rewrite Hrest.
      f_equal. simpl. lia.
    + injection Hsplit as -> Hrest.
      rewrite (IH _ _ d base Hrest Hbase). f_equal. simpl. lia.
Qed.

(** [name_begins] is the name without its directories. *)
Lemma name_begins_base (name dir base : list Z) :
  cstr name = dir ++ base ->
  dir = [] \/ (exists d, dir = d ++ [SLASH]) ->
  Forall (fun c => c <> SLASH) base ->
  cstr (name_begins name) = base.
Proof.
  intros Hsplit Hdir Hbase. unfold name_begins, strrchr.
  destruct Hdir as [->|[d ->]].
  - rewrite strrchr_from_none by now rewrite Hsplit. exact Hsplit.
  - rewrite <- app_assoc in Hsplit. cbn [app] in Hsplit.
    rewrite (strrchr_from_last SLASH name 0 None d base Hsplit Hbase).
    unfold ptr_add. rewrite cstr_drop
      by (rewrite Hsplit, length_app; simpl; lia).
    rewrite Hsplit.
    replace (Z.to_nat (0 + Z.of_nat (length d) + 1)) with (length d + 1)%nat by lia.
    rewrite <- drop_drop, drop_app_length. reflexivity.
Qed.

Lemma is_specific_file_spec (specs : list (list Z)) (name base : list Z) :
  cstr (name_begins name) = base ->
  is_specific_file specs name = true
  <-> exists spec, In spec specs /\ take 256 base = take 256 (cstr spec).
Proof.
  intros Hbase. induction specs as [|spec specs IH]; cbn [is_specific_file].
  - split; [discriminate | now intros (? & [] & _)].
  - destruct (strncmp_eq (Z.to_nat LINE_MAX) (name_begins name) spec) eqn:Hcmp.
    + split; [intros _ | reflexivity]. exists spec. split; [now left|].
      apply strncmp_eq_spec in Hcmp. rewrite Hbase in Hcmp. exact Hcmp.
    + rewrite IH. split.
      * intros (s & Hin & Hs). exists s. split; [now right | assumption].
      * intros (s & [<-|Hin] & Hs); [|exists s; split; assumption].
        exfalso. apply not_true_iff_false in Hcmp. apply Hcmp.
        apply strncmp_eq_spec. rewrite Hbase. exact Hs.
Qed.

Lemma lookup_file_loop_spec (exts : list (list Z)) (file : list Z) :
  Forall (fun ext => strlen ext < Z.of_nat (length ext)
                     /\ strlen ext <= strlen file) exts ->
  exists parsed,
    lookup_file_loop exts file = Some parsed
    /\ (parsed = true
        <-> exists ext k, In ext exts /\ cstr file = k ++ cstr ext).
Proof.
  induction exts as [|ext exts IH]; intros Hexts; cbn [lookup_file_loop].
  - exists false. split; [reflexivity|].
    split; [discriminate | now intros (? & ? & [] & _)].
  - inversion Hexts as [|? ? [Hterm Hlen] Hrest]; subst.
    destruct (Z.eqb_spec (strlen ext) (Z.of_nat (length ext))); [lia|].
    destruct (Z.ltb_spec (strlen file - strlen ext) 0); [lia|].
    destruct (strcmp_eq ext (ptr_add file (strlen file - strlen ext))) eqn:Hcmp.
    + exists true. split; [reflexivity|]. split; [intros _ | reflexivity].
      apply ends_with in Hcmp as [k Hk]; [|assumption].
      exists ext, k. split; [now left | assumption].
    + destruct (IH Hrest) as (parsed & Hrun & Hiff). exists parsed.
      split; [assumption|]. rewrite Hiff. split.
      * intros (e & k & Hin & Hk). exists e, k. split; [now right | assumption].
      * intros (e & k & [<-|Hin] & Hk); [|exists e, k; split; assumption].
        exfalso. apply not_true_iff_false in Hcmp. apply Hcmp.
        apply ends_with; [assumption | now exists k].
Qed.

(** Which files [lookup_file] hands to [parse_file].  With extensions
    that are terminated in their array and no longer than the path, the
    file is parsed exactly when the search is raw, when the name without
    its directories is one of the specific files (compared on 256 bytes),
    or when the path ends with one of the extensions. *)
Theorem lookup_file_selects (a : attr) (file dir base : list Z) :
  cstr file = dir ++ base ->
  dir = [] \/ (exists d, dir = d ++ [SLASH]) ->
  Forall (fun c => c <> SLASH) base ->
  Forall (fun ext => strlen ext < Z.of_nat (length ext)
                     /\ strlen ext <= strlen file) (a_firstext a) ->
  exists parsed,
    lookup_file a file = Some parsed
    /\ (parsed = true
        <-> a_raw a = true
            \/ (exists spec, In spec (a_firstspec a)
                             /\ take 256 base = take 256 (cstr spec))
            \/ (exists ext k, In ext (a_firstext a)
                              /\ cstr file = k ++ cstr ext)).
Proof.
  intros Hsplit Hdir Hbase Hexts. unfold lookup_file.
  destruct (a_raw a); [exists true; split; [reflexivity | tauto]|].
  pose proof (is_specific_file_spec (a_firstspec a) file base
                (name_begins_base file dir base Hsplit Hdir Hbase)) as Hspec.
  destruct (is_specific_file (a_firstspec a) file).
  - exists true. split; [reflexivity|]. split; [intros _ | reflexivity].
    right. left. now apply Hspec.
  - destruct (lookup_file_loop_spec (a_firstext a) file Hexts)
      as (parsed & Hrun & Hiff).
    exists parsed. split; [assumption|]. rewrite Hiff. split; [tauto|].
    intros [Hraw|[Hs|He]]; [discriminate | | assumption].
    apply Hspec in Hs. discriminate.
Qed.

Lemma lookup_file_selects_witness :
  exists parsed,
    lookup_file
      {| a_raw := false; a_follow_symlinks := false; a_has_excludes := false;
         a_is_insensitive := false;
         a_firstspec := [strncpy (chars "Makefile") LINE_MAX];
         a_firstext := [strncpy (chars ".c") LINE_MAX;
                        strncpy (chars ".h") LINE_MAX];
         a_firstexcl := []; a_is_regex := false |}
      (chars "./src/ngp.h") = Some parsed
    /\ (parsed = true
        <-> false = true
            \/ (exists spec, In spec [strncpy (chars "Makefile") LINE_MAX]
                             /\ take 256 (chars "ngp.h") = take 256 (cstr spec))
            \/ (exists ext k, In ext [strncpy (chars ".c") LINE_MAX;
                                      strncpy (chars ".h") LINE_MAX]
                              /\ cstr (chars "./src/ngp.h") = k ++ cstr ext)).
Proof.
  apply (lookup_file_selects
           {| a_raw := false; a_follow_symlinks := false; a_has_excludes := false;
              a_is_insensitive := false;
              a_firstspec := [strncpy (chars "Makefile") LINE_MAX];
              a_firstext := [strncpy (chars ".c") LINE_MAX;
                             strncpy (chars ".h") LINE_MAX];
              a_firstexcl := []; a_is_regex := false |}
           (chars "./src/ngp.h") (chars "./src/") (chars "ngp.h")).
  - reflexivity.
  - right. exists (chars "./src"). reflexivity.
  - repeat constructor; discriminate.
  - repeat constructor; vm_compute; congruence.
Defined.

(** ** The options *)

Lemma get_args_app (before after : list opt_t) (a a1 : attr) :
  get_args before a = inl a1 ->
  get_args (before ++ after) a = get_args after a1.
Proof.
  revert a. induction before as [|opt before IH]; intros a H.
  - now injection H as ->.
  - cbn [get_args app] in *. destruct (get_args_switch opt a); [|discriminate].
    now apply IH.
Qed.

(** The options that follow the last [-o] add their extensions, and
    leave the specific files as they are. *)
Lemma get_args_keeps (after : list opt_t) :
  forall a, forallb keeps_lists after = true ->
    exists a',
      get_args after a = inl a'
      /\ a_firstext a'
         = a_firstext a
           ++ map (fun e => strncpy e LINE_MAX) (added_extensions after)
      /\ a_firstspec a' = a_firstspec a.
Proof.
  induction after as [|opt after IH]; intros a Hkeep.
  - exists a. split; [reflexivity|]. split; [|reflexivity].
    simpl. now rewrite app_nil_r.
  - cbn [forallb] in Hkeep. apply andb_true_iff in Hkeep as [Hopt Hkeep].
    destruct opt; try discriminate; cbn [get_args get_args_switch];
      match goal with
      | |- context [get_args after ?a1] =>
          destruct (IH a1 Hkeep) as (a' & Hrun & Hext & Hspec)
      end;
      exists a'; (split; [exact Hrun|]); rewrite Hext, Hspec;
      cbn [a_firstext a_firstspec add_extension added_extensions map];
      rewrite <- ?app_assoc; split; reflexivity.
Qed.

(** [-o] starts the lists afresh: whatever the configuration file and
    the options before it gave, after [-o ext] and further options other
    than [-o] the extensions are [ext] and those of the [-t] options that
    follow, each copied into its 256-byte node, and there is no specific
    file left. *)
Theorem get_args_only (before after : list opt_t) (optarg : list Z)
    (a a1 : attr) :
  get_args before a = inl a1 ->
  forallb keeps_lists after = true ->
  exists a',
    get_args (before ++ Opt_o optarg :: after) a = inl a'
    /\ a_firstext a'
       = map (fun e => strncpy e LINE_MAX) (optarg :: added_extensions after)
    /\ a_firstspec a' = [].
Proof.
  intros Hbefore Hafter.
  rewrite (get_args_app before _ a a1 Hbefore).
  cbn [get_args get_args_switch].
  match goal with
  | |- context [get_args after ?a2] =>
      destruct (get_args_keeps after a2 Hafter) as (a' & Hrun & Hext & Hspec)
  end.
  exists a'. split; [exact Hrun|]. rewrite Hext, Hspec. split; reflexivity.
Qed.

Lemma get_args_only_witness :
  exists a',
    get_args ([Opt_t (chars ".py"); Opt_i]
              ++ Opt_o (chars ".c") :: [Opt_r; Opt_t (chars ".h")])
      (attr_of_config
         {| c_editor_cmd := None;
            c_specific_files := [strncpy (chars "Makefile") LINE_MAX];
            c_extensions := [strncpy (chars ".cpp") LINE_MAX] |})
    = inl a'
    /\ a_firstext a'
       = map (fun e => strncpy e LINE_MAX)
           (chars ".c" :: added_extensions [Opt_r; Opt_t (chars ".h")])
    /\ a_firstspec a' = [].
Proof.
  eapply (get_args_only [Opt_t (chars ".py"); Opt_i]
            [Opt_r; Opt_t (chars ".h")] (chars ".c")).
  - reflexivity.
  - reflexivity.
Defined.

Lemma is_dir_exclude_spec (opts : list opt_t) :
  forall a a' d_ino,
    (a_firstexcl a <> [] -> a_has_excludes a = true) ->
    get_args opts a = inl a' ->
    is_dir_exclude a' d_ino = true
    <-> In d_ino (a_firstexcl a) \/ In (Opt_x d_ino) opts.
Proof.
  assert (Hbase : forall a d_ino,
             (a_firstexcl a <> [] -> a_has_excludes a = true) ->
             is_dir_exclude a d_ino = true <-> In d_ino (a_firstexcl a)).
  { intros a d_ino Hinv. unfold is_dir_exclude.
    destruct (a_firstexcl a) as [|x l] eqn:Hl.
    - destruct (a_has_excludes a); simpl; split; (discriminate || tauto).
    - rewrite Hinv by discriminate. rewrite existsb_exists. split.
      + intros (y & Hin & Hy). apply Z.eqb_eq in Hy. now subst.
      + intros Hin. exists d_ino. split; [assumption | apply Z.eqb_refl]. }
  induction opts as [|opt opts IH]; intros a a' d_ino Hinv Hrun.
  - injection Hrun as <-. rewrite Hbase by assumption. simpl. tauto.
  - cbn [get_args] in Hrun.
    destruct (get_args_switch opt a) as [a1|] eqn:Hopt; [|discriminate].
    assert (Hstep : (a_firstexcl a1 <> [] -> a_has_excludes a1 = true)
                    /\ forall d, In d (a_firstexcl a1)
                                 <-> In d (a_firstexcl a) \/ opt = Opt_x d).
    { destruct opt; cbn [get_args_switch] in Hopt; try discriminate;
        injection Hopt as <-; cbn [a_firstexcl a_has_excludes add_extension];
        try (split; [assumption | intros d; split; [tauto | intros [Hd | Hd]; [assumption | discriminate]]]).
      split.
      - destruct (a_firstexcl a); [reflexivity | intros _; apply Hinv; discriminate].
      - intros d. rewrite in_app_iff. simpl. split.
        + intros [Hd | [-> | []]]; [now left | now right].
        + intros [Hd | [= ->]]; [now left | right; now left]. }
    destruct Hstep as [Hinv1 Hin1].
    rewrite (IH a1 a' d_ino Hinv1 Hrun), Hin1. simpl. split.
    + intros [[Hd | ->] | Hd]; [now left | right; now left | right; now right].
    + intros [Hd | [<- | Hd]]; [left; now left | left; now right | now right].
Qed.

(** The directories [lookup_directory] leaves out are exactly those
    whose inode was found for a [-x] option: the flag [has_excludes] is
    set with the first of them, and no other option touches the list. *)
Theorem excluded_directories (opts : list opt_t) (c : config) (a' : attr)
    (d_ino : Z) :
  get_args opts (attr_of_config c) = inl a' ->
  is_dir_exclude a' d_ino = true <-> In (Opt_x d_ino) opts.
Proof.
  intros Hrun.
  rewrite (is_dir_exclude_spec opts (attr_of_config c) a' d_ino); [|easy|exact Hrun].
  simpl. tauto.
Qed.

Lemma excluded_directories_witness :
  is_dir_exclude
    {| a_raw := false; a_follow_symlinks := true; a_has_excludes := true;
       a_is_insensitive := false; a_firstspec := []; a_firstext := [];
       a_firstexcl := [42; 7]; a_is_regex := false |} 7 = true
  <-> In (Opt_x 7) [Opt_x 42; Opt_f; Opt_x 7].
Proof.
  apply (excluded_directories [Opt_x 42; Opt_f; Opt_x 7]
           {| c_editor_cmd := None; c_specific_files := []; c_extensions := [] |}).
  reflexivity.
Defined.


(** ** The two workers, in either order *)

(** The loop leaves the mapping before its starting point alone. *)
Lemma worker_loop_before parser fuel :
  forall mem p e line_count res w,
    worker_loop parser fuel mem p e line_count res = Some w ->
    0 <= p ->
    take (Z.to_nat p) (w_mem w) = take (Z.to_nat p) mem
    /\ length (w_mem w) = length mem.
Proof.
  induction fuel as [|fuel IH]; intros mem p e line_count res w Hrun Hp;
    [discriminate|].
  rewrite worker_loop_unfold in Hrun.
  destruct (p <? e); [|now injection Hrun as <-].
  destruct (strchr mem p NL) as [endline|] eqn:Hchr; [|now injection Hrun as <-].
  pose proof (strchr_in_buffer mem p NL endline Hp NL_not_NUL Hchr) as Hend.
  destruct (parser _ _) as [matched|]; [|discriminate].
  apply IH in Hrun as [Htake Hlen]; [|lia]. rewrite length_wr in Hlen.
  split; [|assumption].
  assert (H : take (Z.to_nat p) (take (Z.to_nat (endline + 1)) (w_mem w))
              = take (Z.to_nat p) (take (Z.to_nat (endline + 1)) (wr mem endline 0)))
    by now rewrite Htake.
  rewrite !take_take in H.
  replace (Z.to_nat p `min` Z.to_nat (endline + 1))%nat with (Z.to_nat p) in H by lia.
  rewrite H. unfold wr. destruct (Z.ltb_spec endline 0); [lia|].
  apply take_insert_ge. lia.
Qed.

(** What the loop reports depends on the mapping from its starting point
    on, and on nothing before. *)
Lemma worker_loop_frame parser fuel :
  forall mem1 mem2 p e line_count res,
    0 <= p ->
    drop (Z.to_nat p) mem1 = drop (Z.to_nat p) mem2 ->
    option_map (fun w => (w_res w, w_line_count w))
      (worker_loop parser fuel mem1 p e line_count res)
    = option_map (fun w => (w_res w, w_line_count w))
        (worker_loop parser fuel mem2 p e line_count res).
Proof.
  induction fuel as [|fuel IH]; intros mem1 mem2 p e line_count res Hp Hsame;
    [reflexivity|].
  rewrite !worker_loop_unfold. destruct (p <? e); [|reflexivity].
  assert (Hchr : strchr mem1 p NL = strchr mem2 p NL)
    by (unfold strchr, ptr_add; now rewrite Hsame).
  rewrite Hchr. destruct (strchr mem2 p NL) as [endline|] eqn:Hfound; [|reflexivity].
  pose proof (strchr_in_buffer mem2 p NL endline Hp NL_not_NUL Hfound) as Hend.
  assert (Hptr : ptr_add (wr mem1 endline 0) p = ptr_add (wr mem2 endline 0) p).
  { unfold ptr_add, wr. destruct (Z.ltb_spec endline 0); [lia|].
    rewrite !drop_insert_ge by lia. now rewrite Hsame. }
  rewrite Hptr. destruct (parser _ _) as [matched|]; [|reflexivity].
  apply IH; [lia|].
  unfold wr. destruct (Z.ltb_spec endline 0); [lia|].
  rewrite !drop_insert_lt by lia.
  replace (Z.to_nat (endline + 1))
    with (Z.to_nat p + (Z.to_nat (endline + 1) - Z.to_nat p))%nat by lia.
  rewrite <- !drop_drop. now rewrite Hsame.
Qed.

Section Order.
Variable byte_ok : Z -> Prop.
Variable parser : list Z -> Z -> option bool.
Variable matches : list Z -> bool.
Hypothesis zero_ok : byte_ok 0.
Hypothesis Hparser :
  forall line rest,
    Forall (fun c => c <> 0) line -> Forall (fun c => c <> NL) line ->
    Forall byte_ok (line ++ rest) ->
    parser (line ++ 0 :: rest) (Z.of_nat (length line)) = Some (matches line).

(** One turn of the loop on a line that starts at [p], whatever follows
    the line in the mapping. *)
Lemma worker_line (mem : list Z) (p : Z) (line rest : list Z) :
  0 <= p ->
  drop (Z.to_nat p) mem = line ++ NL :: rest ->
  Forall (fun c => c <> 0) line ->
  Forall (fun c => c <> NL) line ->
  Forall byte_ok mem ->
  strchr mem p NL = Some (p + Z.of_nat (length line))
  /\ parser (ptr_add (wr mem (p + Z.of_nat (length line)) 0) p)
       (p + Z.of_nat (length line) - p)
     = Some (matches line)
  /\ strncpy (ptr_add (wr mem (p + Z.of_nat (length line)) 0) p)
       (line_size (p + Z.of_nat (length line) - p))
     = (if Z.of_nat (length line) <=? 255 then line ++ [0] else take 256 line)
  /\ drop (Z.to_nat (p + Z.of_nat (length line) + 1))
       (wr mem (p + Z.of_nat (length line)) 0)
     = rest.
Proof.
  intros Hp Hsplit Hline0 Hline HPmem.
  assert (Hmem' : ptr_add (wr mem (p + Z.of_nat (length line)) 0) p
                  = line ++ 0 :: rest).
  { unfold ptr_add, wr.
    destruct (Z.ltb_spec (p + Z.of_nat (length line)) 0); [lia|].
    rewrite drop_insert_ge by lia. rewrite Hsplit.
    replace (Z.to_nat (p + Z.of_nat (length line)) - Z.to_nat p)%nat
      with (length line + 0)%nat by lia.
    now rewrite insert_app_r. }
  replace (p + Z.of_nat (length line) - p) with (Z.of_nat (length line)) by lia.
  split; [|split; [|split]].
  - unfold strchr, ptr_add. rewrite Hsplit. apply strchr_from_char.
    apply Forall_and. now split.
  - rewrite Hmem'. apply Hparser; [assumption..|].
    pose proof (Forall_drop _ (Z.to_nat p) _ HPmem) as Hd. rewrite Hsplit in Hd.
    apply Forall_app in Hd as [H1 H2]. inversion H2; subst.
    apply Forall_app. now split.
  - rewrite Hmem'. now apply stored_line.
  - unfold wr. destruct (Z.ltb_spec (p + Z.of_nat (length line)) 0); [lia|].
    rewrite drop_insert_lt by lia.
    replace (Z.to_nat (p + Z.of_nat (length line) + 1))
      with (Z.to_nat p + (length line + 1))%nat by lia.
    rewrite <- drop_drop, Hsplit, <- (drop_drop _ 1 (length line)), drop_app_length.
    reflexivity.
Qed.

(** The first worker reads the mapping up to the newline at [k]: two
    mappings that hold the same bytes there, without NUL, give the same
    results, and each keeps what it held after [k]. *)
Lemma first_worker_window (k : Z) fuel :
  forall W mem1 mem2 T1 T2 p line_count res,
    0 <= p -> p + Z.of_nat (length W) = k + 1 ->
    W = [] \/ (exists W0, W = W0 ++ [NL]) ->
    Forall (fun c => c <> 0) W ->
    drop (Z.to_nat p) mem1 = W ++ T1 ->
    drop (Z.to_nat p) mem2 = W ++ T2 ->
    Forall byte_ok mem1 -> Forall byte_ok mem2 ->
    (length W < fuel)%nat ->
    exists w1 w2,
      worker_loop parser fuel mem1 p k line_count res = Some w1
      /\ worker_loop parser fuel mem2 p k line_count res = Some w2
      /\ w_res w1 = w_res w2
      /\ w_line_count w1 = w_line_count w2
      /\ drop (Z.to_nat (k + 1)) (w_mem w1) = T1
      /\ drop (Z.to_nat (k + 1)) (w_mem w2) = T2.
Proof.
  induction fuel as [|fuel IH];
    intros W mem1 mem2 T1 T2 p line_count res Hp Hlen Hlast Hnonul H1 H2 HP1 HP2 Hfuel;
    [lia|].
  assert (Hend : forall mem T, drop (Z.to_nat p) mem = W ++ T ->
                               drop (Z.to_nat (k + 1)) mem = T).
  { intros mem T H.
    replace (Z.to_nat (k + 1)) with (Z.to_nat p + length W)%nat by lia.
    now rewrite <- drop_drop, H, drop_app_length. }
  rewrite !worker_loop_unfold.
  destruct (Z.ltb_spec p k) as [Hlt|Hge].
  2: { eexists; eexists. split; [reflexivity|]. split; [reflexivity|].
       cbn [w_res w_line_count w_mem]. repeat split; now apply Hend. }
  destruct Hlast as [->|[W0 HW0]]; [simpl in Hlen; lia|].
  destruct (strchr_from_line W 0 Hnonul)
    as [[_ Hno]|(line & W' & HW & Hline & _)].
  { exfalso. rewrite HW0 in Hno. apply Forall_app in Hno as [_ Hno].
    inversion Hno; subst. congruence. }
  assert (Hline0 : Forall (fun c => c <> 0) line)
    by (rewrite HW in Hnonul; now apply Forall_app in Hnonul as [? _]).
  assert (HW'0 : Forall (fun c => c <> 0) W').
  { rewrite HW in Hnonul. apply Forall_app in Hnonul as [_ H].
    now inversion H. }
  assert (HlenW : length W = (length line + 1 + length W')%nat)
    by (rewrite HW, length_app; simpl; lia).
  assert (Hlast' : W' = [] \/ (exists W0', W' = W0' ++ [NL])).
  { destruct W' as [|z W'0 _] using rev_ind; [now left | right].
    exists W'0. f_equal.
    assert (Heq : (line ++ NL :: W'0) ++ [z] = W0 ++ [NL])
      by (rewrite <- HW0, HW, <- app_assoc; reflexivity).
    apply app_inj_tail in Heq as [_ ->]. reflexivity. }
  rewrite HW, <- app_assoc in H1, H2. cbn [app] in H1, H2.
  destruct (worker_line mem1 p line (W' ++ T1) Hp H1 Hline0 Hline HP1)
    as (-> & -> & -> & Hnext1).
  destruct (worker_line mem2 p line (W' ++ T2) Hp H2 Hline0 Hline HP2)
    as (-> & -> & -> & Hnext2).
  destruct (IH W' (wr mem1 (p + Z.of_nat (length line)) 0)
              (wr mem2 (p + Z.of_nat (length line)) 0) T1 T2
              (p + Z.of_nat (length line) + 1) (int_wrap (line_count + 1))
              (if matches line
               then res ++ [ {| wr_line :=
                                  if Z.of_nat (length line) <=? 255
                                  then line ++ [0] else take 256 line;
                                wr_index := line_count |} ]
               else res))
    as (w1 & w2 & Hrun1 & Hrun2 & Hres & Hcount & Hkeep1 & Hkeep2);
    [lia | lia | assumption | assumption | assumption | assumption
     | now apply byte_ok_wr | now apply byte_ok_wr | lia |].
  exists w1, w2. repeat split; assumption.
Qed.

End Order.

(** The two workers share nothing but the mapping, and neither writes
    where the other reads: on a file without NUL byte, and for a matcher
    that judges the line it is given alone, running the second worker
    before the first gives the result of running the first before the
    second, the same entries and the same line numbers. *)
Theorem workers_in_either_order (byte_ok : Z -> Prop) parser matches
    (s : search) (midline : Z) (file m : list Z) :
  byte_ok 0 ->
  (forall line rest,
     Forall (fun c => c <> 0) line -> Forall (fun c => c <> NL) line ->
     Forall byte_ok (line ++ rest) ->
     parser (line ++ 0 :: rest) (Z.of_nat (length line)) = Some (matches line)) ->
  Forall (fun c => c <> 0 /\ byte_ok c) m ->
  exists r,
    scan_file parser s midline file m = Some r
    /\ scan_file_swapped parser s midline file m = Some r.
Proof.
  intros zero_ok Hparser Hbytes.
  destruct m as [|c0 m0] eqn:Hm0; [eexists; split; reflexivity|].
  rewrite <- Hm0 in *. assert (Hm : m <> []) by (rewrite Hm0; discriminate).
  clear Hm0 c0 m0.
  pose proof (file_no_nul byte_ok m Hbytes) as Hnonul.
  assert (HPm : Forall byte_ok m)
    by (eapply Forall_impl; [exact Hbytes|]; now intros c [_ Hc]).
  assert (Hhalf : 0 <= Z.of_nat (length m) / 2) by (apply Z.div_pos; lia).
  unfold scan_file, scan_file_swapped. rewrite parse_file_Some by assumption.
  unfold worker_thread, worker_start, worker_end.
  change (0 =? 0) with true. change (1 =? 0) with false.
  cbn [fp_start fp_mid fp_size set_midline].
  destruct (strchr m (Z.of_nat (length m) / 2) NL) as [k|] eqn:Hchr.
  - (* the file is cut after the newline at [k] *)
    pose proof (strchr_in_buffer m _ NL k Hhalf NL_not_NUL Hchr) as Hkin.
    apply strchr_Some in Hchr as (_ & Hk & _); [|assumption | exact NL_not_NUL].
    replace (k + 1 - 1) with k by lia.
    (* the second worker, first *)
    destruct (worker_loop_runs byte_ok parser matches m zero_ok Hbytes Hparser
                (S (length m)) m (k + 1)
                (0 + uint_wrap (Z.of_nat (length m))) 1 [])
      as (w1' & Hrun1' & Hlen1' & HP1' & _);
      [lia | reflexivity | reflexivity | assumption | lia |].
    rewrite Hrun1'.
    destruct (worker_loop_before _ _ _ _ _ _ _ _ Hrun1' ltac:(lia)) as [Hbefore _].
    (* the first worker, on the file and on what the second left *)
    assert (HW : take (Z.to_nat (k + 1)) m
                 = take (Z.to_nat k) m ++ [NL]).
    { replace (Z.to_nat (k + 1)) with (S (Z.to_nat k)) by lia.
      destruct (lookup_lt_is_Some_2 m (Z.to_nat k) ltac:(lia)) as [x Hx].
      rewrite (take_S_r _ _ _ Hx). do 2 f_equal.
      rewrite <- Hk, rd_nth by lia. symmetry. now apply nth_lookup_Some. }
    destruct (first_worker_window byte_ok parser matches zero_ok Hparser k (S (length m)) (take (Z.to_nat (k + 1)) m)
                m (w_mem w1') (drop (Z.to_nat (k + 1)) m)
                (drop (Z.to_nat (k + 1)) (w_mem w1')) 0 1 [])
      as (w0 & w0' & Hrun0 & Hrun0' & Hres0 & Hcount0 & Hkeep0 & _);
      [lia | rewrite length_take; lia | right; eauto | now apply Forall_take
       | now rewrite take_drop | now rewrite <- Hbefore, take_drop
       | assumption | assumption | rewrite length_take; lia |].
    rewrite Hrun0. rewrite Hlen1', Hrun0'.
    (* the second worker, on what the first left *)
    pose proof (worker_loop_before _ _ _ _ _ _ _ _ Hrun0 ltac:(lia)) as [_ Hlen0].
    rewrite Hlen0.
    pose proof (worker_loop_frame parser (S (length m)) (w_mem w0) m (k + 1)
                  (0 + uint_wrap (Z.of_nat (length m))) 1 [] ltac:(lia) Hkeep0)
      as Hframe.
    rewrite Hrun1' in Hframe.
    destruct (worker_loop parser (S (length m)) (w_mem w0) (k + 1)
                (0 + uint_wrap (Z.of_nat (length m))) 1 []) as [w1|];
      [|discriminate].
    injection Hframe as Hres1 _.
    rewrite Hres0, Hcount0, Hres1. eauto.
  - (* no newline from the middle on: the second worker finds nothing *)
    destruct (worker_loop_runs byte_ok parser matches m zero_ok Hbytes Hparser
                (S (length m)) m 0 (Z.of_nat (length m) - 1 - 1) 1 [])
      as (w0 & Hrun0 & Hlen0 & _);
      [lia | reflexivity | reflexivity | assumption | lia |].
    rewrite Hrun0.
    assert (Hnone : strchr m (Z.of_nat (length m) - 1) NL = None).
    { destruct (strchr m (Z.of_nat (length m) - 1) NL) as [e|] eqn:He;
        [|reflexivity].
      assert (0 < Z.of_nat (length m)) by (destruct m; [contradiction | simpl; lia]).
      apply strchr_Some in He as (Hle & Hec & _); [| lia | exact NL_not_NUL].
      assert (Hsome : exists e', strchr m (Z.of_nat (length m) / 2) NL = Some e').
      { destruct (strchr_reaches m NL e NL_not_NUL Hec
                    (Z.to_nat (e - Z.of_nat (length m) / 2))
                    (Z.of_nat (length m) / 2)) as (e' & He' & _).
        - assert (Z.of_nat (length m) / 2 < Z.of_nat (length m))
            by (apply Z.div_lt; lia).
          lia.
        - assumption.
        - intros j Hj. apply (Forall_rd (fun c => c <> 0)); [assumption|].
          destruct (Z.ltb_spec e (Z.of_nat (length m))); [lia|].
          rewrite rd_beyond in Hec by lia. discriminate.
        - now exists e'. }
      destruct Hsome as [e' He']. congruence. }
    assert (Hsecond : forall mem, length mem = length m ->
              strchr mem (Z.of_nat (length m) - 1) NL = None ->
              worker_loop parser (S (length mem)) mem (Z.of_nat (length m) - 1)
                (0 + uint_wrap (Z.of_nat (length m))) 1 []
              = Some {| w_mem := mem; w_res := []; w_line_count := 1;
                        w_p := Z.of_nat (length m) - 1 |}).
    { intros mem Hlen Hno. rewrite worker_loop_unfold, Hno.
      now destruct (_ <? _). }
    rewrite (Hsecond m eq_refl Hnone). cbn [w_mem w_res].
    rewrite Hrun0.
    rewrite (Hsecond (w_mem w0) Hlen0).
    + cbn [w_res]. eauto.
    + eapply worker_loop_keeps_None; [exact Hrun0 | | exact Hnone].
      assert (0 < Z.of_nat (length m)) by (destruct m; [contradiction | simpl; lia]).
      lia.
Qed.

Lemma workers_in_either_order_witness :
  exists r,
    scan_file (literal_parser (chars "hello")) init_searchstruct 0 (chars "a.c")
      file_hello = Some r
    /\ scan_file_swapped (literal_parser (chars "hello")) init_searchstruct 0
         (chars "a.c") file_hello = Some r.
Proof.
  apply (workers_in_either_order (fun c => -128 <= c <= 127)
           (literal_parser (chars "hello")) (occurs_b (chars "hello"))
           init_searchstruct 0 (chars "a.c") file_hello).
  - cbv beta. lia.
  - intros line rest Hline0 _ Hrange. apply literal_parser_line; try assumption.
    + discriminate.
    + cbv. repeat (constructor; [split; [reflexivity | discriminate]|]). constructor.
  - cbv. repeat (constructor; [split; [discriminate | split; discriminate]|]).
    constructor.
Defined.


(** ** The whole search *)

Lemma shown_saved_lines (res : list worker_result) :
  Forall (fun r => 1 <= wr_index r < 2 ^ 31) res ->
  map shown (saved_lines (fun i => i) res)
  = map (fun r => (wr_index r, cstr (wr_line r))) res.
Proof.
  unfold saved_lines. induction 1 as [|r res Hr _ IH]; [reflexivity|].
  cbn [map]. unfold shown at 1. cbn [e_line e_data].
  rewrite uint_wrap_small by lia. now rewrite IH.
Qed.

(** One round, added to the entries that are there. *)
Lemma scan_file_appends (byte_ok : Z -> Prop) parser matches (s : search)
    (midline : Z) (file m : list Z) :
  byte_ok 0 ->
  (forall line rest,
     Forall (fun c => c <> 0) line -> Forall (fun c => c <> NL) line ->
     Forall byte_ok (line ++ rest) ->
     parser (line ++ 0 :: rest) (Z.of_nat (length line)) = Some (matches line)) ->
  scannable byte_ok m ->
  exists s' midline',
    scan_file parser s midline file m = Some (s', midline')
    /\ map shown (s_entries s')
       = map shown (s_entries s) ++ file_group file (searched_scan matches m).
Proof.
  intros H0 Hparser [->|(Hbytes & Hsize & k & Hhalf & Hk & Hfirst & Hk1 & Hboundary)].
  { exists s, midline. split; [reflexivity|]. cbn. now rewrite app_nil_r. }
  rewrite <- reference_scan_searched.
  destruct (scan_file_runs byte_ok parser matches s midline file m k
              H0 Hbytes Hparser Hsize Hhalf Hk Hfirst Hk1 Hboundary)
    as (s' & midline' & Hscan).
  exists s', midline'. split; [exact Hscan|].
  pose proof (file_no_nul byte_ok m Hbytes) as Hnonul.
  assert (Hnonul' : forall j, 0 <= j < Z.of_nat (length m) -> rd m j <> 0)
    by (intros j Hj; now apply (Forall_rd (fun c => c <> 0))).
  assert (HPm : Forall byte_ok m)
    by (eapply Forall_impl; [exact Hbytes|]; now intros c [_ Hc]).
  destruct (split_scan_is_whole_scan parser _ _ _ _ _ _ k Hnonul' Hsize Hhalf Hk
              Hfirst Hk1 Hboundary Hscan) as (w & Hwhole & Hentries).
  pose proof (worker_loop_counts _ _ _ _ _ _ _ _ Hwhole ltac:(lia) ltac:(lia)
                ltac:(lia) ltac:(constructor)) as (_ & _ & Hroom & _ & Hres).
  assert (Hres' : Forall (fun r => 1 <= wr_index r < 2 ^ 31) (w_res w)).
  { eapply Forall_impl; [exact Hres|]. simpl. lia. }
  pose proof (worker_loop_reference_in byte_ok parser matches m H0 Hbytes Hparser
                _ _ _ _ _ _ Hwhole ltac:(lia) eq_refl eq_refl HPm ltac:(lia)
                ltac:(lia)) as Href.
  change (drop (Z.to_nat 0) m) with m in Href. cbn [map app] in Href.
  fold (file_lines m) in Href. fold (reference_scan matches m) in Href.
  rewrite Hentries, !map_app, shown_saved_lines, Href by assumption.
  f_equal. unfold file_group.
  destruct (w_res w), (reference_scan matches m); try discriminate; reflexivity.
Qed.

(** The search, over the files that reach [parse_file].  When every file
    is one the workers scan as a single pass would, and the matcher
    judges the line it is given alone, [lookup_thread] ends with the
    status cleared and a result list that holds, for each file in turn
    that has a matching line, the name of the file and then its matching
    lines among those a newline ends, in order, with their numbers in the
    file, each cut at 256 bytes; a file without such a line, or empty,
    leaves no trace.  This is so for every file when the last round is
    run to its end, and for every file but the last one when the status
    is cleared before the workers and [save_thread] have tested it: the
    last file is then lost. *)
Theorem lookup_thread_reference (byte_ok : Z -> Prop) parser matches
    (midline : Z) (files : list (list Z * list Z)) (last_round : bool) :
  byte_ok 0 ->
  (forall line rest,
     Forall (fun c => c <> 0) line -> Forall (fun c => c <> NL) line ->
     Forall byte_ok (line ++ rest) ->
     parser (line ++ 0 :: rest) (Z.of_nat (length line)) = Some (matches line)) ->
  Forall (fun fm => scannable byte_ok (snd fm)) files ->
  exists s',
    lookup_thread parser init_searchstruct midline files last_round = Some s'
    /\ s_status s' = false
    /\ map shown (s_entries s')
       = flat_map (fun fm => file_group (fst fm) (searched_scan matches (snd fm)))
           (if last_round then files else removelast files).
Proof.
  intros H0 Hparser Hfiles.
  assert (Hgen : forall s midline,
             exists s',
               lookup_thread parser s midline files last_round = Some s'
               /\ s_status s' = false
               /\ map shown (s_entries s')
                  = map shown (s_entries s)
                    ++ flat_map
                         (fun fm => file_group (fst fm)
                                      (searched_scan matches (snd fm)))
                         (if last_round then files else removelast files)).
  { induction Hfiles as [|[file m] files Hm Hfiles IH]; intros s ml.
    - exists (set_status s false). split; [reflexivity|]. split; [reflexivity|].
      destruct last_round; cbn; now rewrite app_nil_r.
    - destruct (scan_file_appends byte_ok parser matches s ml file m H0 Hparser Hm)
        as (s1 & ml1 & Hscan & Hshown).
      destruct files as [|fm' files].
      + cbn [lookup_thread]. destruct last_round.
        * rewrite Hscan. exists (set_status s1 false).
          split; [reflexivity|]. split; [reflexivity|].
          cbn [set_status s_entries flat_map fst snd].
          now rewrite Hshown, app_nil_r.
        * exists (set_status s false).
          split; [reflexivity|]. split; [reflexivity|].
          cbn. now rewrite app_nil_r.
      + destruct (IH s1 ml1) as (s' & Hrest & Hstatus & Hshown').
        exists s'. cbn [lookup_thread]. rewrite Hscan.
        split; [exact Hrest|]. split; [exact Hstatus|].
        rewrite Hshown', Hshown, <- app_assoc. f_equal.
        destruct last_round; reflexivity. }
  destruct (Hgen init_searchstruct midline) as (s' & Hrun & Hstatus & Hshown).
  exists s'. split; [exact Hrun|]. split; [exact Hstatus | exact Hshown].
Qed.

Lemma file_hello_scannable : scannable (fun c => -128 <= c <= 127) file_hello.
Proof.
  right. split; [|split].
  - cbv. repeat (constructor; [split; [discriminate | split; discriminate]|]).
    constructor.
  - vm_compute. reflexivity.
  - exists 23. split; [vm_compute; discriminate|]. split; [reflexivity|].
    split; [|split; [lia | vm_compute; discriminate]].
    intros j Hj. change (Z.of_nat (length file_hello) / 2) with 12 in Hj.
    assert (Hcases : j = 12 \/ j = 13 \/ j = 14 \/ j = 15 \/ j = 16 \/ j = 17
                     \/ j = 18 \/ j = 19 \/ j = 20 \/ j = 21 \/ j = 22) by lia.
    destruct Hcases as [->|[->|[->|[->|[->|[->|[->|[->|[->|[->| ->]]]]]]]]]];
      discriminate.
Qed.

Lemma file_hello_open_scannable :
  scannable (fun c => -128 <= c <= 127) file_hello_open.
Proof.
  right. split; [|split].
  - cbv. repeat (constructor; [split; [discriminate | split; discriminate]|]).
    constructor.
  - vm_compute. reflexivity.
  - exists 23. split; [vm_compute; discriminate|]. split; [reflexivity|].
    split; [|split; [lia | vm_compute; discriminate]].
    intros j Hj. change (Z.of_nat (length file_hello_open) / 2) with 14 in Hj.
    assert (Hcases : j = 14 \/ j = 15 \/ j = 16 \/ j = 17
                     \/ j = 18 \/ j = 19 \/ j = 20 \/ j = 21 \/ j = 22) by lia.
    destruct Hcases as [->|[->|[->|[->|[->|[->|[->|[->| ->]]]]]]]];
      discriminate.
Qed.

Lemma lookup_thread_reference_witness :
  exists s',
    lookup_thread (literal_parser (chars "hello")) init_searchstruct 0
      [(chars "a.c", file_hello_open); (chars "b.c", []); (chars "c.c", file_hello)]
      false
    = Some s'
    /\ s_status s' = false
    /\ map shown (s_entries s')
       = flat_map (fun fm => file_group (fst fm)
                               (searched_scan (occurs_b (chars "hello")) (snd fm)))
           (removelast
              [(chars "a.c", file_hello_open); (chars "b.c", []);
               (chars "c.c", file_hello)]).
Proof.
  apply (lookup_thread_reference (fun c => -128 <= c <= 127)
           (literal_parser (chars "hello")) (occurs_b (chars "hello")) 0
           [(chars "a.c", file_hello_open); (chars "b.c", []);
            (chars "c.c", file_hello)] false).
  - cbv beta. lia.
  - intros line rest Hline0 _ Hrange. apply literal_parser_line; try assumption.
    + discriminate.
    + cbv. repeat (constructor; [split; [reflexivity | discriminate]|]). constructor.
  - constructor; [exact file_hello_open_scannable|].
    constructor; [now left|].
    constructor; [exact file_hello_scannable | constructor].
Defined.

(** ** The name of the editor *)

(** When [$EDITOR] holds a path, [get_config] keeps the last [/] in the
    name it looks for: [strrchr] points at the slash and the pointer is
    used as it is.  A line of the configuration file that does not hold
    that slash and the name after it is not taken for the editor line,
    and leaves the editor command as it was. *)
Theorem editor_path_keeps_slash (env_editor dir base configline : list Z)
    (c c' : config) :
  cstr env_editor = dir ++ SLASH :: base ->
  Forall (fun x => x <> SLASH) base ->
  occurs_b (SLASH :: base) (cstr configline) = false ->
  get_config_line (editor_name (Some env_editor)) configline c = Some c' ->
  cstr (editor_name (Some env_editor)) = SLASH :: base
  /\ c_editor_cmd c' = c_editor_cmd c.
Proof.
  intros Hsplit Hbase Hocc Hrun.
  assert (Hname : cstr (editor_name (Some env_editor)) = SLASH :: base).
  { unfold editor_name, strrchr. change 47 with SLASH.
    rewrite (strrchr_from_last SLASH env_editor 0 None dir base Hsplit Hbase).
    unfold ptr_add. rewrite cstr_drop by (rewrite Hsplit, length_app; lia).
    rewrite Hsplit.
    replace (Z.to_nat (0 + Z.of_nat (length dir))) with (length dir) by lia.
    now rewrite drop_app_length. }
  split; [exact Hname|].
  assert (Hcontains : contains configline (editor_name (Some env_editor)) = false).
  { unfold contains, strstr. rewrite Hname.
    unfold occurs_b in Hocc.
    now destruct (find_sub (SLASH :: base) (cstr configline) 0). }
  unfold get_config_line in Hrun. rewrite Hcontains in Hrun.
  destruct (strchr configline 0 SEMICOLON); [|now injection Hrun as <-].
  destruct (contains configline (chars "files")).
  - destruct (quoted configline) as [[start buf]|]; [|discriminate].
    destruct (token_loop _ _ _ _) as [[specs buf']|]; [|discriminate].
    destruct (contains buf' (chars "extensions")).
    + destruct (quoted buf') as [[start' buf'']|]; [|discriminate].
      destruct (token_loop _ _ _ _) as [[exts ?]|]; [|discriminate].
      now injection Hrun as <-.
    + now injection Hrun as <-.
  - destruct (contains configline (chars "extensions")).
    + destruct (quoted configline) as [[start' buf'']|]; [|discriminate].
      destruct (token_loop _ _ _ _) as [[exts ?]|]; [|discriminate].
      now injection Hrun as <-.
    + now injection Hrun as <-.
Qed.

Lemma editor_path_keeps_slash_witness :
  cstr (editor_name (Some (chars "/usr/bin/vim"))) = SLASH :: chars "vim"
  /\ c_editor_cmd
       {| c_editor_cmd := None; c_specific_files := []; c_extensions := [] |}
     = c_editor_cmd
         {| c_editor_cmd := None; c_specific_files := []; c_extensions := [] |}.
Proof.
  apply (editor_path_keeps_slash (chars "/usr/bin/vim") (chars "/usr/bin")
           (chars "vim")
           (quoted_line (chars "vim = ") (chars "vim -c %d %s") [SEMICOLON; NL])
           {| c_editor_cmd := None; c_specific_files := []; c_extensions := [] |}
           {| c_editor_cmd := None; c_specific_files := []; c_extensions := [] |}).
  - reflexivity.
  - repeat constructor; discriminate.
  - vm_compute. reflexivity.
  - vm_compute. reflexivity.
Defined.
